(* ===== verification/_CoqProject ===== *)
-Q . S2P
Prelude.v
Clock.v
DmMgr.v
DeltaTimer.v
IpFrag.v
FragRun.v
UdpSend.v
NetlinkTable.v
RuleTable.v
RouteTable.v
Match.v
StateMachine.v
Neighbour.v
BufferPool.v
ChunkList.v
HashMap.v
Checksum.v
Steering.v
RingRx.v
RingAlloc.v
TcpBase.v
Tlt.v
Dctcp.v
TcpOpt.v
Pbuf.v
TcpRecv.v
Cc.v
TcpSend.v
TcpSendInv.v
TcpSendOut.v
TcpWrite.v
TcpRun.v
TcpConn.v
TcpState.v
TcpTimer.v
TcpClose.v
Gro.v
