(* ===== verification/Prelude.v ===== *)
(** * libvma-tlt: a verification library

    libvma runs TCP and UDP sockets in user space: it intercepts the socket
    calls of a process, keeps copies of the kernel's routing tables, moves
    packets through the queues of an RDMA adapter and has its own TCP engine,
    a descendant of lwIP.  This version of it adds TLT (one packet per round
    trip is marked important, so that the network does not drop it, and tells
    the sender what was lost) and DCTCP.  The library models the parts that
    carry the program's own logic and proves what makes them correct.

    ** Files

    The first file is the prelude: machine integers ([wrap], [u8] ... [u64],
    [s32]), byte order, the tactics and the lemmas on lists that the others
    share.  A file models one component, in a Module of its own; each opens with
    a comment that says which functions it holds.  Paths are below
    src/src/vma unless they say otherwise.

    Time, memory and dispatch:
    - Clock: [timespec] arithmetic (src/src/utils/clock.h).
    - DeltaTimer: the list of timers (event/delta_timer.cpp), a doubly linked
      list in an explicit heap.
    - DmMgr: the circular allocator of on-device memory (dev/dm_mgr.cpp).
    - BufferPool: the free list of packet buffers (dev/buffer_pool.cpp).
    - ChunkList, HashMap: the queue of containers and the hash table that the
      sockets and rings keep their buffers and flows in (util/chunk_list.h,
      util/hash_map.h, util/hash_map.inl).
    - RingAlloc: which ring a socket uses and when a thread moves to another
      (dev/ring_allocation_logic.cpp).
    - StateMachine: the table-driven state machine with re-entrant events
      (src/src/state_machine/sm.cpp).
    - Neighbour: how the hardware address of a peer is found and what happens to
      the packets that wait for it (proto/neighbour.cpp); it is a machine of
      StateMachine with the source's table and actions, and sends with UdpSend.

    Routing and reassembly:
    - NetlinkTable, RuleTable, RouteTable: the copies of the kernel's tables
      and their resolution (proto/netlink_socket_mgr.h, rule_table_mgr.cpp,
      route_table_mgr.cpp and the files around them).  A route is found through
      the rules: RouteTable requires RuleTable, both require NetlinkTable.
    - Match: the configuration file and which sockets use VMA (util/match.cpp,
      the actions of util/config_parser.y); netmasks are those of NetlinkTable.
    - Checksum: the checksums of sent and received packets (util/utils.cpp).
    - Steering: which sockets get the packets of a flow, and the rules the
      adapter is given for it (dev/rfs.cpp, dev/ring_slave.cpp).
    - RingRx: what a ring does with a received buffer (dev/ring_slave.cpp), on
      top of IpFrag, Checksum and Steering.
    - IpFrag: reassembly of IP fragments (proto/ip_frag.cpp) on buffers shared
      with the caller.
    - FragRun: reassembly of whole datagrams, whose fragments come in any order.
    - UdpSend: sending of datagrams, whole or in fragments, by a destination and
      by a neighbour (proto/dst_entry_udp.cpp, neighbour.cpp).
    - Gro: merging of received TCP segments (dev/rfs_uc_tcp_gro.cpp,
      dev/gro_mgr.cpp).

    The TCP engine (lwip/):
    - TcpBase: sequence numbers and header fields (tcp_impl.h).
    - TcpOpt: building and parsing of options (tcp_out.c, tcp_in.c).
    - Pbuf: chains of packet buffers (pbuf.c).
    - Tlt: the marks and the queue of unimportant ranges (tlt.c).
    - Dctcp: marking, echo and the average [Alpha] (dctcp.c).
    - Cc: the interface of congestion control (cc.c) as a class with its laws,
      and its algorithms (cc_lwip.c, cc_none.c, cc_cubic.c).
    - TcpRecv: received data, the out-of-order queue, the window and SACK
      (second half of [tcp_receive] in tcp_in.c).
    - TcpSend: [tcp_output] with TLT's forced retransmission, splitting,
      retransmission, and received acknowledgements (tcp_out.c, first half of
      [tcp_receive]); it composes Tlt, Dctcp, Cc and the receiver's variables of
      TcpRecv in one connection.  TcpSendInv and TcpSendOut hold the proofs that
      its operations keep the invariant of the queues.
    - TcpWrite: [tcp_write] (tcp_out.c).
    - TcpRun: writes, transmissions, acknowledgements and timeouts in any order
      as one step relation.
    - TcpConn: the connection (tcp.c, tcp_in.c, the rest of tcp_out.c): opening,
      listening, closing, aborting, the processing of a segment in every state
      and the timers, as computations in a state monad with the packets sent as
      output; the application's functions are parameters.  TcpState holds a
      small program logic for these computations and the theorems on received
      segments, TcpTimer those on the timers, TcpClose those on closing and a
      computed handshake.

    ** How the code is read

    A structure is a record, an enumeration an inductive type, a function a
    Definition or Fixpoint on the state it reads and writes.  An integer of [w]
    bits is a [Z], and the wrap-around of the C type is written out where the
    code can reach it.  Where several pointers lead to one object (timers,
    packet buffers, reassembly buffers, GRO chains) the objects live in a
    store; where an object is on one list only the list is a Rocq list, and the
    pointers that remain ([last_unsent], [last_unacked]) are identities that
    may dangle.  [None] (or [UB]) is an access the C standard does not define,
    [Timeout] or a [None] for lack of fuel a loop that goes on.  What the
    program asks of the outside (verbs, netlink, the clock, callbacks, whether
    an allocation succeeds) is an argument of the operation that asks.
    The configuration is that of lwip/opt.h: TLT, DCTCP, SACK and timestamps
    are compiled in, LWIP_TSO is 0 (tcp_in.c does not compile with TLT and TSO),
    assertions are empty.

    ** What is proved

    - The send queues (TcpRun, TcpWrite): in every reachable state each byte
      that was written and that the peer lacks is on one of the two queues, the
      counters are exact, acknowledgements are processed without error, a
      failed write changes nothing.  The steps carry the conditions under which
      this holds (no timestamps, no SACK blocks to report); where the code breaks
      them (forced retransmission with data waiting, SACK of the last segment, a
      split with options to send, a write behind a split segment) a theorem shows
      what happens.
    - The connection (TcpState, TcpTimer, TcpClose): segments that conform drive
      the state machine of RFC 793, and the departures are named; the FIN comes
      behind the last byte, unless there is no memory for it; the retransmission
      timer fires on time, and TIME_WAIT ends.  A handshake of two connections is
      computed for a range of configurations.  Other
      theorems show where the code departs from this: data freed unsent in
      LAST_ACK, SACK blocks of discarded data, a table of timeouts read out of
      bounds, timeouts that a 16-bit counter never reaches, a reset connection
      that stays in CLOSE_WAIT.
    - The receive queue (TcpRecv): what is handed up is the sender's byte
      stream, whatever order the segments arrive in.
    - TLT: never more than one important packet in flight; an acknowledgement
      removes exactly its bytes from the queue.  Theorems show that a TOS of the
      application, and more than 2 GB of data, break this.
    - DCTCP and congestion control: [Alpha] stays a fraction and follows the
      exponential average, every mark is echoed (and a retransmitted header echoes
      its mark again), windows stay 32-bit words, CUBIC's fixed-point root
      is within 3%.
    - Options: what the stack builds it parses back where the room announced is
      exactly what is written; malformed SACK options overrun the parser.
    - GRO and reassembly: buffers are neither lost nor delivered twice, a
      merged packet has the bytes of its parts, a fragment is refused exactly when
      a pool is empty or it does not fit, the descriptors are conserved.
    - Timers: the linked list refines a sorted list of deadlines; rounds end.
    - Tables: longest prefix within the tables the rules name, and the loop
      that resolves source addresses ends.
    - Receiving (Steering, RingRx): a flow has a rule with the adapter exactly
      while a socket is attached to it, also when flows share rules; a segment
      that is sent with its checksums filled in passes every check of the
      receiving ring and gets to its flow.  Sockets that attach at the same time,
      refused rules and flow tags of shared rules break this, as theorems show.
    - Configuration: the first rule that covers a socket's addresses decides, in
      the order of the file, and the decision for a whole program agrees with
      those for its sockets where it can; a theorem shows where it does not.
    - Checksums are those of RFC 1071 and a filled-in packet passes its check; for
      which contradicting lengths a datagram keeps the receiver in a loop.
    - Queues and hash tables: a queue of containers is a queue, the hash table a
      finite map; the end of an iteration reads behind the table.
    - Datagrams (UdpSend, FragRun): whatever the MTU and the buffers of the user,
      the packets sent carry the data, and arriving in any order they are put
      together again; a datagram that waited in the neighbour is sent as the same
      packets.  Above the length that UDP can carry the length field wraps.
    - Neighbours: for every sequence of operations and every answer of the kernel
      the machine comes to rest, the address is valid exactly in ST_READY, packets
      leave in order and to known addresses only.  Theorems show an entry that
      stays unresolved, requests that are never sent and timers that add up.
    - State machine: events posted by actions are processed in order, one at
      a time, and the table is expanded as its lines say.
    - Pools and allocators: disjoint memory (until a device copy fails), exact counters, hysteresis of ring
      migration, balanced cores, circle detection equal to its definition.

    ** Fuel and bounds

    The loop of [tcp_output] takes [2 * S n] iterations for [n] segments:
    every iteration sends a segment and at most one is split
    ([SendOut.output_loop_inv]).  The loop of [tcp_write] ends because every
    iteration makes the queue longer and the queue has a limit
    ([Write.write_loop_ends]).  TLT's list has 256 slots and its loops 1024
    steps.  CUBIC's rebasing divides a 64-bit word by 8 in at most 64 steps.
    The state machine, the timers and the reassembly have theorems that enough
    fuel gives the result; a neighbour handles at most [4 + 3 * r] events per call,
    where [r] is the number of retries configured.  Windows of sequence numbers are bounded by [2 ^ 30]
    (the largest window TCP can announce), so that comparisons modulo [2 ^ 32]
    are comparisons of positions.

    ** Not modelled

    The sockets and the interposition of libc (sock/, iomux/), queue pairs,
    completion queues and the sending half of the rings (dev/), device
    discovery and netlink I/O and the event thread talk to the kernel and to
    hardware and have little logic of their own.  Of the neighbours those on
    InfiniBand and the multicast ones are left out, of the destinations how they
    are resolved.  config_parser.c and config_scanner.c are generated.  Of the TCP engine the decoding of the IP and TCP headers at
    the start of [L3_level_tcp_input], the unused [tcp_zero_window_probe] and the
    registration of callbacks are left out; of the configuration its printing
    and its scanner. *)

From Stdlib Require Export ZArith Lia.
From stdpp Require Export base tactics list numbers gmap option.

Local Open Scope Z_scope.

(** ** Machine integers

    A [w]-bit unsigned integer is a [Z]; the wrap-around of the C++ types is
    written out by [wrap].  [s32] reads a 32-bit pattern as a two's-complement
    [int]. *)

Definition wrap (w x : Z) : Z := x mod 2 ^ w.
Arguments wrap : simpl never.

Abbreviation u8 := (wrap 8).
Abbreviation u16 := (wrap 16).
Abbreviation u32 := (wrap 32).
Abbreviation u64 := (wrap 64).

Definition s32 (x : Z) : Z :=
  if decide (u32 x < 2 ^ 31) then u32 x else u32 x - 2 ^ 32.

Definition s16 (x : Z) : Z :=
  if decide (u16 x < 2 ^ 15) then u16 x else u16 x - 2 ^ 16.

Definition s64 (x : Z) : Z :=
  if decide (u64 x < 2 ^ 63) then u64 x else u64 x - 2 ^ 64.

(** C's truth value of an integer. *)
Definition ctrue (x : Z) : bool := bool_decide (x ≠ 0).

Lemma ctrue_ne x : x <> 0 -> ctrue x = true.
Proof. apply bool_decide_true. Qed.
Lemma ctrue_eq x : x = 0 -> ctrue x = false.
Proof. intros ->. done. Qed.

(** The byte order conversions of a little-endian host. *)
Definition ntohs (x : Z) : Z :=
  Z.lor (Z.shiftl (Z.land x 255) 8) (Z.land (Z.shiftr x 8) 255).
Abbreviation htons := ntohs.

Definition ntohl (x : Z) : Z :=
  Z.lor (Z.shiftl (Z.land x 255) 24)
 (Z.lor (Z.shiftl (Z.land (Z.shiftr x 8) 255) 16)
 (Z.lor (Z.shiftl (Z.land (Z.shiftr x 16) 255) 8)
        (Z.land (Z.shiftr x 24) 255))).
Abbreviation htonl := ntohl.

Definition ntohll (x : Z) : Z :=
  Z.lor (Z.shiftl (ntohl (Z.land x (2 ^ 32 - 1))) 32) (ntohl (Z.shiftr x 32)).
Abbreviation htonll := ntohll.

Section wrap_lemmas.
Context (w : Z) (Hw : 0 <= w).

Lemma wrap_pow_pos : 0 < 2 ^ w.
Proof using Hw. apply Z.pow_pos_nonneg; lia. Qed.

Lemma wrap_range x : 0 <= wrap w x < 2 ^ w.
Proof using Hw. apply Z.mod_pos_bound, wrap_pow_pos. Qed.

Lemma wrap_small x : 0 <= x < 2 ^ w -> wrap w x = x.
Proof using. apply Z.mod_small. Qed.

Lemma wrap_wrap x : wrap w (wrap w x) = wrap w x.
Proof using Hw. apply wrap_small, wrap_range. Qed.

Lemma wrap_add_l x y : wrap w (wrap w x + y) = wrap w (x + y).
Proof using. unfold wrap. apply Zplus_mod_idemp_l. Qed.

Lemma wrap_add_r x y : wrap w (x + wrap w y) = wrap w (x + y).
Proof using. unfold wrap. apply Zplus_mod_idemp_r. Qed.

Lemma wrap_sub_l x y : wrap w (wrap w x - y) = wrap w (x - y).
Proof using. unfold wrap. apply Zminus_mod_idemp_l. Qed.

Lemma wrap_sub_r x y : wrap w (x - wrap w y) = wrap w (x - y).
Proof using. unfold wrap. apply Zminus_mod_idemp_r. Qed.
End wrap_lemmas.

Lemma s32_small x : 0 <= x < 2 ^ 31 -> s32 x = x.
Proof.
  intros H. unfold s32. rewrite (wrap_small 32 x) by lia.
  case_decide; lia.
Qed.

Lemma s16_small x : - 2 ^ 15 <= x < 2 ^ 15 -> s16 x = x.
Proof.
  intros H. unfold s16. destruct (decide (0 <= x)).
  - rewrite (wrap_small 16 x) by lia. case_decide; lia.
  - assert (u16 x = x + 2 ^ 16) as ->; [|case_decide; lia].
    unfold wrap. symmetry. apply (Z.mod_unique_pos _ _ (-1)); lia.
Qed.

Lemma s32_range x : - 2 ^ 31 <= s32 x < 2 ^ 31.
Proof.
  unfold s32. pose proof (wrap_range 32 ltac:(lia) x). case_decide; lia.
Qed.

(** Fields that do not overlap can be added instead of ORed. *)
Lemma lor_field a b k : 0 <= k -> 0 <= b < 2 ^ k -> Z.lor (Z.shiftl a k) b = a * 2 ^ k + b.
Proof.
  intros Hk Hb. pose proof (Z.add_lor_land (Z.shiftl a k) b) as E.
  assert (Z.land (Z.shiftl a k) b = 0) as E0.
  { rewrite <- (Z.mod_small b (2 ^ k)), <- Z.land_ones by lia. apply Z.bits_inj'. intros i Hi.
    rewrite Z.bits_0, !Z.land_spec, Z.shiftl_spec, Z.testbit_ones_nonneg by lia.
    case (Z.ltb_spec i k); intros; [|by rewrite !andb_false_r].
    by rewrite Z.testbit_neg_r by lia. }
  rewrite E0, Z.shiftl_mul_pow2 in E by lia. rewrite Z.shiftl_mul_pow2 by lia. lia.
Qed.

(** *** Bytes and bits of a 32-bit word: [ntohl] permutes the bits *)

Lemma byte_testbit x s t i : 0 <= s -> 0 <= t -> 0 <= i ->
  Z.testbit (Z.shiftl (Z.land (Z.shiftr x s) 255) t) i =
  bool_decide (t <= i < t + 8) && Z.testbit x (i - t + s).
Proof.
  intros Hs Ht Hi. rewrite Z.shiftl_spec by done.
  destruct (decide (i < t)).
  { rewrite Z.testbit_neg_r by lia. rewrite bool_decide_false by lia. done. }
  rewrite Z.land_spec, Z.shiftr_spec by lia. change 255 with (Z.ones 8).
  rewrite Z.testbit_ones_nonneg by lia. rewrite andb_comm. f_equal.
  case_bool_decide; case (Z.ltb_spec (i - t) 8); lia || done.
Qed.

Definition swap_bit (i : Z) : Z :=
  if decide (i < 8) then i + 24 else if decide (i < 16) then i + 8
  else if decide (i < 24) then i - 8 else i - 24.

Lemma ntohl_testbit x i : 0 <= i < 32 -> Z.testbit (ntohl x) i = Z.testbit x (swap_bit i).
Proof.
  intros Hi. unfold ntohl, swap_bit.
  rewrite !Z.lor_spec.
  replace (Z.land x 255) with (Z.land (Z.shiftr x 0) 255) by done.
  replace (Z.land (Z.shiftr x 24) 255) with (Z.shiftl (Z.land (Z.shiftr x 24) 255) 0) by apply Z.shiftl_0_r.
  rewrite !byte_testbit by lia.
  repeat case_decide;
   repeat (rewrite bool_decide_true by lia || rewrite bool_decide_false by lia); simpl;
   rewrite ?orb_false_r; f_equal; lia.
Qed.

Lemma ntohl_testbit_high x i : 32 <= i -> Z.testbit (ntohl x) i = false.
Proof.
  intros Hi. unfold ntohl.
  rewrite !Z.lor_spec.
  replace (Z.land x 255) with (Z.land (Z.shiftr x 0) 255) by done.
  replace (Z.land (Z.shiftr x 24) 255) with (Z.shiftl (Z.land (Z.shiftr x 24) 255) 0) by apply Z.shiftl_0_r.
  rewrite !byte_testbit by lia.
   by repeat (rewrite bool_decide_false by lia).
Qed.

Lemma swap_bit_range i : 0 <= i < 32 -> 0 <= swap_bit i < 32.
Proof. unfold swap_bit. repeat case_decide; lia. Qed.
Lemma swap_bit_invol i : 0 <= i < 32 -> swap_bit (swap_bit i) = i.
Proof. unfold swap_bit. repeat case_decide; lia. Qed.

Lemma u32_bits x : 0 <= x < 2 ^ 32 <-> forall i, 32 <= i -> Z.testbit x i = false.
Proof.
  split.
  - intros Hx i Hi. apply Z.bits_above_log2; [lia|].
    destruct (decide (x = 0)) as [->|]; [simpl; lia|]. apply Z.log2_lt_pow2; [lia|].
    apply Z.lt_le_trans with (2 ^ 32); [lia|]. apply Z.pow_le_mono_r; lia.
  - intros H. assert (x = Z.land x (Z.ones 32)) as ->.
    { apply Z.bits_inj'. intros i Hi. rewrite Z.land_spec, Z.testbit_ones_nonneg by lia.
      case (Z.ltb_spec i 32); intros; [by rewrite andb_true_r|]. rewrite H by lia. done. }
    rewrite Z.land_ones by lia. apply Z.mod_pos_bound. lia.
Qed.

Lemma ntohl_range x : 0 <= ntohl x < 2 ^ 32.
Proof. apply u32_bits. intros. by apply ntohl_testbit_high. Qed.

Lemma u32_ext x y : 0 <= x < 2 ^ 32 -> 0 <= y < 2 ^ 32 ->
  (forall i, 0 <= i < 32 -> Z.testbit x i = Z.testbit y i) -> x = y.
Proof.
  intros Hx Hy H. apply Z.bits_inj'. intros i Hi.
  destruct (decide (i < 32)); [apply H; lia|].
  by rewrite (proj1 (u32_bits x)), (proj1 (u32_bits y)) by lia.
Qed.

Lemma ntohl_invol x : 0 <= x < 2 ^ 32 -> ntohl (ntohl x) = x.
Proof.
  intros Hx. apply u32_ext; [apply ntohl_range|done|]. intros i Hi.
  rewrite !ntohl_testbit by auto using swap_bit_range. by rewrite swap_bit_invol.
Qed.

Lemma ntohl_inj x y : 0 <= x < 2 ^ 32 -> 0 <= y < 2 ^ 32 -> ntohl x = ntohl y -> x = y.
Proof. intros Hx Hy E. rewrite <- (ntohl_invol x), <- (ntohl_invol y), E; done. Qed.

Lemma ntohl_land x y : ntohl (Z.land x y) = Z.land (ntohl x) (ntohl y).
Proof.
  apply Z.bits_inj'. intros i Hi. rewrite Z.land_spec. destruct (decide (i < 32)).
  - rewrite !ntohl_testbit, Z.land_spec by lia. done.
  - by rewrite !ntohl_testbit_high by lia.
Qed.

Lemma ntohs_testbit x i : 0 <= i ->
  Z.testbit (ntohs x) i =
  if decide (i < 8) then Z.testbit x (i + 8)
  else if decide (i < 16) then Z.testbit x (i - 8) else false.
Proof.
  intros Hi. unfold ntohs. rewrite Z.lor_spec.
  replace (Z.land x 255) with (Z.land (Z.shiftr x 0) 255) by done.
  replace (Z.land (Z.shiftr x 8) 255) with (Z.shiftl (Z.land (Z.shiftr x 8) 255) 0) by apply Z.shiftl_0_r.
  rewrite !byte_testbit by lia.
  repeat case_decide;
   repeat (rewrite bool_decide_true by lia || rewrite bool_decide_false by lia); simpl;
   rewrite ?orb_false_r; try f_equal; lia || done.
Qed.

Lemma ntohs_invol x : 0 <= x < 2 ^ 16 -> ntohs (ntohs x) = x.
Proof.
  intros Hx. apply Z.bits_inj'. intros i Hi. rewrite ntohs_testbit by done.
  repeat case_decide; rewrite ?ntohs_testbit by lia; repeat case_decide; try lia; try (f_equal; lia).
  symmetry. apply Z.bits_above_log2; [lia|].
  destruct (decide (x = 0)) as [->|]; [simpl; lia|]. apply Z.log2_lt_pow2; [lia|].
  apply Z.lt_le_trans with (2 ^ 16); [lia|]. apply Z.pow_le_mono_r; lia.
Qed.

(** Two positions of a circular buffer less than one turn apart are
    different cells. *)
Lemma mod_window_ne n a x y :
  a <= x -> x < y -> y < a + n -> x mod n <> y mod n.
Proof.
  intros Hx Hxy Hy Heq.
  assert (0 < n) as Hn by lia.
  pose proof (Z.div_mod x n ltac:(lia)) as Ex.
  pose proof (Z.div_mod y n ltac:(lia)) as Ey.
  rewrite Heq in Ex.
  assert (y - x = n * (y / n - x / n)) as E by lia.
  assert (0 < y / n - x / n < 1) by nia. lia.
Qed.

(** ** Lists *)

Lemma filter_ext {A} (P Q : A -> Prop) `{!∀ x, Decision (P x), !∀ x, Decision (Q x)} (l : list A) :
  (forall x, x ∈ l -> P x <-> Q x) -> filter P l = filter Q l.
Proof.
  induction l as [|x l IH]; intros Hl; [done|]. rewrite !filter_cons.
  rewrite IH by (intros y ?; apply Hl; by right).
  assert (P x <-> Q x) by (apply Hl; left).
  repeat case_decide; tauto || done.
Qed.

Lemma filter_id {A} (P : A -> Prop) `{!∀ x, Decision (P x)} (l : list A) :
  (forall x, x ∈ l -> P x) -> filter P l = l.
Proof.
  induction l as [|x l IH]; intros Hl; [done|].
  rewrite filter_cons_True by (apply Hl; left). f_equal. apply IH.
  intros y ?. apply Hl. by right.
Qed.

(** ** Linked lists in a store

    [chain nxt h o l]: following the link [nxt] from the pointer [o] visits the
    cells [l] and then ends. *)

Section chain.
Context {K V : Type} `{Countable K} (nxt : V -> option K).

Fixpoint chain (h : gmap K V) (o : option K) (l : list K) : Prop :=
  match l with
  | [] => o = None
  | x :: l => o = Some x /\ exists b, h !! x = Some b /\ chain h (nxt b) l
  end.

Lemma chain_mono h h' o l :
  (forall x, x ∈ l -> h' !! x = h !! x) -> chain h o l -> chain h' o l.
Proof using.
  revert o. induction l as [|x l IH]; intros o Hx; simpl; [done|].
  intros (-> & b & Hb & Hl). split; [done|]. exists b. rewrite Hx by left.
  split; [done|]. apply IH; [|done]. intros y ?. apply Hx. by right.
Qed.

Lemma chain_size h o l : chain h o l -> NoDup l -> (length l <= size h)%nat.
Proof using.
  intros Hc Hn. rewrite <- (size_list_to_set (C := gset K)) by done.
  rewrite <- size_dom. apply subseteq_size. clear Hn. revert o Hc.
  induction l as [|x l IH]; intros o Hc; [set_solver|].
  destruct Hc as (_ & b & Hb & Hl). apply elem_of_dom_2 in Hb. apply IH in Hl. set_solver.
Qed.

Lemma chain_lookup h o l x : chain h o l -> x ∈ l -> is_Some (h !! x).
Proof using.
  revert o. induction l as [|y l IH]; intros o Hc Hx; [by apply elem_of_nil in Hx|].
  destruct Hc as (_ & b & Hb & Hl). apply elem_of_cons in Hx as [->|Hx]; eauto.
Qed.
End chain.

(** ** Automation *)

Create HintDb vma.
Create Rewrite HintDb wrap.
#[export] Hint Resolve wrap_small wrap_range : vma.
#[export] Hint Rewrite wrap_wrap wrap_add_l wrap_add_r wrap_sub_l wrap_sub_r
  using lia : wrap.

(** [wsimpl] removes the wrap-around of every value [lia] can bound. *)
Ltac wsimpl :=
  repeat match goal with
    | |- context [wrap ?w ?x] => rewrite (wrap_small w x) by lia
    | H : context [wrap ?w ?x] |- _ => rewrite (wrap_small w x) in H by lia
    end.

(** Case analysis on the conditionals of a translated function body. *)
Ltac case_cond :=
  match goal with
  | H : context [if decide ?P then _ else _] |- _ => destruct (decide P)
  | |- context [if decide ?P then _ else _] => destruct (decide P)
  | H : context [if ?b then _ else _] |- _ => destruct b eqn:?
  | |- context [if ?b then _ else _] => destruct b eqn:?
  end.

Ltac cases := repeat (case_cond; simplify_eq/=).
