(* ===== verification/Clock.v ===== *)
(** * Time values: src/src/utils/clock.h

    [struct timespec] and the macros the timer and the time converter use. *)

From S2P Require Import Prelude.

Local Open Scope Z_scope.

Module Clock.

Definition MSEC_PER_SEC : Z := 1000.
Definition NSEC_PER_MSEC : Z := 1000000.
Definition USEC_PER_SEC : Z := 1000000.
Definition NSEC_PER_SEC : Z := 1000000000.

Record timespec := Timespec { tv_sec : Z; tv_nsec : Z }.

Definition ts_isset (t : timespec) : bool := ctrue (tv_sec t) || ctrue (tv_nsec t).

Definition ts_to_msec (t : timespec) : Z :=
  tv_sec t * MSEC_PER_SEC + Z.quot (tv_nsec t) NSEC_PER_MSEC.

Definition ts_to_nsec (t : timespec) : Z := tv_sec t * NSEC_PER_SEC + tv_nsec t.

Definition ts_add (a b : timespec) : timespec :=
  let sec := tv_sec a + tv_sec b in
  let nsec := tv_nsec a + tv_nsec b in
  if decide (nsec >= NSEC_PER_SEC) then Timespec (sec + 1) (nsec - NSEC_PER_SEC)
  else Timespec sec nsec.

Definition ts_sub (a b : timespec) : timespec :=
  let sec := tv_sec a - tv_sec b in
  let nsec := tv_nsec a - tv_nsec b in
  if decide (nsec < 0) then Timespec (sec - 1) (nsec + NSEC_PER_SEC)
  else Timespec sec nsec.

(** The normal form of a time value. *)
Definition ts_wf (t : timespec) : Prop := 0 <= tv_nsec t < NSEC_PER_SEC.

Lemma ts_add_nsec a b : ts_to_nsec (ts_add a b) = ts_to_nsec a + ts_to_nsec b.
Proof. unfold ts_add, ts_to_nsec, NSEC_PER_SEC. case_decide; simpl; lia. Qed.

Lemma ts_sub_nsec a b : ts_to_nsec (ts_sub a b) = ts_to_nsec a - ts_to_nsec b.
Proof. unfold ts_sub, ts_to_nsec, NSEC_PER_SEC. case_decide; simpl; lia. Qed.

Lemma ts_add_wf a b : ts_wf a -> ts_wf b -> ts_wf (ts_add a b).
Proof. unfold ts_wf, ts_add, NSEC_PER_SEC. intros. case_decide; simpl; lia. Qed.

Lemma ts_sub_wf a b : ts_wf a -> ts_wf b -> ts_wf (ts_sub a b).
Proof. unfold ts_wf, ts_sub, NSEC_PER_SEC. intros. case_decide; simpl; lia. Qed.

Lemma ts_wf_inj a b : ts_wf a -> ts_wf b -> ts_to_nsec a = ts_to_nsec b -> a = b.
Proof.
  destruct a as [s n], b as [s' n']; unfold ts_wf, ts_to_nsec, NSEC_PER_SEC; simpl.
  intros. assert (s = s') by lia. f_equal; lia.
Qed.

End Clock.
