(* ===== verification/DmMgr.v ===== *)
(** * The on-device memory ring allocator: src/src/vma/dev/dm_mgr.cpp

    [dm_mgr] hands out pieces of an on-device buffer of [m_allocation] bytes
    in a circular way.  Its state is the record [dm_mgr]; the operations are
    the member functions of the class.  The verbs calls
    ([vma_ibv_alloc_dm], [vma_ibv_reg_dm_mr], [vma_ibv_memcpy_dm]) are
    arguments of the operations that make them.

    The theorems relate the two counters [m_head] and [m_used] to the queue of
    the buffers in flight: the byte ranges of the buffers in flight never
    overlap, whatever the sequence of copies and (in-order) releases, unless a device
    copy fails after the head has been moved to the start ([failed_copy_overlaps]). *)

From S2P Require Import Prelude.

Local Open Scope Z_scope.
Ltac Zify.zify_post_hook ::= Z.div_mod_to_equations.

Module Dm.

Definition DM_MEMORY_MASK_8 : Z := 7.
Definition DM_MEMORY_MASK_64 : Z := 63.
Definition DM_COMPLETION_THRESHOLD : Z := 8192.

(** [DM_ALIGN_SIZE(size, mask)]: [(size + mask) & ~mask]. *)
Definition DM_ALIGN_SIZE (size mask : Z) : Z := Z.land (size + mask) (Z.lnot mask).

(** The counters of [ring_stats_t::simple] that [dm_mgr] writes. *)
Record ring_stats_t := RingStats {
  n_tx_dev_mem_allocated : Z;
  n_tx_dev_mem_pkt_count : Z;
  n_tx_dev_mem_byte_count : Z;
  n_tx_dev_mem_oob : Z;
}.

(** Pointers to verbs objects are [option Z]: [None] is [NULL], the number is
    the handle ([m_p_ibv_dm]) or the memory key ([m_p_dm_mr->lkey]). *)
Record dm_mgr := DmMgr {
  m_p_dm_mr : option Z;
  m_p_ibv_dm : option Z;
  m_p_ring_stat : option ring_stats_t;
  m_allocation : Z;
  m_used : Z;
  m_head : Z;
}.

Definition dm_mgr_ctor : dm_mgr := DmMgr None None None 0 0 0.

Definition upd_stat (f : ring_stats_t -> ring_stats_t) (d : dm_mgr) : dm_mgr :=
  DmMgr (m_p_dm_mr d) (m_p_ibv_dm d) (f <$> m_p_ring_stat d)
        (m_allocation d) (m_used d) (m_head d).

Definition set_used_head (used head : Z) (d : dm_mgr) : dm_mgr :=
  DmMgr (m_p_dm_mr d) (m_p_ibv_dm d) (m_p_ring_stat d) (m_allocation d) used head.

(** [allocate_resources]: [ring_dev_mem_tx] is the system variable,
    [on_device_memory_size] what the context reports, [alloc_dm] and
    [reg_dm_mr] the two verbs ([None] is their failure). *)
Definition allocate_resources (ring_dev_mem_tx on_device_memory_size : Z)
    (alloc_dm : Z -> option Z) (reg_dm_mr : Z -> Z -> option Z)
    (ring_stats : ring_stats_t) (d : dm_mgr) : bool * dm_mgr :=
  let allocation_size := u64 (DM_ALIGN_SIZE ring_dev_mem_tx DM_MEMORY_MASK_64) in
  let d := DmMgr (m_p_dm_mr d) (m_p_ibv_dm d) (Some ring_stats)
                 (m_allocation d) (m_used d) (m_head d) in
  if decide (allocation_size = 0) then (false, d)
  else if decide (on_device_memory_size = 0) then (false, d)
  else
    match alloc_dm allocation_size with
    | None => (false, DmMgr (m_p_dm_mr d) None (m_p_ring_stat d)
                            (m_allocation d) (m_used d) (m_head d))
    | Some dm =>
      match reg_dm_mr allocation_size dm with
      | None => (false, DmMgr None None (m_p_ring_stat d)
                              (m_allocation d) (m_used d) (m_head d))
      | Some lkey =>
        (true, DmMgr (Some lkey) (Some dm)
                 (Some (RingStats (u32 allocation_size)
                          (n_tx_dev_mem_pkt_count ring_stats)
                          (n_tx_dev_mem_byte_count ring_stats)
                          (n_tx_dev_mem_oob ring_stats)))
                 allocation_size (m_used d) (m_head d))
      end
    end.

(** [release_resources]: whether the verbs succeed only changes the log. *)
Definition release_resources (d : dm_mgr) : dm_mgr :=
  DmMgr None None None (m_allocation d) (m_used d) (m_head d).

(** What [copy_data] writes outside the manager: the device copy it issues
    (offset and length in [memcpy_attr]), the segment's key and address in
    network order ([seg], present when they are written) and
    [buff->tx.dev_mem_length]. *)
Record copy_out := CopyOut {
  memcpy_attr : option (Z * Z);
  seg : option (Z * Z);
  dev_mem_length : Z;
}.

(** The choice of the place: [Some (head, gap)] is the offset the data goes to
    and the bytes skipped at the end of the buffer, [None] is the jump to
    [dev_mem_oob]. *)
Definition find_place (length_aligned_8 : Z) (d : dm_mgr) : option (Z * Z) :=
  if decide (m_used d >= m_allocation d) then None
  else if decide (m_head d >= m_used d) then            (* First case *)
    let continuous_left := u64 (m_allocation d - m_head d) in
    if decide (continuous_left < length_aligned_8) then (* Second case *)
      if decide (u64 (m_head d - m_used d) >= length_aligned_8)
      then Some (0, continuous_left)
      else None
    else Some (m_head d, 0)
  else if decide (u64 (m_allocation d - m_used d) < length_aligned_8) (* Third case *)
  then None
  else Some (m_head d, 0).

(** [copy_data].  [memcpy_dm_ok] is the outcome of [vma_ibv_memcpy_dm].  The
    result is [None] where the code dereferences a [NULL] [m_p_dm_mr] or
    [m_p_ring_stat]. *)
Definition copy_data (length : Z) (memcpy_dm_ok : bool) (d : dm_mgr)
  : option (bool * copy_out * dm_mgr) :=
  let length_aligned_8 := u32 (DM_ALIGN_SIZE length DM_MEMORY_MASK_8) in
  match find_place length_aligned_8 d with
  | None =>
    _ ← m_p_ring_stat d;
    Some (false, CopyOut None None 0,
          upd_stat (fun s => RingStats (n_tx_dev_mem_allocated s)
                               (n_tx_dev_mem_pkt_count s) (n_tx_dev_mem_byte_count s)
                               (u64 (n_tx_dev_mem_oob s + 1))) d)
  | Some (head, gap) =>
    let d := set_used_head (m_used d) head d in
    let attr := Some (head, length_aligned_8) in
    if negb memcpy_dm_ok then Some (false, CopyOut attr None gap, d)
    else
      lkey ← m_p_dm_mr d;
      _ ← m_p_ring_stat d;
      let dml := u64 (gap + length_aligned_8) in
      let d' := set_used_head (u64 (m_used d + dml))
                  (u64 (head + length_aligned_8) mod m_allocation d) d in
      Some (true, CopyOut attr (Some (htonl lkey, htonll head)) dml,
            upd_stat (fun s => RingStats (n_tx_dev_mem_allocated s)
                                 (u64 (n_tx_dev_mem_pkt_count s + 1))
                                 (u64 (n_tx_dev_mem_byte_count s + length))
                                 (n_tx_dev_mem_oob s)) d')
  end.

(** [release_data] takes [buff->tx.dev_mem_length] and returns its new value. *)
Definition release_data (dml : Z) (d : dm_mgr) : Z * dm_mgr :=
  (0, set_used_head (u64 (m_used d - dml)) (m_head d) d).

Definition is_completion_need (d : dm_mgr) : bool :=
  bool_decide (u64 (m_allocation d - m_used d) < DM_COMPLETION_THRESHOLD).

(** ** The buffers in flight

    A buffer that was copied and whose completion has not arrived: the offset
    and (aligned) length of its data and its [tx.dev_mem_length]. *)
Record flight := Flight { f_off : Z; f_len : Z; f_dml : Z }.

(** Copies and completions in the order the send queue produces them: a
    completion releases the oldest buffer in flight.  A copy is refused when there
    is no room or when the device copy fails; of the failures those are steps that
    leave no skipped bytes in [buff->tx.dev_mem_length] (the head had not been moved
    to the start of the buffer; [failed_copy_overlaps] is about the others). *)
Inductive dm_step : dm_mgr * list flight -> dm_mgr * list flight -> Prop :=
  | step_copy d q length out d' off len :
      0 <= length < 2 ^ 32 ->
      copy_data length true d = Some (true, out, d') ->
      memcpy_attr out = Some (off, len) ->
      dm_step (d, q) (d', q ++ [Flight off len (dev_mem_length out)])
  | step_refused d q length ok out d' :
      0 <= length < 2 ^ 32 ->
      copy_data length ok d = Some (false, out, d') ->
      dev_mem_length out = 0 ->
      dm_step (d, q) (d', q)
  | step_release d f q :
      dm_step (d, f :: q) (snd (release_data (f_dml f) d), q).

(** [layout n p q e]: unrolling the ring, the buffers of [q] lie one after the
    other from position [p] to position [e]; each one is a gap followed by its
    data, and its data does not cross the end of the ring. *)
Fixpoint layout (n p : Z) (q : list flight) (e : Z) : Prop :=
  match q with
  | [] => p = e
  | f :: q =>
      0 <= f_len f /\ 0 <= f_dml f - f_len f /\
      f_off f = (p + (f_dml f - f_len f)) mod n /\ f_off f + f_len f <= n /\
      layout n (p + f_dml f) q e
  end.

Definition dm_inv (s : dm_mgr * list flight) : Prop :=
  let '(d, q) := s in
  0 < m_allocation d < 2 ^ 32 /\ m_allocation d mod 8 = 0 /\
  0 <= m_used d <= m_allocation d /\ 0 <= m_head d < m_allocation d /\
  m_head d mod 8 = 0 /\
  Forall (fun f => f_off f mod 8 = 0 /\ f_len f mod 8 = 0) q /\
  exists p, layout (m_allocation d) p q (p + m_used d) /\
            m_head d = (p + m_used d) mod m_allocation d.

Definition overlap (f g : flight) : Prop :=
  exists x, f_off f <= x < f_off f + f_len f /\ f_off g <= x < f_off g + f_len g.

(** ** Lemmas *)

Lemma align8_spec x : 0 <= x ->
  exists k, DM_ALIGN_SIZE x DM_MEMORY_MASK_8 = 8 * k /\ 0 <= k /\ x <= 8 * k < x + 8.
Proof.
  intros Hx. unfold DM_ALIGN_SIZE, DM_MEMORY_MASK_8.
  rewrite <- Z.ldiff_land. change 7 with (Z.ones 3).
  rewrite Z.ldiff_ones_r, Z.shiftl_mul_pow2, Z.shiftr_div_pow2 by lia.
  change (Z.ones 3) with 7. change (2 ^ 3) with 8.
  exists ((x + 7) / 8). lia.
Qed.

Lemma align64_spec x : 0 <= x ->
  exists k, DM_ALIGN_SIZE x DM_MEMORY_MASK_64 = 64 * k /\ 0 <= k /\ x <= 64 * k < x + 64.
Proof.
  intros Hx. unfold DM_ALIGN_SIZE, DM_MEMORY_MASK_64.
  rewrite <- Z.ldiff_land. change 63 with (Z.ones 6).
  rewrite Z.ldiff_ones_r, Z.shiftl_mul_pow2, Z.shiftr_div_pow2 by lia.
  change (Z.ones 6) with 63. change (2 ^ 6) with 64.
  exists ((x + 63) / 64). lia.
Qed.

(** The aligned length is a multiple of 8, also when the addition wraps. *)
Lemma aligned_length length : 0 <= length < 2 ^ 32 ->
  let l := u32 (DM_ALIGN_SIZE length DM_MEMORY_MASK_8) in
  l mod 8 = 0 /\ 0 <= l < 2 ^ 32.
Proof.
  intros H. destruct (align8_spec length ltac:(lia)) as (k & -> & Hk & ?).
  split; [|apply wrap_range; lia].
  unfold wrap. change (2 ^ 32) with (8 * 2 ^ 29).
  rewrite Zmult_mod_distr_l. lia.
Qed.

Lemma layout_app n p q e f :
  layout n p q e ->
  0 <= f_len f -> 0 <= f_dml f - f_len f ->
  f_off f = (e + (f_dml f - f_len f)) mod n -> f_off f + f_len f <= n ->
  layout n p (q ++ [f]) (e + f_dml f).
Proof.
  revert p. induction q as [|g q IH]; simpl; intros p Hl ????; subst.
  - repeat split; auto.
  - destruct Hl as (?&?&?&?&?). repeat split; auto.
Qed.

Lemma layout_le n p q e : layout n p q e -> p <= e.
Proof.
  revert p. induction q as [|f q IH]; simpl; intros p H; [lia|].
  destruct H as (?&?&?&?&H). apply IH in H. lia.
Qed.

(** Where a buffer of the layout lies on the unrolled ring. *)
Lemma layout_lookup n p q e i f :
  layout n p q e -> q !! i = Some f ->
  exists a, p <= a /\ a + f_len f <= e /\ 0 <= f_len f /\
            f_off f = a mod n /\ f_off f + f_len f <= n /\
            (forall j g, q !! j = Some g -> (i < j)%nat ->
               exists b, a + f_len f <= b /\ b + f_len g <= e /\ f_off g = b mod n).
Proof.
  revert p i f. induction q as [|h q IH]; intros p i f Hl Hi; [done|].
  destruct Hl as (?&?&?&?&Hl). destruct i as [|i]; simpl in Hi.
  - simplify_eq. pose proof (layout_le _ _ _ _ Hl).
    exists (p + (f_dml f - f_len f)). repeat split; try lia.
    intros [|j] g Hj ?; [lia|]. simpl in Hj.
    destruct (IH _ _ _ Hl Hj) as (b&?&?&?&?&?&_). exists b. repeat split; auto; lia.
  - destruct (IH _ _ _ Hl Hi) as (a&?&?&?&?&?&Hr).
    exists a. repeat split; auto; try lia.
    intros [|j] g Hj ?; [lia|]. apply (Hr j g Hj). lia.
Qed.

Lemma mod_offset n a x :
  0 < n -> a mod n <= x -> x < n -> x = (a + (x - a mod n)) mod n.
Proof.
  intros Hn Hx Hlt. pose proof (Z.mod_pos_bound a n Hn).
  replace (a + (x - a mod n)) with (x + (a / n) * n)
    by (pose proof (Z.div_mod a n ltac:(lia)); lia).
  rewrite Z_mod_plus_full. symmetry. apply Z.mod_small. lia.
Qed.

Lemma layout_disjoint n p q e i j f g :
  0 < n -> e <= p + n -> layout n p q e ->
  q !! i = Some f -> q !! j = Some g -> (i < j)%nat -> ~ overlap f g.
Proof.
  intros Hn He Hl Hi Hj Hij (x & Hf & Hg).
  destruct (layout_lookup _ _ _ _ _ _ Hl Hi) as (a&?&?&?&Ha&?&Hr).
  destruct (Hr j g Hj Hij) as (b&?&?&Hb).
  destruct (layout_lookup _ _ _ _ _ _ Hl Hj) as (_&_&_&_&_&?&_).
  rewrite Ha in *. rewrite Hb in *.
  pose proof (mod_offset n a x Hn ltac:(lia) ltac:(lia)) as E1.
  pose proof (mod_offset n b x Hn ltac:(lia) ltac:(lia)) as E2.
  apply (mod_window_ne n p (a + (x - a mod n)) (b + (x - b mod n))); try lia.
Qed.

(** What a successful [find_place] gives: where the data goes, that it fits,
    and that the counters it leads to are in range. *)
Lemma find_place_spec d p l off gap :
  0 < m_allocation d < 2 ^ 32 -> 0 <= m_used d <= m_allocation d ->
  0 <= m_head d < m_allocation d -> 0 <= l ->
  m_head d = (p + m_used d) mod m_allocation d ->
  find_place l d = Some (off, gap) ->
  0 <= gap /\ off = (p + m_used d + gap) mod m_allocation d /\
  (off = m_head d \/ off = 0) /\
  off + l <= m_allocation d /\ m_used d + gap + l <= m_allocation d.
Proof.
  intros Hn Hu Hh Hl Hp Hf. unfold find_place in Hf.
  assert (m_head d = (p + m_used d + 0) mod m_allocation d) as Hp0
    by (by rewrite Z.add_0_r).
  assert ((m_head d - (p + m_used d)) mod m_allocation d = 0) as Hz.
  { rewrite Hp, Zminus_mod_idemp_l, Z.sub_diag. apply Z.mod_0_l. lia. }
  clear Hp. repeat case_decide; simplify_eq; wsimpl; split_and!;
    try done; try (clear Hp0 Hz; lia).
  - rewrite <- (Z.mod_0_l (m_allocation d)) at 1 by lia.
    apply Z.mod_divide in Hz as [k Hk]; [|lia].
    replace (p + m_used d + (m_allocation d - m_head d))
      with ((1 - k) * m_allocation d) by lia.
    rewrite Z.mod_mul, Z.mod_0_l by lia. done.
Qed.

(** What a successful copy does to the counters. *)
Lemma copy_data_true length d out d' :
  copy_data length true d = Some (true, out, d') ->
  let l := u32 (DM_ALIGN_SIZE length DM_MEMORY_MASK_8) in
  exists off gap,
    find_place l d = Some (off, gap) /\ memcpy_attr out = Some (off, l) /\
    dev_mem_length out = u64 (gap + l) /\
    m_allocation d' = m_allocation d /\
    m_used d' = u64 (m_used d + u64 (gap + l)) /\
    m_head d' = u64 (off + l) mod m_allocation d.
Proof.
  intros H l. unfold copy_data in H. fold l in H.
  destruct (find_place l d) as [[off gap]|] eqn:Ef; simpl in H.
  - destruct (m_p_dm_mr d); simpl in H; [|done].
    destruct (m_p_ring_stat d); simpl in H; [|done].
    simplify_eq/=. exists off, gap. done.
  - destruct (m_p_ring_stat d); simplify_eq/=.
Qed.

(** Skipped bytes are there exactly when the head has been moved. *)
Lemma find_place_gap l d off gap : 0 < m_allocation d < 2 ^ 32 -> 0 <= m_head d < m_allocation d ->
  find_place l d = Some (off, gap) -> (gap = 0 /\ off = m_head d) \/ (gap <> 0 /\ off = 0).
Proof.
  intros Hn Hh Hf. unfold find_place in Hf. rewrite (wrap_small 64 (m_allocation d - m_head d)) in Hf by lia.
  repeat case_decide; simplify_eq; [right|left..]; split; done || lia.
Qed.

Lemma copy_data_false length ok d out d' : 0 < m_allocation d < 2 ^ 32 -> 0 <= m_head d < m_allocation d ->
  copy_data length ok d = Some (false, out, d') -> dev_mem_length out = 0 ->
  m_allocation d' = m_allocation d /\ m_used d' = m_used d /\ m_head d' = m_head d.
Proof.
  unfold copy_data. intros Hn Hh H H0.
  destruct (find_place _ _) as [[off gap]|] eqn:Ef; [apply (find_place_gap _ _ _ _ Hn Hh) in Ef|];
    destruct ok; simpl in H; try destruct (m_p_dm_mr d); try destruct (m_p_ring_stat d); simplify_eq/=; split_and!; try done; destruct Ef as [[??]|[??]]; done.
Qed.

Lemma dm_inv_copy d q length out d' off len :
  0 <= length < 2 ^ 32 ->
  copy_data length true d = Some (true, out, d') ->
  memcpy_attr out = Some (off, len) ->
  dm_inv (d, q) -> dm_inv (d', q ++ [Flight off len (dev_mem_length out)]).
Proof.
  intros Hlen Hc Hattr (Hn & Hn8 & Hu & Hh & Hh8 & Hq & p & Hl & Hp).
  destruct (copy_data_true _ _ _ _ Hc) as (o & gap & Hf & Ha & Hd & En & Eu & Eh).
  rewrite Hattr in Ha. simplify_eq.
  destruct (aligned_length length Hlen) as [H8 Hr].
  set (l := u32 _) in *.
  destruct (find_place_spec d p l o gap) as (?&Ho&Ho'&?&?); try done; try lia.
  assert (0 <= o) by (destruct Ho' as [-> | ->]; lia).
  rewrite (wrap_small 64 (gap + l)) in Hd, Eu by (clear Ho; lia).
  rewrite (wrap_small 64) in Eu, Eh by (clear Ho; lia).
  unfold dm_inv. rewrite En, Eu, Eh, Hd. cbn [fst snd].
  assert (o mod 8 = 0) by (destruct Ho' as [-> | ->]; [done|reflexivity]).
  split_and!; try done; try (clear Ho Hp; lia).
  - apply Forall_app. split; [done|]. apply Forall_singleton. done.
  - exists p. rewrite Z.add_assoc. split.
    + apply (layout_app _ _ _ _ (Flight o l (gap + l))); simpl; try done; try lia.
      rewrite Ho. f_equal. lia.
    + rewrite Ho, Zplus_mod_idemp_l. f_equal. lia.
Qed.

Lemma layout_tail_used n p q e : layout n p q e -> forall f q', q = f :: q' -> f_dml f <= e - p.
Proof.
  intros H f q' ->. destruct H as (?&?&?&?&H). apply layout_le in H. lia.
Qed.

Lemma dm_inv_step s s' : dm_step s s' -> dm_inv s -> dm_inv s'.
Proof.
  intros Hs Hi. destruct Hs as [d q length out d' off len Hlen Hc Ha
    | d q length ok out d' Hlen Hc H0 | d f q].
  - by eapply dm_inv_copy.
  - destruct (copy_data_false _ _ _ _ _ (proj1 Hi) (proj1 (proj2 (proj2 (proj2 Hi)))) Hc H0) as (En & Eu & Eh).
    unfold dm_inv in *. by rewrite En, Eu, Eh.
  - destruct Hi as (Hn & Hn8 & Hu & Hh & Hh8 & Hq & p & Hl & Hp).
    pose proof (layout_tail_used _ _ _ _ Hl _ _ eq_refl).
    destruct Hl as (?&?&?&?&Hl). unfold dm_inv, release_data. cbn.
    apply Forall_inv_tail in Hq.
    rewrite (wrap_small 64 (m_used d - f_dml f)) by (clear Hp; lia). split_and!; try done; try lia.
    exists (p + f_dml f). split; [|rewrite Hp; f_equal; lia].
    by replace (p + f_dml f + (m_used d - f_dml f)) with (p + m_used d) by lia.
Qed.

Lemma dm_inv_init size odm alloc_dm reg_dm_mr st d :
  0 < size < 2 ^ 31 ->
  allocate_resources size odm alloc_dm reg_dm_mr st dm_mgr_ctor = (true, d) ->
  dm_inv (d, []).
Proof.
  intros Hs Ha. destruct (align64_spec size ltac:(lia)) as (k & Ek & ? & ?).
  unfold allocate_resources in Ha. rewrite Ek, (wrap_small 64) in Ha by lia.
  repeat case_decide; simplify_eq/=.
  destruct (alloc_dm (64 * k)); simplify_eq/=.
  destruct (reg_dm_mr (64 * k) z); simplify_eq/=.
  split_and!; try done; try lia.
  exists 0. split; [done|]. by rewrite Z.mod_0_l by lia.
Qed.

Lemma dm_inv_reachable s s' : rtc dm_step s s' -> dm_inv s -> dm_inv s'.
Proof. induction 1; eauto using dm_inv_step. Qed.

Lemma layout_sum n p q e : layout n p q e -> e = p + foldr (fun f a => f_dml f + a) 0 q.
Proof.
  revert p. induction q as [|f q IH]; simpl; intros p H; [lia|].
  destruct H as (?&?&?&?&H). apply IH in H. lia.
Qed.

(** ** Properties *)

(** C30: In every state reached from a successfully allocated device buffer by
    copies and in-order completions, two different buffers in flight never
    share a byte of the on-device memory, and each of them lies inside the
    allocation at an 8-byte aligned offset.  Copies may be refused for lack of
    room, and the device copy may fail as long as the head has not been moved to
    the start of the buffer for it: after such a failure the property does not
    hold ([failed_copy_overlaps]). *)
Theorem dm_flights_disjoint size odm alloc_dm reg_dm_mr st d0 d q :
  0 < size < 2 ^ 31 ->
  allocate_resources size odm alloc_dm reg_dm_mr st dm_mgr_ctor = (true, d0) ->
  rtc dm_step (d0, []) (d, q) ->
  (forall i j f g, q !! i = Some f -> q !! j = Some g -> i <> j -> ~ overlap f g) /\
  (forall f, f ∈ q -> 0 <= f_off f /\ f_off f + f_len f <= m_allocation d /\
                     f_off f mod 8 = 0).
Proof.
  intros Hs Ha Hr. pose proof (dm_inv_init _ _ _ _ _ _ Hs Ha) as Hi.
  apply (dm_inv_reachable _ _ Hr) in Hi as (Hn & Hn8 & Hu & Hh & Hh8 & Hq & p & Hl & Hp).
  split.
  - intros i j f g Hf Hg Hij.
    destruct (decide (i < j)%nat).
    + by apply (layout_disjoint (m_allocation d) p q (p + m_used d) i j); try lia.
    + intros (x & ? & ?).
      apply (layout_disjoint (m_allocation d) p q (p + m_used d) j i g f);
        try lia; try done. by exists x.
  - intros f [i Hf]%list_elem_of_lookup.
    destruct (layout_lookup _ _ _ _ _ _ Hl Hf) as (a&?&?&?&Ho&?&_).
    split_and!; [|done|].
    + rewrite Ho. apply Z.mod_pos_bound. lia.
    + by eapply Forall_lookup_1 in Hq as [? _].
Qed.

Definition dm64 : dm_mgr := DmMgr (Some 7) (Some 1) (Some (RingStats 64 0 0 0)) 64 0 0.

Definition ex_df_d := DmMgr (Some 7) (Some 1) (Some (RingStats 64 1 33 0)) 64 40 40.

Lemma dm_flights_disjoint_witness :
  rtc dm_step (dm64, []) (ex_df_d, [Flight 0 40 40]) /\
  0 <= 0 /\ 0 + 40 <= m_allocation ex_df_d /\ 0 mod 8 = 0.
Proof.
  assert (rtc dm_step (dm64, []) (ex_df_d, [Flight 0 40 40])) as Hr.
  { apply rtc_once.
    by apply (step_copy dm64 [] 33 (CopyOut (Some (0, 40)) (Some (htonl 7, 0)) 40) ex_df_d 0 40). }
  split; [exact Hr|].
  refine (proj2 (dm_flights_disjoint 50 4096 (fun _ => Some 1) (fun _ _ => Some 7)
    (RingStats 0 0 0 0) dm64 ex_df_d [Flight 0 40 40] _ _ Hr) (Flight 0 40 40) _).
  - lia.
  - reflexivity.
  - by left.
Defined.

(** The used-bytes counter is exactly the sum of the [dev_mem_length] of
    the buffers in flight, it never exceeds the allocation, and a completely
    drained ring has nothing in use. *)
Theorem dm_used_is_sum size odm alloc_dm reg_dm_mr st d0 d q :
  0 < size < 2 ^ 31 ->
  allocate_resources size odm alloc_dm reg_dm_mr st dm_mgr_ctor = (true, d0) ->
  rtc dm_step (d0, []) (d, q) ->
  m_used d = foldr (fun f a => f_dml f + a) 0 q /\ m_used d <= m_allocation d.
Proof.
  intros Hs Ha Hr. pose proof (dm_inv_init _ _ _ _ _ _ Hs Ha) as Hi.
  apply (dm_inv_reachable _ _ Hr) in Hi as (_ & _ & Hu & _ & _ & _ & p & Hl & _).
  apply layout_sum in Hl. lia.
Qed.

Lemma dm_used_is_sum_witness :
  m_used dm64 = 0 /\ m_used dm64 <= m_allocation dm64.
Proof.
  refine (dm_used_is_sum 50 4096 (fun _ => Some 1) (fun _ _ => Some 7)
    (RingStats 0 0 0 0) dm64 dm64 [] _ _ _).
  - lia.
  - reflexivity.
  - apply rtc_refl.
Defined.

(** A device copy that fails after the head has been moved to the start of the
    buffer leaves the head there, while [m_used] is what it was: the free bytes are
    now counted from the start up to [m_allocation - m_used], although the buffers in
    flight lie in between.  Every later copy that is longer than the offset of a
    buffer in flight and not longer than that count is written over the buffer. *)
Theorem failed_copy_overlaps d q f length0 out d1 length :
  dm_inv (d, q) -> m_p_dm_mr d <> None -> m_p_ring_stat d <> None -> f ∈ q -> 0 < f_len f ->
  copy_data length0 false d = Some (false, out, d1) -> dev_mem_length out <> 0 ->
  let l := u32 (DM_ALIGN_SIZE length DM_MEMORY_MASK_8) in f_off f < l <= m_allocation d - m_used d ->
  exists out2 d2, copy_data length true d1 = Some (true, out2, d2) /\ memcpy_attr out2 = Some (0, l) /\
    overlap f (Flight 0 l (dev_mem_length out2)).
Proof.
  intros (Hn & Hn8 & Hu & Hh & Hh8 & Hq & p & Hl & Hp) Hmr Hst [i Hf]%list_elem_of_lookup Hlen Hc Hg l Hr.
  destruct (layout_lookup _ _ _ _ _ _ Hl Hf) as (a & ? & ? & _ & Ho & ? & _).
  assert (0 <= f_off f) by (rewrite Ho; apply Z.mod_pos_bound; lia). clear Ho Hp.
  unfold copy_data in Hc. destruct (find_place _ d) as [[off gap]|] eqn:Ef; simplify_eq/=;
    [|destruct (m_p_ring_stat d); simplify_eq/=].
  apply (find_place_gap _ _ _ _ Hn Hh) in Ef as [[??]|[? ->]]; [done|].
  unfold copy_data. fold l. assert (find_place l (set_used_head (m_used d) 0 d) = Some (0, 0)) as ->.
  { unfold find_place; simpl. repeat case_decide; wsimpl; try done; lia. }
  simpl. destruct (m_p_dm_mr d); [|done]. destruct (m_p_ring_stat d); [|done]. simpl. eexists _, _. split; [done|]. split; [done|].
  exists (f_off f). simpl. lia.
Qed.

(** 40 bytes in flight in the middle of a buffer of 128; a copy of 64 bytes moves the
    head and fails, the next one of 80 bytes is laid over them. *)
Definition ex_fc_d := DmMgr (Some 7) (Some 1) (Some (RingStats 128 2 73 0)) 128 40 104.

Lemma failed_copy_overlaps_witness :
  copy_data 64 false ex_fc_d = Some (false, CopyOut (Some (0, 64)) None 24, set_used_head 40 0 ex_fc_d) /\
  exists out2 d2, copy_data 80 true (set_used_head 40 0 ex_fc_d) = Some (true, out2, d2) /\ memcpy_attr out2 = Some (0, 80) /\
    overlap (Flight 64 40 40) (Flight 0 80 (dev_mem_length out2)).
Proof.
  split; [reflexivity|].
  apply (failed_copy_overlaps ex_fc_d [Flight 64 40 40] (Flight 64 40 40) 64 (CopyOut (Some (0, 64)) None 24) _ 80); try done.
  - split_and!; simpl; try done; try lia. + by apply Forall_singleton. + by exists 64.
  - by left.
Defined.

(** When the device copy itself fails after the allocator has decided to
    wrap to the start of the buffer, [copy_data] returns [false] but leaves
    the skipped bytes in [buff->tx.dev_mem_length] without having added them
    to [m_used]: the completion of that buffer drives [m_used] below zero (it
    wraps to almost 2^64), after which every copy is refused. *)
Theorem failed_copy_corrupts_used :
  exists d out d1 d2,
    dm_inv (d, []) /\ m_used d = 0 /\
    copy_data 32 false d = Some (false, out, d1) /\ dev_mem_length out = 24 /\
    release_data (dev_mem_length out) d1 = (0, d2) /\
    m_used d2 = 2 ^ 64 - 24 /\
    (forall l, find_place l d2 = None).
Proof.
  set (d := DmMgr (Some 7) (Some 1) (Some (RingStats 64 1 40 0)) 64 0 40).
  exists d, (CopyOut (Some (0, 32)) None 24),
    (set_used_head 0 0 d), (set_used_head (2 ^ 64 - 24) 0 d).
  split_and!; try reflexivity.
  unfold dm_inv, d; simpl. split_and!; try done; try lia. by exists 40.
Qed.

End Dm.
