(* ===== verification/DeltaTimer.v ===== *)
(** * The delta timer list: src/src/vma/event/delta_timer.cpp

    A doubly linked list of timer nodes in which each node keeps the time to
    wait after its predecessor.  The build has [TIMER_US_GRAN] 0 (custom.h),
    so times are 32-bit milliseconds.

    The nodes live in an explicit heap ([gmap] from addresses to nodes) and
    every operation follows the pointer code, [None] being the dereference of
    [NULL] or of freed memory.  [rep] relates a heap to the abstract list of
    deadlines; the theorems are refinements of the abstract operations:
    sorted insertion, deletion that keeps the other deadlines, the passing of
    time, and the expiry round. *)

From S2P Require Import Prelude Clock.
Import Clock.

Local Open Scope Z_scope.

Module Timer.

Abbreviation ptr := nat.

Inductive timer_req_type_t := PERIODIC_TIMER | ONE_SHOT_TIMER | INVALID_TIMER.

#[export] Instance timer_req_type_eq_dec : EqDecision timer_req_type_t.
Proof. solve_decision. Defined.

Record timer_node_t := Node {
  delta_time_msec : Z;
  orig_time_msec : Z;
  handler : option nat;
  user_data : Z;
  req_type : timer_req_type_t;
  next : option ptr;
  prev : option ptr;
}.

Definition set_delta (v : Z) (n : timer_node_t) : timer_node_t :=
  Node v (orig_time_msec n) (handler n) (user_data n) (req_type n) (next n) (prev n).
Definition set_orig (v : Z) (n : timer_node_t) : timer_node_t :=
  Node (delta_time_msec n) v (handler n) (user_data n) (req_type n) (next n) (prev n).
Definition set_next (v : option ptr) (n : timer_node_t) : timer_node_t :=
  Node (delta_time_msec n) (orig_time_msec n) (handler n) (user_data n) (req_type n) v (prev n).
Definition set_prev (v : option ptr) (n : timer_node_t) : timer_node_t :=
  Node (delta_time_msec n) (orig_time_msec n) (handler n) (user_data n) (req_type n) (next n) v.
Definition set_reg (h : option nat) (r : timer_req_type_t) (n : timer_node_t) : timer_node_t :=
  Node (delta_time_msec n) (orig_time_msec n) h (user_data n) r (next n) (prev n).

Abbreviation heap := (gmap ptr timer_node_t).

Record timer := Tm {
  m_list_head : option ptr;
  m_ts_last : timespec;
  mem : heap;
}.

(** [p->field = v]: the write is undefined when [p] is not allocated. *)
Definition store (p : ptr) (f : timer_node_t -> timer_node_t) (t : timer) : option timer :=
  n ← mem t !! p;
  Some (Tm (m_list_head t) (m_ts_last t) (<[p := f n]> (mem t))).

(** The same through a pointer that is tested first. *)
Definition store_opt (q : option ptr) (f : timer_node_t -> timer_node_t) (t : timer)
  : option timer :=
  match q with Some p => store p f t | None => Some t end.

Definition set_head (h : option ptr) (t : timer) : timer :=
  Tm h (m_ts_last t) (mem t).

Definition free (p : ptr) (t : timer) : timer :=
  Tm (m_list_head t) (m_ts_last t) (delete p (mem t)).

(** [IS_NODE_INVALID]. *)
Definition is_node_invalid (n : timer_node_t) : bool :=
  bool_decide (handler n = None) || bool_decide (req_type n = INVALID_TIMER).

(** [timer::timer]. *)
Definition timer_ctor (now : timespec) : timer := Tm None now ∅.

(** [timer::~timer]: every node of the list is freed. *)
Fixpoint dtor_loop (fuel : nat) (iter : option ptr) (t : timer) : option timer :=
  match iter with
  | None => Some t
  | Some p =>
    match fuel with
    | O => None
    | S fuel => n ← mem t !! p; dtor_loop fuel (next n) (free p t)
    end
  end.

Definition timer_dtor (t : timer) : option timer :=
  dtor_loop (size (mem t)) (m_list_head t) (set_head None t).

(** The loop of [insert_to_list] that looks for the place of the new node. *)
Fixpoint find_pos (fuel : nat) (t : timer) (iter pv : option ptr) (tmp_delta : Z)
  : option (option ptr * option ptr * Z) :=
  match iter with
  | None => Some (iter, pv, tmp_delta)
  | Some p =>
    n ← mem t !! p;
    if decide (tmp_delta >= delta_time_msec n) then
      match fuel with
      | O => None
      | S fuel => find_pos fuel t (next n) iter (u32 (tmp_delta - delta_time_msec n))
      end
    else Some (iter, pv, tmp_delta)
  end.

Definition insert_to_list (new_node : ptr) (t : timer) : option timer :=
  nd ← mem t !! new_node;
  match m_list_head t with
  | None =>
    t ← store new_node (fun n => set_prev None (set_next None
                                  (set_delta (orig_time_msec n) n))) t;
    Some (set_head (Some new_node) t)
  | Some _ =>
    '(iter, pv, tmp_delta) ← find_pos (size (mem t)) t (m_list_head t) None
                                      (orig_time_msec nd);
    t ← store new_node (fun n => set_prev pv (set_next iter (set_delta tmp_delta n))) t;
    t ← match pv with
        | Some p => store p (set_next (Some new_node)) t
        | None => Some (set_head (Some new_node) t)
        end;
    store_opt iter (fun n => set_prev (Some new_node)
                       (set_delta (u32 (delta_time_msec n - tmp_delta)) n)) t
  end.

Definition remove_from_list (node : ptr) (t : timer) : option timer :=
  nd ← mem t !! node;
  t ← match prev nd with
      | Some p => store p (set_next (next nd)) t
      | None => Some (set_head (next nd) t)
      end;
  store_opt (next nd) (fun n => set_prev (prev nd)
                         (set_delta (u32 (delta_time_msec n + delta_time_msec nd)) n)) t.

Definition add_new_timer (timeout_msec : Z) (node : ptr) (hd : option nat) (data : Z)
    (rt : timer_req_type_t) (t : timer) : option timer :=
  t ← store node (fun n => Node (delta_time_msec n) timeout_msec hd data rt
                                (next n) (prev n)) t;
  nd ← mem t !! node;
  if is_node_invalid nd then Some (free node t)
  else insert_to_list node t.

Definition wakeup_timer (node : option ptr) (t : timer) : option timer :=
  match node with
  | None => Some t
  | Some node =>
    nd ← mem t !! node;
    if is_node_invalid nd then Some t
    else
      t ← remove_from_list node t;
      nd ← mem t !! node;
      let orig_time := orig_time_msec nd in
      t ← store node (set_orig 0) t;
      t ← insert_to_list node t;
      store node (set_orig orig_time) t
  end.

(** The search of [remove_timer] when it is called without a node. *)
Fixpoint find_handler (fuel : nat) (t : timer) (node : option ptr) (hd : option nat)
  : option (option ptr) :=
  match node with
  | None => Some None
  | Some p =>
    n ← mem t !! p;
    if decide (handler n = hd) then Some (Some p)
    else match fuel with
         | O => None
         | S fuel => find_handler fuel t (next n) hd
         end
  end.

Definition remove_timer (node : option ptr) (hd : option nat) (t : timer) : option timer :=
  node ← match node with
         | Some p => Some (Some p)
         | None => find_handler (size (mem t)) t (m_list_head t) hd
         end;
  match node with
  | None => Some t
  | Some p =>
    nd ← mem t !! p;
    if is_node_invalid nd || negb (bool_decide (handler nd = hd)) then Some t
    else
      t ← store p (set_reg None INVALID_TIMER) t;
      t ← remove_from_list p t;
      Some (free p t)
  end.

Fixpoint remove_all_loop (fuel : nat) (node : option ptr) (hd : option nat) (t : timer)
  : option timer :=
  match node with
  | None => Some t
  | Some p =>
    match fuel with
    | O => None
    | S fuel =>
      nd ← mem t !! p;
      if decide (handler nd = hd) then
        if is_node_invalid nd || negb (bool_decide (handler nd = hd))
        then remove_all_loop fuel (next nd) hd t
        else
          t ← store p (set_reg None INVALID_TIMER) t;
          t ← remove_from_list p t;
          remove_all_loop fuel (next nd) hd (free p t)
      else remove_all_loop fuel (next nd) hd t
    end
  end.

Definition remove_all_timers (hd : option nat) (t : timer) : option timer :=
  remove_all_loop (size (mem t)) (m_list_head t) hd t.

Definition INFINITE_TIMEOUT : Z := -1.

(** The loop of [update_timeout] that takes the elapsed time off the deltas. *)
Fixpoint elapse (fuel : nat) (delta_msec : Z) (list_tmp : option ptr) (t : timer)
  : option timer :=
  match list_tmp with
  | None => Some t
  | Some p =>
    if decide (delta_msec > 0) then
      n ← mem t !! p;
      if decide (s32 (delta_time_msec n) > delta_msec)
      then store p (set_delta (u32 (delta_time_msec n - delta_msec))) t
      else
        match fuel with
        | O => None
        | S fuel =>
          t ← store p (set_delta 0) t;
          elapse fuel (s32 (delta_msec - delta_time_msec n)) (next n) t
        end
    else Some t
  end.

(** [update_timeout]; [now] is what [gettime] delivers ([None]: it fails). *)
Definition update_timeout (now : option timespec) (t : timer) : option (Z * timer) :=
  match now with
  | None => Some (INFINITE_TIMEOUT, t)
  | Some ts_now =>
    let delta_msec := s32 (ts_to_msec (ts_sub ts_now (m_ts_last t))) in
    let t := if decide (delta_msec > 0) then Tm (m_list_head t) ts_now (mem t) else t in
    match m_list_head t with
    | None => Some (INFINITE_TIMEOUT, t)
    | Some hd =>
      t ← elapse (size (mem t)) delta_msec (m_list_head t) t;
      n ← mem t !! hd;
      Some (s32 (delta_time_msec n), t)
    end
  end.

(** The [switch] of [process_registered_timers] on an expired node. *)
Definition expire (p : ptr) (n : timer_node_t) (t : timer) : option timer :=
  match req_type n with
  | PERIODIC_TIMER =>
    t ← remove_from_list p t;
    t ← store p (fun n => set_prev None (set_next None n)) t;
    insert_to_list p t
  | ONE_SHOT_TIMER => remove_timer (Some p) (handler n) t
  | INVALID_TIMER => Some t
  end.

(** [process_registered_timers].  [can_run p] is the outcome of the
    [lock_timer] test of node [p]; the handlers run are returned in order.  A
    handler does not touch the list: registrations made by handlers are queued
    by the event handler thread. *)
Fixpoint process_loop (fuel : nat) (can_run : ptr -> bool) (iter : option ptr) (t : timer)
  : option (list (nat * Z) * timer) :=
  match iter with
  | None => Some ([], t)
  | Some p =>
    n ← mem t !! p;
    if decide (delta_time_msec n = 0) then
      match fuel with
      | O => None
      | S fuel =>
        let fired := match handler n with
                     | Some h => if can_run p then [(h, user_data n)] else []
                     | None => []
                     end in
        t ← expire p n t;
        '(l, t) ← process_loop fuel can_run (next n) t;
        Some (fired ++ l, t)
      end
    else Some ([], t)
  end.

Definition process_registered_timers (can_run : ptr -> bool) (t : timer)
  : option (list (nat * Z) * timer) :=
  process_loop (size (mem t)) can_run (m_list_head t) t.

(** ** The list in the heap

    [item] is a node without its links.  [seg h pv ps q]: the items of [ps]
    lie in [h] as a doubly linked segment whose first node points back to [pv]
    and whose last node points on to [q]. *)

Record item := Item {
  i_delta : Z;
  i_orig : Z;
  i_handler : option nat;
  i_data : Z;
  i_req : timer_req_type_t;
}.

Definition mk (a : item) (nx pv : option ptr) : timer_node_t :=
  Node (i_delta a) (i_orig a) (i_handler a) (i_data a) (i_req a) nx pv.

Definition with_delta (v : Z) (a : item) : item :=
  Item v (i_orig a) (i_handler a) (i_data a) (i_req a).

Definition nxt (ps : list (ptr * item)) (q : option ptr) : option ptr :=
  match ps with [] => q | (x, _) :: _ => Some x end.

Fixpoint lst (pv : option ptr) (ps : list (ptr * item)) : option ptr :=
  match ps with [] => pv | (x, _) :: ps => lst (Some x) ps end.

Fixpoint seg (h : heap) (pv : option ptr) (ps : list (ptr * item)) (q : option ptr) : Prop :=
  match ps with
  | [] => True
  | (x, a) :: ps => h !! x = Some (mk a (nxt ps q) pv) /\ seg h (Some x) ps q
  end.

Definition rep (t : timer) (ps : list (ptr * item)) : Prop :=
  m_list_head t = nxt ps None /\ seg (mem t) None ps None /\ NoDup ps.*1.

(** The operations on the abstract list. *)

Definition add_head (d : Z) (ps : list (ptr * item)) : list (ptr * item) :=
  match ps with
  | [] => []
  | (y, b) :: r => (y, with_delta (u32 (i_delta b + d)) b) :: r
  end.

Fixpoint ins (tmp : Z) (x : ptr) (a : item) (ps : list (ptr * item)) : list (ptr * item) :=
  match ps with
  | [] => [(x, with_delta tmp a)]
  | (y, b) :: r =>
    if decide (tmp >= i_delta b) then (y, b) :: ins (u32 (tmp - i_delta b)) x a r
    else (x, with_delta tmp a) :: (y, with_delta (u32 (i_delta b - tmp)) b) :: r
  end.

(** Absolute deadlines, from now. *)
Fixpoint deadlines (base : Z) (ps : list (ptr * item)) : list (ptr * Z) :=
  match ps with
  | [] => []
  | (x, a) :: ps => (x, base + i_delta a) :: deadlines (base + i_delta a) ps
  end.

(** ** Heap lemmas *)

Lemma nxt_app ps1 ps2 q : nxt (ps1 ++ ps2) q = nxt ps1 (nxt ps2 q).
Proof. by destruct ps1 as [|[??]?]. Qed.

Lemma lst_app pv ps1 ps2 : lst pv (ps1 ++ ps2) = lst (lst pv ps1) ps2.
Proof. revert pv. by induction ps1 as [|[??] ? IH]; intros; simpl. Qed.

Lemma seg_app h pv ps1 ps2 q :
  seg h pv (ps1 ++ ps2) q <-> seg h pv ps1 (nxt ps2 q) /\ seg h (lst pv ps1) ps2 q.
Proof.
  revert pv. induction ps1 as [|[x a] ps1 IH]; intros pv; simpl; [tauto|].
  rewrite IH, nxt_app. tauto.
Qed.

Lemma seg_mono h h' pv ps q :
  (forall y, y ∈ ps.*1 -> h' !! y = h !! y) -> seg h pv ps q -> seg h' pv ps q.
Proof.
  revert pv. induction ps as [|[y b] ps IH]; intros pv Hy; csimpl; [done|].
  csimpl in Hy. intros [? ?]. split; [rewrite Hy; [done|left]|].
  apply IH; [|done]. intros z ?. apply Hy. by right.
Qed.

Lemma seg_frame h pv ps q x n :
  x ∉ ps.*1 -> seg h pv ps q -> seg (<[x:=n]> h) pv ps q.
Proof.
  intros Hx. apply seg_mono. intros y Hy. rewrite lookup_insert_ne; [done|congruence].
Qed.

Lemma seg_frame_delete h pv ps q x :
  x ∉ ps.*1 -> seg h pv ps q -> seg (delete x h) pv ps q.
Proof.
  intros Hx. apply seg_mono. intros y Hy. rewrite lookup_delete_ne; [done|congruence].
Qed.

Lemma seg_dom h pv ps q x : seg h pv ps q -> x ∈ ps.*1 -> x ∈ dom h.
Proof.
  revert pv. induction ps as [|[y b] ps IH]; intros pv; csimpl; [set_solver|].
  intros [Hy ?] [->|?]%elem_of_cons; [|eauto].
  by apply elem_of_dom_2 in Hy.
Qed.

Lemma seg_size h pv ps q : seg h pv ps q -> NoDup ps.*1 -> (length ps <= size h)%nat.
Proof.
  intros Hs Hn. rewrite <- (length_fmap fst ps), <- (size_list_to_set (C := gset ptr)) by done.
  rewrite <- size_dom. apply subseteq_size. intros x Hx.
  apply elem_of_list_to_set in Hx. by eapply seg_dom.
Qed.

(** The predecessor's [next], or the list head, is redirected. *)
Definition relink (pv : option ptr) (q : option ptr) (t : timer) : option timer :=
  match pv with
  | Some p => store p (set_next q) t
  | None => Some (set_head q t)
  end.

Lemma relink_seg t ps1 q q' :
  seg (mem t) None ps1 q -> NoDup ps1.*1 -> m_list_head t = nxt ps1 q ->
  exists t', relink (lst None ps1) q' t = Some t' /\
    m_list_head t' = nxt ps1 q' /\ m_ts_last t' = m_ts_last t /\
    seg (mem t') None ps1 q' /\
    (forall y, y ∉ ps1.*1 -> mem t' !! y = mem t !! y) /\ dom (mem t') = dom (mem t).
Proof.
  intros Hs Hn Hh. destruct ps1 as [|[y b] ps1 _] using rev_ind; simpl in *.
  { eexists. split_and!; try done. }
  rewrite lst_app. simpl. rewrite fmap_app in Hn. csimpl in Hn.
  apply list.NoDup_app in Hn as (Hn & Hd & _).
  apply seg_app in Hs as [Hs [Hy _]]. simpl in *.
  unfold store. rewrite Hy. simpl.
  eexists. split; [done|]. simpl. rewrite !nxt_app in *. simpl in *.
  split_and!; try done.
  - apply seg_app. split; simpl.
    + apply seg_frame; [|done]. intros ?. apply (Hd y); set_solver.
    + split; [|done]. by rewrite lookup_insert_eq.
  - intros z Hz. rewrite fmap_app in Hz. csimpl in Hz.
    rewrite lookup_insert_ne; [done|set_solver].
  - rewrite dom_insert_L. apply elem_of_dom_2 in Hy. set_solver.
Qed.

Lemma store_some p f t n :
  mem t !! p = Some n ->
  store p f t = Some (Tm (m_list_head t) (m_ts_last t) (<[p := f n]> (mem t))).
Proof. intros H. unfold store. by rewrite H. Qed.

(** Updating the first node of the rest of the list (its [prev] and delta). *)
Lemma store_opt_seg t ps pv pv' q g :
  seg (mem t) pv ps q -> NoDup ps.*1 -> q = None ->
  let f := fun n => set_prev pv' (set_delta (g (delta_time_msec n)) n) in
  exists t', store_opt (nxt ps q) f t = Some t' /\
    m_list_head t' = m_list_head t /\ m_ts_last t' = m_ts_last t /\
    seg (mem t') pv' (match ps with
                      | [] => []
                      | (y, b) :: r => (y, with_delta (g (i_delta b)) b) :: r
                      end) q /\
    (forall y, y ∉ ps.*1 -> mem t' !! y = mem t !! y) /\ dom (mem t') = dom (mem t).
Proof.
  intros Hs Hn -> f. destruct ps as [|[y b] r]; simpl in *.
  { exists t. done. }
  destruct Hs as [Hy Hs]. rewrite (store_some _ _ _ _ Hy). eexists. split; [done|]. simpl.
  apply list.NoDup_cons in Hn as [Hyr Hn]. split_and!; try done.
  - by rewrite lookup_insert_eq.
  - by apply seg_frame.
  - intros z Hz. csimpl in Hz. rewrite lookup_insert_ne; [done|set_solver].
  - rewrite dom_insert_L. apply elem_of_dom_2 in Hy. set_solver.
Qed.

Lemma add_head_fst d ps : (add_head d ps).*1 = ps.*1.
Proof. by destruct ps as [|[??]?]. Qed.

(** [remove_from_list] unlinks a node and leaves it, unchanged, in the heap. *)
Lemma remove_from_list_rep t ps1 x a ps2 :
  rep t (ps1 ++ (x, a) :: ps2) ->
  exists t', remove_from_list x t = Some t' /\
    rep t' (ps1 ++ add_head (i_delta a) ps2) /\ m_ts_last t' = m_ts_last t /\
    (forall y, y ∉ (ps1 ++ ps2).*1 -> mem t' !! y = mem t !! y) /\
    mem t !! x = Some (mk a (nxt ps2 None) (lst None ps1)) /\
    dom (mem t') = dom (mem t).
Proof.
  intros (Hh & Hs & Hn).
  apply seg_app in Hs as [Hs1 [Hx Hs2]]. simpl in Hs1, Hs2.
  rewrite fmap_app in Hn. csimpl in Hn.
  apply list.NoDup_app in Hn as (Hn1 & Hd & [Hx2 Hn2]%list.NoDup_cons).
  unfold remove_from_list. rewrite Hx. simpl. rewrite nxt_app in Hh. simpl in Hh.
  destruct (relink_seg t ps1 (Some x) (nxt ps2 None) Hs1 Hn1 Hh)
    as (t1 & Hr & Hh1 & Ht1 & Hs1' & Hf1 & Hd1).
  unfold relink in Hr. rewrite Hr. simpl.
  assert (seg (mem t1) (Some x) ps2 None) as Hs2'.
  { revert Hs2. apply seg_mono. intros y Hy. apply Hf1. set_solver. }
  destruct (store_opt_seg t1 ps2 (Some x) (lst None ps1) None
    (fun v => u32 (v + i_delta a)) Hs2' Hn2 eq_refl)
    as (t2 & Hr2 & Hh2 & Ht2 & Hs2'' & Hf2 & Hd2).
  exists t2. simpl in Hr2. split; [done|]. split; [split_and!|].
  - rewrite Hh2, Hh1, nxt_app. f_equal. by destruct ps2 as [|[??]?].
  - apply seg_app. split.
    + replace (nxt (add_head (i_delta a) ps2) None) with (nxt ps2 None)
        by (by destruct ps2 as [|[??]?]).
      revert Hs1'. apply seg_mono. intros y Hy. apply Hf2. set_solver.
    + by destruct ps2 as [|[??]?].
  - rewrite fmap_app, add_head_fst. apply list.NoDup_app. split_and!; try done. set_solver.
  - split_and!; try done; try congruence.
    intros y Hy. rewrite fmap_app in Hy. rewrite Hf2, Hf1; set_solver.
Qed.

Definition sub_head (d : Z) (ps : list (ptr * item)) : list (ptr * item) :=
  match ps with
  | [] => []
  | (y, b) :: r => (y, with_delta (u32 (i_delta b - d)) b) :: r
  end.

Lemma find_pos_spec fuel t pv ps tmp x a :
  seg (mem t) pv ps None -> (length ps <= fuel)%nat ->
  exists ps1 ps2 tmp',
    ps = ps1 ++ ps2 /\
    find_pos fuel t (nxt ps None) pv tmp = Some (nxt ps2 None, lst pv ps1, tmp') /\
    ins tmp x a ps = ps1 ++ (x, with_delta tmp' a) :: sub_head tmp' ps2.
Proof.
  revert fuel pv tmp. induction ps as [|[y b] ps IH]; intros fuel pv tmp Hs Hf; simpl in *.
  { exists [], [], tmp. split_and!; try done. by destruct fuel. }
  destruct Hs as [Hy Hs]. destruct fuel as [|fuel]; [lia|]. simpl. rewrite Hy. simpl.
  case_decide.
  - destruct (IH fuel (Some y) (u32 (tmp - i_delta b)) Hs ltac:(lia))
      as (ps1 & ps2 & tmp' & -> & Hp & Hi).
    exists ((y, b) :: ps1), ps2, tmp'. split_and!; [done|done|]. simpl. by rewrite Hi.
  - exists [], ((y, b) :: ps), tmp. done.
Qed.

Definition item_of (n : timer_node_t) : item :=
  Item (delta_time_msec n) (orig_time_msec n) (handler n) (user_data n) (req_type n).

(** [insert_to_list] refines the sorted insertion [ins]. *)
Lemma insert_to_list_rep t ps x n :
  rep t ps -> mem t !! x = Some n -> x ∉ ps.*1 ->
  exists t', insert_to_list x t = Some t' /\
    rep t' (ins (orig_time_msec n) x (item_of n) ps) /\ m_ts_last t' = m_ts_last t /\
    (forall y, y ∉ (x :: ps.*1) -> mem t' !! y = mem t !! y) /\ dom (mem t') = dom (mem t).
Proof.
  intros (Hh & Hs & Hn) Hx Hxp. unfold insert_to_list. rewrite Hx. simpl.
  pose proof (elem_of_dom_2 _ _ _ Hx) as Hxd.
  destruct (find_pos_spec (size (mem t)) t None ps (orig_time_msec n) x (item_of n) Hs)
    as (ps1 & ps2 & tmp & -> & Hp & Hi).
  { by eapply seg_size. }
  rewrite Hi. destruct (m_list_head t) as [h|] eqn:Eh.
  2: { destruct (ps1 ++ ps2) as [|[??]?] eqn:E; [|done].
    apply app_eq_nil in E as [-> ->]. rewrite (store_some _ _ _ _ Hx). simpl.
    eexists. split_and!; try done; simpl in *.
    - simplify_eq. split_and!; try done; simpl.
      + by rewrite lookup_insert_eq.
      + apply NoDup_singleton.
    - intros y Hy. rewrite lookup_insert_ne; [done|set_solver].
    - rewrite dom_insert_L. set_solver. }
  rewrite Hh, Hp. simpl. rewrite (store_some _ _ _ _ Hx). simpl.
  set (nx := set_prev (lst None ps1) _).
  set (t1 := Tm _ _ _).
  apply seg_app in Hs as [Hs1 Hs2].
  rewrite fmap_app in Hn, Hxp. apply list.NoDup_app in Hn as (Hn1 & Hd & Hn2).
  assert ((x ∉ ps1.*1) /\ (x ∉ ps2.*1)) as [Hx1 Hx2] by set_solver.
  destruct (relink_seg t1 ps1 (nxt ps2 None) (Some x)) as (t2 & Hr & Hh2 & Ht2 & Hs1' & Hf2 & Hd2).
  { by apply seg_frame. } { done. } { simpl. by rewrite Eh, Hh, nxt_app. }
  unfold relink in Hr. rewrite Hr. simpl.
  destruct (store_opt_seg t2 ps2 (lst None ps1) (Some x) None (fun v => u32 (v - tmp)))
    as (t3 & Hr3 & Hh3 & Ht3 & Hs3 & Hf3 & Hd3); [|done|done|].
  { apply (seg_mono (mem t1)). { intros y Hy. apply Hf2. set_solver. }
    by apply seg_frame. }
  exists t3. split; [done|]. split; [split_and!|].
  - rewrite Hh3, Hh2, nxt_app. done.
  - apply seg_app. split; [|split].
    + apply (seg_mono (mem t2)); [|done]. intros y Hy. apply Hf3. set_solver.
    + rewrite Hf3, Hf2 by done. simpl. rewrite lookup_insert_eq. unfold nx, mk. simpl.
      by destruct ps2 as [|[??]?].
    + by destruct ps2 as [|[??]?].
  - assert ((sub_head tmp ps2).*1 = ps2.*1) as E by (by destruct ps2 as [|[??]?]).
    rewrite fmap_app. csimpl. rewrite E. apply list.NoDup_app. split_and!; [done| |].
    + intros y Hy. apply not_elem_of_cons. split; [congruence|by apply Hd].
    + by apply list.NoDup_cons.
  - split_and!.
    + by rewrite Ht3, Ht2.
    + intros y Hy. rewrite Hf3, Hf2 by set_solver. simpl.
      rewrite lookup_insert_ne; [done|set_solver].
    + rewrite Hd3, Hd2. simpl. rewrite dom_insert_L. set_solver.
Qed.

(** ** Deadlines

    The bound [2^31] keeps every sum of deltas inside [int]. *)

Definition item_ok (p : ptr * item) : Prop :=
  0 <= i_delta p.2 /\ 0 <= i_orig p.2 < 2 ^ 31 /\ is_Some (i_handler p.2) /\
  i_req p.2 <> INVALID_TIMER.

Definition wf (base : Z) (ps : list (ptr * item)) : Prop :=
  Forall item_ok ps /\ Forall (fun p => p.2 < 2 ^ 31) (deadlines base ps).

Fixpoint ins_dl (x : ptr) (d : Z) (l : list (ptr * Z)) : list (ptr * Z) :=
  match l with
  | [] => [(x, d)]
  | (y, e) :: r => if decide (d >= e) then (y, e) :: ins_dl x d r else (x, d) :: l
  end.

Lemma deadlines_app base ps1 ps2 :
  exists base', deadlines base (ps1 ++ ps2) = deadlines base ps1 ++ deadlines base' ps2 /\
    (forall ps3, deadlines base (ps1 ++ ps3) = deadlines base ps1 ++ deadlines base' ps3) /\
    (Forall item_ok ps1 -> base <= base').
Proof.
  revert base. induction ps1 as [|[x a] ps1 IH]; intros base; simpl.
  { exists base. done. }
  destruct (IH (base + i_delta a)) as (b & H1 & H2 & H3).
  exists b. split_and!; [by rewrite H1|intros; by rewrite H2|].
  intros [Ha ?]%list.Forall_cons. destruct Ha as (Ha & _). simpl in Ha.
  specialize (H3 ltac:(done)). lia.
Qed.

Lemma deadlines_fst base ps : (deadlines base ps).*1 = ps.*1.
Proof.
  revert base. induction ps as [|[x a] ps IH]; intros base; csimpl; [done|]. by rewrite IH.
Qed.

Lemma deadlines_ge base ps : Forall item_ok ps -> Forall (fun p => base <= p.2) (deadlines base ps).
Proof.
  revert base. induction ps as [|[x a] ps IH]; intros base Ho; simpl; [done|].
  apply list.Forall_cons in Ho as [Ha Ho]. destruct Ha as (Ha & _). simpl in Ha.
  constructor; simpl; [lia|]. eapply list.Forall_impl; [by apply IH|]. simpl. intros; lia.
Qed.

Lemma wf_cons base x a ps :
  wf base ((x, a) :: ps) <-> item_ok (x, a) /\ base + i_delta a < 2 ^ 31 /\ wf (base + i_delta a) ps.
Proof. unfold wf. simpl. rewrite !list.Forall_cons. simpl. tauto. Qed.

(** Insertion keeps every other deadline and gives the new node its own. *)
Lemma ins_deadlines base tmp x a ps :
  0 <= base -> wf base ps -> item_ok (x, with_delta tmp a) -> base + tmp < 2 ^ 31 ->
  deadlines base (ins tmp x a ps) = ins_dl x (base + tmp) (deadlines base ps) /\
  wf base (ins tmp x a ps).
Proof.
  revert base tmp. induction ps as [|[y b] ps IH]; intros base tmp Hb Hw Hx Ht; simpl.
  { split; [done|]. apply wf_cons. split_and!; try done. }
  apply wf_cons in Hw as (Hy & Hyb & Hw).
  assert (0 <= tmp) by (by destruct Hx as (? & _)).
  assert (0 <= i_delta b) by (by destruct Hy as (? & _)).
  destruct (decide (tmp >= i_delta b)); rewrite wrap_small by lia.
  - rewrite decide_True by lia. simpl.
    destruct (IH (base + i_delta b) (tmp - i_delta b)) as [E ?]; try done; try lia.
    { destruct Hx as (?&?&?&?). split_and!; simpl in *; try done; lia. }
    rewrite E. replace (base + i_delta b + (tmp - i_delta b)) with (base + tmp) by lia.
    split; [done|]. by apply wf_cons.
  - rewrite decide_False by lia. simpl.
    replace (base + tmp + (i_delta b - tmp)) with (base + i_delta b) by lia.
    split; [done|]. apply wf_cons. split_and!; [done|done|]. apply wf_cons. simpl.
    replace (base + tmp + (i_delta b - tmp)) with (base + i_delta b) by lia.
    split_and!; [|done|done]. destruct Hy as (?&?&?&?). split_and!; simpl in *; try done; lia.
Qed.

(** Removal keeps every other deadline. *)
Lemma remove_deadlines base ps1 x a ps2 :
  0 <= base -> wf base (ps1 ++ (x, a) :: ps2) ->
  (exists l1 d l2, deadlines base (ps1 ++ (x, a) :: ps2) = l1 ++ (x, d) :: l2 /\
     l1.*1 = ps1.*1 /\ l2.*1 = ps2.*1 /\
     deadlines base (ps1 ++ add_head (i_delta a) ps2) = l1 ++ l2) /\
  wf base (ps1 ++ add_head (i_delta a) ps2).
Proof.
  intros Hb [Ho Hd]. destruct (deadlines_app base ps1 ((x, a) :: ps2)) as (b & E & E' & Hle).
  apply Forall_app in Ho as [Ho1 Ho2]. apply list.Forall_cons in Ho2 as [Hx Ho2].
  specialize (Hle Ho1). rewrite E in Hd. apply Forall_app in Hd as [Hd1 Hd2].
  simpl in Hd2. apply list.Forall_cons in Hd2 as [Hdx Hd2]. simpl in Hdx.
  assert (0 <= i_delta a) by (by destruct Hx as (? & _)).
  assert (deadlines b (add_head (i_delta a) ps2) = deadlines (b + i_delta a) ps2) as E2.
  { destruct ps2 as [|[y c] r]; [done|]. simpl in *.
    apply list.Forall_cons in Hd2 as [Hdy _]. apply list.Forall_cons in Ho2 as [Hy _].
    simpl in Hdy. assert (0 <= i_delta c) by (by destruct Hy as (? & _)).
    rewrite wrap_small by lia.
    by replace (b + (i_delta c + i_delta a)) with (b + i_delta a + i_delta c) by lia. }
  split.
  - exists (deadlines base ps1), (b + i_delta a), (deadlines (b + i_delta a) ps2).
    rewrite E, E', E2, !deadlines_fst. done.
  - split.
    + apply Forall_app. split; [done|]. destruct ps2 as [|[y c] r]; [done|]. simpl in *.
      apply list.Forall_cons in Ho2 as [Hy Hr]. constructor; [|done].
      destruct Hy as (?&?&?&?).
      pose proof (wrap_range 32 ltac:(lia) (i_delta c + i_delta a)).
      split_and!; simpl in *; try done; lia.
    + rewrite E', E2. by apply Forall_app.
Qed.

Lemma wf_base ps base : 0 <= base -> wf base ps -> wf 0 ps.
Proof.
  intros Hb [Ho Hd]. split; [done|]. clear Ho.
  assert (forall a b, a <= b -> Forall (fun p => p.2 < 2 ^ 31) (deadlines b ps) ->
            Forall (fun p : ptr * Z => p.2 < 2 ^ 31) (deadlines a ps)) as H; [|eauto].
  clear. induction ps as [|[x c] ps IH]; intros a b Hab; simpl; [done|].
  rewrite !list.Forall_cons. simpl. intros [? ?]. split; [lia|]. eapply IH; [|done]. lia.
Qed.

(** Overwriting the fields of a list node other than its links. *)
Lemma store_rep t ps1 x a ps2 f a' :
  rep t (ps1 ++ (x, a) :: ps2) ->
  (forall nx pv, f (mk a nx pv) = mk a' nx pv) ->
  exists t', store x f t = Some t' /\ rep t' (ps1 ++ (x, a') :: ps2) /\
    m_ts_last t' = m_ts_last t /\ dom (mem t') = dom (mem t) /\
    (forall y, y <> x -> mem t' !! y = mem t !! y).
Proof.
  intros (Hh & Hs & Hn) Hf. apply seg_app in Hs as [Hs1 [Hx Hs2]].
  rewrite (store_some _ _ _ _ Hx), Hf. eexists. split; [done|].
  assert (Hn' := Hn). rewrite fmap_app in Hn'. csimpl in Hn'.
  apply list.NoDup_app in Hn' as (_ & Hd & [Hx2 _]%list.NoDup_cons).
  split; [split_and!|split_and!]; simpl; try done.
  - rewrite Hh, !nxt_app. done.
  - apply seg_app. split; [|split].
    + apply seg_frame; [|done]. intros ?. apply (Hd x); [done|left].
    + by rewrite lookup_insert_eq.
    + by apply seg_frame.
  - revert Hn. rewrite !fmap_app. done.
  - rewrite dom_insert_L. apply elem_of_dom_2 in Hx. set_solver.
  - intros y Hy. by rewrite lookup_insert_ne.
Qed.

Lemma rep_lookup t ps1 x a ps2 :
  rep t (ps1 ++ (x, a) :: ps2) ->
  mem t !! x = Some (mk a (nxt ps2 None) (lst None ps1)).
Proof. intros (_ & Hs & _). by apply seg_app in Hs as [_ [Hx _]]. Qed.

Lemma rep_free t ps x : rep t ps -> x ∉ ps.*1 -> rep (free x t) ps.
Proof. intros (Hh & Hs & Hn) Hx. split_and!; try done. by apply seg_frame_delete. Qed.

Lemma rep_fresh t ps1 x a ps2 : rep t (ps1 ++ (x, a) :: ps2) -> x ∉ (ps1 ++ ps2).*1.
Proof.
  intros (_ & _ & Hn). rewrite fmap_app in *. csimpl in Hn.
  apply list.NoDup_app in Hn as (_ & Hd & [Hx2 _]%list.NoDup_cons).
  intros [H|H]%elem_of_app; [|done]. apply (Hd x); [done|left].
Qed.

(** [remove_timer] on a node of the list. *)
Lemma remove_timer_rep t ps1 x a ps2 :
  rep t (ps1 ++ (x, a) :: ps2) -> item_ok (x, a) ->
  exists t', remove_timer (Some x) (i_handler a) t = Some t' /\
    rep t' (ps1 ++ add_head (i_delta a) ps2) /\ m_ts_last t' = m_ts_last t /\
    mem t' !! x = None /\ dom (mem t') = dom (mem t) ∖ {[x]}.
Proof.
  intros Hr (_ & _ & [h Eh] & Hreq). simpl in *.
  unfold remove_timer, is_node_invalid. simpl. rewrite (rep_lookup _ _ _ _ _ Hr). simpl.
  rewrite Eh. rewrite !bool_decide_eq_false_2, bool_decide_eq_true_2 by done. simpl.
  destruct (store_rep _ _ _ _ _ (set_reg None INVALID_TIMER)
    (Item (i_delta a) (i_orig a) None (i_data a) INVALID_TIMER) Hr)
    as (t1 & -> & Hr1 & Ht1 & Hd1 & _); [done|]. simpl.
  destruct (remove_from_list_rep _ _ _ _ _ Hr1) as (t2 & -> & Hr2 & Ht2 & _ & _ & Hd2).
  simpl in *. eexists. split; [done|]. split_and!; simpl.
  - apply rep_free; [done|]. rewrite fmap_app, add_head_fst, <- fmap_app.
    by eapply rep_fresh.
  - congruence.
  - by rewrite lookup_delete_eq.
  - rewrite dom_delete_L. congruence.
Qed.

Lemma add_head_0 ps base : wf base ps -> 0 <= base -> add_head 0 ps = ps.
Proof.
  intros Hw Hb. destruct ps as [|[y b] r]; [done|]. apply wf_cons in Hw as (Hy & ? & _).
  destruct Hy as (? & _). simpl in *. rewrite Z.add_0_r, wrap_small by lia. by destruct b.
Qed.

(** One node of the expiry round: a periodic node is re-armed at its period. *)
Definition rearm (rest : list (ptr * item)) (p : ptr * item) : list (ptr * item) :=
  match i_req p.2 with
  | PERIODIC_TIMER => ins (i_orig p.2) p.1 p.2 rest
  | _ => rest
  end.

Definition fires (can_run : ptr -> bool) (p : ptr * item) : list (nat * Z) :=
  match i_handler p.2 with
  | Some h => if can_run p.1 then [(h, i_data p.2)] else []
  | None => []
  end.

Definition zero (p : ptr * item) : Prop := i_delta p.2 = 0.
Definition period_ok (p : ptr * item) : Prop := i_req p.2 = PERIODIC_TIMER -> 0 < i_orig p.2.
Definition head_pos (ps : list (ptr * item)) : Prop :=
  match ps with [] => True | (_, b) :: _ => 0 < i_delta b end.

Lemma ins_zeros tmp x a zs rest :
  0 <= tmp < 2 ^ 32 -> Forall zero zs -> ins tmp x a (zs ++ rest) = zs ++ ins tmp x a rest.
Proof.
  intros Ht Hz. induction Hz as [|[y b] zs Hy _ IH]; [done|]. simpl. unfold zero in Hy.
  simpl in Hy. rewrite decide_True by lia. rewrite Hy, Z.sub_0_r, wrap_small, IH by lia. done.
Qed.

Lemma rearm_head_pos p rest :
  item_ok p -> period_ok p -> head_pos rest -> head_pos (rearm rest p).
Proof.
  destruct p as [x a]. intros Hi Hp Hh. unfold rearm. simpl.
  unfold period_ok in Hp. simpl in Hp. destruct (i_req a); try done.
  specialize (Hp eq_refl). destruct rest as [|[y b] r]; simpl; [done|].
  by case_decide.
Qed.

(** The node the loop stops at is not expired by the re-arming before it. *)
Lemma rearm_next_pos p y b r base :
  0 <= base -> item_ok p -> period_ok p -> wf base ((y, b) :: r) -> 0 < i_delta b ->
  exists ps1 b' ps2, rearm ((y, b) :: r) p = ps1 ++ (y, b') :: ps2 /\ 0 < i_delta b'.
Proof.
  destruct p as [x a]. intros Hb Hi Hp (Hy & ? & Hw)%wf_cons Hd. unfold rearm. simpl.
  unfold period_ok in Hp. simpl in Hp.
  destruct (i_req a); try (exists [], b, r; done).
  specialize (Hp eq_refl). destruct Hy as (? & _). simpl in *. case_decide.
  - by eexists [], b, _.
  - exists [(x, with_delta (i_orig a) a)], (with_delta (i_delta b - i_orig a) b), r.
    rewrite wrap_small by lia. simpl. split; [done|lia].
Qed.

Lemma expire_rep t x a ps nx pv :
  rep t ((x, a) :: ps) -> wf 0 ((x, a) :: ps) -> zero (x, a) ->
  exists t', expire x (mk a nx pv) t = Some t' /\ rep t' (rearm ps (x, a)) /\
    m_ts_last t' = m_ts_last t.
Proof.
  intros Hr Hw Hz. apply wf_cons in Hw as (Hi & ? & Hw). unfold zero in Hz. simpl in Hz.
  rewrite Hz in Hw. pose proof (add_head_0 _ _ Hw ltac:(lia)) as E0.
  unfold expire, rearm. simpl. destruct (i_req a) eqn:Er.
  - destruct (remove_from_list_rep t [] x a ps Hr) as (t1 & -> & Hr1 & Ht1 & Hf & Hx & Hd).
    simpl in *. rewrite Hz, E0 in Hr1. pose proof (rep_fresh t [] x a ps Hr) as Hxp.
    assert (mem t1 !! x = Some (mk a (nxt ps None) None)) as Hx1
      by (rewrite Hf; [done|done]).
    rewrite (store_some _ _ _ _ Hx1). simpl.
    destruct (insert_to_list_rep (Tm (m_list_head t1) (m_ts_last t1)
      (<[x := mk a None None]> (mem t1))) ps x (mk a None None))
      as (t2 & Ht2 & Hr2 & Hts & _); simpl.
    + destruct Hr1 as (?&?&?). split_and!; try done. by apply seg_frame.
    + by rewrite lookup_insert_eq.
    + done.
    + exists t2. split; [done|]. split; [|by rewrite Hts].
      replace a with (item_of (mk a None None)) at 2 by (by destruct a). done.
  - destruct (remove_timer_rep t [] x a ps Hr Hi) as (t1 & -> & Hr1 & Ht1 & _).
    rewrite Hz, E0 in Hr1. by exists t1.
  - by destruct Hi as (_ & _ & _ & ?).
Qed.

Lemma rearm_wf base p ps :
  0 <= base -> wf base ps -> item_ok p -> base + i_orig p.2 < 2 ^ 31 ->
  wf base (rearm ps p) /\
  deadlines base (rearm ps p) =
    match i_req p.2 with
    | PERIODIC_TIMER => ins_dl p.1 (base + i_orig p.2) (deadlines base ps)
    | _ => deadlines base ps
    end.
Proof.
  destruct p as [x a]. intros Hb Hw Hi Ho. unfold rearm. simpl in *.
  destruct (i_req a) eqn:Er; try done.
  destruct (ins_deadlines base (i_orig a) x a ps) as [-> ?]; try done.
  destruct Hi as (?&?&?&?). split_and!; simpl in *; try done; lia.
Qed.

Lemma wf_zeros zs rest : Forall zero zs -> wf 0 (zs ++ rest) -> Forall item_ok zs /\ wf 0 rest.
Proof.
  induction 1 as [|[x a] zs Hx _ IH]; [done|]. simpl. intros (Hi & _ & Hw)%wf_cons.
  unfold zero in Hx. simpl in Hx. rewrite Hx in Hw. apply IH in Hw as [? ?].
  split; [by constructor|done].
Qed.

Lemma process_loop_spec fuel can_run zs rest iter t :
  rep t (zs ++ rest) -> wf 0 (zs ++ rest) -> Forall zero zs -> Forall period_ok zs ->
  head_pos rest -> (length zs <= fuel)%nat ->
  match zs with
  | (x, _) :: _ => iter = Some x
  | [] => iter = None \/ exists y n, iter = Some y /\ mem t !! y = Some n /\ delta_time_msec n <> 0
  end ->
  exists t', process_loop fuel can_run iter t = Some (concat (fires can_run <$> zs), t') /\
    rep t' (foldl rearm rest zs) /\ wf 0 (foldl rearm rest zs) /\ m_ts_last t' = m_ts_last t.
Proof.
  revert fuel rest iter t. induction zs as [|[x a] zs IH];
    intros fuel rest iter t Hr Hw Hz Hp Hh Hf Hit.
  { simpl in *. destruct Hit as [-> | (y & n & -> & Hy & Hne)].
    - exists t. by destruct fuel.
    - exists t. destruct fuel; simpl; rewrite Hy; simpl; by rewrite decide_False. }
  subst iter. destruct fuel as [|fuel]; simpl in Hf; [lia|].
  apply list.Forall_cons in Hz as [Hx Hz]. apply list.Forall_cons in Hp as [Hpx Hp].
  pose proof Hr as Hl. apply (rep_lookup t [] x a (zs ++ rest)) in Hl.
  change (((x, a) :: zs) ++ rest) with ((x, a) :: (zs ++ rest)) in *.
  destruct (expire_rep t x a (zs ++ rest) (nxt (zs ++ rest) None) None Hr Hw Hx)
    as (t1 & He & Hr1 & Ht1).
  apply wf_cons in Hw as (Hi & _ & Hw). unfold zero in Hx. simpl in Hx. rewrite Hx in Hw.
  destruct (wf_zeros zs rest Hz Hw) as [Hzi Hwr].
  assert (0 <= i_orig a < 2 ^ 31) by (by destruct Hi as (_ & ? & _)).
  assert (rearm (zs ++ rest) (x, a) = zs ++ rearm rest (x, a)) as Er.
  { unfold rearm. simpl. destruct (i_req a); [|done|done]. apply ins_zeros; [lia|done]. }
  rewrite Er in Hr1.
  destruct (rearm_wf 0 (x, a) (zs ++ rest)) as [Hw1 _]; try done; try (simpl; lia).
  rewrite Er in Hw1.
  destruct (IH fuel (rearm rest (x, a)) (nxt (zs ++ rest) None) t1)
    as (t2 & Hl2 & Hr2 & Hw2 & Ht2); try done; try lia.
  { by apply rearm_head_pos. }
  { destruct zs as [|[y b] zs]; [|done]. simpl in *.
    destruct rest as [|[y b] r]; [by left|right]. simpl in Hh.
    destruct (rearm_next_pos (x, a) y b r 0) as (q1 & b' & q2 & E & ?); try done.
    rewrite E in Hr1. pose proof (rep_lookup _ _ _ _ _ Hr1).
    eexists y, _. split_and!; [done|done|]. simpl. lia. }
  exists t2. split_and!; [|done|done|congruence].
  simpl. rewrite Hl. simpl. rewrite decide_True by done.
  rewrite He. simpl. rewrite Hl2. simpl. done.
Qed.

(** ** The passing of time *)

Fixpoint elapsed (e : Z) (ps : list (ptr * item)) : list (ptr * item) :=
  match ps with
  | [] => []
  | (x, a) :: r =>
    if decide (e > 0) then
      if decide (i_delta a > e) then (x, with_delta (i_delta a - e) a) :: r
      else (x, with_delta 0 a) :: elapsed (e - i_delta a) r
    else ps
  end.

Lemma elapsed_fst e ps : (elapsed e ps).*1 = ps.*1.
Proof.
  revert e. induction ps as [|[x a] r IH]; intros e; simpl; [done|].
  repeat case_decide; csimpl; [done| |done]. by rewrite IH.
Qed.

Lemma deadlines_shift k base ps :
  deadlines (base + k) ps = (fun p => (p.1, p.2 + k)) <$> deadlines base ps.
Proof.
  revert base. induction ps as [|[x a] r IH]; intros base; csimpl; [done|].
  rewrite <- IH. f_equal; [f_equal; lia|f_equal; lia].
Qed.

Lemma elapsed_deadlines base e ps :
  Forall item_ok ps -> 0 <= e ->
  deadlines 0 (elapsed e ps) = (fun p => (p.1, Z.max 0 (p.2 - base - e))) <$> deadlines base ps.
Proof.
  revert base e. induction ps as [|[x a] r IH]; intros base e Ho He; csimpl; [done|].
  apply list.Forall_cons in Ho as [(Ha & _) Ho]. simpl in Ha.
  assert (e <= i_delta a -> forall c, c = i_delta a - e ->
    deadlines c r = (fun p => (p.1, Z.max 0 (p.2 - base - e))) <$> deadlines (base + i_delta a) r)
    as Hshift.
  { intros Hle c ->.
    replace (i_delta a - e) with (base + i_delta a + (- base - e)) by lia.
    rewrite deadlines_shift. apply list_fmap_ext. intros i [y d] Hd. simpl. f_equal.
    pose proof (deadlines_ge (base + i_delta a) r Ho) as Hg.
    eapply Forall_lookup_1 in Hg; [|done]. simpl in Hg. lia. }
  repeat case_decide; simpl.
  - f_equal; [f_equal; lia|]. apply Hshift; lia.
  - f_equal; [f_equal; lia|]. rewrite (IH (base + i_delta a)) by (done || lia).
    apply list_fmap_ext. intros i [y d] _. simpl. do 2 f_equal. lia.
  - f_equal; [f_equal; lia|]. apply Hshift; lia.
Qed.

Lemma elapsed_ok e ps : Forall item_ok ps -> 0 <= e -> Forall item_ok (elapsed e ps).
Proof.
  intros Ho. revert e. induction Ho as [|[x a] r Hx Hr IH]; intros e He; simpl; [done|].
  destruct Hx as (?&?&?&?). repeat case_decide; constructor;
    try apply IH; try (split_and!); simpl in *; try done; lia.
Qed.

Lemma elapsed_wf e ps : wf 0 ps -> 0 <= e -> wf 0 (elapsed e ps).
Proof.
  intros [Ho Hd] He. split; [by apply elapsed_ok|].
  rewrite (elapsed_deadlines 0 e ps Ho He). apply Forall_fmap.
  eapply list.Forall_impl; [exact Hd|]. simpl. intros; lia.
Qed.

Lemma elapse_rep fuel e ps1 ps2 t :
  rep t (ps1 ++ ps2) -> wf 0 ps2 -> 0 <= e < 2 ^ 31 -> (length ps2 <= fuel)%nat ->
  exists t', elapse fuel e (nxt ps2 None) t = Some t' /\ rep t' (ps1 ++ elapsed e ps2) /\
    m_ts_last t' = m_ts_last t.
Proof.
  revert fuel e ps1 t. induction ps2 as [|[x a] r IH]; intros fuel e ps1 t Hr Hw He Hf.
  { exists t. by destruct fuel. }
  simpl in *. destruct fuel as [|fuel]; [lia|]. simpl.
  case_decide; [|by exists t].
  rewrite (rep_lookup _ _ _ _ _ Hr). simpl.
  apply wf_cons in Hw as ((Ha & _) & Hb & Hw). simpl in Ha, Hb.
  rewrite s32_small by lia. case_decide.
  - rewrite wrap_small by lia.
    destruct (store_rep _ _ _ _ _ (set_delta (i_delta a - e))
      (with_delta (i_delta a - e) a) Hr) as (t1 & -> & Hr1 & Ht1 & _); [done|].
    by exists t1.
  - destruct (store_rep _ _ _ _ _ (set_delta 0) (with_delta 0 a) Hr)
      as (t1 & -> & Hr1 & Ht1 & _); [done|]. simpl.
    rewrite s32_small by lia. rewrite cons_middle, app_assoc in Hr1.
    destruct (IH fuel (e - i_delta a) (ps1 ++ [(x, with_delta 0 a)]) t1)
      as (t2 & Ht2 & Hr2 & ?); try done; try lia.
    { apply (wf_base _ (0 + i_delta a)); [lia|done]. }
    exists t2. split; [done|]. split; [|congruence].
    by rewrite cons_middle, app_assoc.
Qed.

(** ** Unregistering every timer of a handler *)

Abbreviation of_handler hd ps := (filter (fun p : ptr * item => i_handler p.2 = hd) ps).*1.

Lemma of_handler_add_head hd d ps : of_handler hd (add_head d ps) = of_handler hd ps.
Proof.
  destruct ps as [|[y b] r]; [done|]. simpl. rewrite !filter_cons. simpl. by case_decide.
Qed.

Lemma remove_all_rep fuel hd ps1 ps2 t :
  rep t (ps1 ++ ps2) -> wf 0 (ps1 ++ ps2) -> (length ps2 <= fuel)%nat ->
  exists t' ps', remove_all_loop fuel (nxt ps2 None) hd t = Some t' /\
    rep t' (ps1 ++ ps') /\ wf 0 (ps1 ++ ps') /\
    deadlines 0 (ps1 ++ ps') =
      filter (fun q => q.1 ∉ of_handler hd ps2) (deadlines 0 (ps1 ++ ps2)).
Proof.
  revert ps1 ps2 t. induction fuel as [|fuel IH]; intros ps1 ps2 t Hr Hw Hf;
    destruct ps2 as [|[x a] r]; simpl in Hf; try lia.
  1, 2: exists t, []; split_and!; try done;
    symmetry; apply filter_id; set_solver.
  simpl. rewrite (rep_lookup _ _ _ _ _ Hr). simpl. rewrite filter_cons.
  assert (item_ok (x, a)) as Hi.
  { destruct Hw as [Ho _]. by apply Forall_app in Ho as [_ [? _]%list.Forall_cons]. }
  simpl. destruct (decide (i_handler a = hd)) as [Eh|Eh].
  - assert (is_Some (i_handler a) /\ i_req a <> INVALID_TIMER) as [[h Ea] Hq]
      by (by destruct Hi as (?&?&?&?)).
    destruct (remove_timer_rep _ _ _ _ _ Hr Hi) as (t1 & Ht1 & Hr1 & _).
    unfold remove_timer in Ht1. simpl in Ht1.
    rewrite (rep_lookup _ _ _ _ _ Hr) in Ht1. simpl in Ht1. rewrite Eh in Ht1.
    assert (is_node_invalid (mk a (nxt r None) (lst None ps1)) = false) as Ev.
    { unfold is_node_invalid. simpl. rewrite Ea. by rewrite !bool_decide_eq_false_2. }
    rewrite Ev in *. rewrite bool_decide_eq_true_2 in * by done. simpl in *.
    destruct (store x _ t) as [s1|]; simpl in *; [|done].
    destruct (remove_from_list x s1) as [s2|]; simpl in *; [|done]. simplify_eq.
    destruct (remove_deadlines 0 ps1 x a r ltac:(lia) Hw)
      as [(l1 & d & l2 & E1 & E2 & E3 & E4) Hw1].
    replace (nxt r None) with (nxt (add_head (i_delta a) r) None)
      by (by destruct r as [|[??]?]).
    destruct (IH ps1 (add_head (i_delta a) r) (free x s2)) as (t' & ps' & Hl & Hr' & Hw' & Hd);
      [done|done|by destruct r as [|[??]?]; simpl in *; lia|].
    exists t', ps'. split_and!; try done. rewrite Hd, E1, E4, of_handler_add_head.
    pose proof (rep_fresh _ _ _ _ _ Hr) as Hx. rewrite fmap_app, <- E2, <- E3 in Hx.
    rewrite !list.filter_app, filter_cons_False by (csimpl; set_solver). csimpl.
    f_equal; apply filter_ext; intros [y e] Hy; csimpl;
      apply (list_elem_of_fmap_2' fst) with (y := y) in Hy; try done; set_solver.
  - rewrite cons_middle, app_assoc in Hr, Hw |- *.
    destruct (IH (ps1 ++ [(x, a)]) r t) as (t' & ps' & Hl & Hr' & Hw' & Hd); [done|done|lia|].
    exists t', ((x, a) :: ps'). rewrite <- app_assoc in Hr', Hw', Hd. simpl in *.
    split_and!; done.
Qed.

(** ** Properties *)

Lemma ins_dl_split x d base ps :
  Forall item_ok ps ->
  exists l1 l2, deadlines base ps = l1 ++ l2 /\
    ins_dl x d (deadlines base ps) = l1 ++ (x, d) :: l2 /\
    Forall (fun p => p.2 <= d) l1 /\ Forall (fun p => d < p.2) l2.
Proof.
  revert base. induction ps as [|[y b] r IH]; intros base Ho; simpl.
  { exists [], []. done. }
  apply list.Forall_cons in Ho as [Hy Ho]. case_decide.
  - destruct (IH (base + i_delta b) Ho) as (l1 & l2 & -> & -> & ? & ?).
    exists ((y, base + i_delta b) :: l1), l2. split_and!; try done.
    constructor; [simpl; lia|done].
  - exists [], ((y, base + i_delta b) :: deadlines (base + i_delta b) r).
    split_and!; try done. constructor; simpl; [lia|].
    eapply list.Forall_impl; [by apply deadlines_ge|]. simpl. intros; lia.
Qed.

(** C12: Registering a timer.  On a well-formed timer list, [add_new_timer]
    returns, the node gets exactly the requested deadline, every other
    deadline is unchanged, and the node stands after all the timers due no
    later than it and before all those due later (so timers due at the same
    time fire in registration order). *)
Theorem add_new_timer_correct t ps x n timeout h data rt :
  rep t ps -> wf 0 ps -> mem t !! x = Some n -> x ∉ ps.*1 ->
  0 <= timeout < 2 ^ 31 -> rt <> INVALID_TIMER ->
  exists t' ps' l1 l2,
    add_new_timer timeout x (Some h) data rt t = Some t' /\ rep t' ps' /\ wf 0 ps' /\
    deadlines 0 ps = l1 ++ l2 /\ deadlines 0 ps' = l1 ++ (x, timeout) :: l2 /\
    Forall (fun p => p.2 <= timeout) l1 /\ Forall (fun p => timeout < p.2) l2.
Proof.
  intros Hr Hw Hx Hxp Ht Hrt. unfold add_new_timer. rewrite (store_some _ _ _ _ Hx). simpl.
  rewrite lookup_insert_eq. simpl.
  unfold is_node_invalid. simpl. rewrite !bool_decide_eq_false_2 by done. simpl.
  set (n' := Node _ _ _ _ _ _ _). set (t1 := Tm _ _ _).
  destruct (insert_to_list_rep t1 ps x n') as (t2 & Ht2 & Hr2 & _); [| |done|].
  { destruct Hr as (?&?&?). split_and!; try done. by apply seg_frame. }
  { simpl. by rewrite lookup_insert_eq. }
  destruct (ins_deadlines 0 timeout x (item_of n') ps) as [E Hw2]; try done; try lia.
  { split_and!; simpl; try done; lia. }
  destruct (ins_dl_split x timeout 0 ps) as (l1 & l2 & E1 & E2 & ? & ?); [by destruct Hw|].
  exists t2, (ins timeout x (item_of n') ps), l1, l2. split_and!; try done.
  by rewrite E, Z.add_0_l.
Qed.

Definition ex_node : timer_node_t := Node 0 0 None 0 INVALID_TIMER None None.

Lemma add_new_timer_correct_witness :
  exists t' ps' l1 l2,
    add_new_timer 30 1 (Some 5%nat) 0 ONE_SHOT_TIMER
      (Tm None (Timespec 0 0) {[ 1%nat := ex_node ]}) = Some t' /\
    rep t' ps' /\ wf 0 ps' /\
    deadlines 0 [] = l1 ++ l2 /\ deadlines 0 ps' = l1 ++ (1%nat, 30) :: l2 /\
    Forall (fun p => p.2 <= 30) l1 /\ Forall (fun p => 30 < p.2) l2.
Proof.
  apply (add_new_timer_correct (Tm None (Timespec 0 0) {[ 1%nat := ex_node ]}) [] 1 ex_node
    30 5 0 ONE_SHOT_TIMER).
  - split_and!; try done. constructor.
  - split; constructor.
  - reflexivity.
  - apply not_elem_of_nil.
  - lia.
  - done.
Defined.

(** Unregistering a timer.  [remove_timer] of a node of the list frees the
    node and keeps the deadline and the order of every other timer. *)
Theorem remove_timer_correct t ps1 x a ps2 :
  rep t (ps1 ++ (x, a) :: ps2) -> wf 0 (ps1 ++ (x, a) :: ps2) ->
  exists t' ps',
    remove_timer (Some x) (i_handler a) t = Some t' /\ rep t' ps' /\ wf 0 ps' /\
    mem t' !! x = None /\
    deadlines 0 ps' = filter (fun p => p.1 <> x) (deadlines 0 (ps1 ++ (x, a) :: ps2)).
Proof.
  intros Hr Hw.
  assert (item_ok (x, a)) as Hi.
  { destruct Hw as [Ho _]. by apply Forall_app in Ho as [_ [? _]%list.Forall_cons]. }
  destruct (remove_timer_rep _ _ _ _ _ Hr Hi) as (t' & Ht & Hr' & _ & Hx & _).
  destruct (remove_deadlines 0 ps1 x a ps2 ltac:(lia) Hw)
    as [(l1 & d & l2 & E1 & E2 & E3 & E4) Hw'].
  exists t', (ps1 ++ add_head (i_delta a) ps2). split_and!; try done.
  pose proof (rep_fresh _ _ _ _ _ Hr) as Hxp. rewrite fmap_app, <- E2, <- E3 in Hxp.
  rewrite E1, E4, list.filter_app, filter_cons_False by (simpl; tauto).
  assert (forall l : list (ptr * Z), x ∉ l.*1 -> filter (fun p => p.1 <> x) l = l) as Hf.
  { intros l Hl. apply filter_id. intros [y e] Hy <-. apply Hl.
    by apply (list_elem_of_fmap_2 fst) in Hy. }
  rewrite !Hf; [done|set_solver|set_solver].
Qed.

Definition ex_rt_a := Item 30 30 (Some 5%nat) 0 ONE_SHOT_TIMER.

Lemma remove_timer_correct_witness :
  exists t' ps',
    remove_timer (Some 1%nat) (Some 5%nat)
      (Tm (Some 1%nat) (Timespec 0 0) {[ 1%nat := mk ex_rt_a None None ]}) = Some t' /\
    rep t' ps' /\ wf 0 ps' /\ mem t' !! 1%nat = None /\
    deadlines 0 ps' = filter (fun p => p.1 <> 1%nat) (deadlines 0 [(1%nat, ex_rt_a)]).
Proof.
  apply (remove_timer_correct (Tm (Some 1%nat) (Timespec 0 0) {[ 1%nat := mk ex_rt_a None None ]})
    [] 1 ex_rt_a []).
  - split_and!; try done. apply NoDup_singleton.
  - split; apply Forall_singleton; [split_and!|]; simpl; done || lia.
Defined.

(** The passing of time.  [update_timeout] takes the milliseconds elapsed
    since the last call (never a negative amount) off every deadline, stopping
    at zero, and returns the time to the first deadline, or
    [INFINITE_TIMEOUT] when no timer is registered. *)
Theorem update_timeout_correct t ps now :
  rep t ps -> wf 0 ps ->
  let e := Z.max 0 (s32 (ts_to_msec (ts_sub now (m_ts_last t)))) in
  exists t' ps' r,
    update_timeout (Some now) t = Some (r, t') /\ rep t' ps' /\ wf 0 ps' /\
    deadlines 0 ps' = (fun p => (p.1, Z.max 0 (p.2 - e))) <$> deadlines 0 ps /\
    r = match deadlines 0 ps' with [] => INFINITE_TIMEOUT | (_, d) :: _ => d end /\
    m_ts_last t' = (if decide (0 < e) then now else m_ts_last t).
Proof.
  intros Hr Hw e. assert (He : e = Z.max 0 (s32 (ts_to_msec (ts_sub now (m_ts_last t))))) by done.
  clearbody e. unfold update_timeout.
  set (dm := s32 (ts_to_msec _)) in *. pose proof (s32_range (ts_to_msec (ts_sub now (m_ts_last t)))).
  fold dm in H. set (t1 := if decide (dm > 0) then _ else _).
  assert (rep t1 ps) as Hr1 by (subst t1; by case_decide).
  assert (m_ts_last t1 = if decide (0 < e) then now else m_ts_last t) as Hl1
    by (subst t1; repeat case_decide; try done; lia).
  clearbody t1.
  assert (elapsed dm ps = elapsed e ps) as Ee.
  { destruct (decide (dm > 0)) as [Hp|Hp]; [by replace e with dm by lia|].
    destruct ps as [|[x a] r]; [done|]. simpl. by rewrite !decide_False by lia. }
  assert (deadlines 0 (elapsed e ps) =
    (fun p => (p.1, Z.max 0 (p.2 - e))) <$> deadlines 0 ps) as Ed.
  { destruct Hw as [Ho _]. rewrite (elapsed_deadlines 0 e ps Ho) by lia.
    apply list_fmap_ext. intros ? [??] _. simpl. do 2 f_equal. lia. }
  pose proof (elapsed_wf e ps Hw ltac:(lia)) as Hw'.
  assert (m_list_head t1 = nxt ps None) as Eh by (by destruct Hr1).
  rewrite Eh. destruct ps as [|[x a] r]; simpl.
  { exists t1, [], INFINITE_TIMEOUT. done. }
  destruct (decide (dm > 0)) as [Hp|Hp].
  - destruct (elapse_rep (size (mem t1)) dm [] ((x, a) :: r) t1) as (t2 & Ht2 & Hr2 & Hl2);
      [done|done|lia| |].
    { destruct Hr1 as (_ & ? & ?). by eapply seg_size. }
    simpl in Ht2. rewrite Ht2. simpl in Hr2 |- *.
    replace dm with e in Hr2 by lia. change (if decide (e > 0) then _ else _) with (elapsed e ((x, a) :: r)) in Hr2.
    destruct (elapsed e ((x, a) :: r)) as [|[x' a'] r'] eqn:E'.
    { apply (f_equal (fmap fst)) in E'. rewrite elapsed_fst in E'. done. }
    assert (x' = x) as ->.
    { apply (f_equal (fmap fst)) in E'. rewrite elapsed_fst in E'. csimpl in E'. congruence. }
    rewrite (rep_lookup _ [] _ _ _ Hr2). simpl.
    exists t2, ((x, a') :: r'), (s32 (i_delta a')). split_and!; try done; try congruence.
    apply wf_cons in Hw' as ((? & _) & ? & _). simpl in *. rewrite s32_small; lia.
  - assert (e = 0) as E0 by lia.
    assert (elapse (size (mem t1)) dm (Some x) t1 = Some t1) as Ht2
      by (by destruct (size (mem t1)); simpl; rewrite decide_False).
    rewrite Ht2. simpl. rewrite (rep_lookup _ [] _ _ _ Hr1). simpl.
    apply wf_cons in Hw as Ha. destruct Ha as ((? & _) & ? & _). simpl in *.
    exists t1, ((x, a) :: r), (s32 (i_delta a)). split_and!; try done.
    + rewrite <- Ed, <- Ee. simpl. by rewrite decide_False by lia.
    + simpl. rewrite s32_small; lia.
Qed.

Definition ex_ut_a := Item 30 30 (Some 5%nat) 0 ONE_SHOT_TIMER.
Definition ex_ut_t := Tm (Some 1%nat) (Timespec 0 0) {[ 1%nat := mk ex_ut_a None None ]}.

Lemma update_timeout_correct_witness :
  exists t' ps' r,
    update_timeout (Some (Timespec 0 12000000)) ex_ut_t = Some (r, t') /\ rep t' ps' /\ wf 0 ps' /\
    deadlines 0 ps' = (fun p => (p.1, Z.max 0 (p.2 - 12))) <$> deadlines 0 [(1%nat, ex_ut_a)] /\
    r = match deadlines 0 ps' with [] => INFINITE_TIMEOUT | (_, d) :: _ => d end /\
    m_ts_last t' = Timespec 0 12000000.
Proof.
  apply (update_timeout_correct ex_ut_t [(1%nat, ex_ut_a)] (Timespec 0 12000000)).
  - split_and!; try done. apply NoDup_singleton.
  - split; apply Forall_singleton; [split_and!|]; simpl; done || lia.
Defined.

(** The timers due now and the others. *)
Fixpoint due (ps : list (ptr * item)) : list (ptr * item) :=
  match ps with
  | [] => []
  | p :: r => if decide (i_delta p.2 = 0) then p :: due r else []
  end.
Fixpoint pending (ps : list (ptr * item)) : list (ptr * item) :=
  match ps with
  | [] => []
  | p :: r => if decide (i_delta p.2 = 0) then pending r else ps
  end.

Lemma due_pending ps :
  Forall item_ok ps -> ps = due ps ++ pending ps /\ Forall zero (due ps) /\ head_pos (pending ps).
Proof.
  induction 1 as [|[x a] r Hx _ IH]; simpl; [done|]. case_decide.
  - destruct IH as (E & ? & ?). split_and!; [simpl; by f_equal|by constructor|done].
  - split_and!; try done. simpl. destruct Hx as (? & _). simpl in *. lia.
Qed.

Lemma foldl_rearm_deadlines rest zs :
  wf 0 rest -> Forall item_ok zs ->
  deadlines 0 (foldl rearm rest zs) =
    foldl (fun l p => match i_req p.2 with
                      | PERIODIC_TIMER => ins_dl p.1 (i_orig p.2) l
                      | _ => l
                      end) (deadlines 0 rest) zs.
Proof.
  intros Hw Hz. revert rest Hw. induction Hz as [|p zs Hp _ IH]; intros rest Hw; simpl; [done|].
  destruct (rearm_wf 0 p rest) as [Hw' E]; try done; [destruct Hp as (_ & ? & _); lia|].
  by rewrite IH, E, Z.add_0_l.
Qed.

(** C38: The expiry round.  On a well-formed list whose periodic timers have a
    positive period, [process_registered_timers] terminates, runs the handlers
    of exactly the timers due now, in list order (those whose lock could be
    taken), forgets the one-shot ones, re-arms each periodic one a full
    period from now, and leaves the deadlines of the timers not due alone. *)
Theorem process_registered_timers_correct can_run t ps :
  rep t ps -> wf 0 ps -> Forall period_ok ps ->
  exists t' ps',
    process_registered_timers can_run t = Some (concat (fires can_run <$> due ps), t') /\
    rep t' ps' /\ wf 0 ps' /\
    deadlines 0 ps' =
      foldl (fun l p => match i_req p.2 with
                        | PERIODIC_TIMER => ins_dl p.1 (i_orig p.2) l
                        | _ => l
                        end) (deadlines 0 (pending ps)) (due ps).
Proof.
  intros Hr Hw Hp. destruct (due_pending ps) as (E & Hz & Hh); [by destruct Hw|].
  assert (Hs : (length ps <= size (mem t))%nat) by (destruct Hr as (_&?&?); by eapply seg_size).
  assert (Eh : m_list_head t = nxt ps None) by (by destruct Hr).
  set (zs := due ps) in *. set (rest := pending ps) in *. clearbody zs rest. subst ps.
  rewrite length_app in Hs. apply Forall_app in Hp as [Hp _].
  destruct (wf_zeros zs rest Hz Hw) as [Hzi Hwr].
  destruct (process_loop_spec (size (mem t)) can_run zs rest (m_list_head t) t)
    as (t' & Ht & Hr' & Hw' & _); try done; [lia| |].
  { rewrite Eh. destruct zs as [|[??]?]; [|done]. simpl.
    destruct rest as [|[y b] r]; [by left|right]. simpl in Hh.
    eexists y, _. split_and!; [done|by apply (rep_lookup t [] y b r)|]. simpl. lia. }
  exists t', (foldl rearm rest zs). split_and!; try done. by apply foldl_rearm_deadlines.
Qed.

Definition ex_prt_a := Item 0 20 (Some 5%nat) 77 PERIODIC_TIMER.
Definition ex_prt_t := Tm (Some 1%nat) (Timespec 0 0) {[ 1%nat := mk ex_prt_a None None ]}.

Lemma process_registered_timers_correct_witness :
  exists t' ps',
    process_registered_timers (fun _ => true) ex_prt_t = Some ([(5%nat, 77)], t') /\
    rep t' ps' /\ wf 0 ps' /\ deadlines 0 ps' = [(1%nat, 20)].
Proof.
  apply (process_registered_timers_correct (fun _ => true) ex_prt_t [(1%nat, ex_prt_a)]).
  - split_and!; try done. apply NoDup_singleton.
  - split; apply Forall_singleton; [split_and!|]; simpl; done || lia.
  - apply Forall_singleton. intros _. simpl. lia.
Defined.

(** Unregistering a handler.  [remove_all_timers] terminates and removes
    exactly the timers of that handler; the others keep their deadlines and
    their order. *)
Theorem remove_all_timers_correct hd t ps :
  rep t ps -> wf 0 ps ->
  exists t' ps',
    remove_all_timers hd t = Some t' /\ rep t' ps' /\ wf 0 ps' /\
    deadlines 0 ps' = filter (fun q => q.1 ∉ of_handler hd ps) (deadlines 0 ps).
Proof.
  intros Hr Hw. unfold remove_all_timers.
  assert (m_list_head t = nxt ps None) as -> by (by destruct Hr).
  destruct (remove_all_rep (size (mem t)) hd [] ps t Hr Hw) as (t' & ps' & ?).
  { destruct Hr as (_&?&?); by eapply seg_size. }
  by exists t', ps'.
Qed.

Definition ex_rat_a := Item 3 20 (Some 5%nat) 77 PERIODIC_TIMER.
Definition ex_rat_t := Tm (Some 1%nat) (Timespec 0 0) {[ 1%nat := mk ex_rat_a None None ]}.

Lemma remove_all_timers_correct_witness :
  exists t' ps',
    remove_all_timers (Some 5%nat) ex_rat_t = Some t' /\ rep t' ps' /\ wf 0 ps' /\ deadlines 0 ps' = [].
Proof.
  apply (remove_all_timers_correct (Some 5%nat) ex_rat_t [(1%nat, ex_rat_a)]).
  - split_and!; try done. apply NoDup_singleton.
  - split; apply Forall_singleton; [split_and!|]; simpl; done || lia.
Defined.

(** A timeout of [2^31] milliseconds or more is read as a negative [int]
    by [update_timeout]: one elapsed millisecond makes the timer due at once. *)
Theorem update_timeout_long_timer_fires :
  let a := Item (2 ^ 31) (2 ^ 31) (Some 5%nat) 0 ONE_SHOT_TIMER in
  let t := Tm (Some 1%nat) (Timespec 0 0) {[ 1%nat := mk a None None ]} in
  exists t', update_timeout (Some (Timespec 0 1000000)) t = Some (0, t').
Proof. intros a t. eexists. reflexivity. Qed.

End Timer.
