(* ===== verification/IpFrag.v ===== *)
(** * IP reassembly: src/src/vma/proto/ip_frag.cpp and ip_frag.h

    [ip_frag_manager] keeps, per datagram, the RFC 815 list of the holes still
    to be filled and the chain of the fragments received.

    The packet buffers ([mem_buf_desc_t]) are shared with the caller and are
    linked through [p_next_desc] while holes point into the chain, so they
    live in an explicit store ([bufs]).  The hole and fragment descriptors
    belong to one list each (a free list or the list of a datagram): those
    lists are Rocq lists.  The object is used under its lock, one operation at
    a time.  An operation is [None] where the code dereferences [NULL]. *)

From stdpp Require Import sorting.
From S2P Require Import Prelude.

Local Open Scope Z_scope.

Module Frag.

Abbreviation ptr := nat.

Definition IP_FRAG_FREED : Z := u64 (-1).
Definition IP_FRAG_MAX_DESC : nat := 1024.
Definition IP_FRAG_MAX_HOLES : nat := N.to_nat 16000.
Definition IP_FRAG_TTL : Z := 2.
Definition IP_FRAG_INF : Z := 65535.
Definition IP_FRAG_NINF : Z := 0.
Definition IP_FRAG_SPACE : Z := 60000.
Definition MORE_FRAGMENTS_FLAG : Z := 8192.
Definition FRAGMENT_OFFSET : Z := 8191.

Record ip_frag_key_t := Key { ip_id : Z; src_ip : Z; dst_ip : Z; ipproto : Z }.

#[export] Instance key_eq_dec : EqDecision ip_frag_key_t.
Proof. solve_decision. Defined.
#[export] Instance key_countable : Countable ip_frag_key_t.
Proof.
  refine (inj_countable' (fun k => (ip_id k, src_ip k, dst_ip k, ipproto k))
            (fun '(a, b, c, d) => Key a b c d) _).
  by intros [].
Defined.

(** [operator<]. *)
Definition key_lt (a b : ip_frag_key_t) : bool :=
  if decide (ip_id a < ip_id b) then true
  else if decide (ip_id a > ip_id b) then false
  else if decide (src_ip a < src_ip b) then true
  else if decide (src_ip a > src_ip b) then false
  else if decide (dst_ip a < dst_ip b) then true
  else if decide (dst_ip a > dst_ip b) then false
  else if decide (ipproto a < ipproto b) then true
  else if decide (ipproto a > ipproto b) then false
  else false.

Record ip_frag_hole_desc := HoleDesc {
  first : Z;
  last : Z;
  data_first : option ptr;
  data_last : option ptr;
}.

Record ip_frag_desc_t := FragDesc {
  ttl : Z;
  hole_list : list ip_frag_hole_desc;
  frag_list : option ptr;
  frag_counter : Z;
}.

(** The fields of [mem_buf_desc_t] the manager uses; the owner is the ring. *)
Record mem_buf_desc_t := Buf {
  sz_data : Z;
  p_next_desc : option ptr;
  p_desc_owner : nat;
}.

Definition set_next (v : option ptr) (b : mem_buf_desc_t) : mem_buf_desc_t :=
  Buf (sz_data b) v (p_desc_owner b).
Definition set_sz (v : Z) (b : mem_buf_desc_t) : mem_buf_desc_t :=
  Buf v (p_next_desc b) (p_desc_owner b).

(** The fields of [struct iphdr] read here, as stored (network order). *)
Record iphdr := IpHdr {
  id : Z; saddr : Z; daddr : Z; protocol : Z; frag_off : Z; tot_len : Z; ihl : Z;
}.

Record ip_frag_manager := Mgr {
  m_frag_counter : Z;
  m_frags : gmap ip_frag_key_t ip_frag_desc_t;
  m_return_descs : gmap nat ptr;
  hole_free_list : list ip_frag_hole_desc;
  hole_free_list_count : Z;
  desc_free_list : list ip_frag_desc_t;
  desc_free_list_count : Z;
  bufs : gmap ptr mem_buf_desc_t;
}.

Definition set_counter (v : Z) (m : ip_frag_manager) : ip_frag_manager :=
  Mgr v (m_frags m) (m_return_descs m) (hole_free_list m) (hole_free_list_count m)
      (desc_free_list m) (desc_free_list_count m) (bufs m).
Definition set_frags (v : gmap ip_frag_key_t ip_frag_desc_t) (m : ip_frag_manager) : ip_frag_manager :=
  Mgr (m_frag_counter m) v (m_return_descs m) (hole_free_list m) (hole_free_list_count m)
      (desc_free_list m) (desc_free_list_count m) (bufs m).
Definition set_returns (v : gmap nat ptr) (m : ip_frag_manager) : ip_frag_manager :=
  Mgr (m_frag_counter m) (m_frags m) v (hole_free_list m) (hole_free_list_count m)
      (desc_free_list m) (desc_free_list_count m) (bufs m).
Definition set_holes (l : list ip_frag_hole_desc) (c : Z) (m : ip_frag_manager) : ip_frag_manager :=
  Mgr (m_frag_counter m) (m_frags m) (m_return_descs m) l c
      (desc_free_list m) (desc_free_list_count m) (bufs m).
Definition set_descs (l : list ip_frag_desc_t) (c : Z) (m : ip_frag_manager) : ip_frag_manager :=
  Mgr (m_frag_counter m) (m_frags m) (m_return_descs m) (hole_free_list m)
      (hole_free_list_count m) l c (bufs m).
Definition set_bufs (v : gmap ptr mem_buf_desc_t) (m : ip_frag_manager) : ip_frag_manager :=
  Mgr (m_frag_counter m) (m_frags m) (m_return_descs m) (hole_free_list m)
      (hole_free_list_count m) (desc_free_list m) (desc_free_list_count m) v.

(** ** The descriptor pools *)

Definition alloc_hole_desc (m : ip_frag_manager) : option ip_frag_hole_desc * ip_frag_manager :=
  match hole_free_list m with
  | [] => (None, m)
  | h :: l => (Some (HoleDesc (first h) (last h) None None),
               set_holes l (hole_free_list_count m - 1) m)
  end.

Definition free_hole_desc (p : ip_frag_hole_desc) (m : ip_frag_manager) : ip_frag_manager :=
  set_holes (p :: hole_free_list m) (hole_free_list_count m + 1) m.

Definition alloc_frag_desc (m : ip_frag_manager) : option ip_frag_desc_t * ip_frag_manager :=
  match desc_free_list m with
  | [] => (None, m)
  | d :: l => (Some d, set_descs l (desc_free_list_count m - 1) m)
  end.

Definition free_frag_desc (p : ip_frag_desc_t) (m : ip_frag_manager) : ip_frag_manager :=
  set_descs (p :: desc_free_list m) (desc_free_list_count m + 1) m.

(** [ip_frag_manager::ip_frag_manager] over pools of [nd] and [nh]
    descriptors (the code has [IP_FRAG_MAX_DESC] and [IP_FRAG_MAX_HOLES]). *)
Definition ctor (nd nh : nat) (bs : gmap ptr mem_buf_desc_t) : ip_frag_manager :=
  let m := Mgr 0 ∅ ∅ [] 0 [] 0 bs in
  let m := Nat.iter nd (free_frag_desc (FragDesc 0 [] None 0)) m in
  Nat.iter nh (free_hole_desc (HoleDesc 0 0 None None)) m.

(** ** Releasing buffers *)

(** The loop of [free_frag] that walks to the end of the chain. *)
Fixpoint find_tail (fuel : nat) (bs : gmap ptr mem_buf_desc_t) (tail : ptr) : option ptr :=
  b ← bs !! tail;
  match p_next_desc b with
  | None => Some tail
  | Some q => match fuel with O => None | S fuel => find_tail fuel bs q end
  end.

Definition free_frag (frag : option ptr) (m : ip_frag_manager) : option ip_frag_manager :=
  match frag with
  | None => Some m
  | Some p =>
    b ← bufs m !! p;
    let bs := <[p := set_sz IP_FRAG_FREED b]> (bufs m) in
    tail ← find_tail (size bs) bs p;
    tb ← bs !! tail;
    let owner := p_desc_owner b in
    let bs := <[tail := set_next (m_return_descs m !! owner) tb]> bs in
    Some (set_returns (<[owner := p]> (m_return_descs m)) (set_bufs bs m))
  end.

Definition destroy_frag_desc (desc : ip_frag_desc_t) (m : ip_frag_manager)
  : option ip_frag_manager :=
  free_frag (frag_list desc) (foldl (fun m h => free_hole_desc h m) m (hole_list desc)).

(** ** Adding a fragment *)

Definition new_frag_desc (key : ip_frag_key_t) (m : ip_frag_manager)
  : option ip_frag_desc_t * ip_frag_manager :=
  match alloc_hole_desc m with
  | (None, m) => (None, m)
  | (Some hole, m) =>
    let hole := HoleDesc IP_FRAG_NINF IP_FRAG_INF (data_first hole) (data_last hole) in
    match alloc_frag_desc m with
    | (None, m) => (None, free_hole_desc hole m)
    | (Some _, m) =>
      let desc := FragDesc IP_FRAG_TTL [hole] None (m_frag_counter m) in
      (Some desc, set_frags (<[key := desc]> (m_frags m)) m)
    end
  end.

(** Steps 1 to 3: the first hole that contains the fragment, with the holes
    before and after it. *)
Fixpoint find_hole (frag_first frag_last : Z) (holes : list ip_frag_hole_desc)
  : option (list ip_frag_hole_desc * ip_frag_hole_desc * list ip_frag_hole_desc) :=
  match holes with
  | [] => None
  | phole :: r =>
    if decide (frag_first >= first phole /\ frag_last <= last phole)
    then Some ([], phole, r)
    else '(before, h, after) ← find_hole frag_first frag_last r;
         Some (phole :: before, h, after)
  end.

(** What [add_frag] returns: [-1], or 0 with [*ret]. *)
Inductive add_result := AddError | AddOk (ret : option ptr).

(** Steps 4 to 6 on the hole list of the datagram: the new list, or [None]
    when a hole descriptor cannot be allocated (the list is then the one the
    code leaves behind). *)
Definition split_hole (frag : ptr) (frag_first frag_last : Z) (more_frags : bool)
    (before : list ip_frag_hole_desc) (phole : ip_frag_hole_desc)
    (after : list ip_frag_hole_desc) (m : ip_frag_manager)
  : bool * list ip_frag_hole_desc * ip_frag_manager :=
  let '(ok, lhole, m) :=
    if decide (frag_first > first phole) then
      match alloc_hole_desc m with
      | (None, m) => (false, [], free_hole_desc phole m)
      | (Some _, m) =>
        (true, [HoleDesc (first phole) (u16 (frag_first - 1)) (data_first phole) (Some frag)], m)
      end
    else (true, [], m) in
  if negb ok then (false, before ++ after, m)
  else if decide (frag_last < last phole /\ more_frags = true) then
    match alloc_hole_desc m with
    | (None, m) => (false, before ++ lhole ++ after, free_hole_desc phole m)
    | (Some _, m) =>
      (true, before ++ lhole ++
             [HoleDesc (u16 (frag_last + 1)) (last phole) (Some frag) (data_last phole)] ++ after, m)
    end
  else (true, before ++ lhole ++ after, m).

(** "link frag": the fragment is put between the two fragments around the
    hole; the result is the store and the new [desc->frag_list]. *)
Definition link_frag (frag : ptr) (phole : ip_frag_hole_desc) (fl : option ptr)
    (bs : gmap ptr mem_buf_desc_t) : option (gmap ptr mem_buf_desc_t * option ptr) :=
  '(bs, fl) ← match data_first phole with
              | Some q => b ← bs !! q; Some (<[q := set_next (Some frag) b]> bs, fl)
              | None => Some (bs, Some frag)
              end;
  b ← bs !! frag;
  Some (<[frag := set_next (data_last phole) b]> bs, fl).

(** The datagram's descriptor: found, expired and replaced, or new. *)
Definition get_desc (key : ip_frag_key_t) (m : ip_frag_manager)
  : option (option ip_frag_desc_t * ip_frag_manager) :=
  match m_frags m !! key with
  | None => Some (new_frag_desc key m)
  | Some desc =>
    if decide (u64 (m_frag_counter m - frag_counter desc) > IP_FRAG_SPACE) then
      m ← destroy_frag_desc desc m;
      let m := free_frag_desc desc m in
      Some (new_frag_desc key (set_frags (delete key (m_frags m)) m))
    else Some (Some desc, m)
  end.

Definition frag_key (hdr : iphdr) : ip_frag_key_t :=
  Key (id hdr) (saddr hdr) (daddr hdr) (protocol hdr).

Definition frag_bounds (hdr : iphdr) : Z * Z * bool :=
  let off := ntohs (frag_off hdr) in
  let more_frags := ctrue (Z.land off MORE_FRAGMENTS_FLAG) in
  let frag_first := u16 (Z.land off FRAGMENT_OFFSET * 8) in
  let frag_last := u16 (frag_first + ntohs (tot_len hdr) - Z.shiftl (ihl hdr) 2 - 1) in
  (frag_first, frag_last, more_frags).

Definition add_frag (hdr : iphdr) (frag : ptr) (m : ip_frag_manager)
  : option (add_result * ip_frag_manager) :=
  let key := frag_key hdr in
  let '(frag_first, frag_last, more_frags) := frag_bounds hdr in
  let m := set_counter (u64 (m_frag_counter m + 1)) m in
  '(odesc, m) ← get_desc key m;
  match odesc with
  | None => Some (AddError, m)
  | Some desc =>
    match find_hole frag_first frag_last (hole_list desc) with
    | None => Some (AddError, m)
    | Some (before, phole, after) =>
      let '(ok, holes, m) :=
        split_hole frag frag_first frag_last more_frags before phole after m in
      if negb ok then
        let desc := FragDesc (ttl desc) holes (frag_list desc) (frag_counter desc) in
        Some (AddError, set_frags (<[key := desc]> (m_frags m)) m)
      else
        '(bs, fl) ← link_frag frag phole (frag_list desc) (bufs m);
        let m := free_hole_desc phole (set_bufs bs m) in
        let desc := FragDesc (ttl desc) holes fl (frag_counter desc) in
        match holes with
        | [] => (* step 8 - datagram assembly completed *)
          let m := set_frags (delete key (m_frags m)) m in
          Some (AddOk (frag_list desc), free_frag_desc desc m)
        | _ :: _ => Some (AddOk None, set_frags (<[key := desc]> (m_frags m)) m)
        end
    end
  end.

(** ** The periodic timer and the destructor *)

(** The order of [std::map] iteration. *)
Definition kd_lt (a b : ip_frag_key_t * ip_frag_desc_t) : Prop := key_lt a.1 b.1 = true.
#[export] Instance kd_lt_dec : RelDecision kd_lt.
Proof. intros a b. unfold kd_lt. apply _. Defined.

Definition frags_in_order (m : ip_frag_manager) : list (ip_frag_key_t * ip_frag_desc_t) :=
  merge_sort kd_lt (map_to_list (m_frags m)).

Definition timer_visit (delta : Z) (om : option ip_frag_manager)
    (kd : ip_frag_key_t * ip_frag_desc_t) : option ip_frag_manager :=
  m ← om;
  let '(key, desc) := kd in
  let fc := s64 (frag_counter desc - delta) in
  let desc' := FragDesc (u16 (ttl desc - 1)) (hole_list desc) (frag_list desc) fc in
  if decide (fc < 0 \/ ttl desc <= 0) then
    m ← destroy_frag_desc desc m;
    Some (set_frags (delete key (m_frags m)) (free_frag_desc desc' m))
  else Some (set_frags (<[key := desc']> (m_frags m)) m).

(** [handle_timer_expired]: the second result is what is handed to
    [return_buffers_to_owners]. *)
Definition handle_timer_expired (m : ip_frag_manager)
  : option (ip_frag_manager * gmap nat ptr) :=
  let delta := if decide (m_frag_counter m > IP_FRAG_SPACE)
               then m_frag_counter m - IP_FRAG_SPACE else 0 in
  let m := set_counter (m_frag_counter m - delta) m in
  m ← foldl (timer_visit delta) (Some m) (frags_in_order m);
  Some (set_returns ∅ m, m_return_descs m).

Definition free_frag_resources (m : ip_frag_manager)
  : option (ip_frag_manager * gmap nat ptr) :=
  m ← foldl (fun om kd => m ← om;
               m ← destroy_frag_desc kd.2 m;
               Some (set_frags (delete kd.1 (m_frags m)) (free_frag_desc kd.2 m)))
            (Some m) (frags_in_order m);
  Some (set_returns ∅ m, m_return_descs m).

(** ** What a datagram under reassembly looks like

    The ghost view of a descriptor is the sequence of its holes and fragments
    by offset.  A fragment is its buffer, first and last byte and whether more
    fragments follow. *)

Inductive piece :=
  | PHole (h : ip_frag_hole_desc)
  | PFrag (p : ptr) (a b : Z) (mf : bool).

Definition holes (ps : list piece) : list ip_frag_hole_desc :=
  omap (fun x => match x with PHole h => Some h | _ => None end) ps.
Definition ptrs (ps : list piece) : list ptr :=
  omap (fun x => match x with PFrag p _ _ _ => Some p | _ => None end) ps.

Definition head_ptr (ps : list piece) : option ptr :=
  match ps with PFrag p _ _ _ :: _ => Some p | _ => None end.

(** [tiles L pos pred ps]: from byte [pos] on, the pieces follow each other
    without gap or overlap.  A hole knows the fragments next to it ([pred] is
    the one before the current position); two holes are never adjacent; the
    sequence ends with the fragment that ends the datagram (byte [L]) or with
    the hole that reaches infinity. *)
Fixpoint tiles (L pos : Z) (pred : option ptr) (ps : list piece) : Prop :=
  match ps with
  | [] => pos = L + 1
  | PHole h :: r =>
      first h = pos /\ first h <= last h /\ data_first h = pred /\ data_last h = head_ptr r /\
      match r with
      | [] => last h = IP_FRAG_INF
      | PHole _ :: _ => False
      | PFrag _ _ _ _ :: _ => tiles L (last h + 1) pred r
      end
  | PFrag p a b mf :: r =>
      a = pos /\ a <= b <= L /\ (mf = true <-> b < L) /\ tiles L (b + 1) (Some p) r
  end.

Abbreviation chain := (Prelude.chain p_next_desc).

Definition desc_ok (L : Z) (bs : gmap ptr mem_buf_desc_t) (d : ip_frag_desc_t)
    (ps : list piece) : Prop :=
  tiles L 0 None ps /\ hole_list d = holes ps /\ holes ps <> [] /\
  chain bs (frag_list d) (ptrs ps) /\ NoDup (ptrs ps).

Fixpoint last_ptr (pred : option ptr) (ps : list piece) : option ptr :=
  match ps with
  | [] => pred
  | PFrag p _ _ _ :: r => last_ptr (Some p) r
  | PHole _ :: r => last_ptr pred r
  end.

(** ** Lemmas on holes *)

Lemma holes_app ps1 ps2 : holes (ps1 ++ ps2) = holes ps1 ++ holes ps2.
Proof. apply omap_app. Qed.
Lemma ptrs_app ps1 ps2 : ptrs (ps1 ++ ps2) = ptrs ps1 ++ ptrs ps2.
Proof. apply omap_app. Qed.

Lemma find_hole_spec a b ps before h after :
  find_hole a b (holes ps) = Some (before, h, after) ->
  first h <= a /\ b <= last h /\
  exists ps1 ps2, ps = ps1 ++ PHole h :: ps2 /\ holes ps1 = before /\ holes ps2 = after.
Proof.
  revert before. induction ps as [|[g|p c d mf] ps IH]; intros before; csimpl; intros H; [done| |].
  - case_decide as Hd.
    + simplify_eq. split_and!; [lia|lia|]. by exists [], ps.
    + destruct (find_hole a b (holes ps)) as [[[bf h'] af]|] eqn:E; simplify_eq/=.
      destruct (IH bf eq_refl) as (? & ? & ps1 & ps2 & -> & <- & <-).
      split_and!; try done. by exists (PHole g :: ps1), ps2.
  - destruct (IH before H) as (? & ? & ps1 & ps2 & -> & <- & <-).
    split_and!; try done. by exists (PFrag p c d mf :: ps1), ps2.
Qed.

(** The neighbours a hole records are the buffers before and after it. *)
Lemma tiles_neighbours L pos pred ps1 h ps2 :
  tiles L pos pred (ps1 ++ PHole h :: ps2) ->
  data_first h = last_ptr pred ps1 /\ data_last h = head (ptrs ps2).
Proof.
  revert pos pred. induction ps1 as [|[g|p a b mf] ps1 IH]; intros pos pred; simpl.
  - intros (_ & _ & -> & -> & Hr). split; [done|]. destruct ps2 as [|[]]; done.
  - intros (_ & _ & _ & _ & Hr). destruct ps1 as [|[]]; simpl in Hr; [done|done|].
    by apply (IH (last g + 1)).
  - intros (_ & _ & _ & Hr). by apply (IH (b + 1)).
Qed.

(** The pieces that replace a hole when a fragment falls into it. *)
Definition mid (p : ptr) (a b : Z) (mf : bool) (h : ip_frag_hole_desc) : list piece :=
  (if decide (a > first h)
   then [PHole (HoleDesc (first h) (a - 1) (data_first h) (Some p))] else []) ++
  PFrag p a b mf ::
  (if decide (b < last h /\ mf = true)
   then [PHole (HoleDesc (b + 1) (last h) (Some p) (data_last h))] else []).

Lemma tiles_fill L pos pred ps1 h ps2 p a b mf :
  L <= IP_FRAG_INF -> a <= b <= L -> (mf = true <-> b < L) ->
  first h <= a -> b <= last h ->
  tiles L pos pred (ps1 ++ PHole h :: ps2) ->
  tiles L pos pred (ps1 ++ mid p a b mf h ++ ps2).
Proof.
  intros HL Hab Hmf Ha Hb. revert pos pred.
  induction ps1 as [|[g|q c d mf'] ps1 IH]; intros pos pred.
  - simpl. intros (Hf & Hle & Hdf & Hdl & Hr).
    assert (tiles L a pred (PFrag p a b mf ::
      (if decide (b < last h /\ mf = true)
       then [PHole (HoleDesc (b + 1) (last h) (Some p) (data_last h))] else []) ++ ps2)) as H.
    { simpl. split_and!; try done; try lia. case_decide as Hd; simpl.
      - split_and!; try done; try lia. destruct ps2 as [|[]]; done.
      - destruct ps2 as [|[g|q c d mf'] r]; simpl.
        + destruct mf; [|lia]. assert (b < L) by tauto. assert (~ b < last h) by tauto. lia.
        + done.
        + simpl in Hr. destruct Hr as (Hc & Hcd & Hm & Hr).
          destruct (decide (b < last h)) as [Hlt|]; [|split_and!; done || lia].
          assert (~ b < L) by (destruct mf; tauto). lia. }
    unfold mid. destruct (decide (a > first h)); [|by replace pos with a by lia].
    simpl app in *. change (tiles L pos pred (PHole (HoleDesc (first h) (a - 1) (data_first h) (Some p)) ::
      PFrag p a b mf :: (if decide (b < last h /\ mf = true)
       then [PHole (HoleDesc (b + 1) (last h) (Some p) (data_last h))] else []) ++ ps2)).
    revert H. generalize ((if decide (b < last h /\ mf = true)
       then [PHole (HoleDesc (b + 1) (last h) (Some p) (data_last h))] else []) ++ ps2).
    intros r (?&?&?&?). simpl. split_and!; try done; lia.
  - intros (? & ? & ? & Hdl & Hr). destruct ps1 as [|[|q c d mf'] ps1]; try done.
    simpl app in *. split_and!; try done. apply (IH (last g + 1) pred Hr).
  - intros (? & ? & ? & Hr). simpl app. split_and!; try done; try lia. by apply IH.
Qed.

Lemma mid_ptrs p a b mf h : ptrs (mid p a b mf h) = [p].
Proof. unfold mid. repeat case_decide; done. Qed.

(** A complete datagram: only fragments, contiguous from byte [pos] to [L]. *)
Fixpoint contiguous (L pos : Z) (fs : list (ptr * Z * Z)) : Prop :=
  match fs with
  | [] => pos = L + 1
  | (_, a, b) :: r => a = pos /\ a <= b /\ contiguous L (b + 1) r
  end.

Definition frags (ps : list piece) : list (ptr * Z * Z) :=
  omap (fun x => match x with PFrag p a b _ => Some (p, a, b) | _ => None end) ps.

Lemma frags_ptrs ps : (frags ps).*1.*1 = ptrs ps.
Proof. induction ps as [|[]]; csimpl; congruence. Qed.

Lemma tiles_complete L pos pred ps :
  holes ps = [] -> tiles L pos pred ps -> contiguous L pos (frags ps).
Proof.
  revert pos pred. induction ps as [|[h|p a b mf] ps IH]; intros pos pred Hh; csimpl; try done.
  intros (-> & ? & _ & Hr). split_and!; [done|lia|by eapply IH].
Qed.

Lemma tiles_range L pos pred ps1 h ps2 :
  L <= IP_FRAG_INF -> tiles L pos pred (ps1 ++ PHole h :: ps2) ->
  pos <= first h /\ last h <= IP_FRAG_INF.
Proof.
  intros HL. revert pos pred. induction ps1 as [|[g|p a b mf] ps1 IH]; intros pos pred; simpl.
  - intros (<- & ? & _ & _ & Hr). split; [done|].
    destruct ps2 as [|[|q a b mf]]; [lia|done|]. destruct Hr as (? & ? & _). lia.
  - intros (<- & ? & _ & _ & Hr). destruct ps1 as [|[]]; simpl in Hr; [done|done|].
    apply (IH (last g + 1) pred) in Hr. lia.
  - intros (<- & ? & _ & Hr). apply IH in Hr. lia.
Qed.

(** ** Fragments and holes *)

Definition disjoint (a b : Z) (fs : list (ptr * Z * Z)) : Prop :=
  Forall (fun f => b < f.1.2 \/ f.2 < a) fs.

Lemma frags_app ps1 ps2 : frags (ps1 ++ ps2) = frags ps1 ++ frags ps2.
Proof. apply omap_app. Qed.

(** Every byte of the datagram is in a fragment or in a hole. *)
Lemma tiles_cover L pos pred ps x :
  L <= IP_FRAG_INF -> tiles L pos pred ps -> pos <= x <= L ->
  (exists p a b, (p, a, b) ∈ frags ps /\ a <= x <= b) \/
  (exists ps1 h ps2, ps = ps1 ++ PHole h :: ps2 /\ first h <= x <= last h /\
     match frags ps2 with [] => last h = IP_FRAG_INF | f :: _ => f.1.2 = last h + 1 end).
Proof.
  intros HL. revert pos pred. induction ps as [|[h|p a b mf] ps IH]; intros pos pred; simpl.
  - lia.
  - intros (<- & Hle & _ & _ & Hr) Hx. destruct (decide (x <= last h)).
    + right. exists [], h, ps. split_and!; [done|lia|lia|].
      destruct ps as [|[]]; [done|done|]. destruct Hr as (-> & _). done.
    + destruct ps as [|[|q c d mf] ps]; [unfold IP_FRAG_INF in *; lia|done|].
      destruct (IH _ _ Hr) as [?|(ps1 & g & ps2 & E & H)]; [lia| |].
      * by left.
      * right. exists (PHole h :: ps1), g, ps2. by rewrite E.
  - intros (<- & Hab & _ & Hr) Hx. destruct (decide (x <= b)).
    + left. exists p, a, b. csimpl. split; [apply list_elem_of_here|lia].
    + destruct (IH _ _ Hr) as [(q & c & d & Hin & ?)|(ps1 & g & ps2 & E & H)]; [lia| |].
      * left. exists q, c, d. csimpl. split; [by apply list_elem_of_further|done].
      * right. exists (PFrag p a b mf :: ps1), g, ps2. by rewrite E.
Qed.

Lemma tiles_frag_range L pos pred ps p a b :
  tiles L pos pred ps -> (p, a, b) ∈ frags ps -> pos <= a <= b.
Proof.
  revert pos pred. induction ps as [|[h|q c d mf] ps IH]; intros pos pred; csimpl.
  - intros _ H. by apply not_elem_of_nil in H.
  - intros (<- & Hle & _ & _ & Hr) Hin. destruct ps as [|[]]; [by apply not_elem_of_nil in Hin|done|].
    apply (IH _ _ Hr) in Hin. lia.
  - intros (<- & ? & _ & Hr) [[= -> -> ->]|Hin]%elem_of_cons; [lia|]. apply (IH _ _ Hr) in Hin. lia.
Qed.

(** A hole and a fragment share no byte. *)
Lemma tiles_hole_disjoint L pos pred ps h p a b :
  L <= IP_FRAG_INF -> tiles L pos pred ps -> h ∈ holes ps -> (p, a, b) ∈ frags ps ->
  b < first h \/ last h < a.
Proof.
  intros HL. revert pos pred. induction ps as [|[g|q c d mf] ps IH]; intros pos pred; csimpl.
  - intros _ H. by apply not_elem_of_nil in H.
  - intros (<- & Hle & _ & _ & Hr) Hh Hf. destruct ps as [|[|q c d mf] ps];
      [by apply not_elem_of_nil in Hf|done|].
    apply elem_of_cons in Hh as [->|Hh]; [|by eapply IH].
    apply (tiles_frag_range _ _ _ _ _ _ _ Hr) in Hf. lia.
  - intros (<- & ? & _ & Hr) Hh [[= -> -> ->]|Hf]%elem_of_cons; [|by eapply IH].
    apply list_elem_of_omap in Hh as ([g|] & Hin & [= ->]).
    apply list_elem_of_split in Hin as (ps1 & ps2 & ->).
    apply (tiles_range _ _ _ _ _ _ HL) in Hr. lia.
Qed.

Lemma find_hole_some a b hs h :
  h ∈ hs -> first h <= a -> b <= last h -> is_Some (find_hole a b hs).
Proof.
  intros Hin Ha Hb. induction hs as [|g hs IH]; [by apply not_elem_of_nil in Hin|]. simpl.
  case_decide as Hd; [done|]. apply elem_of_cons in Hin as [->|Hin]; [lia|].
  destruct (IH Hin) as [[[? ?] ?] ->]. done.
Qed.

(** A fragment that overlaps none of the fragments received fits into a hole. *)
Lemma hole_for L ps a b :
  L <= IP_FRAG_INF -> tiles L 0 None ps -> 0 <= a -> a <= b <= L -> disjoint a b (frags ps) ->
  exists before h after, find_hole a b (holes ps) = Some (before, h, after).
Proof.
  intros HL Ht Ha Hab Hd.
  destruct (tiles_cover L 0 None ps a) as [(p & c & d & Hin & Hx)|(ps1 & h & ps2 & E & Hx & Hn)];
    [done|done|lia| |].
  - pose proof (proj1 (list.Forall_forall _ _) Hd _ Hin) as H. simpl in H. lia.
  - assert (is_Some (find_hole a b (holes ps))) as [[[? ?] ?] ->]; [|by eauto].
    apply (find_hole_some _ _ _ h); [rewrite E, holes_app; set_solver|lia|].
    assert (forall f, f ∈ frags ps2 -> f ∈ frags ps) as Hsub.
    { intros f Hf. rewrite E, frags_app. csimpl. set_solver. }
    destruct (frags ps2) as [|[[p c] d] fs]; [lia|].
    assert ((p, c, d) ∈ frags ps) as Hin by (apply Hsub; set_solver).
    pose proof (proj1 (list.Forall_forall _ _) Hd _ Hin) as H.
    pose proof (tiles_frag_range _ _ _ _ _ _ _ Ht Hin). simpl in *. lia.
Qed.

Lemma mid_frags p a b mf h : frags (mid p a b mf h) = [(p, a, b)].
Proof. unfold mid. repeat case_decide; done. Qed.

(** ** Lemmas on the buffer chains *)

(** Inserting a buffer between two parts of a chain. *)
Lemma chain_link bs o l1 l2 p pb :
  chain bs o (l1 ++ l2) -> NoDup (l1 ++ l2) -> p ∉ l1 ++ l2 -> bs !! p = Some pb ->
  match list.last l1 with
  | Some q => exists b, bs !! q = Some b /\
      chain (<[p := set_next (head l2) pb]> (<[q := set_next (Some p) b]> bs)) o (l1 ++ p :: l2)
  | None => chain (<[p := set_next (head l2) pb]> bs) (Some p) (p :: l2)
  end.
Proof.
  revert o. induction l1 as [|x l1 IH]; intros o Hc Hn Hp Hpb.
  - simpl. split; [done|]. eexists. rewrite lookup_insert_eq. split; [done|]. simpl in *.
    apply (chain_mono p_next_desc bs). { intros x ?. rewrite lookup_insert_ne; [done|set_solver]. }
    by destruct l2 as [|y l2]; [|destruct Hc as [-> ?]].
  - destruct Hc as (-> & b & Hb & Hc). apply list.NoDup_cons in Hn as [Hx Hn].
    apply not_elem_of_cons in Hp as [Hpx Hp].
    specialize (IH (p_next_desc b) Hc Hn Hp Hpb).
    rewrite last_cons. destruct (list.last l1) as [q|] eqn:El.
    + destruct IH as (qb & Hq & IH). exists qb. split; [done|]. split; [done|].
      exists b. split; [|done]. apply last_Some in El as [l' El].
      rewrite !lookup_insert_ne; [done| |done]. rewrite El in Hx. set_solver.
    + apply last_None in El. subst l1. exists b. split; [done|]. split; [done|].
      exists (set_next (Some p) b).
      split; [by rewrite lookup_insert_ne, lookup_insert_eq by done|].
      apply (chain_mono p_next_desc (<[p:=set_next (head l2) pb]> bs) _ (Some p) (p :: l2)); [|done].
      intros z Hz. destruct (decide (z = p)) as [->|]; [by rewrite !lookup_insert_eq|].
      rewrite !lookup_insert_ne; set_solver.
Qed.

Lemma last_ptr_last ps : last_ptr None ps = list.last (ptrs ps).
Proof.
  assert (forall o, last_ptr o ps = match list.last (ptrs ps) with Some q => Some q | None => o end) as H.
  { induction ps as [|[h|p a b mf] ps IH]; intros o; csimpl; [done|apply IH|].
    rewrite IH, last_cons. by destruct (list.last (ptrs ps)). }
  rewrite H. by destruct (list.last _).
Qed.

(** Linking the fragment: the chain gets it at its place, and no buffer other
    than the fragment and those of the chain is written. *)
Lemma link_frag_spec L p h fl bs ps1 ps2 pb :
  tiles L 0 None (ps1 ++ PHole h :: ps2) ->
  chain bs fl (ptrs ps1 ++ ptrs ps2) -> NoDup (ptrs ps1 ++ ptrs ps2) ->
  p ∉ ptrs ps1 ++ ptrs ps2 -> bs !! p = Some pb ->
  exists bs' fl', link_frag p h fl bs = Some (bs', fl') /\
    chain bs' fl' (ptrs ps1 ++ p :: ptrs ps2) /\
    (forall x, x <> p -> x ∉ ptrs ps1 ++ ptrs ps2 -> bs' !! x = bs !! x).
Proof.
  intros Ht Hc Hn Hp Hpb. destruct (tiles_neighbours _ _ _ _ _ _ Ht) as [Hf Hl].
  rewrite last_ptr_last in Hf. unfold link_frag. rewrite Hf, Hl.
  pose proof (chain_link bs fl (ptrs ps1) (ptrs ps2) p pb Hc Hn Hp Hpb) as H.
  destruct (list.last (ptrs ps1)) as [q|] eqn:El; simpl.
  - destruct H as (b & Hq & H). rewrite Hq. simpl.
    apply last_Some in El as [l' El].
    assert (q <> p) by (rewrite El in Hp; set_solver).
    rewrite lookup_insert_ne, Hpb by done. simpl. eexists _, _. split; [done|]. split; [done|].
    intros x Hx Hx'. rewrite !lookup_insert_ne; [done| |done]. rewrite El in Hx'. set_solver.
  - rewrite Hpb. simpl. eexists _, _. split; [done|].
    apply last_None in El. rewrite El. split; [done|].
    intros x Hx _. by rewrite lookup_insert_ne.
Qed.

(** With two hole descriptors at hand the hole is split as [mid] says. *)
Lemma split_hole_spec p a b mf ps1 h ps2 m :
  0 <= first h -> first h <= a -> a <= b <= 65535 -> b <= last h <= 65535 ->
  (2 <= length (hole_free_list m))%nat ->
  exists fl c,
    split_hole p a b mf (holes ps1) h (holes ps2) m =
      (true, holes (ps1 ++ mid p a b mf h ++ ps2), set_holes fl c m).
Proof.
  intros H0 Ha Hab Hb Hf. unfold split_hole, mid, alloc_hole_desc.
  destruct m as [mc mf' mr fl c dl dc bs]. simpl in Hf.
  destruct fl as [|h1 [|h2 fl]]; simpl in Hf; try lia.
  rewrite !holes_app.
  destruct (decide (a > first h)), (decide (b < last h /\ mf = true)); simpl;
    rewrite ?wrap_small by lia; eexists _, _; rewrite <- ?app_assoc; reflexivity.
Qed.

(** ** The manager's invariant

    [Ld k] is the last byte of the datagram with key [k], [G k] its pieces. *)

Definition Inv (Ld : ip_frag_key_t -> Z) (F : gmap ip_frag_key_t ip_frag_desc_t)
    (bs : gmap ptr mem_buf_desc_t) (G : ip_frag_key_t -> list piece) : Prop :=
  (forall k d, F !! k = Some d -> desc_ok (Ld k) bs d (G k)) /\
  (forall k1 k2 d1 d2 x, k1 <> k2 -> F !! k1 = Some d1 -> F !! k2 = Some d2 ->
     x ∈ ptrs (G k1) -> x ∉ ptrs (G k2)).

(** A buffer the manager does not hold. *)
Definition fresh (F : gmap ip_frag_key_t ip_frag_desc_t) (G : ip_frag_key_t -> list piece)
    (p : ptr) : Prop :=
  forall k d, F !! k = Some d -> p ∉ ptrs (G k).

Lemma find_tail_spec bs x l fuel :
  chain bs (Some x) (x :: l) -> (length l <= fuel)%nat ->
  exists z b, find_tail fuel bs x = Some z /\ z ∈ x :: l /\ bs !! z = Some b.
Proof.
  revert x fuel. induction l as [|y l IH]; intros x fuel (_ & b & Hb & Hl) Hf.
  - exists x, b. split_and!; [|left|done]. simpl in Hl. destruct fuel; simpl; by rewrite Hb; simpl; rewrite Hl.
  - destruct fuel as [|fuel]; simpl in Hf; [lia|].
    assert (p_next_desc b = Some y) as E by (by destruct Hl).
    rewrite E in Hl. destruct (IH y fuel Hl ltac:(lia)) as (z & zb & Hz & Hin & ?).
    exists z, zb. split_and!; [|by right|done]. simpl. rewrite Hb. simpl. by rewrite E.
Qed.

Lemma chain_set_sz bs o l x b v :
  bs !! x = Some b -> chain bs o l -> chain (<[x := set_sz v b]> bs) o l.
Proof.
  intros Hx. revert o. induction l as [|y l IH]; intros o; simpl; [done|].
  intros (-> & c & Hc & Hl). split; [done|]. destruct (decide (x = y)) as [->|].
  - exists (set_sz v b). rewrite lookup_insert_eq. simplify_eq. split; [done|]. by apply IH.
  - exists c. rewrite lookup_insert_ne by done. split; [done|]. by apply IH.
Qed.

(** Releasing a chain terminates, writes only to the buffers of the chain and
    leaves the datagrams and the descriptor pools alone. *)
Lemma free_frag_spec m o l :
  chain (bufs m) o l -> NoDup l ->
  exists m', free_frag o m = Some m' /\
    m_frags m' = m_frags m /\ m_frag_counter m' = m_frag_counter m /\
    hole_free_list m' = hole_free_list m /\ hole_free_list_count m' = hole_free_list_count m /\
    desc_free_list m' = desc_free_list m /\ desc_free_list_count m' = desc_free_list_count m /\
    (forall x, x ∉ l -> bufs m' !! x = bufs m !! x).
Proof.
  intros Hc Hn. destruct l as [|x l]; simpl in Hc.
  { subst o. by exists m. }
  destruct Hc as (-> & b & Hb & Hl). unfold free_frag. rewrite Hb. simpl.
  set (bs := <[x:=_]> _).
  assert (chain bs (Some x) (x :: l)) as Hc.
  { apply chain_set_sz; [done|]. split; [done|]. by exists b. }
  destruct (find_tail_spec bs x l (size bs)) as (z & zb & Hz & Hin & Hzb); [done| |].
  { apply chain_size in Hc; [simpl in Hc; lia|done]. }
  rewrite Hz. simpl. rewrite Hzb. simpl. eexists. split; [done|]. simpl.
  split_and!; try done. intros y Hy. subst bs. rewrite !lookup_insert_ne; set_solver.
Qed.

Lemma free_holes_spec hs m :
  let m' := foldl (fun m h => free_hole_desc h m) m hs in
  hole_free_list m' = reverse hs ++ hole_free_list m /\
  hole_free_list_count m' = hole_free_list_count m + Z.of_nat (length hs) /\
  m_frags m' = m_frags m /\ m_frag_counter m' = m_frag_counter m /\
  desc_free_list m' = desc_free_list m /\ desc_free_list_count m' = desc_free_list_count m /\
  bufs m' = bufs m /\ m_return_descs m' = m_return_descs m.
Proof.
  revert m. induction hs as [|h hs IH]; intros m; simpl.
  { split_and!; try done. lia. }
  destruct (IH (free_hole_desc h m)) as (-> & -> & -> & -> & -> & -> & -> & ->).
  simpl. rewrite reverse_cons, <- app_assoc. split_and!; try done. lia.
Qed.

Lemma destroy_spec m d l :
  chain (bufs m) (frag_list d) l -> NoDup l ->
  exists m', destroy_frag_desc d m = Some m' /\
    m_frags m' = m_frags m /\ m_frag_counter m' = m_frag_counter m /\
    hole_free_list m' = reverse (hole_list d) ++ hole_free_list m /\
    hole_free_list_count m' = hole_free_list_count m + Z.of_nat (length (hole_list d)) /\
    desc_free_list m' = desc_free_list m /\ desc_free_list_count m' = desc_free_list_count m /\
    (forall x, x ∉ l -> bufs m' !! x = bufs m !! x).
Proof.
  intros Hc Hn. unfold destroy_frag_desc.
  destruct (free_holes_spec (hole_list d) m) as (E1 & E2 & E3 & E4 & E5 & E6 & E7 & E8).
  set (m1 := foldl _ _ _) in *.
  destruct (free_frag_spec m1 (frag_list d) l) as (m' & ? & ? & ? & ? & ? & ? & ? & Hb);
    [by rewrite E7|done|].
  exists m'. rewrite E7 in Hb. split_and!; congruence || done.
Qed.

(** A new datagram: one hole from zero to infinity. *)
Definition new_pieces : list piece := [PHole (HoleDesc IP_FRAG_NINF IP_FRAG_INF None None)].

Lemma new_frag_desc_spec k m :
  m_frags m !! k = None -> (1 <= length (hole_free_list m))%nat ->
  exists od m', new_frag_desc k m = (od, m') /\
    (forall k', k' <> k -> m_frags m' !! k' = m_frags m !! k') /\ bufs m' = bufs m /\
    (length (hole_free_list m) <= S (length (hole_free_list m')))%nat /\
    m_frags m' !! k = od /\ (od = None <-> desc_free_list m = []) /\
    match od with
    | Some d => frag_list d = None /\ hole_list d = holes new_pieces
    | None => m_frags m' = m_frags m
    end.
Proof.
  intros Hk Hf. destruct m as [mc F mr [|h fl] c dl dc bs]; simpl in Hf; [lia|].
  unfold new_frag_desc, alloc_hole_desc, alloc_frag_desc. simpl. destruct dl as [|d dl]; simpl.
  - eexists None, _. split_and!; try done. simpl. lia.
  - eexists _, _. split; [done|]. simpl. split_and!; try done; try lia.
    + intros k' Hne. by rewrite lookup_insert_ne.
    + by rewrite lookup_insert_eq.
Qed.

Lemma new_desc_ok L bs d :
  frag_list d = None -> hole_list d = holes new_pieces -> desc_ok L bs d new_pieces.
Proof. intros H1 H2. split_and!; try done. constructor. Qed.

(** The fragments received of a datagram that has not expired. *)
Definition received (k : ip_frag_key_t) (m : ip_frag_manager) (G : ip_frag_key_t -> list piece)
  : list (ptr * Z * Z) :=
  match m_frags m !! k with
  | Some d => if decide (u64 (m_frag_counter m - frag_counter d) > IP_FRAG_SPACE) then []
              else frags (G k)
  | None => []
  end.

(** [get_desc] delivers a well-formed descriptor: the one under reassembly, or
    a new one when there was none or it had expired. *)
Lemma get_desc_spec Ld m G k :
  Inv Ld (m_frags m) (bufs m) G -> (1 <= length (hole_free_list m))%nat ->
  exists od m', get_desc k m = Some (od, m') /\
    (forall k', k' <> k -> m_frags m' !! k' = m_frags m !! k') /\
    (forall x, (forall d, m_frags m !! k = Some d -> x ∉ ptrs (G k)) -> bufs m' !! x = bufs m !! x) /\
    (length (hole_free_list m) <= S (length (hole_free_list m')))%nat /\
    m_frags m' !! k = od /\
    (od = None <-> m_frags m !! k = None /\ desc_free_list m = []) /\
    match od with
    | None => m_frags m' = m_frags m /\ bufs m' = bufs m
    | Some d => (m_frags m !! k = Some d /\ received k m G = frags (G k) /\ m' = m) \/
                (received k m G = [] /\ desc_ok (Ld k) (bufs m') d new_pieces)
    end.
Proof.
  intros [Hi Hd] Hf. unfold get_desc, received. destruct (m_frags m !! k) as [d|] eqn:Ek.
  - destruct (Hi _ _ Ek) as (Ht & Hh & _ & Hc & Hn). case_decide as He.
    + destruct (destroy_spec m d _ Hc Hn) as (m1 & -> & EF & _ & EH & _ & ED & _ & Hb). simpl.
      set (m2 := set_frags (delete k (m_frags m1)) (free_frag_desc d m1)).
      destruct (new_frag_desc_spec k m2) as (od & m' & E & HF & EB & HL & Hk & Hnone & Hod).
      { simpl. by rewrite lookup_delete_eq. }
      { simpl. rewrite EH, length_app. lia. }
      simpl in *. destruct od as [d'|]; [|by destruct Hnone as [Hnone _]; specialize (Hnone eq_refl)].
      exists (Some d'), m'. split; [by rewrite <- E|]. rewrite EH, length_app in HL.
      split_and!; try done; try lia.
      * intros k' Hne. rewrite HF, lookup_delete_ne, EF by done. done.
      * intros x Hx. rewrite EB. apply Hb. by eapply Hx.
      * split; [done|by intros [? _]].
      * destruct Hod. right. split; [done|by apply new_desc_ok].
    + exists (Some d), m. split_and!; try done; try lia; [split; [done|by intros [? _]]|by left].
  - destruct (new_frag_desc_spec k m Ek Hf) as (od & m' & E & HF & EB & HL & Hk & Hnone & Hod).
    exists od, m'. split; [by rewrite E|]. split_and!; try done.
    + intros x _. by rewrite EB.
    + split; [intros H; split; [done|by apply Hnone]|intros [_ H]; by apply Hnone].
    + destruct od as [d'|]; [|done]. destruct Hod. right. split; [done|by apply new_desc_ok].
Qed.

(** The fragment of a header: a consistent piece of the datagram of its key. *)
Definition valid_frag (Ld : ip_frag_key_t -> Z) (hdr : iphdr) : Prop :=
  let '(a, b, mf) := frag_bounds hdr in
  let L := Ld (frag_key hdr) in
  L <= IP_FRAG_INF /\ a <= b <= L /\ (mf = true <-> b < L).

Definition upd (G : ip_frag_key_t -> list piece) (k : ip_frag_key_t) (ps : list piece)
  : ip_frag_key_t -> list piece := fun k' => if decide (k' = k) then ps else G k'.

Lemma upd_eq G k ps : upd G k ps k = ps.
Proof. unfold upd. by rewrite decide_True. Qed.
Lemma upd_ne G k ps k' : k' <> k -> upd G k ps k' = G k'.
Proof. intros. unfold upd. by rewrite decide_False. Qed.

(** Changing one datagram: the others are untouched. *)
Lemma Inv_upd Ld F F' bs bs' G k ps :
  Inv Ld F bs G ->
  (forall k', k' <> k -> F' !! k' = F !! k') ->
  (forall k' d x, k' <> k -> F !! k' = Some d -> x ∈ ptrs (G k') -> bs' !! x = bs !! x) ->
  (forall d, F' !! k = Some d -> desc_ok (Ld k) bs' d ps) ->
  (forall k' d x, k' <> k -> F !! k' = Some d -> x ∈ ptrs ps -> x ∉ ptrs (G k')) ->
  Inv Ld F' bs' (upd G k ps).
Proof.
  intros [Hi Hd] HF Hb Hk Hp. split.
  - intros k' d Hk'. destruct (decide (k' = k)) as [->|Hne]; [rewrite upd_eq; eauto|].
    rewrite upd_ne, HF in * by done. destruct (Hi _ _ Hk') as (?&?&?&Hc&?).
    split_and!; try done. eapply chain_mono; [|done]. eauto.
  - intros k1 k2 d1 d2 x Hne H1 H2.
    destruct (decide (k1 = k)) as [->|Hn1]; destruct (decide (k2 = k)) as [->|Hn2];
      rewrite ?upd_eq, ?upd_ne, ?HF in * by done; try done.
    + eauto.
    + intros Hx Hx'. by eapply (Hp k1).
    + eauto.
Qed.

(** Steps 4 to 8 on a well-formed descriptor. *)
Lemma fill_hole_spec L m d ps p pb a b mf before h after :
  desc_ok L (bufs m) d ps -> L <= IP_FRAG_INF -> 0 <= a -> a <= b <= L -> (mf = true <-> b < L) ->
  p ∉ ptrs ps -> bufs m !! p = Some pb -> (2 <= length (hole_free_list m))%nat ->
  find_hole a b (hole_list d) = Some (before, h, after) ->
  exists hs fl c bs' fl' ps',
    split_hole p a b mf before h after m = (true, hs, set_holes fl c m) /\
    link_frag p h (frag_list d) (bufs m) = Some (bs', fl') /\
    hs = holes ps' /\ tiles L 0 None ps' /\ chain bs' fl' (ptrs ps') /\ NoDup (ptrs ps') /\
    PFrag p a b mf ∈ ps' /\ frags ps' ≡ₚ (p, a, b) :: frags ps /\
    (forall x, x ∈ ptrs ps' <-> x = p \/ x ∈ ptrs ps) /\
    (forall x, x <> p -> x ∉ ptrs ps -> bs' !! x = bufs m !! x).
Proof.
  intros (Ht & Hh & _ & Hc & Hn) HL Ha Hab Hmf Hp Hpb Hf Hfh. rewrite Hh in Hfh.
  destruct (find_hole_spec _ _ _ _ _ _ Hfh) as (H1 & H2 & ps1 & ps2 & -> & <- & <-).
  destruct (tiles_range _ _ _ _ _ _ HL Ht) as [H3 H4]. unfold IP_FRAG_INF in *.
  destruct (split_hole_spec p a b mf ps1 h ps2 m) as (fl & c & Hs); try lia.
  rewrite !ptrs_app in *. csimpl in *. change (omap _ ps2) with (ptrs ps2) in *.
  destruct (link_frag_spec L p h (frag_list d) (bufs m) ps1 ps2 pb)
    as (bs' & fl' & Hl & Hc' & Hb); try done.
  exists (holes (ps1 ++ mid p a b mf h ++ ps2)), fl, c, bs', fl', (ps1 ++ mid p a b mf h ++ ps2).
  rewrite !ptrs_app, mid_ptrs. simpl.
  split_and!; try done.
  - by apply tiles_fill.
  - apply list.NoDup_app in Hn as (? & ? & ?). apply list.NoDup_app.
    split_and!; try done; [set_solver|]. apply list.NoDup_cons. set_solver.
  - unfold mid. set_solver.
  - rewrite !frags_app, mid_frags. csimpl. symmetry. apply Permutation_middle.
  - set_solver.
Qed.

(** One datagram changes: [F1] and [bs1] are the state after [get_desc k], in
    which the other datagrams and the new buffer [p] are as before. *)
Section one_datagram.
Context (Ld : ip_frag_key_t -> Z) (F F1 : gmap ip_frag_key_t ip_frag_desc_t)
  (bs bs1 : gmap ptr mem_buf_desc_t) (G : ip_frag_key_t -> list piece)
  (k : ip_frag_key_t) (p : ptr).
Context (HI : Inv Ld F bs G) (Hfr : fresh F G p).
Context (HF : forall k', k' <> k -> F1 !! k' = F !! k').

(** The buffers the datagram held before. *)
Definition mine (x : ptr) : Prop := exists d, F !! k = Some d /\ x ∈ ptrs (G k).

Context (HB : forall x, ~ mine x -> bs1 !! x = bs !! x).

Lemma not_mine k' d x : k' <> k -> F !! k' = Some d -> x ∈ ptrs (G k') -> ~ mine x.
Proof using HI. intros Hne Hd Hx (d' & Hd' & Hx'). by eapply (proj2 HI k k'). Qed.

Lemma Inv_step F' bs' ps :
  (forall k', k' <> k -> F' !! k' = F1 !! k') ->
  (forall x, x <> p -> ~ mine x -> bs' !! x = bs1 !! x) ->
  (forall d, F' !! k = Some d -> desc_ok (Ld k) bs' d ps) ->
  (forall x, x ∈ ptrs ps -> x = p \/ mine x) ->
  Inv Ld F' bs' (upd G k ps).
Proof using HI Hfr HF HB.
  intros HF' Hb' Hk' Hx'. eapply Inv_upd; [exact HI| | |done|].
  - intros k' Hne. rewrite HF', HF; done.
  - intros k' d x Hne Hd Hx. assert (x <> p) by (intros ->; by eapply Hfr).
    pose proof (not_mine _ _ _ Hne Hd Hx). rewrite Hb', HB; done.
  - intros k' d x Hne Hd [->|Hx]%Hx' Hx2; [by eapply Hfr|]. by eapply not_mine.
Qed.

Lemma fresh_step F' ps :
  (forall k', k' <> k -> F' !! k' = F1 !! k') -> p ∉ ptrs ps -> fresh F' (upd G k ps) p.
Proof using Hfr HF.
  intros HF' Hps k' d Hk'. destruct (decide (k' = k)) as [->|Hne].
  - by rewrite upd_eq.
  - rewrite upd_ne by done. rewrite HF', HF in Hk' by done. by eapply Hfr.
Qed.
End one_datagram.

(** No hole contains a fragment that overlaps one already received, and some
    hole contains every other one. *)
Lemma find_hole_None L ps a b :
  L <= IP_FRAG_INF -> tiles L 0 None ps -> 0 <= a -> a <= b <= L ->
  find_hole a b (holes ps) = None <-> ~ disjoint a b (frags ps).
Proof.
  intros HL Ht Ha Hab. split.
  - intros E Hd. destruct (hole_for L ps a b) as (? & ? & ? & E'); try done. congruence.
  - intros Hd. destruct (find_hole a b (holes ps)) as [[[bf h] af]|] eqn:E; [|done].
    exfalso. apply Hd. destruct (find_hole_spec _ _ _ _ _ _ E) as (H1 & H2 & ps1 & ps2 & -> & _ & _).
    apply list.Forall_forall. intros [[q c] d] Hin. simpl.
    assert (h ∈ holes (ps1 ++ PHole h :: ps2)) as Hh by (rewrite holes_app; set_solver).
    destruct (tiles_hole_disjoint _ _ _ _ _ _ _ _ HL Ht Hh Hin); lia.
Qed.

(** The call counter moves before the datagram is looked up. *)
Definition tick (m : ip_frag_manager) : ip_frag_manager := set_counter (u64 (m_frag_counter m + 1)) m.

(** Why a fragment is refused: the datagram is new and the descriptors are
    exhausted, or it overlaps a fragment received before. *)
Definition refused (k : ip_frag_key_t) (a b : Z) (m : ip_frag_manager)
    (G : ip_frag_key_t -> list piece) : Prop :=
  (m_frags m !! k = None /\ desc_free_list m = []) \/ ~ disjoint a b (received k (tick m) G).

(** The outcome of [add_frag] in [m] for the fragment [p], bytes [a] to [b]. *)
Definition add_outcome (L : Z) (k : ip_frag_key_t) (p : ptr) (a b : Z)
    (m : ip_frag_manager) (G : ip_frag_key_t -> list piece)
    (r : add_result) (m' : ip_frag_manager) (G' : ip_frag_key_t -> list piece) : Prop :=
  match r with
  | AddError => refused k a b m G /\ m_frags m' = m_frags m /\ bufs m' = bufs m
  | AddOk None =>
      ~ refused k a b m G /\ is_Some (m_frags m' !! k) /\
      frags (G' k) ≡ₚ (p, a, b) :: received k (tick m) G
  | AddOk (Some q) =>
      ~ refused k a b m G /\ m_frags m' !! k = None /\
      exists fs, contiguous L 0 fs /\ fs ≡ₚ (p, a, b) :: received k (tick m) G /\
        chain (bufs m') (Some q) fs.*1.*1
  end.

Lemma complete_outcome L k p a b m G bs' fl' ps' m' G' :
  [] = holes ps' -> tiles L 0 None ps' -> chain bs' fl' (ptrs ps') ->
  frags ps' ≡ₚ (p, a, b) :: received k (tick m) G -> ~ refused k a b m G ->
  bufs m' = bs' -> m_frags m' !! k = None ->
  add_outcome L k p a b m G (AddOk fl') m' G'.
Proof.
  intros Eh Ht Hc Hfs Hr <- Hk.
  destruct (ptrs ps') as [|q l] eqn:E.
  { rewrite <- frags_ptrs in E. do 2 apply fmap_nil_inv in E. rewrite E in Hfs.
    by apply Permutation_nil_l in Hfs. }
  assert (fl' = Some q) as -> by (by destruct Hc). split_and!; [done..|].
  exists (frags ps'). split_and!; [by eapply tiles_complete|done|by rewrite frags_ptrs, E].
Qed.

(** One call of [add_frag], see [add_frag_correct]. *)
Lemma add_frag_step Ld m G hdr p :
  Inv Ld (m_frags m) (bufs m) G -> valid_frag Ld hdr ->
  is_Some (bufs m !! p) -> fresh (m_frags m) G p -> (3 <= length (hole_free_list m))%nat ->
  exists r m' G',
    add_frag hdr p m = Some (r, m') /\ Inv Ld (m_frags m') (bufs m') G' /\
    (forall k, k <> frag_key hdr -> G' k = G k /\ m_frags m' !! k = m_frags m !! k) /\
    let '(a, b, _) := frag_bounds hdr in
    add_outcome (Ld (frag_key hdr)) (frag_key hdr) p a b m G r m' G'.
Proof.
  intros HI Hv [pb Hpb] Hfr Hf. unfold valid_frag in Hv. unfold add_frag.
  set (k := frag_key hdr) in *.
  assert (0 <= (frag_bounds hdr).1.1) as Ha by (apply wrap_range; lia).
  destruct (frag_bounds hdr) as [[a b] mf]. simpl in Ha. destruct Hv as (HL & Hab & Hmf).
  fold (tick m). assert (HI0 : Inv Ld (m_frags (tick m)) (bufs (tick m)) G) by done.
  destruct (get_desc_spec Ld (tick m) G k HI0) as (od & m1 & -> & HF & HB0 & Hfl & Hk & Hnone & Hod);
    [simpl; lia|]. simpl in HF, HB0, Hfl. simpl.
  destruct od as [d|].
  2: { exists AddError, m1, G. destruct Hod as [E1 E2]. simpl in E1, E2. rewrite E1, E2.
    split_and!; try done. split; [left; by apply Hnone|done]. }
  set (M := mine (m_frags m) G k).
  assert (forall x, ~ M x -> bufs m1 !! x = bufs m !! x) as HB.
  { intros x Hx. apply HB0. intros d' Hd' Hxd. apply Hx. by exists d'. }
  assert (~ M p) as HMp by (intros (d' & Hd' & Hx); by eapply Hfr).
  assert (bufs m1 !! p = Some pb) as Hpb1 by (by rewrite HB).
  pose proof (Inv_step Ld _ _ _ _ G k p HI Hfr HF HB) as Hstep.
  assert (exists ps, desc_ok (Ld k) (bufs m1) d ps /\ frags ps = received k (tick m) G /\
    (m1 = tick m \/ frags ps = []) /\ forall x, x ∈ ptrs ps -> M x) as (ps & Hok & Hrec & Hsame & Hps).
  { destruct Hod as [(E & Er & ->)|[Er Hok]].
    - exists (G k). split_and!; [by apply HI0|done|by left|]. intros; exists d; done.
    - exists new_pieces. split_and!; [done|by rewrite Er|by right|set_solver]. }
  assert (p ∉ ptrs ps) as Hpps by (by intros ?%Hps).
  pose proof (find_hole_None (Ld k) ps a b HL ltac:(apply Hok) Ha Hab) as Hov.
  assert (hole_list d = holes ps) as Ehl by apply Hok. rewrite <- Ehl in Hov.
  destruct (find_hole a b (hole_list d)) as [[[before h] after]|] eqn:Efh.
  2: { exists AddError, m1, G. pose proof (proj1 Hov eq_refl) as Hnd.
    destruct Hsame as [->|E]; [|by rewrite E in Hnd; destruct Hnd; constructor].
    split_and!; try done. split; [right; by rewrite <- Hrec|done]. }
  assert (~ refused k a b m G) as Hacc.
  { intros [H|H]; [by apply Hnone in H|]. rewrite <- Hrec in H. by apply Hov in H. }
  destruct (fill_hole_spec (Ld k) m1 d ps p pb a b mf before h after)
    as (hs & fl & c & bs' & fl' & ps' & Hs & Hl & Ehs & Ht' & Hc' & Hn' & Hin & Hfrs & Hx' & Hb');
    try done; [lia|].
  rewrite Hs. simpl. rewrite Hl. simpl. rewrite Hrec in Hfrs.
  assert (forall x, x ∈ ptrs ps' -> x = p \/ M x) as Hps'.
  { intros x [->|Hx]%Hx'; [by left|right; by apply Hps]. }
  assert (forall x, x <> p -> ~ M x -> bs' !! x = bufs m1 !! x) as Hb''.
  { intros x Hne HM. apply Hb'; [done|]. by intros ?%Hps. }
  destruct hs as [|h0 hs].
  - eexists (AddOk fl'), _, (upd G k ps'). split; [done|]. split; [|split]; [simpl|simpl|lazy beta iota zeta].
    + apply Hstep; try done; [|intros d'; by rewrite lookup_delete_eq].
      intros k' Hne. by rewrite lookup_delete_ne.
    + intros k' Hne. rewrite upd_ne, lookup_delete_ne, HF; done.
    + eapply complete_outcome; try done. apply lookup_delete_eq.
  - eexists (AddOk None), _, (upd G k ps'). split; [done|]. simpl. split_and!; [| |done| |].
    + apply Hstep; try done; [intros k' Hne; by rewrite lookup_insert_ne|].
      intros d'. rewrite lookup_insert_eq. intros [= <-]. split_and!; try done. by rewrite <- Ehs.
    + intros k' Hne. rewrite upd_ne, lookup_insert_ne, HF; done.
    + rewrite lookup_insert_eq. by eexists.
    + by rewrite upd_eq.
Qed.

(** C7: Reassembly.  With three hole descriptors free, adding a consistent
    fragment in a buffer of its own to any set of datagrams under reassembly
    returns and never disturbs another datagram.  The fragment is refused exactly
    when its datagram is new and no fragment descriptor is free, or when it
    overlaps a fragment already received of a datagram that has not expired; a
    refused fragment changes no datagram and no buffer.  An accepted fragment is
    recorded: the datagram then has exactly the fragments received before and the
    new one; or it delivers the datagram: then the buffers chained from the
    returned one are exactly these fragments and carry the bytes 0 to the last
    byte of the datagram, in order, without gap or overlap. *)
Theorem add_frag_correct Ld m G hdr p :
  Inv Ld (m_frags m) (bufs m) G -> valid_frag Ld hdr ->
  is_Some (bufs m !! p) -> fresh (m_frags m) G p -> (3 <= length (hole_free_list m))%nat ->
  exists r m' G',
    add_frag hdr p m = Some (r, m') /\ Inv Ld (m_frags m') (bufs m') G' /\
    (forall k, k <> frag_key hdr -> G' k = G k /\ m_frags m' !! k = m_frags m !! k) /\
    let '(a, b, _) := frag_bounds hdr in
    add_outcome (Ld (frag_key hdr)) (frag_key hdr) p a b m G r m' G'.
Proof. apply add_frag_step. Qed.

(** The first fragment of a two-fragment datagram: 24 bytes, more follow. *)
Definition hdr_a : iphdr := IpHdr 7 1 2 17 (htons 8192) (htons 44) 5.
Definition hdr_b : iphdr := IpHdr 7 1 2 17 (htons 3) (htons 30) 5.

Definition ex_af_m := ctor 2 4 (<[0%nat := Buf 44 None 0]> ∅).

Lemma add_frag_correct_witness :
  exists r m' G', add_frag hdr_a 0%nat ex_af_m = Some (r, m') /\
    Inv (fun _ => 33) (m_frags m') (bufs m') G' /\ r = AddOk None /\
    frags (G' (frag_key hdr_a)) ≡ₚ [(0%nat, 0, 23)].
Proof.
  assert (m_frags ex_af_m = ∅) as Hm by reflexivity.
  destruct (add_frag_correct (fun _ => 33) ex_af_m (fun _ => []) hdr_a 0%nat)
    as (r & m' & G' & E & HI & _ & Ho).
  - rewrite Hm. split; [intros k d H|intros k k' d d' x _ H]; by rewrite lookup_empty in H.
  - vm_compute. repeat split; discriminate.
  - by eexists.
  - intros k d H. by rewrite Hm, lookup_empty in H.
  - vm_compute. lia.
  - exists r, m', G'. pose proof E as Er. vm_compute in Er. injection Er as <- _.
    split_and!; [done|done|done|]. apply Ho.
Defined.

(** ** The descriptor pools are conserved *)

(** The hole descriptors held by the datagrams under reassembly. *)
Definition held (F : gmap ip_frag_key_t ip_frag_desc_t) : nat :=
  map_fold (fun _ d n => (length (hole_list d) + n)%nat) 0%nat F.

(** Every descriptor of the pools of [nd] and [nh] is either free or in use by
    exactly one datagram, and the counters agree with the free lists. *)
Definition pool_ok (nd nh : nat) (m : ip_frag_manager) : Prop :=
  (length (hole_free_list m) + held (m_frags m) = nh)%nat /\
  (length (desc_free_list m) + size (m_frags m) = nd)%nat /\
  hole_free_list_count m = Z.of_nat (length (hole_free_list m)) /\
  desc_free_list_count m = Z.of_nat (length (desc_free_list m)).

Lemma held_insert_new F k d :
  F !! k = None -> held (<[k := d]> F) = (length (hole_list d) + held F)%nat.
Proof. intros. unfold held. rewrite map_fold_insert_L; [done|lia|done]. Qed.

Lemma held_delete F k d :
  F !! k = Some d -> held F = (length (hole_list d) + held (delete k F))%nat.
Proof.
  intros. rewrite <- (held_insert_new _ k d) by apply lookup_delete_eq.
  by rewrite insert_delete_id.
Qed.

Lemma size_delete_S (F : gmap ip_frag_key_t ip_frag_desc_t) k d :
  F !! k = Some d -> size F = S (size (delete k F)).
Proof.
  intros. rewrite <- (map_size_insert_None k d (delete k F)) by apply lookup_delete_eq.
  by rewrite insert_delete_id.
Qed.

Lemma held_insert F k d d0 :
  F !! k = Some d0 ->
  (held (<[k := d]> F) + length (hole_list d0) = length (hole_list d) + held F)%nat.
Proof.
  intros H. rewrite <- insert_delete_eq, held_insert_new by apply lookup_delete_eq.
  rewrite (held_delete F k d0) by done. lia.
Qed.

(** Releasing buffers does not touch the pools. *)
Lemma free_frag_pools o m m' :
  free_frag o m = Some m' ->
  m_frags m' = m_frags m /\ hole_free_list m' = hole_free_list m /\
  hole_free_list_count m' = hole_free_list_count m /\
  desc_free_list m' = desc_free_list m /\ desc_free_list_count m' = desc_free_list_count m.
Proof. unfold free_frag. intros H. destruct o; simplify_option_eq; done. Qed.

(** Destroying a descriptor of the map and taking it out. *)
Lemma destroy_pool nd nh m m' k d d' :
  pool_ok nd nh m -> m_frags m !! k = Some d -> destroy_frag_desc d m = Some m' ->
  pool_ok nd nh (set_frags (delete k (m_frags m')) (free_frag_desc d' m')) /\ m_frags m' = m_frags m.
Proof.
  intros (H1 & H2 & H3 & H4) Hk Hd. unfold destroy_frag_desc in Hd.
  destruct (free_holes_spec (hole_list d) m) as (E1 & E2 & E3 & _ & E5 & E6 & _ & _).
  apply free_frag_pools in Hd as (F1 & F2 & F3 & F4 & F5).
  split; [|congruence]. rewrite (held_delete _ _ _ Hk) in H1. rewrite (size_delete_S _ _ _ Hk) in H2.
  unfold pool_ok; simpl. rewrite F1, F2, F3, F4, F5, E1, E2, E3, E5, E6, length_app, length_reverse.
  split_and!; simpl; lia.
Qed.

Lemma new_frag_desc_pool nd nh k m od m' :
  pool_ok nd nh m -> m_frags m !! k = None -> new_frag_desc k m = (od, m') ->
  pool_ok nd nh m' /\ (forall d, od = Some d -> m_frags m' !! k = Some d).
Proof.
  destruct m as [mc F mr [|h fl] c dl dc bs]; unfold pool_ok, new_frag_desc; simpl.
  { intros H Hk [= <- <-]. done. }
  intros (H1 & H2 & H3 & H4) Hk. destruct dl as [|d dl]; intros [= <- <-]; simpl.
  - split; [|done]. simpl in *. split_and!; lia || done.
  - simpl in *. rewrite held_insert_new, map_size_insert_None by done.
    split; [split_and!; simpl; lia|]. intros d' [= <-]. apply lookup_insert_eq.
Qed.

Lemma get_desc_pool nd nh k m od m' :
  pool_ok nd nh m -> get_desc k m = Some (od, m') ->
  pool_ok nd nh m' /\ (forall d, od = Some d -> m_frags m' !! k = Some d).
Proof.
  unfold get_desc. intros Hp H. destruct (m_frags m !! k) as [d|] eqn:Ek.
  - case_decide; simplify_eq/=; [|by split; [|intros ? [= <-]]].
    destruct (destroy_frag_desc d m) as [m1|] eqn:Ed; simplify_eq/=.
    destruct (destroy_pool nd nh m m1 k d d Hp Ek Ed) as [Hp' _].
    eapply new_frag_desc_pool; [exact Hp'| |done]. apply lookup_delete_eq.
  - injection H as H. by eapply new_frag_desc_pool.
Qed.

(** Splitting a hole: what leaves the free list is in the new hole list, also
    when the pool is exhausted. *)
Lemma split_hole_pool p a b mf before h after m ok hs m' :
  split_hole p a b mf before h after m = (ok, hs, m') ->
  m_frags m' = m_frags m /\ bufs m' = bufs m /\
  desc_free_list m' = desc_free_list m /\ desc_free_list_count m' = desc_free_list_count m /\
  hole_free_list_count m' - Z.of_nat (length (hole_free_list m')) =
    hole_free_list_count m - Z.of_nat (length (hole_free_list m)) /\
  (length (hole_free_list m') + length hs + (if ok then 1 else 0) =
   length (hole_free_list m) + length (before ++ h :: after))%nat.
Proof.
  unfold split_hole, alloc_hole_desc. destruct m as [mc F mr fl c dl dc bs]; simpl.
  destruct (decide (a > first h)); [destruct fl as [|h1 fl]|]; simpl.
  - intros [= <- <- <-]. simpl. rewrite !length_app. split_and!; simpl; lia || done.
  - destruct (decide (b < last h /\ mf = true)); [destruct fl as [|h2 fl]|]; simpl;
      intros [= <- <- <-]; simpl; rewrite !length_app; split_and!; simpl; rewrite ?length_app; simpl; lia || done.
  - destruct (decide (b < last h /\ mf = true)); [destruct fl as [|h2 fl]|]; simpl;
      intros [= <- <- <-]; simpl; rewrite !length_app; split_and!; simpl; rewrite ?length_app; simpl; lia || done.
Qed.

Lemma find_hole_app a b hs before h after :
  find_hole a b hs = Some (before, h, after) -> hs = before ++ h :: after.
Proof.
  revert before. induction hs as [|g hs IH]; intros before H; simpl in H; [done|].
  case_decide; simplify_eq; [done|].
  destruct (find_hole a b hs) as [[[bf h'] af]|]; simplify_eq/=. by rewrite (IH bf eq_refl).
Qed.

Lemma add_frag_pool nd nh hdr p m r m' :
  pool_ok nd nh m -> add_frag hdr p m = Some (r, m') -> pool_ok nd nh m'.
Proof.
  intros Hp. unfold add_frag. destruct (frag_bounds hdr) as [[a b] mf].
  set (k := frag_key hdr). set (m0 := set_counter _ m).
  destruct (get_desc k m0) as [[od m1]|] eqn:Eg; [|done]. simpl.
  apply (get_desc_pool nd nh) in Eg as [(H1 & H2 & H3 & H4) Hk]; [|done].
  destruct od as [d|]; [|by intros [= <- <-]]. specialize (Hk d eq_refl).
  destruct (find_hole a b (hole_list d)) as [[[bf h] af]|] eqn:Ef; [|by intros [= <- <-]].
  apply find_hole_app in Ef.
  destruct (split_hole p a b mf bf h af m1) as [[ok hs] m2] eqn:Es.
  apply split_hole_pool in Es as (E1 & E2 & E3 & E4 & E5 & E6). rewrite <- Ef in E6.
  destruct ok; simpl.
  - destruct (link_frag _ _ _ _) as [[bs fl]|]; [|done]. simpl.
    pose proof (held_delete _ _ _ Hk). pose proof (size_delete_S _ _ _ Hk).
    destruct hs as [|h0 hs]; intros [= <- <-]; unfold pool_ok; simpl.
    + rewrite E1, E3, E4 in *. simpl in *. split_and!; lia.
    + pose proof (held_insert _ k (FragDesc (ttl d) (h0 :: hs) fl (frag_counter d)) d Hk) as H5.
      rewrite E1, E3, E4, map_size_insert_Some by done. simpl in *. split_and!; lia.
  - intros [= <- <-]. unfold pool_ok; simpl.
    pose proof (held_insert _ k (FragDesc (ttl d) hs (frag_list d) (frag_counter d)) d Hk) as H5.
    rewrite E1, E3, E4, map_size_insert_Some by done. simpl in *. split_and!; lia.
Qed.

(** *** Walking the datagrams in the order of the map *)

Lemma frags_in_order_perm m : frags_in_order m ≡ₚ map_to_list (m_frags m).
Proof. apply merge_sort_Permutation. Qed.

(** The entries still to be visited are in the map, each key once. *)
Definition pending (l : list (ip_frag_key_t * ip_frag_desc_t)) (m : ip_frag_manager) : Prop :=
  NoDup l.*1 /\ forall kd, kd ∈ l -> m_frags m !! kd.1 = Some kd.2.

Lemma pending_start m : pending (frags_in_order m) m.
Proof.
  split.
  - rewrite frags_in_order_perm. apply NoDup_fst_map_to_list.
  - intros [k d]. rewrite frags_in_order_perm. apply elem_of_map_to_list.
Qed.

Lemma pending_step k d l m m' :
  pending ((k, d) :: l) m -> (forall k', k' <> k -> m_frags m' !! k' = m_frags m !! k') ->
  m_frags m !! k = Some d /\ pending l m'.
Proof.
  intros [Hn Hm] Hk. simpl in Hn. apply list.NoDup_cons in Hn as [Hnk Hn].
  split; [apply (Hm (k, d)); left|]. split; [done|]. intros [k' d'] Hin. simpl.
  rewrite Hk; [apply (Hm (k', d')); by right|]. intros ->. apply Hnk.
  apply list_elem_of_fmap. by exists (k, d').
Qed.

(** A visit that fails stays failed. *)
Lemma foldl_None {A B} (f : option A -> B -> option A) l :
  (forall x, f None x = None) -> foldl f None l = None.
Proof. intros Hf. induction l; simpl; [done|]. by rewrite Hf. Qed.

Lemma timer_visit_pool nd nh delta m k d m' :
  pool_ok nd nh m -> m_frags m !! k = Some d -> timer_visit delta (Some m) (k, d) = Some m' ->
  pool_ok nd nh m' /\ (forall k', k' <> k -> m_frags m' !! k' = m_frags m !! k').
Proof.
  intros Hp Hk. unfold timer_visit; simpl. case_decide.
  - destruct (destroy_frag_desc d m) as [m1|] eqn:Ed; simpl; [|done]. intros [= <-].
    edestruct (destroy_pool nd nh m m1 k d) as [Hp' E]; [done..|]. split; [exact Hp'|].
    intros k' Hne. simpl. by rewrite lookup_delete_ne, E.
  - intros [= <-]. destruct Hp as (H1 & H2 & H3 & H4). split.
    + unfold pool_ok; simpl. rewrite map_size_insert_Some by done.
      pose proof (held_insert (m_frags m) k (FragDesc (u16 (ttl d - 1)) (hole_list d)
        (frag_list d) (s64 (frag_counter d - delta))) d Hk) as H5. simpl in H5.
      split_and!; try done. lia.
    + intros k' Hne. simpl. by rewrite lookup_insert_ne.
Qed.

Lemma timer_pool nd nh delta l m m' :
  pool_ok nd nh m -> pending l m -> foldl (timer_visit delta) (Some m) l = Some m' ->
  pool_ok nd nh m'.
Proof.
  revert m. induction l as [|[k d] l IH]; intros m Hp Hl.
  { by intros [= <-]. }
  cbn [foldl]. destruct (timer_visit delta (Some m) (k, d)) as [m1|] eqn:E.
  2: { rewrite foldl_None; done. }
  assert (m_frags m !! k = Some d) as Hk by (apply (proj2 Hl (k, d)); left).
  destruct (timer_visit_pool nd nh delta m k d m1 Hp Hk E) as [Hp1 Hf].
  apply IH; [done|]. by eapply pending_step.
Qed.

(** The destructor's loop: every datagram visited is gone. *)
Definition free_visit (om : option ip_frag_manager) (kd : ip_frag_key_t * ip_frag_desc_t)
  : option ip_frag_manager :=
  m ← om; m ← destroy_frag_desc kd.2 m;
  Some (set_frags (delete kd.1 (m_frags m)) (free_frag_desc kd.2 m)).

Lemma free_visits_pool nd nh l m m' :
  pool_ok nd nh m -> pending l m -> foldl free_visit (Some m) l = Some m' ->
  pool_ok nd nh m' /\ (forall k d, m_frags m' !! k = Some d -> m_frags m !! k = Some d /\ k ∉ l.*1).
Proof.
  revert m. induction l as [|[k d] l IH]; intros m Hp Hl.
  { intros [= <-]. split; [done|]. intros k d ->. set_solver. }
  cbn [foldl]. assert (m_frags m !! k = Some d) as Hk by (apply (proj2 Hl (k, d)); left).
  unfold free_visit at 2; simpl. destruct (destroy_frag_desc d m) as [m1|] eqn:Ed; simpl.
  2: { rewrite foldl_None; done. }
  destruct (destroy_pool nd nh m m1 k d d Hp Hk Ed) as [Hp1 E]. intros Hf.
  apply IH in Hf as [Hp2 Hm2]; [|done|]; simpl.
  - split; [done|]. intros k' d' Hd'. apply Hm2 in Hd' as [Hd' Hin]. simpl in Hd'.
    rewrite E in Hd'. apply lookup_delete_Some in Hd' as [Hne Hd']. split; [done|].
    apply not_elem_of_cons. done.
  - eapply pending_step; [exact Hl|]. intros k' Hne. simpl. by rewrite lookup_delete_ne, E.
Qed.

(** The operations of a manager, in any order. *)
Inductive op := OAdd (hdr : iphdr) (frag : ptr) | OTimer.

Definition apply_op (o : op) (m : ip_frag_manager) : option ip_frag_manager :=
  match o with
  | OAdd hdr p => snd <$> add_frag hdr p m
  | OTimer => fst <$> handle_timer_expired m
  end.

Fixpoint run (ops : list op) (m : ip_frag_manager) : option ip_frag_manager :=
  match ops with
  | [] => Some m
  | o :: ops => m ← apply_op o m; run ops m
  end.

Lemma iter_free_holes n h m :
  let m' := Nat.iter n (free_hole_desc h) m in
  length (hole_free_list m') = (n + length (hole_free_list m))%nat /\
  hole_free_list_count m' = Z.of_nat n + hole_free_list_count m /\
  m_frags m' = m_frags m /\ desc_free_list m' = desc_free_list m /\
  desc_free_list_count m' = desc_free_list_count m.
Proof.
  induction n as [|n (E1 & E2 & E3 & E4 & E5)]; [done|]. cbn -[Nat.iter]. simpl Nat.iter. simpl.
  rewrite E1, E2, E3, E4, E5. split_and!; lia || done.
Qed.

Lemma iter_free_descs n d m :
  let m' := Nat.iter n (free_frag_desc d) m in
  length (desc_free_list m') = (n + length (desc_free_list m))%nat /\
  desc_free_list_count m' = Z.of_nat n + desc_free_list_count m /\
  m_frags m' = m_frags m /\ hole_free_list m' = hole_free_list m /\
  hole_free_list_count m' = hole_free_list_count m.
Proof.
  induction n as [|n (E1 & E2 & E3 & E4 & E5)]; [done|]. cbn -[Nat.iter]. simpl Nat.iter. simpl.
  rewrite E1, E2, E3, E4, E5. split_and!; lia || done.
Qed.

Lemma ctor_pool nd nh bs : pool_ok nd nh (ctor nd nh bs).
Proof.
  unfold ctor, pool_ok.
  edestruct (iter_free_holes nh) as (-> & -> & -> & -> & ->).
  edestruct (iter_free_descs nd) as (-> & -> & -> & -> & ->). simpl.
  unfold held. rewrite map_fold_empty, map_size_empty. split_and!; lia.
Qed.

Lemma apply_op_pool nd nh o m m' : pool_ok nd nh m -> apply_op o m = Some m' -> pool_ok nd nh m'.
Proof.
  intros Hp. destruct o as [hdr p|]; simpl.
  - destruct (add_frag hdr p m) as [[r m1]|] eqn:E; simpl; [|done]. intros [= <-].
    by eapply add_frag_pool.
  - unfold handle_timer_expired. set (m0 := set_counter _ m).
    destruct (foldl _ _ _) as [m1|] eqn:E; simpl; [|done]. intros [= <-].
    apply (timer_pool nd nh) in E; [done|done|apply pending_start].
Qed.

Lemma run_pool nd nh ops m m' : pool_ok nd nh m -> run ops m = Some m' -> pool_ok nd nh m'.
Proof.
  revert m. induction ops as [|o ops IH]; simpl; intros m Hp; [by intros [= <-]|].
  destruct (apply_op o m) as [m1|] eqn:E; simpl; [|done]. apply IH. by eapply apply_op_pool.
Qed.

(** ** The timer *)

(** What a timer expiry does to one datagram. *)
Definition age (delta : Z) (d : ip_frag_desc_t) : option ip_frag_desc_t :=
  let fc := s64 (frag_counter d - delta) in
  if decide (fc < 0 \/ ttl d <= 0) then None
  else Some (FragDesc (u16 (ttl d - 1)) (hole_list d) (frag_list d) fc).

Definition timer_delta (m : ip_frag_manager) : Z := Z.max 0 (m_frag_counter m - IP_FRAG_SPACE).

(** One datagram changes within its own buffers or goes. *)
Lemma Inv_keep Ld F bs F' bs' G k d :
  Inv Ld F bs G -> F !! k = Some d ->
  (forall k', k' <> k -> F' !! k' = F !! k') ->
  (forall x, x ∉ ptrs (G k) -> bs' !! x = bs !! x) ->
  (forall d', F' !! k = Some d' -> desc_ok (Ld k) bs' d' (G k)) -> Inv Ld F' bs' G.
Proof.
  intros [Hi Hj] Hk HF Hb Hd'. split.
  - intros k' d' Hk'. destruct (decide (k' = k)) as [->|Hkk]; [by apply Hd'|].
    rewrite HF in Hk' by done. destruct (Hi _ _ Hk') as (?&?&?&Hc'&?). split_and!; try done.
    eapply chain_mono; [|done]. intros x Hx. apply Hb. by eapply (Hj k' k).
  - intros k1 k2 d1 d2 x Hk12 H1 H2.
    assert (forall k' d', F' !! k' = Some d' -> exists d'', F !! k' = Some d'') as HS.
    { intros k' d' Hk'. destruct (decide (k' = k)) as [->|]; [by eexists|].
      rewrite HF in Hk' by done. by eexists. }
    destruct (HS _ _ H1), (HS _ _ H2). by eapply Hj.
Qed.

Lemma timer_visit_spec Ld delta m G k d :
  Inv Ld (m_frags m) (bufs m) G -> m_frags m !! k = Some d ->
  exists m', timer_visit delta (Some m) (k, d) = Some m' /\
    Inv Ld (m_frags m') (bufs m') G /\ m_frag_counter m' = m_frag_counter m /\
    m_frags m' !! k = age delta d /\ (forall k', k' <> k -> m_frags m' !! k' = m_frags m !! k').
Proof.
  intros HI Hk. destruct (proj1 HI _ _ Hk) as (Ht & Hh & Hne & Hc & Hn).
  pose proof (fun F' bs' => Inv_keep Ld _ _ F' bs' G k d HI Hk) as Hstep.
  unfold timer_visit, age; simpl. case_decide.
  - destruct (destroy_spec m d _ Hc Hn) as (m1 & -> & EF & EC & _ & _ & _ & _ & Hb). simpl.
    eexists. split; [done|]. simpl. rewrite EF. split_and!; try done.
    + apply Hstep; [intros k' ?; by rewrite lookup_delete_ne|done|]. intros d'. by rewrite lookup_delete_eq.
    + by rewrite lookup_delete_eq.
    + intros k' ?. by rewrite lookup_delete_ne.
  - eexists. split; [done|]. simpl. split_and!; try done.
    + apply Hstep; [intros k' ?; by rewrite lookup_insert_ne|done|]. intros d'.
      rewrite lookup_insert_eq. intros [= <-]. done.
    + by rewrite lookup_insert_eq.
    + intros k' ?. by rewrite lookup_insert_ne.
Qed.

Lemma timer_visits_spec Ld delta l m G :
  Inv Ld (m_frags m) (bufs m) G -> pending l m ->
  exists m', foldl (timer_visit delta) (Some m) l = Some m' /\
    Inv Ld (m_frags m') (bufs m') G /\ m_frag_counter m' = m_frag_counter m /\
    (forall k d, (k, d) ∈ l -> m_frags m' !! k = age delta d) /\
    (forall k, k ∉ l.*1 -> m_frags m' !! k = m_frags m !! k).
Proof.
  revert m. induction l as [|[k d] l IH]; intros m HI Hl.
  { exists m. split_and!; try done. set_solver. }
  cbn [foldl]. assert (m_frags m !! k = Some d) as Hk by (apply (proj2 Hl (k, d)); left).
  destruct (timer_visit_spec Ld delta m G k d HI Hk) as (m1 & -> & HI1 & EC & Ek & Ene).
  destruct (IH m1 HI1) as (m2 & E2 & HI2 & EC2 & H1 & H2); [by eapply pending_step|].
  destruct Hl as [Hn _]. apply list.NoDup_cons in Hn as [Hkl _].
  exists m2. split_and!; try done; [congruence| |].
  - intros k' d' [[= -> ->]|Hin]%elem_of_cons; [by rewrite H2|by apply H1].
  - intros k' [Hne Hin]%not_elem_of_cons. rewrite H2, Ene; done.
Qed.

(** Expiry.  The timer handler always returns; it keeps exactly the
    datagrams that are neither too old nor out of their time to live, with the
    same holes and fragments and one unit of time to live less, and leaves
    every chain it keeps intact.  The counter is rebased, at most
    [IP_FRAG_SPACE], and the lists to return to the owners are handed over. *)
Theorem handle_timer_expired_correct Ld m G :
  Inv Ld (m_frags m) (bufs m) G ->
  exists m' out, handle_timer_expired m = Some (m', out) /\
    Inv Ld (m_frags m') (bufs m') G /\
    m_frags m' = omap (age (timer_delta m)) (m_frags m) /\
    m_frag_counter m' = m_frag_counter m - timer_delta m /\
    m_frag_counter m' <= IP_FRAG_SPACE /\ m_return_descs m' = ∅.
Proof.
  intros HI. unfold handle_timer_expired.
  assert ((if decide (m_frag_counter m > IP_FRAG_SPACE) then m_frag_counter m - IP_FRAG_SPACE else 0)
    = timer_delta m) as -> by (unfold timer_delta; case_decide; lia).
  set (m0 := set_counter _ m).
  destruct (timer_visits_spec Ld (timer_delta m) (frags_in_order m0) m0 G)
    as (m1 & -> & HI1 & EC & H1 & H2); [done|apply pending_start|].
  simpl. eexists _, _. split; [done|]. simpl. split_and!; try done.
  - apply map_eq. intros k. rewrite lookup_omap. destruct (m_frags m !! k) as [d|] eqn:Ek; simpl.
    + apply H1. rewrite frags_in_order_perm. by apply elem_of_map_to_list.
    + rewrite H2; [done|]. rewrite frags_in_order_perm.
      intros ([k' d] & -> & Hin)%list_elem_of_fmap. apply elem_of_map_to_list in Hin.
      simpl in *. congruence.
  - rewrite EC. simpl. unfold timer_delta. lia.
Qed.

Definition ex_hte_m :=
  Mgr 60010 (<[Key 7 1 2 17 := FragDesc 2 [HoleDesc 0 65535 None None] None 5]>
            (<[Key 8 1 2 17 := FragDesc 2 [HoleDesc 0 65535 None None] None 50]> ∅)) ∅ [] 0 [] 0 ∅.

Lemma handle_timer_expired_correct_witness :
  exists m' out, handle_timer_expired ex_hte_m = Some (m', out) /\
    m_frags m' !! Key 7 1 2 17 = None /\
    m_frags m' !! Key 8 1 2 17 = Some (FragDesc 1 [HoleDesc 0 65535 None None] None 40).
Proof.
  destruct (handle_timer_expired_correct (fun _ => 100) ex_hte_m (fun _ => new_pieces))
    as (m' & out & E & _ & EF & _).
  - split; [|intros; set_solver]. intros k d. unfold ex_hte_m; cbn [m_frags].
    intros [[_ <-]|[_ [[_ <-]|[_ Hd]]%lookup_insert_Some]]%lookup_insert_Some;
      [| |by rewrite lookup_empty in Hd]; split_and!; try done; constructor.
  - exists m', out. split; [done|]. rewrite EF, !lookup_omap.
    split; reflexivity.
Defined.

(** ** Any life of the manager *)

(** The destructor's loop returns. *)
Lemma free_visits_return Ld l m G :
  Inv Ld (m_frags m) (bufs m) G -> pending l m ->
  exists m', foldl free_visit (Some m) l = Some m'.
Proof.
  revert m. induction l as [|[k d] l IH]; intros m HI Hl; [by exists m|].
  cbn [foldl]. assert (m_frags m !! k = Some d) as Hk by (apply (proj2 Hl (k, d)); left).
  destruct (proj1 HI _ _ Hk) as (_ & _ & _ & Hc & Hn).
  destruct (destroy_spec m d _ Hc Hn) as (m1 & E & EF & _ & _ & _ & _ & _ & Hb).
  unfold free_visit at 2; simpl. rewrite E. simpl. apply IH; simpl; rewrite EF.
  - eapply Inv_keep; [done|done| |done|]; [intros k' ?; by rewrite lookup_delete_ne|].
    intros d'. by rewrite lookup_delete_eq.
  - eapply pending_step; [done|]. intros k' ?. simpl. by rewrite lookup_delete_ne.
Qed.

(** The destructor empties the map and refills the free lists. *)
Lemma free_frag_resources_pool nd nh m m' out :
  pool_ok nd nh m -> free_frag_resources m = Some (m', out) ->
  m_frags m' = ∅ /\ length (hole_free_list m') = nh /\ length (desc_free_list m') = nd.
Proof.
  intros Hp Hf. unfold free_frag_resources in Hf.
  change (foldl _ _ _) with (foldl free_visit (Some m) (frags_in_order m)) in Hf.
  destruct (foldl _ _ _) as [m1|] eqn:E; simplify_eq/=.
  apply (free_visits_pool nd nh) in E as [(H1 & H2 & _) Hm]; [|done|apply pending_start].
  assert (m_frags m1 = ∅) as E.
  { apply map_empty. intros k. destruct (m_frags m1 !! k) as [d|] eqn:Ek; [|done]. exfalso.
    apply Hm in Ek as [Ek Hn]. apply Hn. rewrite frags_in_order_perm.
    apply list_elem_of_fmap. exists (k, d). by rewrite elem_of_map_to_list. }
  rewrite E in *. unfold held in H1. rewrite map_fold_empty in H1. rewrite map_size_empty in H2.
  split_and!; [done|lia|lia].
Qed.

(** A buffer in the chain of a datagram under reassembly. *)
Definition chained (m : ip_frag_manager) (x : ptr) : Prop :=
  exists k d l, m_frags m !! k = Some d /\ chain (bufs m) (frag_list d) l /\ x ∈ l.

(** A fragment the manager may be handed: consistent with the datagram's length,
    in a buffer that is not chained, with three hole descriptors free. *)
Definition legal_add (Ld : ip_frag_key_t -> Z) (m : ip_frag_manager) (hdr : iphdr) (p : ptr) : Prop :=
  valid_frag Ld hdr /\ is_Some (bufs m !! p) /\ ~ chained m p /\
  (3 <= length (hole_free_list m))%nat.

(** The states of a manager: fragments and timer expiries in any order; the
    owners of the buffers may write every buffer that is not chained, and the
    next datagram of a key may have another length. *)
Inductive reachable (nd nh : nat) (bs : gmap ptr mem_buf_desc_t)
  : (ip_frag_key_t -> Z) -> ip_frag_manager -> Prop :=
  | reach_ctor Ld : reachable nd nh bs Ld (ctor nd nh bs)
  | reach_add Ld m hdr p r m' : reachable nd nh bs Ld m -> legal_add Ld m hdr p ->
      add_frag hdr p m = Some (r, m') -> reachable nd nh bs Ld m'
  | reach_timer Ld m m' out : reachable nd nh bs Ld m ->
      handle_timer_expired m = Some (m', out) -> reachable nd nh bs Ld m'
  | reach_owner Ld m bs' : reachable nd nh bs Ld m ->
      (forall x, chained m x -> bs' !! x = bufs m !! x) -> reachable nd nh bs Ld (set_bufs bs' m)
  | reach_length Ld Ld' m : reachable nd nh bs Ld m ->
      (forall k, is_Some (m_frags m !! k) -> Ld' k = Ld k) -> reachable nd nh bs Ld' m.

Lemma not_chained_fresh Ld m G p :
  Inv Ld (m_frags m) (bufs m) G -> ~ chained m p -> fresh (m_frags m) G p.
Proof.
  intros [Hi _] Hn k d Hk Hp. apply Hn. destruct (Hi _ _ Hk) as (_ & _ & _ & Hc & _).
  by exists k, d, (ptrs (G k)).
Qed.

Lemma reachable_Inv nd nh bs Ld m :
  reachable nd nh bs Ld m -> pool_ok nd nh m /\ exists G, Inv Ld (m_frags m) (bufs m) G.
Proof.
  induction 1 as [Ld|Ld m hdr p r m' _ [Hp (G & HI)] (Hv & Hb & Hc & Hf) E|Ld m m' out _ [Hp (G & HI)] E
    |Ld m bs' _ [Hp (G & HI)] Hb|Ld Ld' m _ [Hp (G & HI)] HL].
  - split; [apply ctor_pool|]. exists (fun _ => []). unfold ctor.
    edestruct (iter_free_holes nh) as (_ & _ & -> & _ & _).
    edestruct (iter_free_descs nd) as (_ & _ & -> & _ & _). simpl.
    split; [intros k d Hd|intros k k' d d' x _ Hd]; by rewrite lookup_empty in Hd.
  - split; [by eapply add_frag_pool|].
    destruct (add_frag_step Ld m G hdr p) as (r' & m'' & G' & E' & HI' & _); try done.
    { by eapply not_chained_fresh. }
    rewrite E in E'. simplify_eq. by exists G'.
  - split; [by apply (apply_op_pool nd nh OTimer m); [|simpl; rewrite E]|].
    destruct (handle_timer_expired_correct Ld m G HI) as (m'' & out' & E' & HI' & _).
    rewrite E in E'. simplify_eq. by exists G.
  - split; [done|]. exists G. destruct HI as [Hi Hj]. split; [|done]. simpl. intros k d Hk.
    pose proof (Hi _ _ Hk) as (?&?&?&Hc&?). split_and!; try done. eapply chain_mono; [|done].
    intros x Hx. apply Hb. by exists k, d, (ptrs (G k)).
  - split; [done|]. exists G. destruct HI as [Hi Hj]. split; [|done]. intros k d Hk.
    rewrite HL by eauto. by apply Hi.
Qed.

(** C39: The descriptor pools are conserved and the manager never gets stuck.
    In every state reached by consistent fragments in buffers of their own, each
    added with three hole descriptors free, and timer expiries in any order, the
    free descriptors and those in use add up to the pools, for hole and for
    fragment descriptors, and the counters are the lengths of the free lists; the
    next fragment, the next timer expiry and the tear-down return, and the
    tear-down leaves no datagram and full free lists.  The sums hold on after any
    further operations that return, also with inconsistent fragments and
    exhausted pools. *)
Theorem pools_conserved nd nh bs Ld m :
  reachable nd nh bs Ld m ->
  pool_ok nd nh m /\
  (forall hdr p, legal_add Ld m hdr p -> is_Some (add_frag hdr p m)) /\
  is_Some (handle_timer_expired m) /\
  (exists m' out, free_frag_resources m = Some (m', out) /\
     m_frags m' = ∅ /\ length (hole_free_list m') = nh /\ length (desc_free_list m') = nd) /\
  (forall ops m', run ops m = Some m' -> pool_ok nd nh m').
Proof.
  intros [Hp (G & HI)]%reachable_Inv. split_and!; [done| | | |].
  - intros hdr p (Hv & Hb & Hc & Hf).
    destruct (add_frag_step Ld m G hdr p) as (r & m' & G' & -> & _); try done.
    by eapply not_chained_fresh.
  - destruct (handle_timer_expired_correct Ld m G HI) as (m' & out & -> & _). done.
  - destruct (free_visits_return Ld (frags_in_order m) m G) as [m1 E]; [done|apply pending_start|].
    eexists _, _. split; [unfold free_frag_resources; unfold free_visit in E; by rewrite E|].
    eapply (free_frag_resources_pool nd nh m); [done|].
    unfold free_frag_resources; unfold free_visit in E; by rewrite E.
  - intros ops m'. by apply run_pool.
Qed.

Definition ex_pc_m := ctor 2 4 (<[0%nat := Buf 44 None 0]> ∅).

(** One fragment received, then torn down. *)
Lemma pools_conserved_witness :
  exists r m m' out, add_frag hdr_a 0%nat ex_pc_m = Some (r, m) /\ m_frags m <> ∅ /\ pool_ok 2 4 m /\
    free_frag_resources m = Some (m', out) /\ m_frags m' = ∅ /\ length (hole_free_list m') = 4%nat.
Proof.
  destruct (add_frag hdr_a 0%nat ex_pc_m) as [[r m]|] eqn:E; [|vm_compute in E; discriminate].
  destruct (pools_conserved 2 4 (<[0%nat := Buf 44 None 0]> ∅) (fun _ => 33) m)
    as (Hp & _ & _ & (m' & out & Ef & Em & Eh & _) & _).
  - eapply (reach_add _ _ _ _ ex_pc_m); [apply reach_ctor| |exact E].
    split_and!; [vm_compute; repeat split; discriminate|by eexists| |vm_compute; lia].
    intros (k & d & l & Hk & _). by vm_compute in Hk.
  - exists r, m, m', out. split_and!; try done. vm_compute in E. injection E as <- <-. done.
Defined.

(** When the hole pool runs out between steps 5 and 6 the refused fragment
    stays linked: in a manager left with two free hole descriptors, the middle
    fragment (bytes 24-47, more to follow) is refused, so the caller drops its
    buffer, but the hole before it points to it; the first fragment (bytes 0-23)
    then completes the "datagram", and what is delivered is a chain that runs
    into the refused buffer and lacks every byte after it. *)
Theorem exhausted_holes_deliver_refused_buffer :
  let bs := <[0%nat := Buf 44 None 0]> (<[1%nat := Buf 44 None 0]> ∅) in
  let mid_hdr := IpHdr 7 1 2 17 (htons (8192 + 3)) (htons 44) 5 in
  exists m1 m2,
    add_frag mid_hdr 1%nat (ctor 2 2 bs) = Some (AddError, m1) /\
    add_frag hdr_a 0%nat m1 = Some (AddOk (Some 0%nat), m2) /\
    chain (bufs m2) (Some 0%nat) [0; 1]%nat.
Proof.
  eexists _, _. split; [by vm_compute|]. split; [by vm_compute|].
  split; [done|]. eexists. split; [done|]. split; [done|]. eexists. by split.
Qed.

End Frag.
