(* ===== verification/FragRun.v ===== *)
(** * Reassembling a whole datagram: src/src/vma/proto/ip_frag.cpp

    [add_frag] (IpFrag) called for all fragments of one datagram, in whatever
    order they arrive: each is put at its place and the last one delivers the
    datagram.  Nothing is assumed of the other datagrams under reassembly. *)

From S2P Require Import Prelude IpFrag.

Local Open Scope Z_scope.

Module FragRun.
Import Frag.

(** The calls of [add_frag] for fragments as they arrive, each in its buffer. *)
Fixpoint add_frags (l : list (ptr * iphdr)) (m : ip_frag_manager)
  : option (list add_result * ip_frag_manager) :=
  match l with
  | [] => Some ([], m)
  | (p, hdr) :: l =>
    '(r, m) ← add_frag hdr p m;
    '(rs, m) ← add_frags l m;
    Some (r :: rs, m)
  end.

(** The bytes of a fragment. *)
Definition piece_of (x : ptr * iphdr) : ptr * Z * Z :=
  let '(a, b, _) := frag_bounds x.2 in (x.1, a, b).

(** [l] is a datagram of the bytes 0 to [L], by increasing offset: the pieces
    follow each other and only the last says that no more follow. *)
Definition datagram (k : ip_frag_key_t) (L : Z) (l : list (ptr * iphdr)) : Prop :=
  contiguous L 0 (map piece_of l) /\ NoDup l.*1 /\ L <= IP_FRAG_INF /\
  Forall (fun x => frag_key x.2 = k /\
    let '(a, b, mf) := frag_bounds x.2 in mf = bool_decide (b < L)) l.

(** ** Pieces *)

(** No hole begins after the datagram's end. *)
Definition holes_low (L : Z) (ps : list piece) : Prop := Forall (fun h => first h <= L) (holes ps).

Lemma tiles_hole_le L pos pred ps h : tiles L pos pred ps -> h ∈ holes ps -> first h <= last h.
Proof.
  revert pos pred. induction ps as [|[g|q c d mf] ps IH]; intros pos pred; csimpl.
  - intros _ H. by apply not_elem_of_nil in H.
  - intros (<- & Hle & _ & _ & Hr) [->|Hh]%elem_of_cons; [done|].
    destruct ps as [|[]]; [by apply not_elem_of_nil in Hh|done|]. by eapply IH.
  - intros (_ & _ & _ & Hr) Hh. by eapply IH.
Qed.

(** ** Contiguous fragments *)

Lemma contiguous_le L pos fs f : contiguous L pos fs -> f ∈ fs -> pos <= f.1.2 /\ f.1.2 <= f.2 <= L.
Proof.
  revert pos. induction fs as [|[[p a] b] fs IH]; intros pos; simpl;
    [intros _ H; by apply not_elem_of_nil in H|].
  intros (-> & Hab & Hr). assert (b <= L) as HL.
  { clear -Hr. revert b Hr. induction fs as [|[[? c] d] fs IH]; intros b; simpl; [lia|].
    intros (-> & ? & Hr). apply IH in Hr. lia. }
  intros [->|Hf]%elem_of_cons; simpl; [lia|]. apply (IH _ Hr) in Hf. lia.
Qed.

Lemma contiguous_cover L pos fs x :
  contiguous L pos fs -> pos <= x <= L -> exists f, f ∈ fs /\ f.1.2 <= x <= f.2.
Proof.
  revert pos. induction fs as [|[[p a] b] fs IH]; intros pos; simpl; [lia|].
  intros (-> & Hab & Hr) Hx. destruct (decide (x <= b)).
  - exists (p, pos, b). split; [apply list_elem_of_here|simpl; lia].
  - destruct (IH _ Hr) as (f & ? & ?); [lia|]. exists f. split; [by apply list_elem_of_further|done].
Qed.

Lemma contiguous_disjoint L pos l1 p a b l2 :
  contiguous L pos (l1 ++ (p, a, b) :: l2) -> disjoint a b (l1 ++ l2).
Proof.
  revert pos. induction l1 as [|[[q c] d] l1 IH]; intros pos; simpl.
  - intros (-> & Hab & Hr). apply list.Forall_forall. intros f Hf.
    apply (contiguous_le _ _ _ _ Hr) in Hf. lia.
  - intros (-> & Hab & Hr). constructor; [|by eapply IH]. simpl.
    apply (contiguous_le _ _ _ (p, a, b)) in Hr; [simpl in Hr; lia|]. set_solver.
Qed.

(** A datagram is determined by the set of its fragments. *)
Lemma contiguous_unique L pos l1 l2 :
  contiguous L pos l1 -> contiguous L pos l2 -> l1 ≡ₚ l2 -> l1 = l2.
Proof.
  revert pos l2. induction l1 as [|[[p a] b] l1 IH]; intros pos l2 H1 H2 HP.
  - symmetry in HP. by apply Permutation_nil_r in HP.
  - destruct l2 as [|[[q c] d] l2]; [by apply Permutation_nil_r in HP|].
    destruct H1 as (-> & Hab & H1), H2 as (-> & Hcd & H2).
    assert ((q, pos, d) ∈ (p, pos, b) :: l1) as Hin by (rewrite HP; apply list_elem_of_here).
    apply elem_of_cons in Hin as [[= <- <-]|Hin].
    + f_equal. eapply IH; [done|done|]. by apply Permutation_cons_inv in HP.
    + apply (contiguous_le _ _ _ _ H1) in Hin. simpl in Hin. lia.
Qed.

(** All bytes received: no hole is left. *)
Lemma received_all L ps D :
  L <= IP_FRAG_INF -> tiles L 0 None ps -> holes_low L ps ->
  contiguous L 0 D -> frags ps ≡ₚ D -> holes ps = [].
Proof.
  intros HL Ht Hlow HD HP. destruct (holes ps) as [|h hs] eqn:E; [done|exfalso].
  assert (h ∈ holes ps) as Hin by (rewrite E; apply list_elem_of_here).
  pose proof (proj1 (list.Forall_forall _ _) Hlow _ Hin) as H1. cbv beta in H1.
  pose proof (tiles_hole_le _ _ _ _ _ Ht Hin) as H2.
  assert (0 <= first h) as H3.
  { apply list_elem_of_omap in Hin as ([g|] & Hg & [= ->]).
    apply list_elem_of_split in Hg as (ps1 & ps2 & ->). apply (tiles_range _ _ _ _ _ _ HL) in Ht. lia. }
  destruct (contiguous_cover _ _ _ (first h) HD) as ([[p a] b] & Hf & Hx); [lia|].
  rewrite <- HP in Hf. simpl in Hx.
  destruct (tiles_hole_disjoint _ _ _ _ _ _ _ _ HL Ht Hin Hf); lia.
Qed.

(** A byte is missing: a hole is left. *)
Lemma received_part L ps a b :
  tiles L 0 None ps -> 0 <= a -> a <= b <= L -> disjoint a b (frags ps) -> holes ps <> [].
Proof.
  intros Ht Ha Hab Hd E. apply (tiles_complete _ _ _ _ E) in Ht.
  destruct (contiguous_cover _ _ _ a Ht) as (f & Hf & Hx); [lia|].
  pose proof (proj1 (list.Forall_forall _ _) Hd _ Hf) as H. simpl in H. lia.
Qed.

(** ** One fragment *)

(** What the manager holds of datagram [k]: nothing yet, or the pieces [ps],
    the first of which came at most [age] calls ago. *)
Definition view (k : ip_frag_key_t) (L : Z) (age : nat) (m : ip_frag_manager) (ps : list piece) : Prop :=
  match m_frags m !! k with
  | None => ps = new_pieces
  | Some d => desc_ok L (bufs m) d ps /\ u64 (m_frag_counter m - frag_counter d) <= Z.of_nat age
  end.

Lemma get_desc_view k L age m ps :
  view k L age m ps -> (Z.of_nat age < IP_FRAG_SPACE) -> (1 <= length (hole_free_list m))%nat ->
  (m_frags m !! k = None -> desc_free_list m <> []) ->
  exists d m1, get_desc k (tick m) = Some (Some d, m1) /\
    desc_ok L (bufs m1) d ps /\ bufs m1 = bufs m /\
    (length (hole_free_list m) <= S (length (hole_free_list m1)))%nat /\
    u64 (m_frag_counter m1 - frag_counter d) <= Z.of_nat (S age).
Proof.
  unfold view, get_desc, tick, IP_FRAG_SPACE. simpl. intros Hv Hage Hf Hd.
  destruct (m_frags m !! k) as [d|] eqn:Ek; simpl.
  - destruct Hv as [Hok Hold].
    assert (u64 (u64 (m_frag_counter m + 1) - frag_counter d) =
            u64 (m_frag_counter m - frag_counter d) + 1) as E.
    { rewrite wrap_sub_l by lia.
      replace (m_frag_counter m + 1 - frag_counter d) with (m_frag_counter m - frag_counter d + 1) by lia.
      rewrite <- wrap_add_l by lia. apply wrap_small.
      pose proof (wrap_range 64 ltac:(lia) (m_frag_counter m - frag_counter d)). lia. }
    rewrite decide_False by lia. eexists d, _. split; [done|]. simpl. split_and!; done || lia.
  - subst ps. specialize (Hd eq_refl).
    unfold new_frag_desc, alloc_hole_desc, alloc_frag_desc. simpl.
    destruct (hole_free_list m) as [|h fl] eqn:Eh; [simpl in Hf; lia|]. simpl.
    destruct (desc_free_list m) as [|d dl] eqn:Ed; [done|]. simpl.
    eexists _, _. split; [done|]. simpl.
    rewrite Z.sub_diag. change (u64 0) with 0. split; [split_and!; done || constructor|].
    split_and!; done || lia.
Qed.

Lemma mid_holes_low L p a b mf h :
  first h <= L -> (mf = true <-> b < L) -> holes_low L (mid p a b mf h).
Proof.
  intros Hh Hmf. unfold holes_low, mid. rewrite holes_app. csimpl.
  apply Forall_app. split; case_decide as Hd; csimpl; repeat constructor; simpl; try lia.
  destruct Hd as [_ Hm]. apply Hmf in Hm. lia.
Qed.

Lemma mid_holes_length p a b mf h : (length (holes (mid p a b mf h)) <= 2)%nat.
Proof. unfold mid. repeat case_decide; csimpl; lia. Qed.

Section one.
Context (k : ip_frag_key_t) (L : Z) (age : nat) (m : ip_frag_manager) (ps : list piece)
  (hdr : iphdr) (p : ptr) (a b : Z) (mf : bool).
Context (Hv : view k L age m ps) (Hage : Z.of_nat age < IP_FRAG_SPACE)
  (Hlow : holes_low L ps) (HL : L <= IP_FRAG_INF)
  (Hk : frag_key hdr = k) (Hb : frag_bounds hdr = (a, b, mf))
  (Ha : 0 <= a) (Hab : a <= b <= L) (Hmf : mf = true <-> b < L)
  (Hp : p ∉ ptrs ps) (Hpb : is_Some (bufs m !! p)) (Hd : disjoint a b (frags ps))
  (Hfree : (3 <= length (hole_free_list m))%nat)
  (Hdesc : m_frags m !! k = None -> desc_free_list m <> []).

(** A new fragment of the datagram is always accepted; it delivers the datagram
    exactly when it closes the last hole. *)
Lemma add_one :
  exists ps' fl m',
    add_frag hdr p m = Some (AddOk (if decide (holes ps' = []) then fl else None), m') /\
    frags ps' ≡ₚ (p, a, b) :: frags ps /\ tiles L 0 None ps' /\ holes_low L ps' /\
    chain (bufs m') fl (ptrs ps') /\
    (forall x, x <> p -> x ∉ ptrs ps -> bufs m' !! x = bufs m !! x) /\
    (length (hole_free_list m) <= length (hole_free_list m') + 2)%nat /\
    (holes ps' <> [] -> is_Some (m_frags m' !! k) /\ view k L (S age) m' ps').
Proof using All.
  destruct (get_desc_view k L age m ps) as (d & m1 & Eg & Hok & Eb & Hlen & Hold); [done..|lia|done|].
  unfold add_frag. rewrite Hb, Hk. fold (tick m). rewrite Eg. simpl.
  destruct Hok as (Ht & Hh & _ & Hc & Hn).
  destruct (hole_for L ps a b) as (before & h & after & Ef); try done.
  rewrite Hh, Ef. destruct (find_hole_spec _ _ _ _ _ _ Ef) as (H1 & H2 & ps1 & ps2 & -> & <- & <-).
  destruct (tiles_range _ _ _ _ _ _ HL Ht) as [H3 H4]. unfold IP_FRAG_INF in *.
  destruct (split_hole_spec p a b mf ps1 h ps2 m1) as (fl & c & Hs); try lia.
  rewrite Hs. simpl. apply split_hole_pool in Hs as (_ & _ & _ & _ & _ & Hcount).
  rewrite !holes_app, !length_app in Hcount. simpl in Hcount.
  pose proof (mid_holes_length p a b mf h) as Hmid.
  destruct Hpb as [pb Hpb']. rewrite <- Eb in Hpb'.
  rewrite ptrs_app in *. csimpl in *. change (omap _ ps2) with (ptrs ps2) in *.
  destruct (link_frag_spec L p h (frag_list d) (bufs m1) ps1 ps2 pb) as (bs' & fl' & -> & Hc' & Hx);
    try done. simpl.
  set (ps' := ps1 ++ mid p a b mf h ++ ps2).
  assert (ptrs ps' = ptrs ps1 ++ p :: ptrs ps2) as Eptrs by (by unfold ps'; rewrite !ptrs_app, mid_ptrs).
  assert (tiles L 0 None ps') as Ht' by (by apply tiles_fill).
  assert (NoDup (ptrs ps')) as Hn'.
  { rewrite Eptrs. apply list.NoDup_app in Hn as (? & ? & ?). apply list.NoDup_app.
    split_and!; try done; [set_solver|]. apply list.NoDup_cons. set_solver. }
  assert (frags ps' ≡ₚ (p, a, b) :: frags (ps1 ++ PHole h :: ps2)) as Hfr.
  { unfold ps'. rewrite !frags_app, mid_frags. csimpl. symmetry. apply Permutation_middle. }
  assert (holes_low L ps') as Hlow'.
  { unfold holes_low, ps' in *. rewrite !holes_app in *. csimpl in Hlow.
    apply Forall_app in Hlow as [? Hlow2]. inversion_clear Hlow2. apply Forall_app; split; [done|].
    apply Forall_app; split; [by apply mid_holes_low|done]. }
  assert (forall x, x <> p -> x ∉ ptrs ps1 ++ ptrs ps2 -> bs' !! x = bufs m !! x) as Hx'.
  { intros x ? ?. rewrite <- Eb. by apply Hx. }
  destruct (holes ps') as [|h0 hs] eqn:Ehs.
  - eexists ps', fl', _. rewrite decide_True by done. split; [done|]. rewrite Eptrs.
    split_and!; try done; simpl; lia.
  - eexists ps', fl', _. rewrite decide_False by (by rewrite Ehs). split; [done|]. rewrite Eptrs.
    split_and!; try done; simpl; try lia. intros _. unfold view. simpl. rewrite lookup_insert_eq.
    split; [by eexists|]. split; [|simpl; lia]. split_and!; simpl; try done.
    + by rewrite Ehs.
    + by rewrite Eptrs.
Qed.
End one.

(** ** All fragments *)

Lemma piece_ptrs l : (map piece_of l).*1.*1 = l.*1.
Proof.
  induction l as [|x l IH]; csimpl; [done|]. f_equal.
  unfold piece_of. by destruct (frag_bounds x.2) as [[? ?] ?].
Qed.

Section datagram.
Context (k : ip_frag_key_t) (L : Z) (D : list (ptr * iphdr)) (HD : datagram k L D).

Lemma datagram_pick R x l :
  D ≡ₚ R ++ x :: l ->
  exists a b mf, frag_bounds x.2 = (a, b, mf) /\ piece_of x = (x.1, a, b) /\ frag_key x.2 = k /\
    0 <= a /\ a <= b <= L /\ (mf = true <-> b < L) /\
    disjoint a b (map piece_of (R ++ l)) /\ x.1 ∉ (R ++ l).*1.
Proof using HD.
  intros HP. destruct HD as (Hc & Hn & HL & Hall).
  rewrite <- Permutation_middle in HP. symmetry in HP.
  pose proof (Permutation_cons_inv_l _ _ _ HP) as (l1 & l2 & E & HP'). subst D.
  apply list.Forall_forall with (x := x) in Hall; [|set_solver]. destruct Hall as [Hk Hmf].
  destruct (frag_bounds x.2) as [[a b] mf] eqn:Eb.
  assert (piece_of x = (x.1, a, b)) as Ex by (unfold piece_of; by rewrite Eb).
  rewrite map_app in Hc. simpl in Hc. rewrite Ex in Hc.
  pose proof (contiguous_le _ _ _ (x.1, a, b) Hc) as Hr. simpl in Hr.
  destruct Hr as (H1 & H2 & H3); [set_solver|].
  exists a, b, mf. split_and!; try done; try lia.
  - rewrite Hmf. by rewrite bool_decide_eq_true.
  - apply contiguous_disjoint in Hc. unfold disjoint in *. rewrite <- map_app in Hc.
    by rewrite HP'.
  - rewrite HP', fmap_app. rewrite fmap_app in Hn. simpl in Hn.
    apply list.NoDup_app in Hn as (_ & Hx & [Hx' _]%list.NoDup_cons). set_solver.
Qed.

Lemma disjoint_perm a b l l' : l ≡ₚ l' -> disjoint a b l -> disjoint a b l'.
Proof. unfold disjoint. by intros ->. Qed.

Lemma received_ptrs ps R : frags ps ≡ₚ map piece_of R -> ptrs ps ≡ₚ R.*1.
Proof. intros HP. by rewrite <- frags_ptrs, HP, piece_ptrs. Qed.

(** The last fragment delivers the buffers in the order of their offsets. *)
Lemma delivered ps fl bs :
  tiles L 0 None ps -> holes_low L ps -> frags ps ≡ₚ map piece_of D -> chain bs fl (ptrs ps) -> D <> [] ->
  holes ps = [] /\ fl = head D.*1 /\ chain bs fl D.*1.
Proof using HD.
  intros Ht Hlow HP Hc Hne. destruct HD as (HcD & _ & HL & _).
  pose proof (received_all _ _ _ HL Ht Hlow HcD HP) as E. split; [done|].
  apply (tiles_complete _ _ _ _ E) in Ht. pose proof (contiguous_unique _ _ _ _ Ht HcD HP) as EF.
  assert (ptrs ps = D.*1) as <- by (by rewrite <- frags_ptrs, EF, piece_ptrs).
  split; [|done]. destruct (ptrs ps) eqn:Ep; [|by destruct Hc].
  exfalso. destruct D as [|x l]; [done|].
  assert (piece_of x ∈ frags ps) as Hin by (rewrite EF; set_solver).
  apply (list_elem_of_fmap_2 fst), (list_elem_of_fmap_2 fst) in Hin. rewrite frags_ptrs, Ep in Hin.
  by apply not_elem_of_nil in Hin.
Qed.

Lemma add_rest l : forall R age m ps,
  D ≡ₚ R ++ l -> l <> [] -> frags ps ≡ₚ map piece_of R -> tiles L 0 None ps -> holes_low L ps ->
  view k L age m ps -> Z.of_nat (age + length l) <= IP_FRAG_SPACE ->
  Forall (fun x => is_Some (bufs m !! x.1)) l ->
  (2 * length l + 1 <= length (hole_free_list m))%nat ->
  (m_frags m !! k = None -> desc_free_list m <> []) ->
  exists m', add_frags l m =
      Some (replicate (pred (length l)) (AddOk None) ++ [AddOk (head D.*1)], m') /\
    chain (bufs m') (head D.*1) D.*1.
Proof using HD.
  induction l as [|x l IH]; intros R age m ps HP Hne Hfr Ht Hlow Hv Hage Hbufs Hfree Hdesc; [done|].
  destruct (datagram_pick R x l HP) as (a & b & mf & Eb & Ex & Ek & Ha & Hab & Hmf & Hdis & Hnin).
  apply list.Forall_cons in Hbufs as [Hx Hbufs]. simpl in Hage, Hfree.
  pose proof (received_ptrs _ _ Hfr) as Hptrs.
  rewrite map_app in Hdis. apply Forall_app in Hdis as [HdR Hdl].
  destruct (add_one k L age m ps x.2 x.1 a b mf) as (ps' & fl & m' & E & Hfr' & Ht' & Hlow' & Hc' & Hb' & Hlen & Hnext);
    try done; try lia.
  { apply HD. }
  { rewrite Hptrs. rewrite fmap_app in Hnin. set_solver. }
  { by eapply disjoint_perm; [symmetry|]. }
  assert (frags ps' ≡ₚ map piece_of (R ++ [x])) as Hfr2.
  { rewrite Hfr', Hfr, map_app. simpl. rewrite Ex. by rewrite <- Permutation_cons_append. }
  destruct x as [p hdr]. simpl in *. rewrite E. simpl.
  destruct l as [|y l].
  - assert (frags ps' ≡ₚ map piece_of D) as HfD by (by rewrite Hfr2, HP).
    destruct (delivered ps' fl (bufs m') Ht' Hlow' HfD Hc') as (Eh & -> & HcD).
    { intros ->. apply Permutation_nil_l in HP. by destruct R. }
    rewrite decide_True by done. by exists m'.
  - assert (D ≡ₚ (R ++ [(p, hdr)]) ++ y :: l) as HP2 by (by rewrite <- app_assoc).
    destruct (datagram_pick _ _ _ HP2) as (a' & b' & mf' & _ & _ & _ & Ha' & Hab' & _ & Hdis' & _).
    rewrite map_app in Hdis'. apply Forall_app in Hdis' as [Hd' _].
    assert (holes ps' <> []) as Hh.
    { eapply received_part; [done|exact Ha'|done|]. by eapply disjoint_perm; [symmetry|]. }
    rewrite decide_False by done. destruct (Hnext Hh) as [[d Hd] Hv'].
    destruct (IH (R ++ [(p, hdr)]) (S age) m' ps') as (m'' & -> & Hc''); try done; simpl in *; try lia.
    + apply list.Forall_cons in Hbufs as [Hy Hbufs]. rewrite fmap_app in Hnin.
      assert (NoDup D.*1) as HnD by apply HD. rewrite HP in HnD.
      rewrite fmap_app, list.NoDup_app in HnD. destruct HnD as (_ & HnR & _).
      assert (Forall (fun z => is_Some (bufs m !! z.1)) (y :: l)) as Hall by (by constructor).
      apply list.Forall_forall. intros z Hz. rewrite list.Forall_forall in Hall.
      apply (list_elem_of_fmap_2 fst) in Hz as Hz1.
      rewrite Hb'; [by apply Hall| |].
      * intros E1. apply Hnin. rewrite <- E1. set_solver.
      * rewrite Hptrs. intros HR. apply (HnR _ HR). set_solver.
    + by rewrite Hd.
    + by exists m''.
Qed.
End datagram.

(** Reassembly in any order: the fragments of a datagram, each in its own
    buffer, arrive as any permutation [l] of their order [D] at a manager that
    knows nothing of the datagram.  All but the last are kept; the last delivers
    the buffers, chained by offset. *)
Lemma any_order_reassembles k L D l m :
  datagram k L D -> l ≡ₚ D -> D <> [] -> m_frags m !! k = None -> desc_free_list m <> [] ->
  (2 * length l + 1 <= length (hole_free_list m))%nat -> Z.of_nat (length l) <= IP_FRAG_SPACE ->
  Forall (fun x => is_Some (bufs m !! x.1)) l ->
  exists m', add_frags l m =
      Some (replicate (pred (length l)) (AddOk None) ++ [AddOk (head D.*1)], m') /\
    chain (bufs m') (head D.*1) D.*1.
Proof.
  intros HD HP Hne Hk Hd Hf Hlen Hb.
  assert (l <> []) as Hl by (intros ->; apply Hne; by apply Permutation_nil_l in HP).
  destruct D as [|x D']; [done|].
  assert (0 <= L) as HL.
  { pose proof (proj1 HD) as Hc.
    destruct (datagram_pick _ _ _ HD [] x D' (reflexivity _)) as (a & b & ? & _ & _ & _ & ? & ? & _). lia. }
  apply (add_rest k L _ HD l [] 0 m new_pieces); try done.
  - constructor; [|constructor]. exact HL.
  - unfold view. by rewrite Hk.
Qed.
End FragRun.
