(* ===== verification/UdpSend.v ===== *)
(** * Sending a UDP datagram: src/src/vma/proto/dst_entry_udp.cpp and
      neighbour.cpp (post_send_udp), with memcpy_fromiovec of util/utils.cpp

    A datagram that fits into one packet is sent as it is, from the user's buffer
    (inline) or from a copy; a longer one is cut into IP fragments.  A datagram for
    a peer whose address is not known yet waits in the neighbour and is cut there
    by the neighbour's own copy of the loop.

    A frame is what [send_ring_buffer] posts: the IP header (fields in network
    order), the UDP header of the first fragment, and the bytes of user data.
    Getting buffers from the ring succeeds or not ([get], asked once or twice per
    call); a chain of buffers is counted. *)

From S2P Require Import Prelude IpFrag FragRun.

Local Open Scope Z_scope.

Module UdpSend.

Definition sizeof_iphdr : Z := 20.
Definition sizeof_udphdr : Z := 8.
Definition EAGAIN : Z := 11.
Definition EINVAL : Z := 22.
Definition EMSGSIZE : Z := 90.

Abbreviation iovec := (list Z).
Definition iov_len (v : iovec) : Z := Z.of_nat (length v).

(** ** memcpy_fromiovec *)

(** "Skip to start offset". *)
Fixpoint skip_iov (iov : list iovec) (off : Z) : list iovec * Z :=
  match iov with
  | v :: r => if decide (off >= iov_len v) then skip_iov r (u64 (off - iov_len v)) else (iov, off)
  | [] => ([], off)
  end.

(** "Copy len size into pBuf": the bytes copied. *)
Fixpoint copy_iov (iov : list iovec) (off sz_data : Z) : list Z :=
  match iov with
  | v :: r =>
    if decide (sz_data > 0) then
      if decide (iov_len v <> 0) then
        let n := Z.min sz_data (u64 (iov_len v - off)) in
        take (Z.to_nat n) (drop (Z.to_nat off) v) ++ copy_iov r 0 (sz_data - n)
      else copy_iov r off sz_data
    else []
  | [] => []
  end.

Definition memcpy_fromiovec (iov : list iovec) (off sz_data : Z) : list Z :=
  let '(iov, off) := skip_iov iov off in copy_iov iov off sz_data.

(** ** Headers and frames *)

(** The fields of [header] that are used: the lengths, the IP header and the
    ports of the UDP header. *)
Record header := Header {
  m_transport_header_len : Z;
  m_ip_header_len : Z;
  m_total_hdr_len : Z;
  m_ip_hdr : Frag.iphdr;
  udp_source : Z;
  udp_dest : Z
}.

Record udphdr := UdpHdr { source : Z; dest : Z; len : Z }.

Record frame := Frame {
  f_ip : Frag.iphdr;
  f_udp : option udphdr;
  f_data : list Z;
  sge_length : Z;
  sw_csum : bool
}.

Definition set_ip (id frag_off tot_len : Z) (h : Frag.iphdr) : Frag.iphdr :=
  Frag.IpHdr id (Frag.saddr h) (Frag.daddr h) (Frag.protocol h) frag_off tot_len (Frag.ihl h).

(** ** The loop over the fragments *)

(** One round of [while (n_num_frags--)], [more] being the test of the rest;
    [None] is the failure of the copy. *)
Definition one_frag (h : header) (id : Z) (iov : list iovec) (max sz_udp_payload : Z) (more csum : bool)
    (n_ip_frag_offset sz_user_data_offset : Z) : option (frame * Z * Z) :=
  let sz_ip_frag := Z.min max (u64 (sz_udp_payload - n_ip_frag_offset)) in
  let frag_off := if more then Frag.MORE_FRAGMENTS_FLAG else 0 in
  let hdr_len := m_transport_header_len h + m_ip_header_len h in
  let '(udp, hdr_len, sz_user_data_to_copy, frag_off) :=
    if decide (n_ip_frag_offset = 0) then
      (Some (UdpHdr (udp_source h) (udp_dest h) (htons (u16 sz_udp_payload))),
       hdr_len + sizeof_udphdr, u64 (sz_ip_frag - sizeof_udphdr), frag_off)
    else (None, hdr_len, sz_ip_frag,
          Z.lor frag_off (Z.land Frag.FRAGMENT_OFFSET (n_ip_frag_offset / 8))) in
  let data := memcpy_fromiovec iov sz_user_data_offset sz_user_data_to_copy in
  if decide (Z.of_nat (length data) <> s32 sz_user_data_to_copy) then None
  else Some
    (Frame (set_ip id (htons frag_off) (htons (u16 (m_ip_header_len h + sz_ip_frag))) (m_ip_hdr h))
       udp data (u32 (sz_user_data_to_copy + hdr_len)) csum,
     u32 (n_ip_frag_offset + sz_ip_frag), u64 (sz_user_data_offset + sz_user_data_to_copy)).

(** The frames sent, and whether all were. *)
Fixpoint frag_loop (n_num_frags : nat) (h : header) (id : Z) (iov : list iovec) (max sz_udp_payload : Z)
    (csum : bool) (off uoff : Z) : list frame * bool :=
  match n_num_frags with
  | O => ([], true)
  | S n =>
    match one_frag h id iov max sz_udp_payload (negb (n =? 0)%nat) csum off uoff with
    | None => ([], false)
    | Some (f, off, uoff) =>
      let '(fs, ok) := frag_loop n h id iov max sz_udp_payload csum off uoff in (f :: fs, ok)
    end
  end.

Lemma frag_loop_unfold n h id iov max sz csum off uoff :
  frag_loop (S n) h id iov max sz csum off uoff =
    match one_frag h id iov max sz (negb (n =? 0)%nat) csum off uoff with
    | None => ([], false)
    | Some (f, off, uoff) => let '(fs, ok) := frag_loop n h id iov max sz csum off uoff in (f :: fs, ok)
    end.
Proof. done. Qed.

(** [(sz_udp_payload + max - 1) / max] as an [int]. *)
Definition num_frags (max sz_udp_payload : Z) : Z := s32 (u64 (sz_udp_payload + max - 1) / max).

(** ** dst_entry_udp *)

Record dst_entry_udp := Dst {
  m_header : header;
  m_max_ip_payload_size : Z;
  m_max_udp_payload_size : Z;
  m_max_inline : Z;
  m_p_tx_mem_buf_desc_list : nat;
  m_a_tx_ip_id : Z;
  m_n_tx_ip_id : Z;
  m_n_sysvar_tx_bufs_batch_udp : nat;
  m_b_sysvar_tx_nonblocked_eagains : bool;
  thread_mode_single : bool
}.

Definition set_list (n : nat) (d : dst_entry_udp) : dst_entry_udp :=
  Dst (m_header d) (m_max_ip_payload_size d) (m_max_udp_payload_size d) (m_max_inline d) n
      (m_a_tx_ip_id d) (m_n_tx_ip_id d) (m_n_sysvar_tx_bufs_batch_udp d)
      (m_b_sysvar_tx_nonblocked_eagains d) (thread_mode_single d).
Definition set_ids (a n : Z) (d : dst_entry_udp) : dst_entry_udp :=
  Dst (m_header d) (m_max_ip_payload_size d) (m_max_udp_payload_size d) (m_max_inline d)
      (m_p_tx_mem_buf_desc_list d) a n (m_n_sysvar_tx_bufs_batch_udp d)
      (m_b_sysvar_tx_nonblocked_eagains d) (thread_mode_single d).
Definition set_header (h : header) (d : dst_entry_udp) : dst_entry_udp :=
  Dst h (m_max_ip_payload_size d) (m_max_udp_payload_size d) (m_max_inline d)
      (m_p_tx_mem_buf_desc_list d) (m_a_tx_ip_id d) (m_n_tx_ip_id d) (m_n_sysvar_tx_bufs_batch_udp d)
      (m_b_sysvar_tx_nonblocked_eagains d) (thread_mode_single d).

(** The sizes [prepare_to_send] derives from the route's MTU. *)
Definition max_udp_of_mtu (mtu : Z) : Z := u16 (mtu - sizeof_iphdr).
Definition max_ip_of_mtu (mtu : Z) : Z := u16 (Z.land (max_udp_of_mtu mtu) (-8)).

(** The return value, [errno] where it is set, and the frames sent. *)
Record sent := Sent { ret : Z; errno : option Z; frames : list frame }.

(** Without buffers: dropped silently, or [EAGAIN]. *)
Definition no_buffers (d : dst_entry_udp) (b_blocked : bool) (sz_data_payload : Z) : sent :=
  if negb b_blocked && negb (m_b_sysvar_tx_nonblocked_eagains d) then Sent sz_data_payload None []
  else Sent (-1) (Some EAGAIN) [].

Definition fetch_ip_id (d : dst_entry_udp) : Z * dst_entry_udp :=
  if thread_mode_single d then (u16 (m_n_tx_ip_id d), set_ids (m_a_tx_ip_id d) (u64 (m_n_tx_ip_id d + 1)) d)
  else (u16 (m_a_tx_ip_id d), set_ids (s32 (u32 (m_a_tx_ip_id d + 1))) (m_n_tx_ip_id d) d).

Definition fast_send_fragmented (get : nat -> Z -> bool) (iov : list iovec) (b_blocked : bool)
    (sz_udp_payload sz_data_payload : Z) (d : dst_entry_udp) : option (sent * dst_entry_udp) :=
  if decide (m_max_ip_payload_size d = 0) then None
  else
    let n_num_frags := num_frags (m_max_ip_payload_size d) sz_udp_payload in
    let '(packet_id, d) := fetch_ip_id d in
    let packet_id := htons packet_id in
    if negb (get 0%nat n_num_frags) then Some (no_buffers d b_blocked sz_data_payload, d)
    else
      let '(fs, ok) := frag_loop (Z.to_nat n_num_frags) (m_header d) packet_id iov
                         (m_max_ip_payload_size d) sz_udp_payload true 0 0 in
      Some (if ok then Sent sz_data_payload None fs else Sent (-1) (Some EINVAL) fs, d).

(** The frame sent from the user's buffer; the header keeps the lengths. *)
Definition send_inline (iov : list iovec) (sz_udp_payload : Z) (d : dst_entry_udp) : frame * dst_entry_udp :=
  let h := m_header d in
  let ip := m_ip_hdr h in
  let ip := set_ip (Frag.id ip) (Frag.frag_off ip) (htons (u16 (m_ip_header_len h + sz_udp_payload))) ip in
  let data := match iov with v :: _ => v | [] => [] end in
  (Frame ip (Some (UdpHdr (udp_source h) (udp_dest h) (htons (u16 sz_udp_payload)))) data
     (u32 (m_total_hdr_len h + Z.of_nat (length data))) false,
   set_header (Header (m_transport_header_len h) (m_ip_header_len h) (m_total_hdr_len h) ip
                 (udp_source h) (udp_dest h)) d).

Definition send_copied (iov : list iovec) (sz_udp_payload sz_data_payload : Z) (h : header) : option frame :=
  let hdr_len := m_transport_header_len h + m_ip_header_len h + sizeof_udphdr in
  let data := memcpy_fromiovec iov 0 sz_data_payload in
  if decide (Z.of_nat (length data) <> s32 sz_data_payload) then None
  else Some (Frame (set_ip 0 (htons 0) (htons (u16 (m_ip_header_len h + sz_udp_payload))) (m_ip_hdr h))
               (Some (UdpHdr (udp_source h) (udp_dest h) (htons (u16 sz_udp_payload)))) data
               (u32 (sz_data_payload + hdr_len)) false).

(** [mem_buf_tx_get] for the list of spare buffers: the batch, or nothing. *)
Definition refill (get : nat -> Z -> bool) (call : nat) (d : dst_entry_udp) : dst_entry_udp :=
  let batch := m_n_sysvar_tx_bufs_batch_udp d in
  set_list (if get call (Z.of_nat batch) then batch else O) d.

Definition fast_send_not_fragmented (get : nat -> Z -> bool) (iov : list iovec) (b_blocked : bool)
    (sz_udp_payload sz_data_payload : Z) (d : dst_entry_udp) : sent * dst_entry_udp :=
  let d := if decide (m_p_tx_mem_buf_desc_list d = O) then refill get 0 d else d in
  match m_p_tx_mem_buf_desc_list d with
  | O => (no_buffers d b_blocked sz_data_payload, d)
  | S rest =>
    let d := set_list rest d in
    let '(f, d) :=
      if decide (length iov = 1%nat /\ sz_data_payload + m_total_hdr_len (m_header d) < m_max_inline d)
      then let '(f, d) := send_inline iov sz_udp_payload d in (Some f, d)
      else (send_copied iov sz_udp_payload sz_data_payload (m_header d), d) in
    match f with
    | None => (Sent (-1) (Some EINVAL) [], d)
    | Some f =>
      let d := if decide (m_p_tx_mem_buf_desc_list d = O) then refill get 1 d else d in
      (Sent sz_data_payload None [f], d)
    end
  end.

(** [None] is the division by a zero payload size. *)
Definition fast_send (get : nat -> Z -> bool) (iov : list iovec) (b_blocked : bool) (d : dst_entry_udp)
  : option (sent * dst_entry_udp) :=
  let sz_data_payload := foldl (fun n v => n + iov_len v) 0 iov in
  if decide (sz_data_payload > 65536) then Some (Sent (-1) (Some EMSGSIZE) [], d)
  else
    let sz_udp_payload := u64 (sz_data_payload + sizeof_udphdr) in
    if decide (sz_udp_payload <= m_max_udp_payload_size d)
    then Some (fast_send_not_fragmented get iov b_blocked sz_udp_payload sz_data_payload d)
    else fast_send_fragmented get iov b_blocked sz_udp_payload sz_data_payload d.

(** ** The neighbour's copy *)

(** [neigh_entry::post_send_udp] without [DEFINED_SW_CSUM]: the result and the
    frames sent. *)
Definition post_send_udp (get : Z -> bool) (h : header) (iov : iovec) (m_mtu : Z)
  : option (bool * list frame) :=
  let sz_data_payload := iov_len iov in
  let max_ip_payload_size := Z.land (u64 (m_mtu - sizeof_iphdr)) (-8) in
  if decide (sz_data_payload > 65536) then Some (false, [])
  else
    let sz_udp_payload := u64 (sz_data_payload + sizeof_udphdr) in
    let frag := bool_decide (sz_udp_payload > max_ip_payload_size) in
    if decide (frag = true /\ max_ip_payload_size = 0) then None
    else
      let n_num_frags := if frag then num_frags max_ip_payload_size sz_udp_payload else 1 in
      if negb (get n_num_frags) then Some (false, [])
      else
        let '(fs, ok) := frag_loop (Z.to_nat n_num_frags) h (Frag.id (m_ip_hdr h)) [iov]
                           max_ip_payload_size sz_udp_payload frag 0 0 in
        Some (ok, fs).

(** ** Copying from the user's buffers *)

Definition total (iov : list iovec) : Z := Z.of_nat (length (concat iov)).

Lemma total_cons v r : total (v :: r) = iov_len v + total r.
Proof. unfold total, iov_len. simpl. rewrite length_app. lia. Qed.

Lemma foldl_total iov n : foldl (fun n v => n + iov_len v) n iov = n + total iov.
Proof.
  revert n. induction iov as [|v r IH]; intros n; simpl; [unfold total; simpl; lia|].
  rewrite IH, total_cons. lia.
Qed.

Lemma skip_iov_spec iov off :
  0 <= off < 2 ^ 64 ->
  let '(iov', off') := skip_iov iov off in
  0 <= off' /\ drop (Z.to_nat off') (concat iov') = drop (Z.to_nat off) (concat iov) /\
  match iov' with v :: _ => off' <= iov_len v | [] => True end /\ total iov' <= total iov.
Proof.
  revert off. induction iov as [|v r IH]; intros off Hoff; simpl.
  - split_and!; try done; lia.
  - case_decide as Hd.
    + assert (0 <= iov_len v) by (unfold iov_len; lia). rewrite wrap_small by lia.
      specialize (IH (off - iov_len v)). destruct (skip_iov r _) as [iov' off'].
      destruct IH as (H1 & H2 & H3 & H4); [lia|].
      split_and!; [done| |done|rewrite total_cons; lia].
      rewrite H2. unfold iov_len in *. rewrite drop_app, (drop_ge v) by lia. simpl. f_equal. lia.
    + simpl. split_and!; try done; lia.
Qed.

Lemma copy_iov_spec iov off n :
  0 <= off -> 0 <= n -> total iov < 2 ^ 64 ->
  match iov with v :: _ => off <= iov_len v | [] => True end ->
  copy_iov iov off n = take (Z.to_nat n) (drop (Z.to_nat off) (concat iov)).
Proof.
  revert off n. induction iov as [|v r IH]; intros off n H0 Hn Ht Hv; simpl.
  - by rewrite drop_nil, take_nil.
  - rewrite total_cons in Ht. assert (0 <= total r) by (unfold total; lia).
    case_decide; [|replace n with 0 by lia; done].
    case_decide as Hl.
    + rewrite wrap_small by lia. unfold iov_len in *.
      rewrite IH; [|lia|lia|lia|destruct r; [done|unfold iov_len; lia]].
      rewrite drop_app, take_app, length_drop.
      replace (Z.to_nat off - length v)%nat with O by lia. rewrite drop_0.
      f_equal; [|f_equal; lia].
      destruct (decide (n <= Z.of_nat (length v) - off)).
      * f_equal. lia.
      * rewrite !take_ge; [done|rewrite length_drop; lia..].
    + unfold iov_len in *. destruct v; [|simpl in Hl; lia]. simpl in *.
      assert (off = 0) as -> by lia. apply IH; [lia..|destruct r; [done|unfold iov_len; lia]].
Qed.

Lemma memcpy_spec iov off n :
  0 <= off < 2 ^ 64 -> 0 <= n -> total iov < 2 ^ 64 ->
  memcpy_fromiovec iov off n = take (Z.to_nat n) (drop (Z.to_nat off) (concat iov)).
Proof.
  intros H0 Hn Ht. unfold memcpy_fromiovec. pose proof (skip_iov_spec iov off H0) as H.
  destruct (skip_iov iov off) as [iov' off']. destruct H as (H1 & <- & H3 & H4).
  apply copy_iov_spec; [done|done|lia|done].
Qed.

(** ** What the header of a fragment says *)

Lemma land_flag v : 0 <= v < 8192 -> Z.land v 8192 = 0.
Proof.
  intros Hv. change 8192 with (2 ^ 13). apply Z.bits_inj'. intros i Hi.
  rewrite Z.land_spec, Z.pow2_bits_eqb, Z.bits_0 by lia.
  destruct (13 =? i) eqn:E; [|by rewrite andb_false_r]. apply Z.eqb_eq in E as <-.
  rewrite andb_true_r, Z.testbit_odd, Z.shiftr_div_pow2, Z.div_small by lia. done.
Qed.

Lemma land_low v : 0 <= v < 8192 -> Z.land v 8191 = v /\ Z.land 8191 v = v.
Proof.
  intros Hv. assert (Z.land v 8191 = v) as E.
  { change 8191 with (Z.ones 13). rewrite Z.land_ones by lia. apply Z.mod_small. lia. }
  split; [done|by rewrite Z.land_comm].
Qed.

Lemma frag_off_bits (more : bool) v :
  0 <= v < 8192 ->
  let fo := Z.lor (if more then 8192 else 0) (Z.land 8191 v) in
  0 <= fo < 2 ^ 16 /\ ctrue (Z.land fo 8192) = more /\ Z.land fo 8191 = v.
Proof.
  intros Hv. destruct (land_low v Hv) as [E1 E2]. simpl. rewrite E2. destruct more.
  - assert (Z.lor 8192 v = 8192 + v) as ->.
    { change 8192 with (Z.shiftl 1 13) at 1. rewrite lor_field by lia. done. }
    split; [lia|]. split.
    + apply ctrue_ne. intros E. assert (Z.testbit (Z.land (8192 + v) (2 ^ 13)) 13 = false) as E'.
      { change (2 ^ 13) with 8192. by rewrite E, Z.bits_0. }
      rewrite Z.land_spec, Z.pow2_bits_true, andb_true_r, Z.testbit_odd, Z.shiftr_div_pow2 in E' by lia.
      replace ((8192 + v) / 2 ^ 13) with 1 in E'; [done|].
      apply Z.div_unique with (r := v); lia.
    + change 8191 with (Z.ones 13). rewrite Z.land_ones by lia.
      symmetry. apply Z.mod_unique with (q := 1); lia.
  - rewrite Z.lor_0_l. split; [lia|]. by rewrite land_flag.
Qed.

(** The header [one_frag] writes is read back by the reassembly. *)
Lemma frag_bounds_written id h off sz (more : bool) :
  Frag.ihl h = 5 -> 0 <= off -> off mod 8 = 0 -> 0 < sz -> off + sz <= 65515 ->
  let fo := if decide (off = 0) then (if more then Frag.MORE_FRAGMENTS_FLAG else 0)
            else Z.lor (if more then Frag.MORE_FRAGMENTS_FLAG else 0) (Z.land Frag.FRAGMENT_OFFSET (off / 8)) in
  Frag.frag_bounds (set_ip id (htons fo) (htons (u16 (sizeof_iphdr + sz))) h) = (off, off + sz - 1, more).
Proof.
  intros Hihl H0 Hmod Hsz Hle. unfold Frag.MORE_FRAGMENTS_FLAG, Frag.FRAGMENT_OFFSET, sizeof_iphdr.
  pose proof (Z.div_mod off 8 ltac:(lia)) as Hdm. rewrite Hmod, Z.add_0_r in Hdm.
  assert (0 <= off / 8 < 8192) as Hv by lia.
  destruct (frag_off_bits more (off / 8) Hv) as (H1 & H2 & H3).
  assert ((if decide (off = 0) then if more then 8192 else 0
           else Z.lor (if more then 8192 else 0) (Z.land 8191 (off / 8))) =
          Z.lor (if more then 8192 else 0) (Z.land 8191 (off / 8))) as ->.
  { case_decide as E; [|done]. rewrite E. by destruct more. }
  set (fo := Z.lor _ _) in *.
  unfold Frag.frag_bounds, Frag.MORE_FRAGMENTS_FLAG, Frag.FRAGMENT_OFFSET. simpl.
  rewrite Hihl, !ntohs_invol, H2, H3 by (done || apply wrap_range; lia).
  rewrite (wrap_small _ (20 + sz)) by lia. replace (off / 8 * 8) with off by lia.
  change (Z.shiftl 5 2) with 20. rewrite !wrap_small by lia. f_equal. f_equal. lia.
Qed.

(** ** The fragments of a datagram *)

Lemma piece_written p f a b mf :
  Frag.frag_bounds (f_ip f) = (a, b, mf) -> FragRun.piece_of (p, f_ip f) = (p, a, b).
Proof. intros E. unfold FragRun.piece_of. cbn [fst snd]. by rewrite E. Qed.

(** A header as [configure_ip_header] and [configure_eth_headers] make it. *)
Definition header_ok (h : header) : Prop :=
  m_ip_header_len h = sizeof_iphdr /\ Frag.ihl (m_ip_hdr h) = 5 /\ Frag.frag_off (m_ip_hdr h) = 0 /\
  0 <= m_transport_header_len h <= 65535 /\
  m_total_hdr_len h = m_transport_header_len h + sizeof_iphdr + sizeof_udphdr.

(** Where the user data of the datagram's byte [off] starts. *)
Definition user_off (off : Z) : Z := if decide (off = 0) then 0 else off - sizeof_udphdr.

Section loop.
Context (h : header) (id : Z) (iov : list iovec) (max : Z) (csum : bool).
Abbreviation T := (total iov + sizeof_udphdr).
Context (Hh : header_ok h) (Hmax : 0 < max) (Hmod : max mod 8 = 0) (HT : T <= 65544).

Definition key : Frag.ip_frag_key_t :=
  Frag.Key id (Frag.saddr (m_ip_hdr h)) (Frag.daddr (m_ip_hdr h)) (Frag.protocol (m_ip_hdr h)).

(** A fragment: of this datagram, at most [max] bytes, with the UDP header if it
    is the first, and saying that more follow unless it is the last. *)
Definition frag_of (f : frame) : Prop :=
  Frag.frag_key (f_ip f) = key /\
  let '(a, b, mf) := Frag.frag_bounds (f_ip f) in
  mf = bool_decide (b < T - 1) /\ b - a + 1 <= max /\
  f_udp f = (if decide (a = 0) then Some (UdpHdr (udp_source h) (udp_dest h) (htons T)) else None) /\
  sge_length f = m_transport_header_len h + sizeof_iphdr + (b - a + 1).

Lemma one_frag_spec off more :
  0 <= off < T -> off mod 8 = 0 -> more = bool_decide (off + max < T) ->
  let sz := Z.min max (T - off) in
  exists f, one_frag h id iov max T more csum off (user_off off) = Some (f, off + sz, user_off (off + sz)) /\
    (T <= 65515 -> frag_of f /\ Frag.frag_bounds (f_ip f) = (off, off + sz - 1, more)) /\
    (off = 0 -> f_udp f = Some (UdpHdr (udp_source h) (udp_dest h) (htons (u16 T)))) /\
    f_data f = take (Z.to_nat (user_off (off + sz) - user_off off)) (drop (Z.to_nat (user_off off)) (concat iov)).
Proof using Hh Hmax Hmod HT.
  intros Hoff Hom Emore sz. destruct Hh as (Elen & Eihl & _ & Hthl & _).
  assert (0 <= total iov) by (unfold total; lia). unfold sizeof_udphdr, sizeof_iphdr in *.
  assert (8 <= max) as H8.
  { pose proof (Z.div_mod max 8 ltac:(lia)). lia. }
  assert (off = 0 \/ 8 <= off) as Ho8.
  { pose proof (Z.div_mod off 8 ltac:(lia)). lia. }
  assert (0 < sz <= T - off) as Hsz by (unfold sz; unfold sizeof_udphdr; lia).
  assert (user_off (off + sz) = off + sz - 8) as Eu'.
  { unfold user_off, sizeof_udphdr. rewrite decide_False; lia. }
  assert (exists u, u = user_off (off + sz) - user_off off /\ 0 <= u /\
            u = (if decide (off = 0) then sz - 8 else sz) /\ 0 <= user_off off /\
            user_off off + u <= total iov) as (u & Eu & Hu0 & Eud & Huo & Hut).
  { rewrite Eu'. unfold user_off, sizeof_udphdr. 
    exists (if decide (off = 0) then sz - 8 else sz). unfold sizeof_udphdr in *.
    destruct (decide (off = 0)); split_and!; try done; unfold sz, sizeof_udphdr in *; lia. }
  assert (Z.of_nat (length (take (Z.to_nat u) (drop (Z.to_nat (user_off off)) (concat iov)))) = u) as El.
  { rewrite length_take, length_drop. unfold total in *. lia. }
  pose proof (fun H => frag_bounds_written id (m_ip_hdr h) off sz more Eihl ltac:(lia) Hom ltac:(lia) H) as Hfb.
  unfold one_frag, sizeof_udphdr, sizeof_iphdr in *. rewrite Elen.
  rewrite (wrap_small 64 (total iov + 8 - off)) by lia. fold sz.
  replace (Z.min max (total iov + 8 - off)) with sz by (unfold sz; lia).
  rewrite (wrap_small 32 (off + sz)) by lia.
  assert (Hcopy : memcpy_fromiovec iov (user_off off) u =
    take (Z.to_nat u) (drop (Z.to_nat (user_off off)) (concat iov))).
  { apply memcpy_spec; lia. }
  assert (Eu64 : u64 (user_off off + u) = user_off (off + sz)) by (rewrite wrap_small; lia).
  case_decide as E0.
  - rewrite (wrap_small 64 (sz - 8)) by lia. replace (sz - 8) with u by lia.
    rewrite Hcopy, El, decide_False by (rewrite s32_small; lia). rewrite Eu64, <- Eu.
    eexists. split; [done|]. split; [|split; [done|done]]. intros HT'.
    unfold frag_of. cbn [f_ip f_udp f_data sge_length]. rewrite Hfb by lia. split_and!; try done.
    + rewrite Emore. unfold sz. apply bool_decide_ext. unfold sizeof_udphdr. lia.
    + unfold sz. lia.
    + rewrite decide_True by done. rewrite (wrap_small 16) by (simpl; lia). done.
    + rewrite wrap_small; unfold sizeof_iphdr; lia.
  - rewrite Eud in Hcopy, El, Eu64, Eu.
    rewrite Hcopy, El, decide_False by (rewrite s32_small; lia). rewrite Eu64, <- Eu.
    eexists. split; [done|]. split; [|split; [done|done]]. intros HT'.
    unfold frag_of. cbn [f_ip f_udp f_data sge_length]. rewrite Hfb by lia. split_and!; try done.
    + rewrite Emore. unfold sz. apply bool_decide_ext. unfold sizeof_udphdr. lia.
    + unfold sz. lia.
    + by rewrite decide_False by done.
    + rewrite wrap_small; unfold sizeof_iphdr; lia.
Qed.

Lemma take_drop_from {A} (l : list A) a b :
  0 <= a <= b -> take (Z.to_nat (b - a)) (drop (Z.to_nat a) l) ++ drop (Z.to_nat b) l = drop (Z.to_nat a) l.
Proof using.
  intros Hab. replace (Z.to_nat b) with (Z.to_nat a + Z.to_nat (b - a))%nat by lia.
  by rewrite <- drop_drop, take_drop.
Qed.

Lemma frag_loop_spec n off :
  0 <= off < T -> off mod 8 = 0 -> Z.of_nat n * max < T - off <= Z.of_nat (S n) * max ->
  exists fs, frag_loop (S n) h id iov max T csum off (user_off off) = (fs, true) /\
    length fs = S n /\ concat (map f_data fs) = drop (Z.to_nat (user_off off)) (concat iov) /\
    (off = 0 -> head fs ≫= f_udp = Some (UdpHdr (udp_source h) (udp_dest h) (htons (u16 T)))) /\
    (T <= 65515 -> Forall frag_of fs /\ forall ps, length ps = S n ->
       Frag.contiguous (T - 1) off (map FragRun.piece_of (zip ps (map f_ip fs)))).
Proof using Hh Hmax Hmod HT.
  revert off. induction n as [|n IH]; intros off Hoff Hom Hn.
  - destruct (one_frag_spec off false) as (f & E & Hf & Hudp & Hd); [done|done| |].
    { symmetry. apply bool_decide_false. lia. }
    exists [f]. simpl. rewrite E.
    replace (Z.min max (T - off)) with (T - off) in * by lia.
    replace (off + (T - off)) with T in * by lia.
    split_and!; [done|done| |done|].
    + rewrite app_nil_r, Hd, take_ge; [done|]. rewrite length_drop.
      assert (user_off T = total iov) as ->; [|unfold total; lia].
      unfold user_off. rewrite decide_False; unfold sizeof_udphdr in *; lia.
    + intros HT'. destruct (Hf HT') as [Hf' Hb]. split; [constructor; [done|constructor]|].
      intros [|p [|]]; try done. intros _. cbn [map zip zip_with].
      rewrite (piece_written _ _ _ _ _ Hb). simpl. split_and!; lia.
  - assert (off + max < T) as Hlt by nia.
    destruct (one_frag_spec off true) as (f & E & Hf & Hudp & Hd); [done|done| |].
    { symmetry. apply bool_decide_true. lia. }
    replace (Z.min max (T - off)) with max in * by lia.
    destruct (IH (off + max)) as (fs & El & Hlen & Hcat & _ & Hcont); [lia| |nia|].
    { rewrite Z.add_mod, Hom, Hmod by lia. done. }
    exists (f :: fs). cbn [frag_loop]. cbn [frag_loop] in El. change (negb (S n =? 0)%nat) with true.
    rewrite E, El. split_and!; [done|simpl; lia| |done|].
    + simpl. rewrite Hcat, Hd. apply take_drop_from. unfold user_off, sizeof_udphdr.
      assert (8 <= max) by (pose proof (Z.div_mod max 8 ltac:(lia)); lia).
      assert (off = 0 \/ 8 <= off) by (pose proof (Z.div_mod off 8 ltac:(lia)); lia).
      repeat case_decide; lia.
    + intros HT'. destruct (Hf HT') as [Hf' Hb]. destruct (Hcont HT') as [Hall Hcont'].
      split; [by constructor|]. intros [|p ps]; [done|]. intros Hps. simpl in Hps. cbn [map zip zip_with].
      rewrite (piece_written _ _ _ _ _ Hb). cbn [Frag.contiguous]. split_and!; [done|lia|]. replace (off + max - 1 + 1) with (off + max) by lia.
      apply Hcont'. lia.
Qed.

(** The number of rounds is right. *)
Lemma num_frags_spec :
  max < T ->
  exists n, num_frags max T = Z.of_nat (S n) /\ Z.of_nat n * max < T <= Z.of_nat (S n) * max.
Proof using Hmax HT.
  intros Hlt. unfold num_frags. rewrite wrap_small by lia.
  pose proof (Z.div_mod (T + max - 1) max ltac:(lia)) as Hdm.
  pose proof (Z.mod_pos_bound (T + max - 1) max ltac:(lia)) as Hr.
  set (q := (T + max - 1) / max) in *.
  assert (1 <= q <= 131030) as Hq by nia.
  exists (Z.to_nat (q - 1)). rewrite s32_small by lia. rewrite Nat2Z.inj_succ, Z2Nat.id by lia. nia.
Qed.
End loop.

Lemma land_m8 x : Z.land x (-8) = 8 * (x / 8).
Proof.
  change (-8) with (Z.lnot (Z.ones 3)).
  rewrite <- Z.ldiff_land, Z.ldiff_ones_r, Z.shiftl_mul_pow2, Z.shiftr_div_pow2 by lia.
  change (2 ^ 3) with 8. lia.
Qed.

(** [fs] carries the datagram of the user data [iov] in packets of at most
    [max] bytes after the IP header. *)
Definition carries (h : header) (id : Z) (iov : list iovec) (max : Z) (fs : list frame) : Prop :=
  fs <> [] /\ Z.of_nat (length fs) <= 8190 /\
  concat (map f_data fs) = concat iov /\ Forall (frag_of h id iov max) fs /\
  (head fs ≫= f_udp = Some (UdpHdr (udp_source h) (udp_dest h) (htons (total iov + sizeof_udphdr)))) /\
  forall ps, length ps = length fs -> NoDup ps ->
    FragRun.datagram (key h id) (total iov + sizeof_udphdr - 1) (zip ps (map f_ip fs)).

Lemma carries_datagram h id iov max fs :
  total iov <= 65507 -> Forall (frag_of h id iov max) fs ->
  (forall ps, length ps = length fs -> Frag.contiguous (total iov + sizeof_udphdr - 1) 0
     (map FragRun.piece_of (zip ps (map f_ip fs)))) ->
  forall ps, length ps = length fs -> NoDup ps ->
    FragRun.datagram (key h id) (total iov + sizeof_udphdr - 1) (zip ps (map f_ip fs)).
Proof.
  intros HT Hall Hc ps Hps Hn. split; [by apply Hc|].
  split; [by rewrite fst_zip by (rewrite length_map; lia)|].
  split; [unfold Frag.IP_FRAG_INF, sizeof_udphdr; lia|].
  apply list.Forall_forall. intros [p ip] Hx. apply elem_of_zip_r in Hx.
  apply list_elem_of_fmap in Hx as (f & -> & Hf).
  rewrite list.Forall_forall in Hall. destruct (Hall _ Hf) as [Hk Hb]. split; [done|]. cbn [snd].
  destruct (Frag.frag_bounds (f_ip f)) as [[a b] mf]. apply Hb.
Qed.

(** The loop cuts the datagram. *)
Lemma frag_loop_carries h id iov max csum n :
  header_ok h -> 0 < max -> max mod 8 = 0 -> total iov <= 65507 ->
  n = (if decide (max < total iov + sizeof_udphdr) then num_frags max (total iov + sizeof_udphdr) else 1) ->
  exists fs, frag_loop (Z.to_nat n) h id iov max (total iov + sizeof_udphdr) csum 0 0 = (fs, true) /\
    carries h id iov max fs.
Proof.
  intros Hh Hmax Hmod HT ->. assert (0 <= total iov) by (unfold total; lia).
  assert (8 <= max) by (pose proof (Z.div_mod max 8 ltac:(lia)); lia).
  assert (exists k, (if decide (max < total iov + sizeof_udphdr) then num_frags max (total iov + sizeof_udphdr) else 1)
      = Z.of_nat (S k) /\ Z.of_nat k * max < total iov + sizeof_udphdr <= Z.of_nat (S k) * max) as (k & -> & Hk).
  { case_decide; [apply num_frags_spec; unfold sizeof_udphdr in *; lia|].
    exists O. unfold sizeof_udphdr in *. lia. }
  rewrite Nat2Z.id. unfold sizeof_udphdr in *.
  destruct (frag_loop_spec h id iov max csum Hh Hmax Hmod ltac:(unfold sizeof_udphdr; lia) k 0)
    as (fs & E & Hlen & Hcat & Hudp & Hrest); unfold sizeof_udphdr in *; try lia; [done|].
  exists fs. split; [done|]. destruct Hrest as [Hall Hc]; [lia|]. split_and!.
  - by destruct fs.
  - rewrite Hlen. nia.
  - done.
  - done.
  - rewrite Hudp, wrap_small by lia. done.
  - apply (carries_datagram h id iov max); [done|done|]. by rewrite Hlen.
Qed.

(** A packet that is not fragmented. *)
Lemma single_carries h id iov max f :
  header_ok h -> total iov <= 65507 -> total iov + sizeof_udphdr <= max ->
  f_ip f = set_ip id (htons 0) (htons (u16 (m_ip_header_len h + (total iov + sizeof_udphdr)))) (m_ip_hdr h) ->
  f_udp f = Some (UdpHdr (udp_source h) (udp_dest h) (htons (u16 (total iov + sizeof_udphdr)))) ->
  f_data f = concat iov ->
  sge_length f = u32 (m_transport_header_len h + sizeof_iphdr + (total iov + sizeof_udphdr)) ->
  carries h id iov max [f].
Proof.
  intros (Elen & Eihl & _ & Hthl & _) HT Hmax Eip Eudp Ed Es. assert (0 <= total iov) by (unfold total; lia).
  unfold sizeof_udphdr, sizeof_iphdr in *.
  assert (Frag.frag_bounds (f_ip f) = (0, total iov + 8 - 1, false)) as Hb.
  { rewrite Eip, Elen. apply (frag_bounds_written id (m_ip_hdr h) 0 (total iov + 8) false); try done; lia. }
  assert (Forall (frag_of h id iov max) [f]) as Hall.
  { constructor; [|constructor]. split; [by rewrite Eip|]. rewrite Hb. split_and!.
    - symmetry. apply bool_decide_false. unfold sizeof_udphdr. lia.
    - lia.
    - rewrite decide_True, Eudp, wrap_small by (done || lia). done.
    - rewrite Es, wrap_small; unfold sizeof_iphdr; lia. }
  split_and!; simpl; [done|lia|by rewrite app_nil_r|done|by rewrite Eudp, wrap_small by lia|].
  apply (carries_datagram h id iov max [f]); [done|done|]. intros [|p [|]]; try done. intros _. cbn [map zip zip_with].
  rewrite (piece_written _ _ _ _ _ Hb). simpl. unfold sizeof_udphdr. split_and!; lia.
Qed.

(** ** The theorems *)

(** A destination after [prepare_to_send] over a route with this MTU. *)
Definition prepared (mtu : Z) (d : dst_entry_udp) : Prop :=
  28 <= mtu <= 65535 /\ m_max_udp_payload_size d = max_udp_of_mtu mtu /\
  m_max_ip_payload_size d = max_ip_of_mtu mtu /\ header_ok (m_header d) /\
  (0 < m_n_sysvar_tx_bufs_batch_udp d)%nat.

Lemma mtu_sizes mtu :
  28 <= mtu <= 65535 ->
  max_udp_of_mtu mtu = mtu - 20 /\ max_ip_of_mtu mtu = 8 * ((mtu - 20) / 8) /\
  8 <= max_ip_of_mtu mtu <= mtu - 20 /\ max_ip_of_mtu mtu mod 8 = 0 /\
  Z.land (u64 (mtu - sizeof_iphdr)) (-8) = max_ip_of_mtu mtu.
Proof.
  intros Hm. unfold max_ip_of_mtu, max_udp_of_mtu, sizeof_iphdr. rewrite !(wrap_small _ (mtu - 20)) by lia.
  rewrite land_m8. pose proof (Z.div_mod (mtu - 20) 8 ltac:(lia)).
  pose proof (Z.mod_pos_bound (mtu - 20) 8 ltac:(lia)). rewrite wrap_small by lia.
  split_and!; try done; try lia. rewrite Z.mul_comm. apply Z_mod_mult.
Qed.

Lemma memcpy_concat iov off n :
  0 <= off < 2 ^ 64 -> 0 <= n -> total iov < 2 ^ 64 ->
  memcpy_fromiovec [concat iov] off n = memcpy_fromiovec iov off n.
Proof.
  intros H0 Hn Ht. rewrite !memcpy_spec; try done; simpl; rewrite ?app_nil_r; [done|].
  unfold total in *. simpl. by rewrite app_nil_r.
Qed.

Section fast_send.
Context (get : nat -> Z -> bool) (iov : list iovec) (b_blocked : bool) (mtu : Z) (d : dst_entry_udp).
Context (Hp : prepared mtu d) (Hget : forall i n, get i n = true).

Lemma send_copied_whole :
  0 <= total iov <= 65536 ->
  exists f, send_copied iov (total iov + sizeof_udphdr) (total iov) (m_header d) = Some f /\
    f = Frame (set_ip 0 (htons 0) (htons (u16 (m_ip_header_len (m_header d) + (total iov + sizeof_udphdr)))) (m_ip_hdr (m_header d)))
          (Some (UdpHdr (udp_source (m_header d)) (udp_dest (m_header d)) (htons (u16 (total iov + sizeof_udphdr)))))
          (concat iov)
          (u32 (total iov + (m_transport_header_len (m_header d) + m_ip_header_len (m_header d) + sizeof_udphdr))) false.
Proof using.
  intros HT. unfold send_copied. rewrite memcpy_spec by lia. change (Z.to_nat 0) with O.
  rewrite drop_0, take_ge, decide_False; [by eexists| |unfold total; lia].
  fold (total iov). rewrite s32_small; lia.
Qed.

Lemma not_fragmented_carries :
  total iov <= 65507 -> total iov + sizeof_udphdr <= m_max_udp_payload_size d ->
  exists f d' id,
    fast_send_not_fragmented get iov b_blocked (total iov + sizeof_udphdr) (total iov) d =
      (Sent (total iov) None [f], d') /\
    carries (m_header d) id iov (m_max_udp_payload_size d) [f].
Proof using Hp Hget.
  intros HT Hle. destruct Hp as (Hm & Eu & Ei & Hh & Hb). assert (0 <= total iov) by (unfold total; lia).
  unfold fast_send_not_fragmented, refill. rewrite Hget.
  set (d1 := if decide (m_p_tx_mem_buf_desc_list d = O) then _ else d).
  assert (exists rest, m_p_tx_mem_buf_desc_list d1 = S rest) as [rest ->].
  { unfold d1. case_decide; [|destruct (m_p_tx_mem_buf_desc_list d); eauto; done].
    simpl. destruct (m_n_sysvar_tx_bufs_batch_udp d); [lia|eauto]. }
  assert (m_header (set_list rest d1) = m_header d) as -> by (unfold d1; by case_decide).
  assert (m_max_inline (set_list rest d1) = m_max_inline d) as -> by (unfold d1; by case_decide).
  pose proof Hh as (Elen & Eihl & Eoff & Hthl & Etot).
  case_decide as Hi.
  - destruct Hi as [Hlen _]. destruct iov as [|v [|]]; try done.
    unfold send_inline. assert (m_header (set_list rest d1) = m_header d) as -> by (unfold d1; by case_decide).
    eexists _, _, _. split; [done|]. apply single_carries; try done.
    + cbn [f_ip]. by rewrite Eoff.
    + simpl. by rewrite app_nil_r.
    + simpl. rewrite Etot. unfold total, iov_len. simpl. rewrite app_nil_r. f_equal. lia.
  - destruct send_copied_whole as (f & -> & ->); [lia|].
    eexists _, _, _. split; [done|]. apply single_carries; try done. cbn [sge_length]. f_equal. rewrite Elen. lia.
Qed.

Lemma fragmented_carries :
  total iov <= 65507 -> m_max_udp_payload_size d < total iov + sizeof_udphdr ->
  exists fs, fast_send_fragmented get iov b_blocked (total iov + sizeof_udphdr) (total iov) d =
      Some (Sent (total iov) None fs, (fetch_ip_id d).2) /\
    carries (m_header d) (htons (fetch_ip_id d).1) iov (m_max_ip_payload_size d) fs.
Proof using Hp Hget.
  intros HT Hlt. destruct Hp as (Hm & Eu & Ei & Hh & _).
  destruct (mtu_sizes mtu Hm) as (Eu' & Ei' & Hi & Hmod & _). rewrite <- Eu, <- Ei in *.
  unfold fast_send_fragmented. rewrite decide_False by lia.
  assert (m_header (fetch_ip_id d).2 = m_header d /\
          m_max_ip_payload_size (fetch_ip_id d).2 = m_max_ip_payload_size d) as [E1 E2].
  { unfold fetch_ip_id. by case_match. }
  destruct (fetch_ip_id d) as [id d1] eqn:Ef. simpl in E1, E2. rewrite Hget, E1, E2. cbn [negb fst snd].
  destruct (frag_loop_carries (m_header d) (htons id) iov (m_max_ip_payload_size d) true
    (num_frags (m_max_ip_payload_size d) (total iov + sizeof_udphdr))) as (fs & -> & Hc); try done; try lia.
  { rewrite decide_True by (unfold sizeof_udphdr in *; lia). done. }
  by exists fs.
Qed.

Lemma fast_send_carries :
  total iov <= 65507 ->
  exists fs d' id max, fast_send get iov b_blocked d = Some (Sent (total iov) None fs, d') /\
    carries (m_header d) id iov max fs /\ max <= mtu - 20.
Proof using Hp Hget.
  intros HT. assert (0 <= total iov) by (unfold total; lia).
  pose proof Hp as (Hm & Eu & Ei & _). destruct (mtu_sizes mtu Hm) as (Eu' & Ei' & Hi & _).
  unfold fast_send. rewrite foldl_total, Z.add_0_l, decide_False by lia.
  rewrite wrap_small by (unfold sizeof_udphdr; lia). case_decide as Hd.
  - destruct not_fragmented_carries as (f & d' & id & E & Hc); [done|done|]. rewrite E.
    eexists [f], d', id, _. split_and!; [done|done|lia].
  - destruct fragmented_carries as (fs & -> & Hc); [done|lia|].
    eexists fs, _, _, _. split_and!; [done|done|lia].
Qed.
End fast_send.

(** C17: A datagram reaches the peer.  Any user data of up to 65507 bytes, in any
    number of buffers, sent over a route of any MTU, goes out in packets no longer
    than the MTU; the first one carries the UDP header with the datagram's length;
    and when the packets arrive, each in its own buffer and in any order, at a
    reassembly manager that has room, the last one to arrive (and no other)
    delivers their buffers in the order of the data. *)
Theorem datagram_round_trip get iov b_blocked mtu d :
  prepared mtu d -> (forall i n, get i n = true) -> total iov <= 65507 ->
  exists fs d' k, fast_send get iov b_blocked d = Some (Sent (total iov) None fs, d') /\
    concat (map f_data fs) = concat iov /\
    Forall (fun f => sge_length f <= m_transport_header_len (m_header d) + mtu) fs /\
    head fs ≫= f_udp = Some (UdpHdr (udp_source (m_header d)) (udp_dest (m_header d))
                               (htons (total iov + sizeof_udphdr))) /\
    Forall (fun f => Frag.frag_key (f_ip f) = k) fs /\
    forall ps l m,
      length ps = length fs -> NoDup ps -> l ≡ₚ zip ps (map f_ip fs) ->
      Forall (fun p => is_Some (Frag.bufs m !! p)) ps ->
      Frag.m_frags m !! k = None -> Frag.desc_free_list m <> [] ->
      (2 * length ps + 1 <= length (Frag.hole_free_list m))%nat ->
      exists m', FragRun.add_frags l m =
          Some (replicate (pred (length ps)) (Frag.AddOk None) ++ [Frag.AddOk (head ps)], m') /\
        Frag.chain (Frag.bufs m') (head ps) ps.
Proof.
  intros Hp Hget HT.
  destruct (fast_send_carries get iov b_blocked mtu d Hp Hget HT) as (fs & d' & id & max & E & Hc & Hmax).
  destruct Hc as (Hne & Hlen & Hcat & Hall & Hudp & Hdat). rewrite list.Forall_forall in Hall.
  exists fs, d', (key (m_header d) id). split_and!; try done.
  - apply list.Forall_forall. intros f Hf. destruct (Hall f Hf) as [_ Hb].
    destruct (Frag.frag_bounds (f_ip f)) as [[a b] mf]. destruct Hb as (_ & Hsz & _ & ->).
    unfold sizeof_iphdr. lia.
  - apply list.Forall_forall. intros f Hf. by destruct (Hall f Hf).
  - intros ps l m Hps Hn HP Hb Hk Hd Hfree.
    assert (length l = length ps) as Hl.
    { rewrite HP, length_zip_with_l_eq; [done|]. by rewrite length_map. }
    assert ((zip ps (map f_ip fs)).*1 = ps) as Ez by (by apply fst_zip; rewrite length_map, Hps).
    destruct (FragRun.any_order_reassembles (key (m_header d) id) (total iov + sizeof_udphdr - 1)
      (zip ps (map f_ip fs)) l m) as (m' & Em & Hch); try done.
    + by apply Hdat.
    + intros E0. apply (f_equal length) in E0. rewrite length_zip_with_l_eq in E0 by (by rewrite length_map).
      destruct fs; [done|]. simpl in *. lia.
    + by rewrite Hl.
    + rewrite Hl, Hps. unfold Frag.IP_FRAG_SPACE. lia.
    + rewrite HP. apply list.Forall_forall. intros [p ip] Hin%elem_of_zip_l.
      rewrite list.Forall_forall in Hb. by apply Hb.
    + exists m'. rewrite Hl, Ez in *. done.
Qed.

Definition ex_header : header :=
  Header 14 20 42 (Frag.IpHdr 0 0x0100000a 0x0200000a 17 0 0 5) (htons 4000) (htons 80).
Definition ex_dst (mtu : Z) : dst_entry_udp :=
  Dst ex_header (max_ip_of_mtu mtu) (max_udp_of_mtu mtu) 64 0 0 7 2 false true.

(** 3 + 60 bytes over an MTU of 60: packets of 40 (with the UDP header) and 31
    bytes, which arrive in the other order. *)
Definition ex_iov : list iovec := [repeat 1 3; repeat 2 60].
Definition ex_mgr : Frag.ip_frag_manager :=
  Frag.ctor 1 8 (<[0%nat := Frag.Buf 60 None 0]> (<[1%nat := Frag.Buf 51 None 0]> ∅)).

Definition ex_frames : list frame :=
  match fast_send (fun _ _ => true) ex_iov false (ex_dst 60) with Some (s, _) => frames s | None => [] end.

Lemma datagram_round_trip_witness :
  map (fun f => length (f_data f)) ex_frames = [32; 31]%nat /\
  exists m', FragRun.add_frags (rev (zip [0; 1]%nat (map f_ip ex_frames))) ex_mgr =
      Some ([Frag.AddOk None; Frag.AddOk (Some 0%nat)], m') /\
    Frag.chain (Frag.bufs m') (Some 0%nat) [0; 1]%nat.
Proof.
  destruct (datagram_round_trip (fun _ _ => true) ex_iov false 60 (ex_dst 60))
    as (fs & d' & k & E & _ & _ & _ & Hk & Hrest).
  - split_and!; try reflexivity; try done; cbn; lia.
  - done.
  - vm_compute. discriminate.
  - assert (fs = ex_frames) as -> by (unfold ex_frames; rewrite E; reflexivity).
    split; [reflexivity|].
    apply (Hrest [0; 1]%nat (rev (zip [0; 1]%nat (map f_ip ex_frames))) ex_mgr).
    + reflexivity.
    + clear. repeat constructor; set_solver.
    + symmetry. apply Permutation_rev.
    + repeat constructor; by eexists.
    + reflexivity.
    + discriminate.
    + vm_compute. lia.
Defined.

(** C27: The length of a datagram that is too long is not refused but wraps.  The
    limit on user data is 65536 bytes, not the 65507 that a datagram can carry:
    from 65528 bytes on the send succeeds, all data goes out, and the length in
    the UDP header is the datagram's length minus 65536. *)
Theorem oversized_datagram_wraps get iov b_blocked mtu d :
  prepared mtu d -> (forall i n, get i n = true) -> 65528 <= total iov <= 65536 ->
  exists fs d', fast_send get iov b_blocked d = Some (Sent (total iov) None fs, d') /\
    concat (map f_data fs) = concat iov /\
    head fs ≫= f_udp = Some (UdpHdr (udp_source (m_header d)) (udp_dest (m_header d))
                               (htons (total iov + sizeof_udphdr - 65536))).
Proof.
  intros (Hm & Eu & Ei & Hh & _) Hget HT. destruct (mtu_sizes mtu Hm) as (Eu' & Ei' & Hi & Hmod & _).
  rewrite <- Eu, <- Ei in *. unfold sizeof_udphdr in *.
  unfold fast_send. rewrite foldl_total, Z.add_0_l, decide_False by lia. unfold sizeof_udphdr.
  rewrite wrap_small, decide_False by lia. unfold fast_send_fragmented. rewrite decide_False by lia.
  assert (m_header (fetch_ip_id d).2 = m_header d /\
          m_max_ip_payload_size (fetch_ip_id d).2 = m_max_ip_payload_size d) as [E1 E2].
  { unfold fetch_ip_id. by case_match. }
  destruct (fetch_ip_id d) as [id d1]. simpl in E1, E2. rewrite Hget, E1, E2. cbn [negb].
  assert (total iov + sizeof_udphdr <= 65544) as HT' by (unfold sizeof_udphdr; lia).
  destruct (num_frags_spec iov (m_max_ip_payload_size d)) as (n & En & Hn); try lia;
    [unfold sizeof_udphdr; lia|]. unfold sizeof_udphdr in En. rewrite En, Nat2Z.id.
  destruct (frag_loop_spec (m_header d) (htons id) iov (m_max_ip_payload_size d) true Hh ltac:(lia) Hmod HT' n 0)
    as (fs & E & _ & Hcat & Hudp & _); [unfold sizeof_udphdr; lia|done|lia|].
  unfold sizeof_udphdr in E. change (user_off 0) with 0 in *. rewrite E. exists fs, d1. split_and!; [done|done|].
  rewrite Hudp by done. do 3 f_equal. unfold sizeof_udphdr, wrap.
  symmetry. apply Z.mod_unique with (q := 1); lia.
Qed.

Lemma some_big_iov : exists iov, total iov = 65530.
Proof.
  exists [repeat 0 (Z.to_nat 65530)]. unfold total. rewrite concat_cons, app_nil_r, repeat_length. lia.
Qed.

Lemma oversized_datagram_wraps_witness :
  exists iov fs d', total iov = 65530 /\
    fast_send (fun _ _ => true) iov true (ex_dst 1500) = Some (Sent 65530 None fs, d') /\
    concat (map f_data fs) = concat iov /\
    head fs ≫= f_udp = Some (UdpHdr (htons 4000) (htons 80) (htons 2)).
Proof.
  destruct some_big_iov as [iov E].
  destruct (oversized_datagram_wraps (fun _ _ => true) iov true 1500 (ex_dst 1500))
    as (fs & d' & H1 & H2 & H3).
  - split_and!; try reflexivity; try done; cbn; lia.
  - done.
  - rewrite E. lia.
  - exists iov, fs, d'. rewrite E in H1, H3. split_and!; [exact E|exact H1|exact H2|exact H3].
Defined.

(** ** A datagram that waited in the neighbour *)

Definition set_hdr_id (id : Z) (h : header) : header :=
  Header (m_transport_header_len h) (m_ip_header_len h) (m_total_hdr_len h)
    (set_ip id (Frag.frag_off (m_ip_hdr h)) (Frag.tot_len (m_ip_hdr h)) (m_ip_hdr h))
    (udp_source h) (udp_dest h).

Lemma one_frag_queued h id iov max more csum off :
  header_ok h -> 0 < max -> max mod 8 = 0 -> total iov <= 65536 ->
  0 <= off < total iov + sizeof_udphdr -> off mod 8 = 0 ->
  one_frag (set_hdr_id id h) id [concat iov] max (total iov + sizeof_udphdr) more csum off (user_off off) =
  one_frag h id iov max (total iov + sizeof_udphdr) more csum off (user_off off).
Proof.
  intros Hh Hmax Hmod HT Hoff Hom. assert (0 <= total iov) by (unfold total; lia).
  unfold one_frag. cbn [set_hdr_id m_transport_header_len m_ip_header_len udp_source udp_dest].
  assert (8 <= max) by (pose proof (Z.div_mod max 8 ltac:(lia)); lia).
  assert (off = 0 \/ 8 <= off) by (pose proof (Z.div_mod off 8 ltac:(lia)); lia).
  unfold sizeof_udphdr in *. rewrite (wrap_small 64 (total iov + 8 - off)) by lia.
  assert (0 <= user_off off < 2 ^ 64) by (unfold user_off, sizeof_udphdr; case_decide; lia).
  destruct (decide (off = 0)).
  - rewrite (wrap_small 64 (_ - 8)) by lia. rewrite memcpy_concat by lia. done.
  - rewrite memcpy_concat by lia. done.
Qed.

Lemma frag_loop_queued h id iov max csum n off :
  header_ok h -> 0 < max -> max mod 8 = 0 -> total iov <= 65536 ->
  0 <= off < total iov + sizeof_udphdr -> off mod 8 = 0 ->
  Z.of_nat n * max < total iov + sizeof_udphdr - off <= Z.of_nat (S n) * max ->
  frag_loop (S n) (set_hdr_id id h) id [concat iov] max (total iov + sizeof_udphdr) csum off (user_off off) =
  frag_loop (S n) h id iov max (total iov + sizeof_udphdr) csum off (user_off off).
Proof.
  intros Hh Hmax Hmod HT. revert off. induction n as [|n IH]; intros off Hoff Hom Hn;
    rewrite (frag_loop_unfold _ (set_hdr_id id h)), (frag_loop_unfold _ h), one_frag_queued by done; [done|].
  destruct (one_frag_spec h id iov max csum Hh Hmax Hmod ltac:(unfold sizeof_udphdr; lia) off true)
    as (f & E & _); [done|done|symmetry; apply bool_decide_true; nia|].
  replace (Z.min max _) with max in E by nia. change (negb (S n =? 0)%nat) with true. rewrite E.
  rewrite IH; [done|nia| |nia]. rewrite Z.add_mod, Hom, Hmod by lia. done.
Qed.

(** [send_data::send_data]: the copy a waiting packet keeps. *)
Definition send_data (iov : list iovec) : iovec :=
  memcpy_fromiovec iov 0 (foldl (fun n v => u64 (n + iov_len v)) 0 iov).

Lemma send_data_concat iov : total iov < 2 ^ 64 -> send_data iov = concat iov.
Proof.
  intros HT. assert (forall l n, 0 <= n -> n + total l < 2 ^ 64 ->
    foldl (fun n v => u64 (n + iov_len v)) n l = n + total l) as H.
  { induction l as [|v l IH]; intros n Hn Hl; simpl; [unfold total; simpl; lia|].
    rewrite total_cons in *. assert (0 <= total l /\ 0 <= iov_len v) by (unfold total, iov_len; lia).
    rewrite wrap_small, IH; lia. }
  unfold send_data. rewrite H, memcpy_spec by (unfold total in *; lia).
  change (Z.to_nat 0) with O. rewrite drop_0. apply take_ge. unfold total. lia.
Qed.

(** C23: A fragmented datagram that had to wait for the peer's address is sent by the
    neighbour as the very packets the destination itself would have sent. *)
Theorem queued_datagram_sent_alike get iov b_blocked mtu d :
  prepared mtu d -> (forall i n, get i n = true) ->
  m_max_udp_payload_size d < total iov + sizeof_udphdr -> total iov <= 65536 ->
  exists fs, fast_send get iov b_blocked d = Some (Sent (total iov) None fs, (fetch_ip_id d).2) /\
    post_send_udp (get 0%nat) (set_hdr_id (htons (fetch_ip_id d).1) (m_header d)) (send_data iov) mtu =
      Some (true, fs).
Proof.
  intros (Hm & Eu & Ei & Hh & _) Hget Hlt HT. destruct (mtu_sizes mtu Hm) as (Eu' & Ei' & Hi & Hmod & El).
  rewrite <- Eu, <- Ei in *. assert (0 <= total iov) by (unfold total; lia).
  rewrite send_data_concat by lia. unfold post_send_udp, fast_send, sizeof_udphdr in *.
  rewrite foldl_total, Z.add_0_l, El. change (iov_len (concat iov)) with (total iov).
  rewrite (decide_False (P := total iov > 65536)), (wrap_small 64 (total iov + 8)) by lia.
  rewrite (decide_False (P := _ <= _)) by lia. unfold fast_send_fragmented.
  rewrite (decide_False (P := m_max_ip_payload_size d = 0)) by lia.
  assert (m_header (fetch_ip_id d).2 = m_header d /\
          m_max_ip_payload_size (fetch_ip_id d).2 = m_max_ip_payload_size d) as [E1 E2].
  { unfold fetch_ip_id. by case_match. }
  destruct (fetch_ip_id d) as [id d1]. simpl in E1, E2. rewrite !Hget, E1, E2. cbn [negb fst snd].
  rewrite (bool_decide_true (_ > _)) by lia. rewrite (decide_False (P := true = true /\ _)) by (intros [_ ?]; lia).
  destruct (num_frags_spec iov (m_max_ip_payload_size d)) as (n & En & Hn); unfold sizeof_udphdr in *; try lia.
  rewrite En, Nat2Z.id.
  destruct (frag_loop_spec (m_header d) (htons id) iov (m_max_ip_payload_size d) true Hh ltac:(lia) Hmod
    ltac:(unfold sizeof_udphdr; lia) n 0) as (fs & E & _); unfold sizeof_udphdr in *; [lia|done|lia|].
  pose proof (frag_loop_queued (m_header d) (htons id) iov (m_max_ip_payload_size d) true n 0 Hh
    ltac:(lia) Hmod HT ltac:(unfold sizeof_udphdr; lia) eq_refl ltac:(unfold sizeof_udphdr; lia)) as Eq.
  change (user_off 0) with 0 in *. unfold sizeof_udphdr in Eq. exists fs. rewrite E. split; [done|].
  cbn [set_hdr_id m_ip_hdr set_ip Frag.id].
  rewrite Eq, E, (decide_False (P := total iov > 65536)) by lia. done.
Qed.

Lemma queued_datagram_sent_alike_witness :
  post_send_udp (fun _ => true) (set_hdr_id (htons 7) ex_header) (send_data ex_iov) 60 =
    Some (true, ex_frames).
Proof.
  destruct (queued_datagram_sent_alike (fun _ _ => true) ex_iov false 60 (ex_dst 60)) as (fs & E & Hp).
  - split_and!; try reflexivity; try done; cbn; lia.
  - done.
  - vm_compute. reflexivity.
  - vm_compute. discriminate.
  - assert (fs = ex_frames) as -> by (unfold ex_frames; rewrite E; reflexivity). exact Hp.
Defined.
End UdpSend.
