(* ===== verification/NetlinkTable.v ===== *)
(** * Tables read from the kernel: src/src/vma/proto/netlink_socket_mgr.h

    The routing rules and the routes are copies of kernel tables, each an array
    of [MAX_TABLE_SIZE] values filled from the kernel's answer to a netlink dump.
    A netlink message is its [rtmsg] header and its attributes; [None] is an
    access outside the table.  The key of the caches
    (route_rule_table_key.h) is here too. *)

From S2P Require Import Prelude.

Local Open Scope Z_scope.

Definition MAX_TABLE_SIZE : Z := 4096.
Definition AF_INET : Z := 2.
Definition RT_TABLE_LOCAL : Z := 255.
Definition RT_TABLE_MAIN : Z := 254.

(** A C string in an array: empty when its first byte is zero. *)
Definition str_empty (s : list Z) : bool :=
  match s with [] => true | c :: _ => bool_decide (c = 0) end.

(** [VMA_NETMASK]: computed in 64 bits, then stored as [in_addr_t]. *)
Definition VMA_NETMASK (n : Z) : Z :=
  if decide (n = 0) then 0 else u32 (Z.lnot (Z.shiftl 1 (32 - n) - 1)).

(** *** Masks and prefixes *)

Lemma VMA_NETMASK_testbit n i :
  0 <= n <= 32 -> 0 <= i < 32 -> Z.testbit (VMA_NETMASK n) i = bool_decide (32 - n <= i).
Proof.
  intros Hn Hi. unfold VMA_NETMASK. case_decide as Hz.
  { rewrite Z.bits_0. by rewrite bool_decide_false by lia. }
  unfold wrap. rewrite Z.mod_pow2_bits_low by lia. rewrite Z.lnot_spec by lia.
  assert (Z.shiftl 1 (32 - n) - 1 = Z.ones (32 - n)) as ->.
  { rewrite Z.ones_equiv, Z.shiftl_1_l. lia. }
  rewrite Z.testbit_ones_nonneg by lia.
  case_bool_decide; case (Z.ltb_spec i (32 - n)); lia || done.
Qed.

Lemma VMA_NETMASK_range n : 0 <= VMA_NETMASK n < 2 ^ 32.
Proof. unfold VMA_NETMASK. case_decide; [lia|]. apply wrap_range. lia. Qed.

Lemma prefix_eq n x y : 0 <= n <= 32 ->
  Z.land (ntohl x) (VMA_NETMASK n) = Z.land (ntohl y) (VMA_NETMASK n) <->
  Z.shiftr (ntohl x) (32 - n) = Z.shiftr (ntohl y) (32 - n).
Proof.
  intros Hn.
  split; intros E; apply Z.bits_inj'; intros i Hi.
  - rewrite !Z.shiftr_spec by lia. apply (f_equal (fun z => Z.testbit z (i + (32 - n)))) in E.
    destruct (decide (i + (32 - n) < 32)); [|by rewrite !ntohl_testbit_high by lia].
    rewrite !Z.land_spec, VMA_NETMASK_testbit, bool_decide_true in E by lia.
    by rewrite !andb_true_r in E.
  - rewrite !Z.land_spec. destruct (decide (i < 32)).
    2: { by rewrite !ntohl_testbit_high by lia. }
    rewrite VMA_NETMASK_testbit by lia. case_bool_decide; [|by rewrite !andb_false_r].
    f_equal. apply (f_equal (fun z => Z.testbit z (i - (32 - n)))) in E.
    rewrite !Z.shiftr_spec in E by lia. by replace (i - (32 - n) + (32 - n)) with i in E by lia.
Qed.

(** [struct rtmsg] and [struct rtattr] of <linux/rtnetlink.h>: the 32-bit
    value of an attribute, its bytes as a name, and its nested attributes. *)
Record rtattr := Rta {
  rta_type : Z;
  rta_u32 : Z;
  rta_str : list Z;
  rta_nested : list (Z * Z);
}.

Record nlmsg := NlMsg {
  rtm_family : Z; rtm_dst_len : Z; rtm_tos : Z; rtm_table : Z;
  rtm_protocol : Z; rtm_scope : Z; rtm_type : Z;
  rtm_attrs : list rtattr;
}.

Record route_rule_table_key := RKey { key_dst_ip : Z; key_src_ip : Z; key_tos : Z }.

#[export] Instance rkey_eq_dec : EqDecision route_rule_table_key.
Proof. solve_decision. Defined.

(** ** netlink_socket_mgr: filling a table from the kernel's answer *)

Module Netlink.

Record table_t (A : Type) := Tab { value : list A; entries_num : Z }.
Arguments Tab {A}.
Arguments value {A}.
Arguments entries_num {A}.

Section netlink.
Context {A : Type}.
(** [parse_enrty]: [None] when it returns false, which it does before it
    writes to the slot. *)
Context (parse_enrty : nlmsg -> A -> option A).

Fixpoint parse_tbl (msgs : list nlmsg) (v : list A) (entry_cnt : nat) : option (list A * nat) :=
  match msgs with
  | [] => Some (v, entry_cnt)
  | m :: msgs =>
    if decide (Z.of_nat entry_cnt < MAX_TABLE_SIZE) then
      slot ← v !! entry_cnt;
      match parse_enrty m slot with
      | Some x => parse_tbl msgs (<[entry_cnt := x]> v) (S entry_cnt)
      | None => parse_tbl msgs v entry_cnt
      end
    else Some (v, entry_cnt)
  end.

(** [update_tbl]: [answer] is what [query] received, [None] on failure. *)
Definition update_tbl (answer : option (list nlmsg)) (t : table_t A) : option (table_t A) :=
  match answer with
  | None => Some (Tab (value t) 0)
  | Some msgs => '(v, cnt) ← parse_tbl msgs (value t) 0; Some (Tab v (Z.of_nat cnt))
  end.

(** The entries in use. *)
Definition entries (t : table_t A) : list A := take (Z.to_nat (entries_num t)) (value t).

Definition table_ok (t : table_t A) : Prop :=
  Z.of_nat (length (value t)) = MAX_TABLE_SIZE /\ 0 <= entries_num t <= MAX_TABLE_SIZE.

Lemma parse_tbl_ok msgs v cnt :
  Z.of_nat (length v) = MAX_TABLE_SIZE -> Z.of_nat cnt <= MAX_TABLE_SIZE ->
  exists v' cnt', parse_tbl msgs v cnt = Some (v', cnt') /\
    length v' = length v /\ Z.of_nat cnt' <= MAX_TABLE_SIZE /\ (cnt <= cnt')%nat /\
    take cnt v' = take cnt v.
Proof using.
  revert v cnt. induction msgs as [|m msgs IH]; intros v cnt Hv Hc; simpl.
  { eexists _, _. done. }
  case_decide as Hlt; [|eexists _, _; done].
  destruct (lookup_lt_is_Some_2 v cnt) as [slot Hs]; [lia|]. rewrite Hs. simpl.
  destruct (parse_enrty m slot) as [x|].
  - destruct (IH (<[cnt := x]> v) (S cnt)) as (v' & c' & -> & Hl & Hc' & Hle & Ht);
      [by rewrite length_insert|lia|].
    rewrite length_insert in Hl. eexists _, _. split_and!; try done; [lia|].
    apply (f_equal (take cnt)) in Ht. rewrite !take_take, Nat.min_l in Ht by lia.
    rewrite Ht. by apply take_insert_ge.
  - destruct (IH v cnt) as (v' & c' & -> & ?); try done. eexists _, _. done.
Qed.

Lemma update_tbl_ok answer t :
  table_ok t -> exists t', update_tbl answer t = Some t' /\ table_ok t'.
Proof using.
  intros [Hv Hn]. unfold update_tbl. destruct answer as [msgs|].
  - destruct (parse_tbl_ok msgs (value t) 0) as (v & c & -> & Hl & Hc & _); [done|done|].
    simpl. eexists. split; [done|]. split; simpl; lia.
  - eexists. split; [done|]. split; simpl; [done|]. unfold MAX_TABLE_SIZE. lia.
Qed.
End netlink.

End Netlink.
Export Netlink.
