(* ===== verification/RuleTable.v ===== *)
(** * Routing rules: src/src/vma/proto/rule_table_mgr.cpp, rule_val.cpp,
      rule_entry.h

    [rule_table_mgr] holds a copy of the kernel's routing rules;
    [rule_resolve] lists the routing tables to look at for a destination.  The
    debug strings ([set_str]) are left out. *)

From S2P Require Import Prelude NetlinkTable.

Local Open Scope Z_scope.

(** ** The rules *)

Module Rule.

Definition FRA_DST : Z := 1.
Definition FRA_SRC : Z := 2.
Definition FRA_IFNAME : Z := 3.
Definition FRA_PRIORITY : Z := 6.
Definition FRA_TABLE : Z := 15.
Definition FRA_OIFNAME : Z := 17.

Record rule_val := RuleVal {
  protocol : Z; scope : Z; type_ : Z; tos : Z;
  dst_addr : Z; src_addr : Z;
  iif_name : list Z; oif_name : list Z;
  priority : Z; table_id : Z; is_valid : bool;
}.

Definition rule_val_ctor : rule_val :=
  RuleVal 0 0 0 0 0 0 (replicate 16 0) (replicate 16 0) 0 0 false.

(** [parse_attr], built with [DEFINED_FRA_OIFNAME]. *)
Definition parse_attr (a : rtattr) (v : rule_val) : rule_val :=
  let t := rta_type a in
  let set d s i o p tb :=
    RuleVal (protocol v) (scope v) (type_ v) (tos v) d s i o p tb (is_valid v) in
  if decide (t = FRA_PRIORITY) then
    set (dst_addr v) (src_addr v) (iif_name v) (oif_name v) (rta_u32 a) (table_id v)
  else if decide (t = FRA_DST) then
    set (rta_u32 a) (src_addr v) (iif_name v) (oif_name v) (priority v) (table_id v)
  else if decide (t = FRA_SRC) then
    set (dst_addr v) (rta_u32 a) (iif_name v) (oif_name v) (priority v) (table_id v)
  else if decide (t = FRA_IFNAME) then
    set (dst_addr v) (src_addr v) (take 16 (rta_str a)) (oif_name v) (priority v) (table_id v)
  else if decide (t = FRA_TABLE) then
    set (dst_addr v) (src_addr v) (iif_name v) (oif_name v) (priority v) (rta_u32 a)
  else if decide (t = FRA_OIFNAME) then
    set (dst_addr v) (src_addr v) (iif_name v) (take 16 (rta_str a)) (priority v) (table_id v)
  else v.

Definition parse_enrty (m : nlmsg) (v : rule_val) : option rule_val :=
  if decide (rtm_family m <> AF_INET \/ rtm_table m = RT_TABLE_LOCAL) then None
  else
    let v := RuleVal (rtm_protocol m) (rtm_scope m) (rtm_type m) (rtm_tos m) (dst_addr v)
               (src_addr v) (iif_name v) (oif_name v) (priority v) (rtm_table m) (is_valid v) in
    let v := foldl (fun v a => parse_attr a v) v (rtm_attrs m) in
    Some (RuleVal (protocol v) (scope v) (type_ v) (tos v) (dst_addr v) (src_addr v)
            (iif_name v) (oif_name v) (priority v) (table_id v) true).

Definition is_matching_rule (key : route_rule_table_key) (v : rule_val) : bool :=
  if decide (dst_addr v = 0 \/ dst_addr v = key_dst_ip key) then
    if decide (src_addr v = 0 \/ src_addr v = key_src_ip key) then
      if decide (tos v = 0 \/ tos v = key_tos key) then
        if str_empty (iif_name v) then str_empty (oif_name v) else false
      else false
    else false
  else false.

(** The rules found are appended to the list the caller passes. *)
Definition find_rule_val (t : table_t rule_val) (key : route_rule_table_key)
    (p_val : list rule_val) : bool * list rule_val :=
  let r := p_val ++ filter (fun v => is_valid v && is_matching_rule key v = true) (entries t) in
  (negb (bool_decide (r = [])), r).

(** [rule_resolve]: the table ids, stored as [unsigned char]. *)
Definition rule_resolve (t : table_t rule_val) (key : route_rule_table_key) : bool * list Z :=
  let '(found, values) := find_rule_val t key [] in
  let l := if found then map (fun v => u8 (table_id v)) values else [] in
  (negb (bool_decide (l = [])), l).

(** [rule_entry]: its list of rules; valid when it is not empty. *)
Record rule_entry := RuleEntry { re_key : route_rule_table_key; re_values : list rule_val }.

Definition rule_entry_valid (e : rule_entry) : bool := negb (bool_decide (re_values e = [])).

Definition update_entry (t : table_t rule_val) (e : rule_entry) : rule_entry :=
  if rule_entry_valid e then e
  else RuleEntry (re_key e) (find_rule_val t (re_key e) (re_values e)).2.

Definition create_new_entry (t : table_t rule_val) (key : route_rule_table_key) : rule_entry :=
  update_entry t (RuleEntry key []).

End Rule.
