(* ===== verification/RouteTable.v ===== *)
(** * Routes: src/src/vma/proto/route_table_mgr.cpp, route_val.cpp,
      route_entry.cpp

    [route_table_mgr] holds a copy of the kernel's routes; [route_resolve] finds
    the route of a destination: the rules that match give the tables to look at,
    and in each table the longest prefix wins.

    A pointer into a table is its index.  Addresses are in network order, as the
    code keeps them.  The debug strings ([set_str]) are left out.  [None] is an
    access outside the table. *)

From S2P Require Import Prelude NetlinkTable RuleTable.

Local Open Scope Z_scope.

(** ** The routes *)

Module Route.

Definition RTA_DST : Z := 1.
Definition RTA_SRC : Z := 2.
Definition RTA_OIF : Z := 4.
Definition RTA_GATEWAY : Z := 5.
Definition RTA_PREFSRC : Z := 7.
Definition RTA_METRICS : Z := 8.
Definition RTA_TABLE : Z := 15.
Definition RTAX_MTU : Z := 2.

Record route_val := RouteVal {
  dst_addr : Z; dst_mask : Z; dst_pref_len : Z;
  src_addr : Z; gw : Z;
  protocol : Z; scope : Z; type_ : Z; table_id : Z;
  if_name : list Z; if_index : Z;
  is_valid : bool; b_deleted : bool; b_if_up : bool;
  mtu : Z;
}.

Definition route_val_ctor : route_val :=
  RouteVal 0 0 0 0 0 0 0 0 0 (replicate 16 0) 0 false false true 0.

Definition set_dst_addr (x : Z) (v : route_val) : route_val :=
  RouteVal x (dst_mask v) (dst_pref_len v) (src_addr v) (gw v) (protocol v) (scope v) (type_ v)
    (table_id v) (if_name v) (if_index v) (is_valid v) (b_deleted v) (b_if_up v) (mtu v).
Definition set_src_addr (x : Z) (v : route_val) : route_val :=
  RouteVal (dst_addr v) (dst_mask v) (dst_pref_len v) x (gw v) (protocol v) (scope v) (type_ v)
    (table_id v) (if_name v) (if_index v) (is_valid v) (b_deleted v) (b_if_up v) (mtu v).
Definition set_gw (x : Z) (v : route_val) : route_val :=
  RouteVal (dst_addr v) (dst_mask v) (dst_pref_len v) (src_addr v) x (protocol v) (scope v) (type_ v)
    (table_id v) (if_name v) (if_index v) (is_valid v) (b_deleted v) (b_if_up v) (mtu v).
Definition set_table_id (x : Z) (v : route_val) : route_val :=
  RouteVal (dst_addr v) (dst_mask v) (dst_pref_len v) (src_addr v) (gw v) (protocol v) (scope v) (type_ v)
    x (if_name v) (if_index v) (is_valid v) (b_deleted v) (b_if_up v) (mtu v).
Definition set_if (i : Z) (n : list Z) (v : route_val) : route_val :=
  RouteVal (dst_addr v) (dst_mask v) (dst_pref_len v) (src_addr v) (gw v) (protocol v) (scope v) (type_ v)
    (table_id v) (take 16 n) i (is_valid v) (b_deleted v) (b_if_up v) (mtu v).
Definition set_state (s : bool) (v : route_val) : route_val :=
  RouteVal (dst_addr v) (dst_mask v) (dst_pref_len v) (src_addr v) (gw v) (protocol v) (scope v) (type_ v)
    (table_id v) (if_name v) (if_index v) s (b_deleted v) (b_if_up v) (mtu v).

(** [ip_data_t] of the network devices. *)
Record ip_data_t := IpData { flags : Z; local_addr : Z; netmask : Z }.

Record route_result := RouteResult { p_src : Z; p_gw : Z; res_mtu : Z }.

(** [route_entry], the cached result for a key: the route, whether the entry is
    valid, the rule entry it observes and whether its device is offloaded. *)
Record route_entry := RouteEntry {
  ent_key : route_rule_table_key;
  m_val : option nat;
  m_is_valid : bool;
  m_p_rr_entry : option Rule.rule_entry;
  m_b_offloaded_net_dev : bool;
}.

Section route_table_mgr.
(** The environment: the interface name for an index (the C library), the
    device table (its largest mtu, the addresses of an interface, whether an
    observer could be registered) and the address of an interface
    ([get_ipv4_from_ifname], an ioctl). *)
Context (if_indextoname : Z -> list Z) (get_max_mtu : Z)
        (get_ip_list : Z -> list ip_data_t) (nd_register_observer : Z -> bool)
        (get_ipv4_from_ifname : list Z -> option Z).

Definition set_mtu (x : Z) (v : route_val) : route_val :=
  if decide (x > get_max_mtu) then v
  else RouteVal (dst_addr v) (dst_mask v) (dst_pref_len v) (src_addr v) (gw v) (protocol v)
    (scope v) (type_ v) (table_id v) (if_name v) (if_index v) (is_valid v) (b_deleted v)
    (b_if_up v) x.

Definition parse_attr (a : rtattr) (v : route_val) : route_val :=
  let t := rta_type a in
  if decide (t = RTA_DST) then set_dst_addr (rta_u32 a) v
  else if decide (t = RTA_GATEWAY) then set_gw (rta_u32 a) v
  else if decide (t = RTA_OIF) then set_if (s32 (rta_u32 a)) (if_indextoname (s32 (rta_u32 a))) v
  else if decide (t = RTA_SRC \/ t = RTA_PREFSRC) then set_src_addr (rta_u32 a) v
  else if decide (t = RTA_TABLE) then set_table_id (rta_u32 a) v
  else if decide (t = RTA_METRICS) then
    foldl (fun v x => if decide (x.1 = RTAX_MTU) then set_mtu x.2 v else v) v (rta_nested a)
  else v.

Definition parse_enrty (m : nlmsg) (v : route_val) : option route_val :=
  if decide (rtm_family m <> AF_INET \/ rtm_table m = RT_TABLE_LOCAL) then None
  else
    let v := RouteVal (dst_addr v) (htonl (VMA_NETMASK (rtm_dst_len m))) (rtm_dst_len m)
               (src_addr v) (gw v) (rtm_protocol m) (rtm_scope m) (rtm_type m) (rtm_table m)
               (if_name v) (if_index v) (is_valid v) (b_deleted v) (b_if_up v) (mtu v) in
    Some (set_state true (foldl (fun v a => parse_attr a v) v (rtm_attrs m))).

(** [find_route_val]: the loop over the table from index [i], with its
    variables [longest_prefix] and [correct_route_val]. *)
Definition is_match (dst tid : Z) (v : route_val) : bool :=
  if negb (b_deleted v) && b_if_up v then
    if decide (table_id v = tid) then bool_decide (dst_addr v = Z.land dst (dst_mask v))
    else false
  else false.

Fixpoint find_loop (dst tid : Z) (i : nat) (l : list route_val) (longest_prefix : Z)
    (correct_route_val : option nat) : option nat :=
  match l with
  | [] => correct_route_val
  | v :: l =>
    if is_match dst tid v then
      if decide (dst_pref_len v > longest_prefix)
      then find_loop dst tid (S i) l (dst_pref_len v) (Some i)
      else find_loop dst tid (S i) l longest_prefix correct_route_val
    else find_loop dst tid (S i) l longest_prefix correct_route_val
  end.

Definition find_route_val (l : list route_val) (dst tid : Z) : option nat :=
  find_loop dst tid 0 l (-1) None.

(** *** rt_mgr_update_source_ip *)

(** The address of the interface whose network has the route's destination,
    longest mask first. *)
Definition pick_src (dst : Z) (ips : list ip_data_t) : Z :=
  (foldl (fun '(longest_prefix, correct_src) ip =>
      if decide (Z.land dst (netmask ip) = Z.land (local_addr ip) (netmask ip)) then
        if decide (Z.lor (netmask ip) longest_prefix <> longest_prefix)
        then (netmask ip, local_addr ip)
        else (longest_prefix, correct_src)
      else (longest_prefix, correct_src)) (0, 0) ips).2.

Definition src_from_ioctl (v : route_val) : route_val :=
  match get_ipv4_from_ifname (if_name v) with
  | Some a => set_src_addr a v
  | None => v
  end.

(** First loop; [have_nd] is whether [g_p_net_device_table_mgr] is set. *)
Definition src_no_gw (have_nd : bool) (v : route_val) : route_val :=
  if ctrue (src_addr v) || ctrue (gw v) then v
  else
    let correct_src := if have_nd then pick_src (dst_addr v) (get_ip_list (if_index v)) else 0 in
    if ctrue correct_src then set_src_addr correct_src v
    else src_from_ioctl v.

(** The body of the second loop for entry [i]: whether the entry counts as
    unresolved, and the table. *)
Definition resolve_one (i : nat) (l : list route_val) : bool * list route_val :=
  match l !! i with
  | None => (false, l)
  | Some v =>
    if ctrue (gw v) && negb (ctrue (src_addr v)) then
      match find_route_val l (gw v) (u8 (table_id v)) with
      | None => (true, l)
      | Some j =>
        let src_dst := match l !! j with Some w => src_addr w | None => 0 end in
        let '(unresolved, v) :=
          if ctrue src_dst then (false, set_src_addr src_dst v)
          else if decide (i = j) then
            let v := match list_find (fun ip => gw v = local_addr ip) (get_ip_list (if_index v)) with
                     | Some (_, ip) => set_src_addr (local_addr ip) (set_gw 0 v)
                     | None => v
                     end in
            (negb (ctrue (src_addr v)), v)
          else (true, v) in
        let v := if decide (src_addr v = gw v) then set_gw 0 v else v in
        (unresolved, <[i := v]> l)
      end
    else (false, l)
  end.

(** One pass of the [for] loop: the number of unresolved entries. *)
Fixpoint resolve_pass (idx : list nat) (l : list route_val) : Z * list route_val :=
  match idx with
  | [] => (0, l)
  | i :: idx =>
    let '(u, l) := resolve_one i l in
    let '(n, l) := resolve_pass idx l in
    (n + (if u then 1 else 0), l)
  end.

(** The [do ... while] loop. *)
Fixpoint resolve_loop (fuel : nat) (num_unresolved_src : Z) (l : list route_val)
  : option (list route_val) :=
  match fuel with
  | O => None
  | S fuel =>
    let prev := num_unresolved_src in
    let '(n, l) := resolve_pass (seq 0 (length l)) l in
    if decide (n <> 0 /\ prev > n) then resolve_loop fuel n l else Some l
  end.

Definition src_last (v : route_val) : route_val :=
  if ctrue (src_addr v) then v else src_from_ioctl v.

(** The whole function on the entries in use. *)
Definition rt_mgr_update_source_ip (have_nd : bool) (l : list route_val) : option (list route_val) :=
  let l := map (src_no_gw have_nd) l in
  l ← resolve_loop (S (length l)) (Z.of_nat (length l)) l;
  Some (map src_last l).

Definition update_tbl (have_nd : bool) (answer : option (list nlmsg)) (t : table_t route_val)
  : option (table_t route_val) :=
  t ← Netlink.update_tbl parse_enrty answer t;
  l ← rt_mgr_update_source_ip have_nd (entries t);
  Some (Tab (l ++ drop (length l) (value t)) (entries_num t)).

(** *** Lookups and events *)

Fixpoint resolve_in (l : list route_val) (dst : Z) (tids : list Z) : option route_result :=
  match tids with
  | [] => None
  | tid :: tids =>
    match i ← find_route_val l dst tid; l !! i with
    | Some v => Some (RouteResult (src_addr v) (gw v) (mtu v))
    | None => resolve_in l dst tids
    end
  end.

(** [None]: it returns false and does not write the result. *)
Definition route_resolve (rules : table_t Rule.rule_val) (t : table_t route_val)
    (key : route_rule_table_key) : option route_result :=
  resolve_in (entries t) (key_dst_ip key) (Rule.rule_resolve rules key).2.

Definition entry_valid (l : list route_val) (e : route_entry) : bool :=
  m_is_valid e && match m_val e ≫= (l !!.) with Some v => is_valid v | None => false end.

Definition IS_BROADCAST_N (a : Z) : bool :=
  bool_decide (Z.land a (htonl 4294967295) = htonl 4294967295).

Definition register_to_net_device (v : route_val) (e : route_entry) : route_entry :=
  let b := match get_ip_list (if_index v) with
           | [] => false
           | ip :: _ => nd_register_observer (local_addr ip)
           end in
  RouteEntry (ent_key e) (m_val e) (m_is_valid e) (m_p_rr_entry e) b.

Fixpoint update_with (l : list route_val) (peer_ip : Z) (reg : bool) (tids : list Z) (e : route_entry)
  : route_entry :=
  match tids with
  | [] => e
  | tid :: tids =>
    match find_route_val l peer_ip tid with
    | Some i =>
      let e := RouteEntry (ent_key e) (Some i) (m_is_valid e) (m_p_rr_entry e)
                 (m_b_offloaded_net_dev e) in
      let e := match l !! i with
               | Some v => if reg && negb (IS_BROADCAST_N peer_ip)
                           then register_to_net_device v e else e
               | None => e
               end in
      RouteEntry (ent_key e) (m_val e) true (m_p_rr_entry e) (m_b_offloaded_net_dev e)
    | None => update_with l peer_ip reg tids e
    end
  end.

Definition update_entry (t : table_t route_val) (b_register_to_net_dev : bool) (e : route_entry)
  : route_entry :=
  if entry_valid (entries t) e then e
  else match m_p_rr_entry e with
       | Some re =>
         if Rule.rule_entry_valid re then
           update_with (entries t) (key_dst_ip (ent_key e)) b_register_to_net_dev
             (map (fun r => u8 (Rule.table_id r)) (Rule.re_values re)) e
         else e
       | None => e
       end.

(** [new route_entry(key)] registers with the rule table, which creates the
    rule entry. *)
Definition create_new_entry (rules : table_t Rule.rule_val) (t : table_t route_val)
    (key : route_rule_table_key) : route_entry :=
  update_entry t true (RouteEntry key None false (Some (Rule.create_new_entry rules key)) false).

Definition new_route_event (nv : option route_val) (t : table_t route_val)
  : option (table_t route_val) :=
  match nv with
  | None => Some t
  | Some nv =>
    if decide (entries_num t >= MAX_TABLE_SIZE) then Some t
    else
      let i := Z.to_nat (entries_num t) in
      slot ← value t !! i;
      let v := RouteVal (dst_addr nv) (dst_mask nv) (dst_pref_len nv) (src_addr nv) (gw nv)
                 (protocol nv) (scope nv) (type_ nv) (table_id nv) (take 16 (if_name nv))
                 (if_index nv) (is_valid slot) (b_deleted slot) (b_if_up slot) (mtu slot) in
      let v := set_state true (set_mtu (mtu nv) v) in
      Some (Tab (<[i := v]> (value t)) (u16 (entries_num t + 1)))
  end.
End route_table_mgr.

(** ** Longest prefix match *)

(** A route as the kernel reports it: the mask is the one of the prefix length
    and the address has no bits beyond the prefix. *)
Definition route_wf (v : route_val) : Prop :=
  0 <= dst_pref_len v <= 32 /\ dst_mask v = htonl (VMA_NETMASK (dst_pref_len v)) /\
  0 <= dst_addr v < 2 ^ 32 /\ Z.land (dst_addr v) (dst_mask v) = dst_addr v.

(** The leading [dst_pref_len] bits of the address are those of the route. *)
Definition covers (v : route_val) (dst : Z) : Prop :=
  Z.shiftr (ntohl dst) (32 - dst_pref_len v) = Z.shiftr (ntohl (dst_addr v)) (32 - dst_pref_len v).

Definition usable (tid : Z) (v : route_val) : Prop :=
  b_deleted v = false /\ b_if_up v = true /\ table_id v = tid.

(** Comparing under the mask is comparing the prefixes. *)
Lemma mask_covers v dst :
  route_wf v -> 0 <= dst < 2 ^ 32 -> dst_addr v = Z.land dst (dst_mask v) <-> covers v dst.
Proof.
  intros (Hn & Hm & Ha & Hz) Hd. unfold covers. set (n := dst_pref_len v) in *.
  assert (forall x, Z.land (ntohl x) (VMA_NETMASK n) = ntohl (Z.land x (dst_mask v))) as Hx.
  { intros x. rewrite ntohl_land, Hm, ntohl_invol; [done|apply VMA_NETMASK_range]. }
  assert (dst_addr v = Z.land dst (dst_mask v) <->
          Z.land (ntohl dst) (VMA_NETMASK n) = Z.land (ntohl (dst_addr v)) (VMA_NETMASK n)) as ->.
  { rewrite !Hx, Hz. split; [by intros <-|]. intros E. symmetry. apply ntohl_inj; try done.
    apply u32_bits. intros i Hi. rewrite Z.land_spec, (proj1 (u32_bits dst)) by done. done. }
  by apply prefix_eq.
Qed.

Lemma is_match_spec dst tid v :
  route_wf v -> 0 <= dst < 2 ^ 32 -> is_match dst tid v = true <-> usable tid v /\ covers v dst.
Proof.
  intros Hw Hd. rewrite <- mask_covers by done. unfold is_match, usable.
  destruct (b_deleted v), (b_if_up v); simpl; try naive_solver.
  case_decide; [|naive_solver]. rewrite bool_decide_eq_true. naive_solver.
Qed.

(** The loop keeps the first of the longest matches. *)
Lemma find_loop_spec dst tid i l lp best :
  (find_loop dst tid i l lp best = best /\
     forall k w, l !! k = Some w -> is_match dst tid w = true -> dst_pref_len w <= lp) \/
  exists j v, find_loop dst tid i l lp best = Some (i + j)%nat /\ l !! j = Some v /\
    is_match dst tid v = true /\ lp < dst_pref_len v /\
    forall k w, l !! k = Some w -> is_match dst tid w = true ->
      dst_pref_len w <= dst_pref_len v /\ ((k < j)%nat -> dst_pref_len w < dst_pref_len v).
Proof.
  revert i lp best. induction l as [|x l IH]; intros i lp best; simpl.
  { left. split; [done|]. intros k w H. by rewrite lookup_nil in H. }
  assert (is_match dst tid x = true /\ dst_pref_len x > lp \/
          (is_match dst tid x = true -> dst_pref_len x <= lp)) as [[Hm Hp]|Hskip].
  { destruct (is_match dst tid x); [|by right]. destruct (decide (dst_pref_len x > lp)); [by left|].
    right. lia. }
  - rewrite Hm, decide_True by done. right.
    destruct (IH (S i) (dst_pref_len x) (Some i)) as [[-> H]|(j & v & -> & Hj & Hv & Hlt & H)].
    + exists 0%nat, x. rewrite Nat.add_0_r. split_and!; try done; [lia|].
      intros [|k] w Hk Hw; simpl in Hk; [simplify_eq; lia|]. specialize (H k w Hk Hw). lia.
    + exists (S j), v. split_and!; try done; [f_equal; lia|lia|].
      intros [|k] w Hk Hw; simpl in Hk; [simplify_eq; lia|]. destruct (H k w Hk Hw). lia.
  - assert ((if is_match dst tid x then if decide (dst_pref_len x > lp)
              then find_loop dst tid (S i) l (dst_pref_len x) (Some i)
              else find_loop dst tid (S i) l lp best
             else find_loop dst tid (S i) l lp best) = find_loop dst tid (S i) l lp best) as ->.
    { destruct (is_match dst tid x); [|done]. rewrite decide_False; [done|]. specialize (Hskip eq_refl). lia. }
    destruct (IH (S i) lp best) as [[-> H]|(j & v & -> & Hj & Hv & Hlt & H)].
    + left. split; [done|]. intros [|k] w Hk Hw; simpl in Hk; [simplify_eq; auto|eauto].
    + right. exists (S j), v. split_and!; try done; [f_equal; lia|].
      intros [|k] w Hk Hw; simpl in Hk.
      * simplify_eq. specialize (Hskip Hw). lia.
      * destruct (H k w Hk Hw). lia.
Qed.

(** [best l dst tid i v]: entry [i] is the first of the longest usable
    prefixes of table [tid] that cover [dst]. *)
Definition best (l : list route_val) (dst tid : Z) (i : nat) (v : route_val) : Prop :=
  l !! i = Some v /\ usable tid v /\ covers v dst /\
  forall j w, l !! j = Some w -> usable tid w -> covers w dst ->
    dst_pref_len w <= dst_pref_len v /\ ((j < i)%nat -> dst_pref_len w < dst_pref_len v).

Definition no_route (l : list route_val) (dst tid : Z) : Prop :=
  forall j w, l !! j = Some w -> usable tid w -> ~ covers w dst.

Lemma find_route_val_best l dst tid :
  Forall route_wf l -> 0 <= dst < 2 ^ 32 ->
  match find_route_val l dst tid with
  | Some i => exists v, best l dst tid i v
  | None => no_route l dst tid
  end.
Proof.
  intros Hl Hd. rewrite list.Forall_lookup in Hl. unfold find_route_val.
  destruct (find_loop_spec dst tid 0 l (-1) None) as [[-> H]|(j & v & -> & Hj & Hv & _ & H)].
  - intros j w Hj Hu Hc. pose proof (Hl _ _ Hj) as Hw.
    assert (is_match dst tid w = true) as Hm by (by apply is_match_spec).
    specialize (H _ _ Hj Hm). destruct Hw as [? _]. lia.
  - simpl. exists v. apply is_match_spec in Hv as [Hu Hc]; [|by eapply Hl|done].
    split_and!; try done. intros k w Hk Hwu Hwc.
    apply (H k w Hk). apply is_match_spec; [by eapply Hl|done|done].
Qed.

Lemma resolve_in_spec l dst tids :
  Forall route_wf l -> 0 <= dst < 2 ^ 32 ->
  match resolve_in l dst tids with
  | Some r => exists tids1 tid tids2 i v, tids = tids1 ++ tid :: tids2 /\ best l dst tid i v /\
      r = RouteResult (src_addr v) (gw v) (mtu v) /\ Forall (no_route l dst) tids1
  | None => Forall (no_route l dst) tids
  end.
Proof.
  intros Hl Hd. induction tids as [|tid tids IH]; simpl; [constructor|].
  pose proof (find_route_val_best l dst tid Hl Hd) as Hf.
  destruct (find_route_val l dst tid) as [i|]; simpl.
  - destruct Hf as [v Hb]. pose proof Hb as (Hi & _). rewrite Hi.
    by exists [], tid, tids, i, v.
  - destruct (resolve_in l dst tids) as [r|].
    + destruct IH as (t1 & t & t2 & i & v & -> & ? & ? & ?).
      exists (tid :: t1), t, t2, i, v. split_and!; try done. by constructor.
    + by constructor.
Qed.

(** C11: Route resolution is longest-prefix match under the policy rules.  The
    tables of the rules that match the key are tried in the order of the rule
    table (a table id being its low eight bits); the answer is the first of the
    longest usable prefixes covering the destination in the first table that
    has one, and there is no answer only if no such table has a route. *)
Theorem route_resolve_correct rules t key :
  Forall route_wf (entries t) -> 0 <= key_dst_ip key < 2 ^ 32 ->
  let tids := map (fun r => u8 (Rule.table_id r))
    (filter (fun r => Rule.is_valid r && Rule.is_matching_rule key r = true) (entries rules)) in
  match route_resolve rules t key with
  | Some r => exists tids1 tid tids2 i v, tids = tids1 ++ tid :: tids2 /\
      best (entries t) (key_dst_ip key) tid i v /\
      r = RouteResult (src_addr v) (gw v) (mtu v) /\
      Forall (no_route (entries t) (key_dst_ip key)) tids1
  | None => Forall (no_route (entries t) (key_dst_ip key)) tids
  end.
Proof.
  intros Hl Hd tids. unfold route_resolve.
  assert ((Rule.rule_resolve rules key).2 = tids) as ->; [|by apply resolve_in_spec].
  unfold Rule.rule_resolve, Rule.find_rule_val, tids. simpl.
  case_bool_decide as E; simpl; [by rewrite E|done].
Qed.

(** Two routes of the main table, 10.0.0.0/8 and 10.1.0.0/16. *)
Definition route_8 : route_val :=
  RouteVal (htonl 0x0a000000) (htonl (VMA_NETMASK 8)) 8 (htonl 0x0a000001) 0 0 0 0 254
    [] 2 true false true 0.
Definition route_16 : route_val :=
  RouteVal (htonl 0x0a010000) (htonl (VMA_NETMASK 16)) 16 (htonl 0x0a010001) 0 0 0 0 254
    [] 3 true false true 1500.
Definition main_rule (tid : Z) : Rule.rule_val :=
  Rule.RuleVal 0 0 0 0 0 0 [0] [0] 0 tid true.

Lemma route_8_16_wf : Forall route_wf [route_8; route_16].
Proof. repeat constructor; vm_compute; try done; intros [=]. Qed.

Definition ex_rr_t := Tab [route_8; route_16] 2.
Definition ex_rr_rules := Tab [main_rule 254] 1.
Definition ex_rr_key := RKey (htonl 0x0a010203) 0 0.

Lemma route_resolve_correct_witness :
  route_resolve ex_rr_rules ex_rr_t ex_rr_key = Some (RouteResult (htonl 0x0a010001) 0 1500) /\
  exists tids1 tid tids2 i v, [254] = tids1 ++ tid :: tids2 /\
    best (entries ex_rr_t) (key_dst_ip ex_rr_key) tid i v.
Proof.
  split; [by vm_compute|].
  pose proof (route_resolve_correct ex_rr_rules ex_rr_t ex_rr_key route_8_16_wf) as H.
  assert (0 <= key_dst_ip ex_rr_key < 2 ^ 32) as Hk by (by vm_compute).
  specialize (H Hk). simpl in H.
  replace (route_resolve ex_rr_rules ex_rr_t ex_rr_key) with (Some (RouteResult (htonl 0x0a010001) 0 1500)) in H
    by (by vm_compute).
  destruct H as (a & b & c & i & v & E & Hb & _). by exists a, b, c, i, v.
Defined.

(** A table id is cut to eight bits between the rules and the routes.  A
    key whose only matching rule names table [n] is resolved in table
    [n mod 256]: a rule for table 510 is answered from the main table (254),
    and no route of a table above 255 is ever found. *)
Theorem route_resolve_table_id_truncated :
  (forall rules t key r, filter (fun r => Rule.is_valid r && Rule.is_matching_rule key r = true)
      (entries rules) = [r] ->
    route_resolve rules t key = resolve_in (entries t) (key_dst_ip key) [Rule.table_id r mod 256]) /\
  route_resolve (Tab [main_rule 510] 1) (Tab [route_8; route_16] 2) (RKey (htonl 0x0a010203) 0 0)
    = Some (RouteResult (htonl 0x0a010001) 0 1500) /\
  (forall rv l dst r i, 256 <= table_id r ->
    find_route_val l dst (u8 (Rule.table_id rv)) = Some i -> l !! i <> Some r).
Proof.
  split_and!.
  - intros rules t key r E. unfold route_resolve, Rule.rule_resolve, Rule.find_rule_val. simpl.
    rewrite E. simpl. done.
  - by vm_compute.
  - intros rv l dst r i Hr Hf Hi. unfold find_route_val in Hf.
    destruct (find_loop_spec dst (u8 (Rule.table_id rv)) 0 l (-1) None)
      as [[E _]|(j & v & E & Hj & Hv & _)]; rewrite E in Hf; simplify_eq/=.
    unfold is_match in Hv. case_match; [|done].
    case_decide as Ht; [|done]. pose proof (wrap_range 8 ltac:(lia) (Rule.table_id rv)). lia.
Qed.

(** ** Source addresses of gateway routes *)

Section source_ip.
Context (get_ip_list : Z -> list ip_data_t) (get_ipv4_from_ifname : list Z -> option Z).
Abbreviation resolve_one := (resolve_one get_ip_list).
Abbreviation resolve_pass := (resolve_pass get_ip_list).
Abbreviation resolve_loop := (resolve_loop get_ip_list).

(** A gateway route without a source address. *)
Definition unres (v : route_val) : bool := ctrue (gw v) && negb (ctrue (src_addr v)).

Definition unres_at (l : list route_val) (i : nat) : Prop :=
  match l !! i with Some v => unres v = true | None => False end.
#[local] Instance unres_at_dec l i : Decision (unres_at l i).
Proof. unfold unres_at. destruct (l !! i); apply _. Defined.

Definition src_at (l : list route_val) (i : nat) : Z :=
  match l !! i with Some w => src_addr w | None => 0 end.

(** What a lookup depends on. *)
Definition view (v : route_val) : Z * Z * Z * Z * bool * bool :=
  (dst_addr v, dst_mask v, dst_pref_len v, table_id v, b_deleted v, b_if_up v).

(** Its gateway is not routed, or by a route without a source. *)
Definition stuck (l : list route_val) (v : route_val) : Prop :=
  match find_route_val l (gw v) (u8 (table_id v)) with
  | None => True
  | Some j => src_at l j = 0
  end.

(** Where a source address comes from: the route of the gateway, or the
    interface that has the gateway's address. *)
Definition origin (l : list route_val) (v0 : route_val) (src : Z) : Prop :=
  (exists j, find_route_val l (gw v0) (u8 (table_id v0)) = Some j /\ src_at l j = src) \/
  (src = gw v0 /\ exists ip, ip ∈ get_ip_list (if_index v0) /\ local_addr ip = gw v0).

Lemma find_loop_view dst tid i l l' lp b :
  view <$> l = view <$> l' -> find_loop dst tid i l lp b = find_loop dst tid i l' lp b.
Proof using.
  revert l' i lp b. induction l as [|x l IH]; intros [|y l'] i lp b E; try done.
  injection E as E1 E2 E3 E4 E5 E6 E. simpl. unfold is_match. rewrite E1, E2, E3, E4, E5, E6.
  repeat case_match; by apply IH.
Qed.

Lemma find_route_val_view l l' dst tid :
  view <$> l = view <$> l' -> find_route_val l dst tid = find_route_val l' dst tid.
Proof using. apply find_loop_view. Qed.

Lemma view_insert (l : list route_val) i v v' :
  l !! i = Some v -> view v' = view v -> view <$> <[i := v']> l = view <$> l.
Proof using.
  intros Hi E. rewrite list_fmap_insert, E. apply list_insert_id. by rewrite list_lookup_fmap, Hi.
Qed.

(** One entry: it is left alone when it is resolved or stuck, and it gets a
    source otherwise. *)
Lemma resolve_one_spec i l :
  (resolve_one i l = (true, l) /\ exists v, l !! i = Some v /\ unres v = true /\ stuck l v) \/
  (resolve_one i l = (false, l) /\ ~ unres_at l i) \/
  (exists v v', l !! i = Some v /\ unres v = true /\ resolve_one i l = (false, <[i := v']> l) /\
     view v' = view v /\ src_addr v' <> 0 /\ origin l v (src_addr v')).
Proof using.
  unfold RouteTable.Route.resolve_one, unres_at. destruct (l !! i) as [v|] eqn:Hi; [|right; left; by split; [|tauto]].
  fold (unres v). destruct (unres v) eqn:Hu; [|right; left; by split; [|congruence]].
  assert (gw v <> 0 /\ src_addr v = 0) as [Hg Hs].
  { unfold unres, ctrue in Hu. repeat case_bool_decide; done || tauto. }
  destruct (find_route_val l (gw v) (u8 (table_id v))) as [j|] eqn:Hf.
  2: { left. split; [done|]. exists v. unfold stuck. by rewrite Hf. }
  fold (src_at l j). destruct (decide (src_at l j = 0)) as [Hj|Hj]; [|rewrite (ctrue_ne _ Hj)].
  2: { right. right. eexists v, _. split; [done|]. split; [done|]. split; [reflexivity|].
    case_decide; (split_and!; [done|done|]); left; by exists j. }
  rewrite (ctrue_eq _ Hj). assert (stuck l v) as Hst by (unfold stuck; by rewrite Hf).
  assert (<[i := v]> l = l) as Hid by (by apply list_insert_id).
  case_decide as Hij.
  - destruct (list_find _ _) as [[n ip]|] eqn:El; simpl.
    + apply list_find_Some in El as (Hip & Eip & _). right. right.
      eexists v, _. split; [done|]. split; [done|].
      rewrite decide_False by (simpl; congruence). simpl.
      rewrite ctrue_ne by congruence. split; [reflexivity|]. simpl.
      split_and!; [done|congruence|]. right. split; [done|]. exists ip.
      by eapply list_elem_of_lookup_2 in Hip.
    + left. rewrite decide_False by congruence. rewrite Hs, Hid. split; [done|]. by exists v.
  - left. rewrite decide_False, Hid by congruence. split; [done|]. by exists v.
Qed.

Definition cnt (l : list route_val) (idx : list nat) : Z :=
  Z.of_nat (length (filter (unres_at l) idx)).

Lemma cnt_cons l i idx : cnt l (i :: idx) = (if decide (unres_at l i) then 1 else 0) + cnt l idx.
Proof using. unfold cnt. rewrite filter_cons. case_decide; simpl; lia. Qed.

Lemma cnt_ext l l' idx :
  (forall i, i ∈ idx -> l !! i = l' !! i) -> cnt l idx = cnt l' idx.
Proof using.
  intros H. unfold cnt. erewrite filter_ext; [done|]. intros i Hi. unfold unres_at. by rewrite H.
Qed.

(** [l] is [l0] with some gateway routes given the source of their origin. *)
Definition sound (l0 l : list route_val) : Prop :=
  view <$> l = view <$> l0 /\
  forall i, l !! i = l0 !! i \/
    exists v0 v, l0 !! i = Some v0 /\ l !! i = Some v /\ unres v0 = true /\
      src_addr v <> 0 /\ origin l v0 (src_addr v).

Lemma unres_src v : unres v = true -> src_addr v = 0.
Proof using. unfold unres, ctrue. repeat case_bool_decide; done || tauto. Qed.

(** Giving an unresolved entry a source does not disturb an origin. *)
Lemma origin_insert l i v v' v0 s :
  l !! i = Some v -> unres v = true -> view v' = view v -> s <> 0 ->
  origin l v0 s -> origin (<[i := v']> l) v0 s.
Proof using.
  intros Hi Hu Hv Hs [(j & Hj & E)|H]; [left|by right]. exists j.
  split; [by erewrite find_route_val_view by (by eapply view_insert)|].
  unfold src_at in *. destruct (decide (i = j)) as [->|]; [|by rewrite list_lookup_insert_ne].
  rewrite Hi in E. apply unres_src in Hu. congruence.
Qed.

Lemma sound_insert l0 l i v v' :
  sound l0 l -> l !! i = Some v -> unres v = true -> view v' = view v -> src_addr v' <> 0 ->
  origin l v (src_addr v') -> sound l0 (<[i := v']> l).
Proof using.
  intros [Hw Hs] Hi Hu Hv Hn Ho. split; [by rewrite (view_insert _ _ v)|].
  intros k. destruct (decide (k = i)) as [->|Hk].
  - rewrite list_lookup_insert_eq by (by eapply lookup_lt_Some). right. exists v, v'.
    destruct (Hs i) as [E|(w0 & w & _ & Hw2 & _ & Hne & _)].
    + rewrite <- E. split_and!; try done. by eapply origin_insert.
    + apply unres_src in Hu. congruence.
  - rewrite list_lookup_insert_ne by done.
    destruct (Hs k) as [E|(w0 & w & ? & ? & ? & ? & ?)]; [by left|]. right. exists w0, w.
    split_and!; try done. by eapply origin_insert.
Qed.

(** One pass: it counts the entries it leaves unresolved; if their number has
    not gone down, nothing was changed and all of them are stuck. *)
Lemma resolve_pass_spec l0 idx l :
  NoDup idx -> sound l0 l ->
  exists n l', resolve_pass idx l = (n, l') /\ sound l0 l' /\
    (forall j, j ∉ idx -> l' !! j = l !! j) /\ n = cnt l' idx /\ n <= cnt l idx /\
    (n = cnt l idx -> l' = l /\ forall i v, i ∈ idx -> l !! i = Some v -> unres v = true -> stuck l v).
Proof using.
  revert l. induction idx as [|i idx IH]; intros l Hn Hs.
  { exists 0, l. split_and!; try done. split; [done|]. set_solver. }
  apply list.NoDup_cons in Hn as [Hi Hn]. cbn [Route.resolve_pass].
  assert (exists u l1, resolve_one i l = (u, l1) /\ sound l0 l1 /\
    (forall j, j <> i -> l1 !! j = l !! j) /\ (u = true <-> unres_at l1 i) /\
    (u = true -> l1 = l /\ forall v, l !! i = Some v -> stuck l v) /\
    (~ unres_at l i -> l1 = l)) as (u & l1 & -> & Hs1 & Hne & Hu & Hu1 & Hl1).
  { destruct (resolve_one_spec i l) as [[-> (v & Hv & Huv & Hst)]|[[-> Hun]|(v & v' & Hv & Huv & -> & Hw & Hsrc & Ho)]].
    - exists true, l. unfold unres_at. rewrite Hv. split_and!; try done. intros _. split; [done|].
      intros ? [= <-]. done.
    - exists false, l. by split_and!.
    - exists false, (<[i := v']> l). unfold unres_at. rewrite Hv.
      split_and!; try done; [by eapply sound_insert|intros j ?; by rewrite list_lookup_insert_ne|].
      rewrite list_lookup_insert_eq by (by eapply lookup_lt_Some). split; [done|].
      intros ?%unres_src. done. }
  destruct (IH l1 Hn Hs1) as (n & l' & -> & Hs' & Hj & En & Hle & Heq).
  exists (n + (if u then 1 else 0)), l'. rewrite !cnt_cons.
  assert (cnt l1 idx = cnt l idx) as Ec by (apply cnt_ext; intros j ?; apply Hne; set_solver).
  assert ((if decide (unres_at l' i) then 1 else 0) = (if u then 1 else 0)) as ->.
  { assert (unres_at l' i <-> unres_at l1 i) as E by (unfold unres_at; by rewrite Hj).
    destruct u; case_decide; done || (exfalso; naive_solver). }
  assert ((if u then 1 else 0) <= (if decide (unres_at l i) then 1 else 0)) as Hule.
  { destruct u; [|case_decide; lia]. destruct (Hu1 eq_refl) as [-> _]. case_decide; tauto || lia. }
  split_and!; try done; try lia.
  - intros j [? ?]%not_elem_of_cons. rewrite Hj, Hne; done.
  - intros E. assert (n = cnt l1 idx) as E1 by lia. destruct (Heq E1) as [-> Hst].
    assert (l1 = l) as ->. { destruct u; [by apply Hu1|]. apply Hl1. case_decide; lia || done. }
    split; [done|]. intros k v [->|Hk]%elem_of_cons Hkv Huv; [|by eapply Hst].
    destruct u; [by apply Hu1|]. exfalso.
    assert (unres_at l i) by (unfold unres_at; by rewrite Hkv). case_decide; [lia|done].
Qed.

(** The loop ends within as many passes as there are entries. *)
Lemma resolve_loop_spec fuel prev l0 l :
  sound l0 l -> cnt l (seq 0 (length l)) <= prev -> prev < Z.of_nat fuel ->
  exists l', resolve_loop fuel prev l = Some l' /\ sound l0 l' /\
    (forall i v, l' !! i = Some v -> unres v = true -> stuck l' v).
Proof using.
  revert prev l. induction fuel as [|fuel IH]; intros prev l Hs Hc Hf.
  { unfold cnt in Hc. lia. }
  simpl. destruct (resolve_pass_spec l0 (seq 0 (length l)) l) as
    (n & l' & -> & Hs' & Hj & En & Hle & Heq); [apply NoDup_seq|done|].
  assert (length l' = length l) as El.
  { destruct Hs as [E _], Hs' as [E' _]. apply (f_equal length) in E, E'.
    rewrite !length_fmap in *. congruence. }
  case_decide as Hd.
  - apply IH; [done|rewrite El; lia|lia].
  - exists l'. split; [done|]. split; [done|]. intros i v Hi Hu.
    assert (i ∈ seq 0 (length l)) as Hin.
    { apply elem_of_seq. apply lookup_lt_Some in Hi. lia. }
    assert (n = cnt l (seq 0 (length l))) as E.
    { destruct (decide (n = 0)) as [->|]; [|lia]. exfalso. unfold cnt in En.
      assert (i ∈ filter (unres_at l') (seq 0 (length l))) as Hx.
      { apply list_elem_of_filter. unfold unres_at. by rewrite Hi. }
      destruct (filter _ _); [by apply elem_of_nil in Hx|simpl in En; lia]. }
    destruct (Heq E) as [-> Hst]. by eapply Hst.
Qed.

Lemma sound_refl l : sound l l.
Proof using. split; [done|]. by left. Qed.

Lemma cnt_seq_le l n : cnt l (seq 0 n) <= Z.of_nat n.
Proof using.
  unfold cnt. pose proof (length_filter (unres_at l) (seq 0 n)). rewrite length_seq in *. lia.
Qed.
End source_ip.

(** Resolving source addresses terminates and reaches a fixpoint.  Within
    one pass per route the loop over the gateway routes ends; every source it
    assigned is the source of the route its gateway takes in the same table, or
    the address of the interface that owns the gateway's address; nothing that a
    lookup depends on was changed; and every gateway route it left without a
    source is stuck: its gateway has no route, or a route without a source. *)
Theorem rt_mgr_update_source_ip_correct get_ip_list get_ipv4 have_nd l :
  exists l1,
    rt_mgr_update_source_ip get_ip_list get_ipv4 have_nd l = Some (map (src_last get_ipv4) l1) /\
    sound get_ip_list (map (src_no_gw get_ip_list get_ipv4 have_nd) l) l1 /\
    (forall i v, l1 !! i = Some v -> unres v = true -> stuck l1 v).
Proof.
  unfold rt_mgr_update_source_ip. set (l0 := map _ l).
  destruct (resolve_loop_spec get_ip_list (S (length l0)) (Z.of_nat (length l0)) l0 l0)
    as (l1 & -> & Hs & Hst); [apply sound_refl|apply cnt_seq_le|lia|].
  by exists l1.
Qed.

Definition with_routes (t t' : table_t route_val) (nv : route_val) : Prop :=
  exists slot v, value t !! Z.to_nat (entries_num t) = Some slot /\
    entries t' = entries t ++ [v] /\
    view v = (dst_addr nv, dst_mask nv, dst_pref_len nv, table_id nv, b_deleted slot, b_if_up slot) /\
    src_addr v = src_addr nv /\ gw v = gw nv /\ is_valid v = true.

(** A route event appends the route while the table has room and is
    ignored when it is full; the table stays within its bound, and the routes
    already there are not touched. *)
Theorem new_route_event_correct max_mtu t nv :
  table_ok t ->
  exists t', new_route_event max_mtu (Some nv) t = Some t' /\ table_ok t' /\
    (entries_num t < MAX_TABLE_SIZE -> with_routes t t' nv) /\
    (entries_num t = MAX_TABLE_SIZE -> t' = t).
Proof.
  intros [Hl Hn]. unfold new_route_event. case_decide as Hd.
  { exists t. split_and!; try done; lia. }
  unfold MAX_TABLE_SIZE in *.
  destruct (lookup_lt_is_Some_2 (value t) (Z.to_nat (entries_num t))) as [slot Hs]; [lia|].
  rewrite Hs. simpl. eexists. split; [done|]. split; [|split; [|lia]].
  - split; simpl; [by rewrite length_insert|]. unfold MAX_TABLE_SIZE. wsimpl. lia.
  - intros _. exists slot. eexists. split; [done|]. split.
    + unfold entries. simpl. wsimpl.
      replace (Z.to_nat (entries_num t + 1)) with (S (Z.to_nat (entries_num t))) by lia.
      erewrite take_S_r by (apply list_lookup_insert_eq; lia).
      rewrite take_insert_ge by done. done.
    + unfold set_mtu. case_decide; done.
Qed.

Definition ex_nre_t := Tab (replicate (Z.to_nat 4096) route_val_ctor) 0.

Lemma new_route_event_correct_witness :
  exists t', new_route_event 1500 (Some route_16) ex_nre_t = Some t' /\ table_ok t' /\
    with_routes ex_nre_t t' route_16.
Proof.
  destruct (new_route_event_correct 1500 ex_nre_t route_16) as (t' & E & Hok & Hw & _).
  - unfold ex_nre_t, MAX_TABLE_SIZE. split; cbn [value entries_num]; [by rewrite length_replicate|].
    unfold MAX_TABLE_SIZE. lia.
  - exists t'. split_and!; [done|done|]. by apply Hw.
Defined.

End Route.
