(* ===== verification/Match.v ===== *)
(** * Configuration rules: src/src/vma/util/match.cpp, config_parser.y

    The configuration file says which sockets of a program use VMA and which the
    operating system.  It is a list of application ids (a pattern for the
    program's name and a user defined id), each with rules for the five roles a
    socket can have.  The first half models how the parser's actions build the
    lists, statement by statement (the grammar is compiled by bison, a statement
    is its syntax tree); the second how a socket's transport is decided, by its
    addresses (the functions [__vma_match_*]) and, when it is created, for the
    whole program ([__vma_match_by_program]).

    Socket addresses are read through both of their layouts, as the code casts
    them: family and port are at the same place in both.  [fnmatch] of the C
    library and the program's name are parameters.  [None] is behaviour the C
    standard does not define. *)

From stdpp Require Import strings.
From S2P Require Import Prelude NetlinkTable.

Local Open Scope Z_scope.

Module Match.

(** ** Data: libvma.h *)

Inductive role_t := ROLE_TCP_SERVER | ROLE_TCP_CLIENT | ROLE_UDP_RECEIVER | ROLE_UDP_SENDER | ROLE_UDP_CONNECT.

Inductive transport_t := TRANS_OS | TRANS_VMA | TRANS_SDP | TRANS_SA | TRANS_ULP | TRANS_DEFAULT.

Inductive in_protocol_t := PROTO_UNDEFINED | PROTO_UDP | PROTO_TCP | PROTO_ALL.

#[export] Instance role_eq_dec : EqDecision role_t.
Proof. solve_decision. Defined.
#[export] Instance transport_eq_dec : EqDecision transport_t.
Proof. solve_decision. Defined.
#[export] Instance protocol_eq_dec : EqDecision in_protocol_t.
Proof. solve_decision. Defined.

Record address_port_rule := AddressPortRule {
  match_by_addr : bool;
  ipv4 : Z;                            (* network byte order *)
  prefixlen : Z;
  match_by_port : bool;
  sport : Z;
  eport : Z
}.

Record use_family_rule := UseFamilyRule {
  first : address_port_rule;
  second : address_port_rule;
  use_second : bool;
  target_transport : transport_t;
  protocol : in_protocol_t
}.

(** The nodes of a list always carry their data. *)
Record instance := Instance_ {
  prog_name_expr : string;
  user_defined_id : string;
  tcp_clt_rules_lst : list use_family_rule;
  tcp_srv_rules_lst : list use_family_rule;
  udp_snd_rules_lst : list use_family_rule;
  udp_rcv_rules_lst : list use_family_rule;
  udp_con_rules_lst : list use_family_rule
}.

(** ** Building the configuration *)

(** Where [curr_instance] points: instances are only ever added at the end of
    the list, so that a position is a pointer; a list that has been replaced is
    not freed. *)
Inductive place := Nowhere | Listed (k : nat) | Unlisted.

Record parser := Parser {
  instance_list : list instance;
  vma_rule : use_family_rule;
  on_second : bool;                    (* where [__vma_address_port_rule] points *)
  rule_push_head : bool;
  current_role : role_t;
  curr_instance : place;
  parse_err : bool
}.

Definition set_err (s : parser) : parser :=
  Parser (instance_list s) (vma_rule s) (on_second s) (rule_push_head s) (current_role s) (curr_instance s) true.
Definition set_rule (r : use_family_rule) (s : parser) : parser :=
  Parser (instance_list s) r (on_second s) (rule_push_head s) (current_role s) (curr_instance s) (parse_err s).
Definition set_curr (l : list instance) (i : place) (s : parser) : parser :=
  Parser l (vma_rule s) (on_second s) (rule_push_head s) (current_role s) i (parse_err s).

(** A change of what [__vma_address_port_rule] points to. *)
Definition on_address (f : address_port_rule -> address_port_rule) (s : parser) : parser :=
  let r := vma_rule s in
  set_rule (if on_second s then UseFamilyRule (first r) (f (second r)) (use_second r) (target_transport r) (protocol r)
            else UseFamilyRule (f (first r)) (second r) (use_second r) (target_transport r) (protocol r)) s.

Definition __vma_config_empty (l : list instance) : bool := bool_decide (l = []).

(** The number of characters [sprintf] writes for [%d]. *)
Fixpoint dec_digits (fuel : nat) (n : Z) : Z :=
  match fuel with O => 1 | S fuel => if decide (n < 10) then 1 else 1 + dec_digits fuel (n / 10) end.
Definition printed (n : Z) : Z := if decide (n < 0) then 1 + dec_digits 10 (- n) else dec_digits 10 n.

(** A word whose bytes are in memory in this order. *)
Definition le_word (l : list Z) : Z := foldr (fun x n => x + Z.shiftl n 8) 0 l.

(** The four numbers are printed into 16 bytes and read back by [inet_pton],
    which takes what is between 0 and 255. *)
Definition __vma_set_ipv4_addr (a0 a1 a2 a3 : Z) (s : parser) : option parser :=
  let a := map s16 [a0; a1; a2; a3] in
  if decide (foldr Z.add 0 (map printed a) + 3 >= 16) then None
  else if forallb (fun x => bool_decide (0 <= x <= 255)) a then
    Some (on_address (fun r => AddressPortRule (match_by_addr r) (le_word a)
            (prefixlen r) (match_by_port r) (sport r) (eport r)) s)
  else Some (set_err s).

(** Called with an [int], declared with an [unsigned char]. *)
Definition __vma_set_inet_addr_prefix_len (n : Z) (s : parser) : parser :=
  let n := u8 n in
  let n := if decide (n > 32) then 32 else n in
  on_address (fun r => AddressPortRule (match_by_addr r) (ipv4 r) n (match_by_port r) (sport r) (eport r)) s.

Definition set_by_addr (b : bool) (s : parser) : parser :=
  on_address (fun r => AddressPortRule b (ipv4 r) (prefixlen r) (match_by_port r) (sport r) (eport r)) s.

(** The ports are stored in an [unsigned short]. *)
Definition set_ports (b : bool) (lo hi : Z) (s : parser) : parser :=
  on_address (fun r => AddressPortRule (match_by_addr r) (ipv4 r) (prefixlen r) b (u16 lo) (u16 hi)) s.

(** [ok]: the three allocations succeed. *)
Definition __vma_add_instance (ok : bool) (prog id : string) (s : parser) : parser :=
  match list_find (fun i => prog_name_expr i = prog /\ user_defined_id i = id) (instance_list s) with
  | Some (k, _) => set_curr (instance_list s) (Listed k) s
  | None =>
    if ok then
      set_curr (instance_list s ++ [Instance_ prog id [] [] [] [] []]) (Listed (length (instance_list s))) s
    else set_err s
  end.

(** [p_lst] *)
Definition rules_of (r : role_t) (i : instance) : list use_family_rule :=
  match r with
  | ROLE_TCP_SERVER => tcp_srv_rules_lst i
  | ROLE_TCP_CLIENT => tcp_clt_rules_lst i
  | ROLE_UDP_SENDER => udp_snd_rules_lst i
  | ROLE_UDP_RECEIVER => udp_rcv_rules_lst i
  | ROLE_UDP_CONNECT => udp_con_rules_lst i
  end.

Definition on_rules (r : role_t) (f : list use_family_rule -> list use_family_rule) (i : instance) : instance :=
  let '(Instance_ p u tc ts us ur uc) := i in
  match r with
  | ROLE_TCP_SERVER => Instance_ p u tc (f ts) us ur uc
  | ROLE_TCP_CLIENT => Instance_ p u (f tc) ts us ur uc
  | ROLE_UDP_SENDER => Instance_ p u tc ts (f us) ur uc
  | ROLE_UDP_RECEIVER => Instance_ p u tc ts us (f ur) uc
  | ROLE_UDP_CONNECT => Instance_ p u tc ts us ur (f uc)
  end.

(** [ok]: the allocations of a node and a rule succeed; [ok'] those of the
    instance for rules before the first application id. *)
Definition __vma_add_rule (ok ok' : bool) (s : parser) : parser :=
  let s := match curr_instance s with Nowhere => __vma_add_instance ok' "*" "*" s | _ => s end in
  match curr_instance s with
  | Nowhere => s
  | Unlisted => if ok then s else set_err s
  | Listed k =>
    if ok then
      set_curr (alter (on_rules (current_role s)
        (fun l => if rule_push_head s then vma_rule s :: l else l ++ [vma_rule s])) k (instance_list s)) (Listed k) s
    else set_err s
  end.

(** *** Statements *)

Inductive address := Any_addr | Addr (a0 a1 a2 a3 : Z) (len : option Z).
Inductive ports := Any_port | Port (n : Z) | Ports (lo hi : Z).

Inductive statement :=
  | App_id (prog id : string)
  | Use (t : transport_t) (r : role_t) (a : address) (p : ports) (snd : option (address * ports)).

Definition role_protocol (r : role_t) : in_protocol_t :=
  match r with ROLE_TCP_SERVER | ROLE_TCP_CLIENT => PROTO_TCP | _ => PROTO_UDP end.

Definition parse_address (a : address) (s : parser) : option parser :=
  match a with
  | Any_addr => Some (__vma_set_inet_addr_prefix_len 32 (set_by_addr false s))
  | Addr a0 a1 a2 a3 len =>
    s ← __vma_set_ipv4_addr a0 a1 a2 a3 s;
    Some (__vma_set_inet_addr_prefix_len (default 32 len) (set_by_addr true s))
  end.

Definition parse_ports (p : ports) (s : parser) : parser :=
  match p with
  | Any_port => set_ports false 0 0 s
  | Port n => set_ports true n n s
  | Ports lo hi => set_ports true lo hi s
  end.

(** [transport] and [role] *)
Definition parse_head (t : transport_t) (r : role_t) (s : parser) : parser :=
  let u := vma_rule s in
  Parser (instance_list s) (UseFamilyRule (first u) (second u) (use_second u) t (role_protocol r)) (on_second s)
    (rule_push_head s) r (curr_instance s) (parse_err s).

(** The actions before the addresses: which half of the rule is filled. *)
Definition point (sec : bool) (s : parser) : parser :=
  let u := vma_rule s in
  Parser (instance_list s) (UseFamilyRule (first u) (second u) sec (target_transport u) (protocol u)) sec
    (rule_push_head s) (current_role s) (curr_instance s) (parse_err s).

Definition parse_tuple (sec : bool) (a : address) (p : ports) (s : parser) : option parser :=
  s ← parse_address a (point sec s); Some (parse_ports p s).

Definition statement_action (ok ok' : bool) (st : statement) (s : parser) : option parser :=
  match st with
  | App_id p i => Some (__vma_add_instance ok p i s)
  | Use t r a p snd =>
    s ← parse_tuple false a p (parse_head t r s);
    s ← match snd with None => Some s | Some (a, p) => parse_tuple true a p s end;
    Some (__vma_add_rule ok ok' s)
  end.

Fixpoint statements (l : list statement) (s : parser) : option parser :=
  match l with [] => Some s | st :: l => s ← statement_action true true st s; statements l s end.

(** The parser's variables before the first file. *)
Definition no_address : address_port_rule := AddressPortRule false 0 0 false 0 0.
Definition parser_init : parser :=
  Parser [] (UseFamilyRule no_address no_address false TRANS_DEFAULT PROTO_UNDEFINED) false false ROLE_TCP_SERVER Nowhere false.

Definition __vma_parse_config_file (l : list statement) (s : parser) : option parser :=
  statements l (Parser [] (vma_rule s) (on_second s) (rule_push_head s) (current_role s)
    (match curr_instance s with Nowhere => Nowhere | _ => Unlisted end) false).

Definition __vma_parse_config_line (l : list statement) (s : parser) : option parser :=
  statements l (Parser (instance_list s) (vma_rule s) (on_second s) true (current_role s) (curr_instance s) false).

(** ** Socket addresses *)

Definition AF_INET6 : Z := 10.
Definition EINVAL : Z := 22.
Definition EAFNOSUPPORT : Z := 97.
Definition INADDR_LOOPBACK : Z := 0x7f000001.
Definition IPV6_ADDR_IN_MIN_LEN : Z := 24.
Definition sizeof_sockaddr_in : Z := 16.

(** The memory behind a [struct sockaddr *]: the family, the port (network byte
    order), [sin_addr] at its offset, and the bytes of [sin6_addr] at theirs. *)
Record sockaddr := Sockaddr { sa_family : Z; sa_port : Z; sa_addr : Z; sa_addr6 : list Z }.

Record sockaddr_in := SockaddrIn { sin_family : Z; sin_port : Z; sin_addr : Z }.

Definition is_ipv4_embedded_in_ipv6 (a : list Z) : bool :=
  bool_decide (take 10 a = replicate 10 0)
  && (bool_decide (take 2 (drop 10 a) = [0; 0]) || bool_decide (take 2 (drop 10 a) = [0xff; 0xff])).

(** [inl] is the return value -1 with [errno]; [inr] is 0 with [*addr_out] and
    [*was_ipv6] if it is set.  An address of family 0 is copied with the length
    the caller gives: more than the structure holds overwrites what is behind
    it, less than its address leaves that uninitialised. *)
Definition __vma_sockaddr_to_vma (addr_in : option sockaddr) (addrlen : Z) : option (Z + sockaddr_in * option bool) :=
  match addr_in with
  | None => Some (inl EINVAL)
  | Some a =>
    if decide (sa_family a = AF_INET) then
      Some (if decide (addrlen < sizeof_sockaddr_in) then inl EINVAL
            else inr (SockaddrIn (sa_family a) (sa_port a) (sa_addr a), Some false))
    else if decide (sa_family a = AF_INET6) then
      Some (if decide (addrlen < IPV6_ADDR_IN_MIN_LEN) then inl EINVAL
            else if is_ipv4_embedded_in_ipv6 (sa_addr6 a) then
              let x := le_word (take 4 (drop 12 (sa_addr6 a))) in
              let x := if decide (x = ntohl 1) then htonl INADDR_LOOPBACK else x in
              inr (SockaddrIn AF_INET (sa_port a) x, Some true)
            else inl EINVAL)
    else if decide (sa_family a = 0) then
      if decide (8 <= addrlen <= sizeof_sockaddr_in) then
        Some (inr (SockaddrIn (sa_family a) (sa_port a) (sa_addr a), None))
      else None
    else Some (inl EAFNOSUPPORT)
  end.

(** ** Matching a rule *)

(** 0 if the addresses match. *)
Definition match_ipv4_addr (r : address_port_rule) (sin : sockaddr_in) : option bool :=
  if decide (prefixlen r <= 32) then
    let m := htonl (VMA_NETMASK (prefixlen r)) in
    Some (negb (bool_decide (Z.land (ipv4 r) m = Z.land (sin_addr sin) m)))
  else None.

Definition port_of (a : sockaddr) : Z := ntohs (sa_port a).

(** One half of a rule against one address; the code has it twice. *)
Definition match_half (r : address_port_rule) (a : sockaddr) (len : Z) : option bool :=
  if match_by_port r && (bool_decide (port_of a < sport r) || bool_decide (port_of a > eport r)) then Some false
  else if match_by_addr r then
    c ← __vma_sockaddr_to_vma (Some a) len;
    match c with
    | inl _ => Some false
    | inr (sin, _) => d ← match_ipv4_addr r sin; Some (negb d)
    end
  else Some true.

(** The second address is [NULL] where a role has one address only. *)
Definition match_ip_addr_and_port (my_transport : transport_t) (rule : use_family_rule)
    (fst : sockaddr * Z) (snd : option (sockaddr * Z)) : option bool :=
  m ← match_half (first rule) fst.1 fst.2;
  m ← match snd with
      | Some s => if m && use_second rule then match_half (second rule) s.1 s.2 else Some m
      | None => Some m
      end;
  Some (m && (bool_decide (target_transport rule = TRANS_OS) || bool_decide (target_transport rule = TRANS_ULP)
              || bool_decide (target_transport rule = my_transport))).

Section match_rules.
Context (fnmatch : string -> string -> bool) (program_invocation_short_name : string).

Definition __vma_match_program_name (i : instance) : bool := fnmatch (prog_name_expr i) program_invocation_short_name.

Definition __vma_match_user_defined_id (i : instance) (app_id : string) : bool :=
  bool_decide (app_id = "*") || bool_decide (user_defined_id i = "*") || bool_decide (app_id = user_defined_id i).

Fixpoint get_family_by_first_matching_rule (my : transport_t) (l : list use_family_rule)
    (fst : sockaddr * Z) (snd : option (sockaddr * Z)) : option transport_t :=
  match l with
  | [] => Some TRANS_VMA
  | r :: l =>
    m ← match_ip_addr_and_port my r fst snd;
    if (m : bool) then Some (target_transport r) else get_family_by_first_matching_rule my l fst snd
  end.

Definition our_instance (app_id : string) (i : instance) : bool :=
  __vma_match_program_name i && __vma_match_user_defined_id i app_id.

(** Only [connect] has a second address. *)
Definition second_of (r : role_t) (snd : option (sockaddr * Z)) : option (sockaddr * Z) :=
  match r with ROLE_TCP_CLIENT | ROLE_UDP_CONNECT => snd | _ => None end.

(** The loop while [target_family] is the default. *)
Fixpoint instance_loop (my : transport_t) (role : role_t) (app_id : string)
    (fst : sockaddr * Z) (snd : option (sockaddr * Z)) (l : list instance) : option transport_t :=
  match l with
  | [] => Some TRANS_VMA
  | i :: l =>
    t ← (if our_instance app_id i
         then get_family_by_first_matching_rule my (rules_of role i) fst (second_of role snd)
         else Some TRANS_DEFAULT);
    if decide (t = TRANS_DEFAULT) then instance_loop my role app_id fst snd l else Some t
  end.

Definition get_family_by_instance_first_matching_rule (l : list instance) (my : transport_t) (role : role_t)
    (app_id : string) (fst : sockaddr * Z) (snd : option (sockaddr * Z)) : option transport_t :=
  if __vma_config_empty l then Some TRANS_VMA else instance_loop my role app_id fst snd l.

Definition __vma_match_tcp_server (l : list instance) (my : transport_t) (app_id : string) (a : sockaddr * Z) :=
  get_family_by_instance_first_matching_rule l my ROLE_TCP_SERVER app_id a None.
Definition __vma_match_tcp_client (l : list instance) (my : transport_t) (app_id : string) (a b : sockaddr * Z) :=
  get_family_by_instance_first_matching_rule l my ROLE_TCP_CLIENT app_id a (Some b).
Definition __vma_match_udp_sender (l : list instance) (my : transport_t) (app_id : string) (a : sockaddr * Z) :=
  get_family_by_instance_first_matching_rule l my ROLE_UDP_SENDER app_id a None.
Definition __vma_match_udp_receiver (l : list instance) (my : transport_t) (app_id : string) (a : sockaddr * Z) :=
  get_family_by_instance_first_matching_rule l my ROLE_UDP_RECEIVER app_id a None.
Definition __vma_match_udp_connect (l : list instance) (my : transport_t) (app_id : string) (a b : sockaddr * Z) :=
  get_family_by_instance_first_matching_rule l my ROLE_UDP_CONNECT app_id a (Some b).

(** ** Matching a program *)

Definition by_half (r : address_port_rule) : bool := match_by_addr r || match_by_port r.
Definition not_global (r : use_family_rule) : bool := by_half (first r) || (use_second r && by_half (second r)).
Definition to_vma (t : transport_t) : bool := bool_decide (t = TRANS_VMA) || bool_decide (t = TRANS_ULP).

(** [any_sdp] stays 0. *)
Fixpoint all_rules_loop (my : in_protocol_t) (l : list use_family_rule) (any_vma any_os : Z) : transport_t :=
  match l with
  | [] => TRANS_DEFAULT
  | r :: l =>
    let t := target_transport r in
    if (bool_decide (protocol r = my) || bool_decide (my = PROTO_ALL)) && not_global r then
      if to_vma t then all_rules_loop my l (any_vma + 1) any_os
      else if decide (t = TRANS_OS) then all_rules_loop my l any_vma (any_os + 1)
      else all_rules_loop my l any_vma any_os
    else if bool_decide (protocol r = my) && negb (not_global r) then
      if to_vma t && bool_decide (any_os = 0) then TRANS_VMA
      else if decide (t = TRANS_OS /\ any_vma = 0) then TRANS_OS
      else all_rules_loop my l any_vma any_os
    else all_rules_loop my l any_vma any_os
  end.

Definition match_by_all_rules_program (my : in_protocol_t) (l : list use_family_rule) : transport_t :=
  let t := all_rules_loop my l 0 0 in if decide (t = TRANS_DEFAULT) then TRANS_VMA else t.

(** The lists that are asked for a protocol. *)
Definition program_lists (my : in_protocol_t) (i : instance) : option (list use_family_rule * list use_family_rule) :=
  match my with
  | PROTO_TCP => Some (tcp_srv_rules_lst i, tcp_clt_rules_lst i)
  | PROTO_UDP => Some (udp_rcv_rules_lst i, udp_snd_rules_lst i)
  | _ => None
  end.

(** Only if both agree. *)
Fixpoint program_loop (my : in_protocol_t) (app_id : string) (l : list instance) (server client : transport_t) : transport_t :=
  match l with
  | [] => TRANS_DEFAULT
  | i :: l =>
    if our_instance app_id i then
      let '(server, client) := match program_lists my i with
        | Some (s, c) => (match_by_all_rules_program my s, match_by_all_rules_program my c)
        | None => (server, client)
        end in
      let t := if decide (server = client) then server else TRANS_DEFAULT in
      if decide (t = TRANS_DEFAULT) then program_loop my app_id l server client else t
    else program_loop my app_id l server client
  end.

Definition __vma_match_by_program (l : list instance) (my : in_protocol_t) (app_id : string) : transport_t :=
  if __vma_config_empty l then TRANS_VMA else program_loop my app_id l TRANS_DEFAULT TRANS_DEFAULT.
End match_rules.

(** ** What a configuration file says

    The meaning of the statements, without the parser's variables: each [use]
    belongs to the application id before it, or to ["*" "*"]. *)

Definition half_rule (a : address) (p : ports) : address_port_rule :=
  let '(ba, ip, len) := match a with
    | Any_addr => (false, 0, 32)
    | Addr a0 a1 a2 a3 len => (true, le_word [a0; a1; a2; a3], default 32 len)
    end in
  let '(bp, lo, hi) := match p with Any_port => (false, 0, 0) | Port n => (true, n, n) | Ports lo hi => (true, lo, hi) end in
  AddressPortRule ba ip len bp lo hi.

Definition denotes (t : transport_t) (r : role_t) (a : address) (p : ports) (snd : option (address * ports)) : use_family_rule :=
  UseFamilyRule (half_rule a p) (match snd with Some (a, p) => half_rule a p | None => no_address end)
    (bool_decide (is_Some snd)) t (role_protocol r).

Abbreviation app_name := (string * string)%type.

Definition scope (cur : option app_name) : app_name := default ("*", "*") cur.

(** The rules of application [n] for role [r]. *)
Fixpoint rules_in (n : app_name) (r : role_t) (cur : option app_name) (l : list statement) : list use_family_rule :=
  match l with
  | [] => []
  | App_id p i :: l => rules_in n r (Some (p, i)) l
  | Use t r' a p snd :: l =>
    (if decide (scope cur = n /\ r' = r) then [denotes t r' a p snd] else []) ++ rules_in n r (Some (scope cur)) l
  end.

Definition mention (n : app_name) (ns : list app_name) : list app_name :=
  if decide (n ∈ ns) then ns else ns ++ [n].

(** The applications in the order in which they are mentioned first. *)
Fixpoint mentions (cur : option app_name) (l : list statement) (ns : list app_name) : list app_name :=
  match l with
  | [] => ns
  | App_id p i :: l => mentions (Some (p, i)) l (mention (p, i) ns)
  | Use _ _ _ _ _ :: l => mentions (Some (scope cur)) l (match cur with Some _ => ns | None => mention ("*", "*") ns end)
  end.

(** Numbers that fit their fields. *)
Definition legal_address (a : address) : Prop :=
  match a with
  | Any_addr => True
  | Addr a0 a1 a2 a3 len =>
    (0 <= a0 <= 255 /\ 0 <= a1 <= 255 /\ 0 <= a2 <= 255 /\ 0 <= a3 <= 255) /\ 0 <= default 32 len <= 32
  end.
Definition legal_ports (p : ports) : Prop :=
  match p with Any_port => True | Port n => 0 <= n < 2 ^ 16 | Ports lo hi => 0 <= lo < 2 ^ 16 /\ 0 <= hi < 2 ^ 16 end.
Definition legal (st : statement) : Prop :=
  match st with
  | App_id _ _ => True
  | Use _ _ a p snd => legal_address a /\ legal_ports p /\
      match snd with Some (a, p) => legal_address a /\ legal_ports p | None => True end
  end.

(** Rules that differ only in what is never looked at: the parser fills the
    same rule again and again, and an asterisk leaves the old address. *)
Definition half_equiv (r r' : address_port_rule) : Prop :=
  match_by_addr r = match_by_addr r' /\ match_by_port r = match_by_port r' /\
  (match_by_addr r = true -> ipv4 r = ipv4 r' /\ prefixlen r = prefixlen r') /\
  (match_by_port r = true -> sport r = sport r' /\ eport r = eport r').

#[export] Instance rule_equiv : Equiv use_family_rule := fun r r' =>
  half_equiv (first r) (first r') /\ use_second r = use_second r' /\
  (use_second r = true -> half_equiv (second r) (second r')) /\
  target_transport r = target_transport r' /\ protocol r = protocol r'.

Lemma half_equiv_equivalence : Equivalence half_equiv.
Proof.
  split; red; unfold half_equiv.
  - done.
  - intros r r' (E & F & H & K). rewrite <- E, <- F. naive_solver.
  - intros r r' r'' (E & F & H & K) (E' & F' & H' & K'). rewrite <- E in *. rewrite <- F in *.
    split; [done|]. split; [done|]. split; intros X.
    + destruct (H X) as [-> ->]. by apply H'.
    + destruct (K X) as [-> ->]. by apply K'.
Qed.
#[local] Existing Instance half_equiv_equivalence.

#[export] Instance rule_equivalence : Equivalence (≡@{use_family_rule}).
Proof.
  split; red; unfold equiv, rule_equiv.
  - done.
  - intros r r' (A & E & H & K & L). rewrite <- E, <- K, <- L. split; [by symmetry|]. split; [done|].
    split; [|done]. intros X. symmetry. by apply H.
  - intros r r' r'' (A & E & H & K & L) (A' & E' & H' & K' & L'). rewrite <- E in *.
    split; [by transitivity (first r')|]. split; [done|]. split; [|split; congruence].
    intros X. transitivity (second r'); auto.
Qed.

(** Everything that reads a rule respects this. *)
#[export] Instance match_half_proper : Proper (half_equiv ==> eq ==> eq ==> eq) match_half.
Proof.
  intros r r' (E & F & H & K) a _ <- len _ <-. unfold match_half. rewrite <- E, <- F.
  destruct (match_by_port r) eqn:Bp; [destruct (K eq_refl) as [-> ->]|]; simpl.
  all: destruct (match_by_addr r) eqn:Ba; [|done]; destruct (H eq_refl) as [Ei El].
  all: unfold match_ipv4_addr; rewrite Ei, El; done.
Qed.

#[export] Instance match_ip_proper my : Proper ((≡) ==> eq ==> eq ==> eq) (match_ip_addr_and_port my).
Proof.
  intros r r' (A & E & H & K & _) f _ <- s _ <-. unfold match_ip_addr_and_port. rewrite <- E, <- K, A.
  destruct (match_half _ _ _) as [m|]; [|done]. simpl. destruct s as [s|]; [|done].
  destruct m, (use_second r); simpl; [rewrite (H eq_refl)|..]; done.
Qed.

Lemma family_proper my l l' f s : l ≡ l' ->
  get_family_by_first_matching_rule my l f s = get_family_by_first_matching_rule my l' f s.
Proof.
  induction 1 as [|r r' l l' E _ IH]; [done|]. simpl. rewrite E. destruct (match_ip_addr_and_port _ _ _ _) as [[]|]; simpl; [|done|done].
  by destruct E as (_ & _ & _ & -> & _).
Qed.

(** *** The parser builds what the statements say *)

Definition name_of (i : instance) : app_name := (prog_name_expr i, user_defined_id i).

(** The parser after statements whose current application is [cur], that
    mention [ns] and give the rules [rs]. *)
Record built (cur : option app_name) (ns : list app_name) (rs : app_name -> role_t -> list use_family_rule)
    (s : parser) : Prop := Built {
  b_names : map name_of (instance_list s) = ns;
  b_nodup : NoDup ns;
  b_cur : match cur with Some n => exists k, curr_instance s = Listed k /\ ns !! k = Some n | None => curr_instance s = Nowhere end;
  b_tail : rule_push_head s = false;
  b_err : parse_err s = false;
  b_rules : forall i r, i ∈ instance_list s -> rules_of r i ≡ rs (name_of i) r;
  b_new : forall n r, n ∉ ns -> rs n r = []
}.

(** The variables beside the rule that is being filled. *)
Definition same_but_rule (s s' : parser) : Prop :=
  instance_list s' = instance_list s /\ rule_push_head s' = rule_push_head s /\ curr_instance s' = curr_instance s /\
  parse_err s' = parse_err s.

Lemma built_same cur ns rs s s' : same_but_rule s s' -> built cur ns rs s -> built cur ns rs s'.
Proof. intros (E1 & E2 & E3 & E4) []. split; rewrite ?E1, ?E2, ?E3, ?E4; done. Qed.

Lemma printed_byte x : 0 <= x <= 255 -> 1 <= printed x <= 3.
Proof.
  intros Hx. unfold printed. rewrite decide_False by lia. change (dec_digits 10 x) with
    (if decide (x < 10) then 1 else 1 + (if decide (x / 10 < 10) then 1 else 1 +
       (if decide (x / 10 / 10 < 10) then 1 else 1 + dec_digits 7 (x / 10 / 10 / 10)))).
  assert (x / 10 / 10 < 10) by (rewrite Z.div_div by lia; apply Z.div_lt_upper_bound; lia).
  repeat case_decide; lia.
Qed.

Lemma parse_address_spec a s : legal_address a -> exists ba ip len, 
  half_rule a Any_port = AddressPortRule ba ip len false 0 0 /\
  exists ip', (forall x, ba = true -> ip' x = ip) /\ parse_address a s =
    Some (on_address (fun r => AddressPortRule ba (ip' (ipv4 r)) len (match_by_port r) (sport r) (eport r)) s).
Proof.
  destruct a as [|a0 a1 a2 a3 len]; intros Hl.
  - eexists _, _, _. split; [reflexivity|]. exists id. split; [done|]. unfold parse_address, set_by_addr, __vma_set_inet_addr_prefix_len, on_address, set_rule, id.
    simpl. destruct (on_second s) eqn:E; simpl; rewrite ?E; done.
  - destruct Hl as [(H0 & H1 & H2 & H3) Hn]. eexists _, _, _. split; [reflexivity|]. exists (fun _ => le_word [a0; a1; a2; a3]). split; [done|].
    unfold parse_address, __vma_set_ipv4_addr. simpl map. rewrite !s16_small by lia.
    pose proof (printed_byte _ H0). pose proof (printed_byte _ H1). pose proof (printed_byte _ H2). pose proof (printed_byte _ H3).
    rewrite decide_False by (simpl; lia). simpl forallb. rewrite !bool_decide_true by lia. simpl.
    unfold __vma_set_inet_addr_prefix_len, set_by_addr, on_address, set_rule. rewrite wrap_small by lia.
    rewrite decide_False by lia. simpl. destruct (on_second s) eqn:E; simpl; rewrite ?E; done.
Qed.

Lemma half_rule_split a p : half_rule a p =
  let h := half_rule a Any_port in
  let q := half_rule Any_addr p in
  AddressPortRule (match_by_addr h) (ipv4 h) (prefixlen h) (match_by_port q) (sport q) (eport q).
Proof. by destruct a, p. Qed.

Lemma parse_ports_spec p s : legal_ports p -> exists bp lo hi,
  half_rule Any_addr p = AddressPortRule false 0 32 bp lo hi /\
  parse_ports p s = on_address (fun r => AddressPortRule (match_by_addr r) (ipv4 r) (prefixlen r) bp lo hi) s.
Proof.
  destruct p as [|n|lo hi]; intros Hl; simpl in Hl; eexists _, _, _; (split; [reflexivity|]);
    unfold parse_ports, set_ports; rewrite ?(wrap_small 16) by lia; done.
Qed.

(** One half of the rule is filled, the other is not touched. *)
Lemma parse_tuple_spec sec a p s : legal_address a -> legal_ports p -> exists s', parse_tuple sec a p s = Some s' /\
  same_but_rule s s' /\ current_role s' = current_role s /\
  let r := vma_rule s in let r' := vma_rule s' in
  half_equiv (if sec then second r' else first r') (half_rule a p) /\
  (if sec then first r' = first r else second r' = second r) /\
  use_second r' = sec /\ target_transport r' = target_transport r /\ protocol r' = protocol r.
Proof.
  intros Ha Hp. unfold parse_tuple.
  destruct (parse_address_spec a (point sec s) Ha) as (ba & ip & len & Eh & ip' & Hi & ->). simpl.
  destruct (parse_ports_spec p (on_address (fun r => AddressPortRule ba (ip' (ipv4 r)) len (match_by_port r) (sport r) (eport r))
    (point sec s)) Hp) as (bp & lo & hi & Eq & ->).
  eexists. split; [reflexivity|]. rewrite half_rule_split, Eh, Eq.
  destruct sec; simpl; (split; [done|]); (split; [done|]); (split; [|done]).
  all: unfold half_equiv; simpl; (split; [done|]); (split; [done|]); split; [|done]; intros E; by rewrite Hi.
Qed.

Lemma built_name cur ns rs s k i : built cur ns rs s -> instance_list s !! k = Some i -> ns !! k = Some (name_of i).
Proof. intros H E. rewrite <- (b_names _ _ _ _ H). change (map ?f ?l) with (f <$> l). by rewrite list_lookup_fmap, E. Qed.

Lemma add_instance_built cur ns rs s p i : built cur ns rs s ->
  built (Some (p, i)) (mention (p, i) ns) rs (__vma_add_instance true p i s).
Proof.
  intros H. unfold __vma_add_instance, mention. destruct (list_find _ _) as [[k x]|] eqn:E.
  - apply list_find_Some in E as (Ek & [<- <-] & _). pose proof (built_name _ _ _ _ _ _ H Ek) as En.
    rewrite decide_True by (by eapply list_elem_of_lookup_2).
    destruct H. split; try done. by exists k.
  - apply list_find_None in E. rewrite list.Forall_forall in E.
    assert (Hn : (p, i) ∉ ns).
    { intros Hn. rewrite <- (b_names _ _ _ _ H) in Hn. apply list_elem_of_fmap in Hn as (x & Ex & Hx).
      apply (E x Hx). by injection Ex as -> ->. }
    rewrite decide_False by done. destruct H as [H1 H2 H3 H4 H5 H6 H7]. split; simpl; try done.
    + by rewrite map_app, H1.
    + apply list.NoDup_app. split; [done|]. split; [|apply NoDup_singleton]. intros x Hx Hy. apply list_elem_of_singleton in Hy. by subst.
    + eexists. split; [done|]. rewrite lookup_app_r; rewrite <- H1, length_map; [by rewrite Nat.sub_diag|done].
    + intros x r [Hx|Hx]%elem_of_app; [by apply H6|]. apply list_elem_of_singleton in Hx as ->.
      rewrite H7 by done. by destruct r.
    + intros n r Hx. apply H7. intros Hy. apply Hx, elem_of_app. by left.
Qed.

Lemma name_on_rules r f i : name_of (on_rules r f i) = name_of i.
Proof. by destruct i, r. Qed.

Lemma rules_on_rules r r' f i : rules_of r' (on_rules r f i) = if decide (r = r') then f (rules_of r' i) else rules_of r' i.
Proof. by destruct i, r, r'. Qed.

Lemma add_rule_listed n ns rs s d : built (Some n) ns rs s -> vma_rule s ≡ d ->
  built (Some n) ns (fun m r => rs m r ++ (if decide (n = m /\ current_role s = r) then [d] else []))
    (__vma_add_rule true true s).
Proof.
  intros H Hd. destruct (b_cur _ _ _ _ H) as (k & Ek & En). unfold __vma_add_rule. rewrite Ek, Ek.
  rewrite (b_tail _ _ _ _ H). pose proof (fun j i => built_name _ _ _ _ j i H) as Hnm. destruct H as [H1 H2 H3 H4 H5 H6 H7].
  split; simpl; try done.
  - rewrite <- H1. apply list_eq. intros j. change (map ?f ?l) with (f <$> l). rewrite !list_lookup_fmap.
    destruct (decide (k = j)) as [<-|Hj].
    + rewrite list_lookup_alter_eq. destruct (instance_list s !! k); simpl; [by rewrite name_on_rules|done].
    + by rewrite list_lookup_alter_ne.
  - by exists k.
  - intros i r (j & Hj)%list_elem_of_lookup. destruct (decide (k = j)) as [<-|Hk].
    + rewrite list_lookup_alter_eq in Hj. destruct (instance_list s !! k) as [x|] eqn:Ex; [|done].
      injection Hj as <-. rewrite name_on_rules, rules_on_rules. rewrite (Hnm _ _ Ex) in En. injection En as <-.
      pose proof (H6 x r (list_elem_of_lookup_2 _ _ _ Ex)) as Hx.
      destruct (decide (current_role s = r)) as [->|Hr].
      * rewrite decide_True by done. f_equiv; [done|]. by constructor.
      * rewrite decide_False by naive_solver. by rewrite app_nil_r.
    + rewrite list_lookup_alter_ne in Hj by done. pose proof (Hnm _ _ Hj) as Ej.
      rewrite decide_False. { rewrite app_nil_r. apply H6. by eapply list_elem_of_lookup_2. }
      intros [-> _]. apply Hk. by eapply NoDup_lookup.
  - intros m r Hm. rewrite H7 by done. rewrite decide_False; [done|]. intros [-> _]. apply Hm. by eapply list_elem_of_lookup_2.
Qed.

Lemma add_instance_rule ok p i s :
  vma_rule (__vma_add_instance ok p i s) = vma_rule s /\ current_role (__vma_add_instance ok p i s) = current_role s.
Proof. unfold __vma_add_instance. destruct (list_find _ _) as [[? ?]|], ok; done. Qed.

Lemma add_rule_built cur ns rs s d : built cur ns rs s -> vma_rule s ≡ d ->
  built (Some (scope cur)) (match cur with Some _ => ns | None => mention ("*", "*") ns end)
    (fun m r => rs m r ++ (if decide (scope cur = m /\ current_role s = r) then [d] else [])) (__vma_add_rule true true s).
Proof.
  intros H Hd. destruct cur as [n|]; [by apply add_rule_listed|].
  pose proof (add_instance_built _ _ _ _ "*" "*" H) as H'. destruct (add_instance_rule true "*" "*" s) as [Ev Er].
  assert (__vma_add_rule true true s = __vma_add_rule true true (__vma_add_instance true "*" "*" s)) as ->.
  { destruct (b_cur _ _ _ _ H') as (k & Ek & _). unfold __vma_add_rule. rewrite (b_cur _ _ _ _ H), Ek. simpl.
    rewrite ?Ek. reflexivity. }
  rewrite <- Er. apply add_rule_listed; [done|]. by rewrite Ev.
Qed.

Lemma use_built t r a p snd cur ns rs s : legal (Use t r a p snd) -> built cur ns rs s ->
  exists s', statement_action true true (Use t r a p snd) s = Some s' /\
    built (Some (scope cur)) (match cur with Some _ => ns | None => mention ("*", "*") ns end)
      (fun m r' => rs m r' ++ (if decide (scope cur = m /\ r = r') then [denotes t r a p snd] else [])) s'.
Proof.
  intros (Ha & Hp & Hs) H. unfold statement_action. apply (built_same _ _ _ s (parse_head t r s)) in H; [|done].
  destruct (parse_tuple_spec false a p (parse_head t r s) Ha Hp) as (s1 & -> & S1 & R1 & E1 & _ & U1 & T1 & P1). simpl in *.
  destruct snd as [[a2 p2]|]; simpl.
  - destruct Hs as [Ha2 Hp2].
    destruct (parse_tuple_spec true a2 p2 s1 Ha2 Hp2) as (s2 & -> & S2 & R2 & E2 & F2 & U2 & T2 & P2). simpl in *.
    eexists. split; [reflexivity|]. pose proof (add_rule_built cur ns rs s2 (denotes t r a p (Some (a2, p2)))) as X.
    rewrite R2, R1 in X. apply X; [by apply (built_same _ _ _ _ _ S2), (built_same _ _ _ _ _ S1)|].
    split; [by rewrite F2|]. split; [done|]. split; [done|]. split; simpl; congruence.
  - eexists. split; [reflexivity|]. pose proof (add_rule_built cur ns rs s1 (denotes t r a p None)) as X.
    rewrite R1 in X. apply X; [by apply (built_same _ _ _ _ _ S1)|].
    split; [done|]. split; [done|]. split; [by rewrite U1|]. split; simpl; congruence.
Qed.

Lemma built_ext cur ns rs rs' s : (forall n r, rs n r = rs' n r) -> built cur ns rs s -> built cur ns rs' s.
Proof. intros E []. split; try done; intros; by rewrite <- E; auto. Qed.

Lemma statements_built l cur ns rs s : Forall legal l -> built cur ns rs s ->
  exists s' cur', statements l s = Some s' /\
    built cur' (mentions cur l ns) (fun n r => rs n r ++ rules_in n r cur l) s'.
Proof.
  intros Hl. revert cur ns rs s. induction Hl as [|st l Hst Hl IH]; intros cur ns rs s H.
  - exists s, cur. split; [done|]. eapply built_ext; [|done]. intros. by rewrite app_nil_r.
  - destruct st as [p i|t r a p snd].
    + apply (add_instance_built _ _ _ _ p i), IH in H as (s' & cur' & E & H). by exists s', cur'.
    + apply (use_built _ _ _ _ _ _ _ _ _ Hst) in H as (s1 & E1 & H). cbn [statements].
      rewrite E1. apply IH in H as (s' & cur' & E & H). exists s', cur'. split; [done|].
      eapply built_ext; [|done]. intros n r'. simpl. by rewrite app_assoc.
Qed.

Lemma built_init : built None [] (fun _ _ => []) parser_init.
Proof. split; try done; [constructor|]. intros i r Hi. by apply elem_of_nil in Hi. Qed.

(** ** The decision a configuration makes *)

Definition be_word (l : list Z) : Z := foldl (fun n x => n * 256 + x) 0 l.

(** The address, in host byte order, that a socket address stands for: IPv6
    addresses that embed an IPv4 address have one, and ::1 is 127.0.0.1. *)
Definition ip_of (a : sockaddr) (len : Z) : option Z :=
  if decide (sa_family a = AF_INET) then (if decide (len < 16) then None else Some (ntohl (sa_addr a)))
  else if decide (sa_family a = AF_INET6) then
    if decide (len >= 24 /\ take 10 (sa_addr6 a) = replicate 10 0 /\ take 2 (drop 10 (sa_addr6 a)) ∈ [[0; 0]; [255; 255]]) then
      let x := be_word (take 4 (drop 12 (sa_addr6 a))) in Some (if decide (x = 1) then 0x7f000001 else x)
    else None
  else if decide (sa_family a = 0) then Some (ntohl (sa_addr a))
  else None.

(** The ports of a half rule hold the port, and its prefix begins the address. *)
Definition half_covers (r : address_port_rule) (s : sockaddr * Z) : bool :=
  (negb (match_by_port r) || bool_decide (sport r <= port_of s.1 <= eport r)) &&
  (negb (match_by_addr r) ||
   match ip_of s.1 s.2 with
   | Some x => bool_decide (Z.shiftr x (32 - prefixlen r) = Z.shiftr (ntohl (ipv4 r)) (32 - prefixlen r))
   | None => false
   end).

Definition covers (my : transport_t) (fst : sockaddr * Z) (snd : option (sockaddr * Z)) (r : use_family_rule) : bool :=
  half_covers (first r) fst
  && match snd with Some s => negb (use_second r) || half_covers (second r) s | None => true end
  && bool_decide (target_transport r ∈ [TRANS_OS; TRANS_ULP; my]).

(** The transport of a socket: that of the first rule that covers it, among
    those of the first application that is ours. *)
Definition decision (our : app_name -> bool) (cfg : list statement) (my : transport_t) (role : role_t)
    (fst : sockaddr * Z) (snd : option (sockaddr * Z)) : transport_t :=
  match list_find (fun n => our n = true) (mentions None cfg []) with
  | None => TRANS_VMA
  | Some (_, n) =>
    match list_find (fun r => covers my fst (second_of role snd) r = true) (rules_in n role None cfg) with
    | Some (_, r) => target_transport r
    | None => TRANS_VMA
    end
  end.

(** An address whose conversion is defined. *)
Definition addr_ok (s : sockaddr * Z) : Prop :=
  (sa_family s.1 = 0 -> 8 <= s.2 <= sizeof_sockaddr_in) /\
  (sa_family s.1 = AF_INET6 -> length (sa_addr6 s.1) = 16%nat /\ Forall (fun x => 0 <= x <= 255) (sa_addr6 s.1)).

Definition half_ok (r : address_port_rule) : Prop := match_by_addr r = true -> 0 <= prefixlen r <= 32.
Definition rule_ok (r : use_family_rule) : Prop := half_ok (first r) /\ (use_second r = true -> half_ok (second r)).

Lemma mask_prefix n x y : 0 <= n <= 32 ->
  Z.land x (htonl (VMA_NETMASK n)) = Z.land y (htonl (VMA_NETMASK n)) <->
  Z.shiftr (ntohl y) (32 - n) = Z.shiftr (ntohl x) (32 - n).
Proof.
  intros Hn. assert (forall z, 0 <= Z.land z (htonl (VMA_NETMASK n)) < 2 ^ 32) as Hr.
  { intros z. apply u32_bits. intros i Hi. rewrite Z.land_spec, (proj1 (u32_bits (htonl (VMA_NETMASK n))) (ntohl_range _) i Hi). apply andb_false_r. }
  assert (forall z, ntohl (Z.land z (htonl (VMA_NETMASK n))) = Z.land (ntohl z) (VMA_NETMASK n)) as Hz.
  { intros z. rewrite ntohl_land, ntohl_invol; [done|apply VMA_NETMASK_range]. }
  rewrite <- prefix_eq by done. rewrite <- !Hz. split; [by intros ->|]. intros E. by apply ntohl_inj.
Qed.

Lemma ntohl_bytes a b c d : 0 <= a <= 255 -> 0 <= b <= 255 -> 0 <= c <= 255 -> 0 <= d <= 255 ->
  ntohl (le_word [a; b; c; d]) = be_word [a; b; c; d].
Proof.
  intros Ha Hb Hc Hd. unfold ntohl. set (x := le_word _).
  assert (x = a + 256 * (b + 256 * (c + 256 * d))) as Ex.
  { unfold x, le_word. simpl. rewrite !Z.shiftl_mul_pow2 by lia. lia. }
  change 255 with (Z.ones 8). rewrite !Z.land_ones by lia.
  rewrite !Z.shiftr_div_pow2 by lia. change (2 ^ 8) with 256. change (2 ^ 16) with 65536. change (2 ^ 24) with 16777216. clearbody x.
  assert (x mod 256 = a /\ x / 256 mod 256 = b /\ x / 65536 mod 256 = c /\ x / 16777216 mod 256 = d) as (-> & -> & -> & ->)
    by (split_and!; Z.div_mod_to_equations; lia).
  rewrite (lor_field c) by lia. rewrite (lor_field b) by lia. rewrite (lor_field a) by lia. unfold be_word. simpl. lia.
Qed.

(** The conversion finds the address. *)
Lemma sockaddr_to_vma_spec s : addr_ok s -> exists c, __vma_sockaddr_to_vma (Some s.1) s.2 = Some c /\
  ip_of s.1 s.2 = match c with inl _ => None | inr (sin, _) => Some (ntohl (sin_addr sin)) end.
Proof.
  intros [H0 H6]. unfold __vma_sockaddr_to_vma, ip_of.
  destruct (decide (_ = AF_INET)); [unfold sizeof_sockaddr_in; case_decide; eexists; by split|].
  destruct (decide (_ = AF_INET6)) as [E6|].
  2: { destruct (decide (_ = 0)) as [E|]; [rewrite decide_True by (by apply H0)|]; eexists; by split. }
  destruct (H6 E6) as [Hl Hb]. eexists. split; [reflexivity|].
  destruct (decide (s.2 < IPV6_ADDR_IN_MIN_LEN)) as [Hm|Hm].
  { rewrite decide_False; [done|]. unfold IPV6_ADDR_IN_MIN_LEN in Hm. lia. }
  unfold is_ipv4_embedded_in_ipv6. rewrite <- bool_decide_or, <- bool_decide_and.
  destruct (decide (_ /\ _ /\ _)) as [Hd|Hd]; [rewrite bool_decide_true by set_solver|rewrite bool_decide_false].
  2: { done. }
  2: { intros [? ?]. apply Hd. unfold IPV6_ADDR_IN_MIN_LEN in Hm. set_solver by lia. }
  assert (exists a b c d, drop 12 (sa_addr6 s.1) = [a; b; c; d]) as (a & b & c & d & Ed).
  { pose proof (length_drop (sa_addr6 s.1) 12) as Hk. rewrite Hl in Hk.
    destruct (drop 12 _) as [|a [|b [|c [|d [|]]]]]; try done. by exists a, b, c, d. }
  rewrite Ed. simpl take. assert (Forall (fun x => 0 <= x <= 255) [a; b; c; d]) as Hf by (rewrite <- Ed; by apply Forall_drop).
  repeat (apply list.Forall_cons in Hf as [? Hf]). cbn [sin_addr fst].
  assert (le_word [a; b; c; d] = ntohl 1 <-> be_word [a; b; c; d] = 1) as Hi.
  { rewrite <- ntohl_bytes by done. split; [by intros ->|]. intros E. apply ntohl_inj; [|done|done].
    unfold le_word. simpl. rewrite !Z.shiftl_mul_pow2 by lia. lia. }
  rewrite (decide_ext _ _ _ _ Hi). case_decide; [done|]. by rewrite ntohl_bytes.
Qed.

Lemma match_half_covers r s : half_ok r -> addr_ok s -> match_half r s.1 s.2 = Some (half_covers r s).
Proof.
  intros Hr Hs. unfold match_half, half_covers.
  assert (forall b : bool, (if match_by_port r && (bool_decide (port_of s.1 < sport r) || bool_decide (port_of s.1 > eport r))
    then Some false else Some b) =
    Some ((negb (match_by_port r) || bool_decide (sport r <= port_of s.1 <= eport r)) && b)) as Hp.
  { intros b. destruct (match_by_port r); [|done]. simpl. repeat case_bool_decide; simpl; lia || done. }
  destruct (match_by_addr r) eqn:Ba; [|apply Hp]. specialize (Hr Ba). simpl negb. cbn [orb].
  destruct (sockaddr_to_vma_spec s Hs) as (c & -> & ->).
  simpl. destruct c as [e|[sin w]]; [apply Hp|]. unfold match_ipv4_addr. rewrite decide_True by lia. simpl.
  rewrite negb_involutive, (bool_decide_ext _ _ (mask_prefix _ _ _ Hr)). apply Hp.
Qed.

Lemma match_covers my r fst snd : rule_ok r -> addr_ok fst -> (forall s, snd = Some s -> addr_ok s) ->
  match_ip_addr_and_port my r fst snd = Some (covers my fst snd r).
Proof.
  intros [H1 H2] Hf Hs. unfold match_ip_addr_and_port, covers. rewrite match_half_covers by done. simpl.
  assert (bool_decide (target_transport r ∈ [TRANS_OS; TRANS_ULP; my]) =
    bool_decide (target_transport r = TRANS_OS) || bool_decide (target_transport r = TRANS_ULP)
    || bool_decide (target_transport r = my)) as ->.
  { rewrite <- !bool_decide_or. apply bool_decide_ext. set_solver. }
  destruct snd as [s|]; simpl; [|by rewrite andb_true_r].
  destruct (half_covers (first r) fst); simpl; [|done]. destruct (use_second r) eqn:Eu; [|done].
  rewrite match_half_covers by auto. done.
Qed.

Lemma first_matching_rule my l fst snd : Forall rule_ok l -> addr_ok fst -> (forall s, snd = Some s -> addr_ok s) ->
  get_family_by_first_matching_rule my l fst snd =
  Some (match list_find (fun r => covers my fst snd r = true) l with Some (_, r) => target_transport r | None => TRANS_VMA end).
Proof.
  intros Hl Hf Hs. induction Hl as [|r l Hr Hl IH]; [done|]. simpl. rewrite match_covers by done. simpl.
  destruct (covers my fst snd r) eqn:E.
  - by rewrite decide_True.
  - rewrite decide_False by done. rewrite IH. by destruct (list_find _ _) as [[? ?]|].
Qed.

Lemma half_rule_ok a p : legal_address a -> half_ok (half_rule a p).
Proof. unfold half_ok. by destruct a, p; simpl; intros ? ?; naive_solver. Qed.

Lemma rules_in_ok n r cur l : Forall legal l -> Forall rule_ok (rules_in n r cur l).
Proof.
  intros Hl. revert cur. induction Hl as [|st l Hst Hl IH]; intros cur; [constructor|].
  destruct st as [p i|t r' a p snd]; simpl; [apply IH|]. apply list.Forall_app. split; [|apply IH].
  case_decide; [|constructor]. apply list.Forall_singleton. destruct Hst as (Ha & Hp & Hs). split.
  - by apply half_rule_ok.
  - simpl. destruct snd as [[a2 p2]|]; [|done]. intros _. apply half_rule_ok, Hs.
Qed.

Lemma list_find_map {A B} (f : A -> B) (P : B -> Prop) `{!forall x, Decision (P x)} (l : list A) :
  list_find P (map f l) = (fun '(k, x) => (k, f x)) <$> list_find (fun x => P (f x)) l.
Proof.
  induction l as [|x l IH]; [done|]. simpl. destruct (decide (P (f x))); [done|].
  rewrite IH. by destruct (list_find _ l) as [[? ?]|].
Qed.

Section decisions.
Context (fnmatch : string -> string -> bool) (name : string) (app_id : string).

(** The application ids that mean this program. *)
Definition ours (n : app_name) : bool := fnmatch n.1 name && (bool_decide (app_id = "*") || bool_decide (n.2 = "*") || bool_decide (app_id = n.2)).

Lemma our_name i : our_instance fnmatch name app_id i = ours (name_of i).
Proof. done. Qed.

Lemma instance_loop_spec my role fst snd l : my <> TRANS_DEFAULT ->
  instance_loop fnmatch name my role app_id fst snd l =
  match list_find (fun i => our_instance fnmatch name app_id i = true) l with
  | Some (_, i) => get_family_by_first_matching_rule my (rules_of role i) fst (second_of role snd)
  | None => Some TRANS_VMA
  end.
Proof.
  intros Hm. assert (forall l f s, get_family_by_first_matching_rule my l f s <> Some TRANS_DEFAULT) as Hd.
  { intros l' f s. induction l' as [|r l' IH]; [done|]. simpl. destruct (match_ip_addr_and_port _ _ _ _) as [b|] eqn:E; [|done].
    simpl. destruct b; [|done]. intros Et. unfold match_ip_addr_and_port in E.
    apply bind_Some in E as (? & _ & E). apply bind_Some in E as (b & _ & E). injection Et as Et. rewrite Et in E.
    rewrite !bool_decide_false in E by done. by rewrite andb_false_r in E. }
  induction l as [|i l IH]; [done|]. simpl. destruct (our_instance _ _ _ i) eqn:Ei.
  - rewrite (decide_True (P := true = true)) by done.
    specialize (Hd (rules_of role i) fst (second_of role snd)).
    destruct (get_family_by_first_matching_rule _ _ _ _) as [t|]; [|done]. simpl. rewrite decide_False; [done|]. by intros ->.
  - simpl. rewrite IH. by destruct (list_find _ l) as [[? ?]|].
Qed.

(** C18: The configuration file decides.  For every list of statements whose numbers
    fit their fields, the file is parsed without error, and afterwards the
    functions that look a socket up answer, for every role and every address,
    with the transport of the first rule that covers the addresses among the
    rules the file gives to the first application id that means this program,
    and with VMA if there is no such rule or no such id.  A rule covers the addresses
    if they match it and its transport is the system's, either, or the one the caller
    names; an address of family 0 is given with a length of 8 to 16 bytes, an IPv6
    address with its 16 bytes. *)
Theorem configuration_decides cfg my role fst snd : Forall legal cfg -> my <> TRANS_DEFAULT ->
  addr_ok fst -> (forall s, snd = Some s -> addr_ok s) ->
  exists p, __vma_parse_config_file cfg parser_init = Some p /\ parse_err p = false /\
    get_family_by_instance_first_matching_rule fnmatch name (instance_list p) my role app_id fst snd =
    Some (decision ours cfg my role fst snd).
Proof.
  intros Hl Hm Hf Hs. destruct (statements_built cfg _ _ _ _ Hl built_init) as (p & cur & Ep & H).
  exists p. split; [exact Ep|]. split; [apply (b_err _ _ _ _ H)|].
  unfold get_family_by_instance_first_matching_rule, decision, __vma_config_empty.
  rewrite <- (b_names _ _ _ _ H), list_find_map. case_bool_decide as He; [by rewrite He|].
  rewrite instance_loop_spec by done.
  destruct (list_find _ (instance_list p)) as [[k i]|] eqn:E; cbn [fmap option_fmap option_map]; [|done].
  apply list_find_Some in E as (Ei & _ & _).
  rewrite (family_proper _ _ _ _ _ (b_rules _ _ _ _ H i role (list_elem_of_lookup_2 _ _ _ Ei))).
  apply first_matching_rule; [by apply rules_in_ok|done|]. destruct role; simpl; done || by auto.
Qed.
End decisions.

(** ** The decision for the whole program

    A socket whose program uses the OS for everything is not offloaded at all. *)

(** No rule without addresses and ports asks for VMA. *)
Definition no_default_vma (l : list use_family_rule) : Prop :=
  Forall (fun r => not_global r = true \/ to_vma (target_transport r) = false) l.

Lemma global_covers fst snd r : not_global r = false -> target_transport r = TRANS_OS -> covers TRANS_VMA fst snd r = true.
Proof.
  unfold not_global, by_half, covers, half_covers. intros Hg ->.
  apply orb_false_elim in Hg as [[-> ->]%orb_false_elim Hs]. simpl.
  destruct snd as [s|]; [|done]. destruct (use_second r); [|done].
  by apply orb_false_elim in Hs as [-> ->].
Qed.

Lemma all_rules_os my l av ao fst snd : 0 <= av -> Forall (fun r => protocol r = my) l -> no_default_vma l ->
  all_rules_loop my l av ao = TRANS_OS -> av = 0 /\
  match list_find (fun r => covers TRANS_VMA fst snd r = true) l with Some (_, r) => target_transport r | None => TRANS_VMA end = TRANS_OS.
Proof.
  revert av ao. induction l as [|r l IH]; intros av ao Ha Hp Hn E; [done|].
  apply list.Forall_cons in Hp as [Hr Hp]. apply list.Forall_cons in Hn as [Hv Hn]. simpl in *.
  rewrite (bool_decide_true (protocol r = my)) in E by done. simpl in E.
  assert (forall av' ao', 0 <= av' -> all_rules_loop my l av' ao' = TRANS_OS ->
    (covers TRANS_VMA fst snd r = true -> target_transport r = TRANS_OS) ->
    av' = 0 /\ match (if decide (covers TRANS_VMA fst snd r = true) then Some (0%nat, r)
      else prod_map S id <$> list_find (fun r => covers TRANS_VMA fst snd r = true) l) with
    | Some (_, r) => target_transport r | None => TRANS_VMA end = TRANS_OS) as Hgo.
  { clear E. intros av' ao' Ha' E' Hc. destruct (IH _ _ Ha' Hp Hn E') as [Hz Hl]. split; [done|]. case_decide as Hd; [by apply Hc|].
    by destruct (list_find _ l) as [[? ?]|]. }
  destruct (not_global r) eqn:Eg; simpl in E.
  - destruct (to_vma (target_transport r)) eqn:Ev.
    { destruct (IH (av + 1) ao ltac:(lia) Hp Hn E). lia. }
    assert (covers TRANS_VMA fst snd r = true -> target_transport r = TRANS_OS) as Hc.
    { intros [_ Hc]%andb_true_iff. apply bool_decide_eq_true in Hc. unfold to_vma in Ev.
      apply orb_false_elim in Ev as [Ev1 Ev2]. apply bool_decide_eq_false in Ev1, Ev2. set_unfold in Hc. naive_solver. }
    destruct (decide (target_transport r = TRANS_OS)); eauto.
  - destruct Hv as [|Ev]; [done|]. rewrite Ev in E. simpl in E. destruct (decide (target_transport r = TRANS_OS /\ av = 0)) as [Hd|Hd].
    + destruct Hd as [Ht Hz]. split; [done|]. rewrite decide_True; [done|]. by apply global_covers.
    + apply (Hgo _ _ Ha E). intros [_ Hc]%andb_true_iff. apply bool_decide_eq_true in Hc. unfold to_vma in Ev.
      apply orb_false_elim in Ev as [Ev1 Ev2]. apply bool_decide_eq_false in Ev1, Ev2. set_unfold in Hc. naive_solver.
Qed.

Lemma all_rules_program_os my l fst snd : Forall (fun r => protocol r = my) l -> no_default_vma l -> Forall rule_ok l ->
  addr_ok fst -> (forall s, snd = Some s -> addr_ok s) -> match_by_all_rules_program my l = TRANS_OS ->
  get_family_by_first_matching_rule TRANS_VMA l fst snd = Some TRANS_OS.
Proof.
  intros Hp Hn Ho Hf Hs E. unfold match_by_all_rules_program in E. case_decide; [done|].
  rewrite first_matching_rule by done. f_equal. by apply (all_rules_os my l 0 0).
Qed.

(** The roles whose rules decide for a protocol. *)
Definition program_roles (my : in_protocol_t) : list role_t :=
  match my with
  | PROTO_TCP => [ROLE_TCP_SERVER; ROLE_TCP_CLIENT]
  | PROTO_UDP => [ROLE_UDP_RECEIVER; ROLE_UDP_SENDER]
  | _ => []
  end.

Section programs.
Context (fnmatch : string -> string -> bool) (name : string) (app_id : string).
Abbreviation our := (our_instance fnmatch name app_id).

Lemma program_loop_os my l s c i : (forall i', i' ∈ l -> our i' = true -> i' = i) ->
  program_roles my <> [] -> program_loop fnmatch name my app_id l s c = TRANS_OS ->
  forall role, role ∈ program_roles my -> match_by_all_rules_program my (rules_of role i) = TRANS_OS.
Proof.
  intros Hu Hr. revert s c. induction l as [|x l IH]; intros s c E; [done|]. simpl in E.
  specialize (IH (fun i' Hi' => Hu i' (list_elem_of_further i' x l Hi'))).
  destruct (our x) eqn:Ex; [|by apply (IH _ _ E)]. rewrite (Hu x) in E; [|by left|done].
  destruct my; try (by destruct Hr); simpl in E;
    (destruct (decide (match_by_all_rules_program _ _ = match_by_all_rules_program _ _)) as [Em|]; simpl in E;
     [case_decide; [by apply (IH _ _ E)|]|by apply (IH _ _ E)]).
  all: intros role Hrole; set_unfold in Hrole; destruct Hrole as [-> | [-> | []]]; simpl; congruence.
Qed.

(** The decision for a whole program is final.  When one application id means
    this program, its rules are what a file can hold, and none of them asks for
    VMA without naming an address or a port, then [__vma_match_by_program]
    answers OS only if every socket of the program that listens or connects with
    TCP (receives or sends with UDP) is to use the OS, whatever its addresses. *)
Theorem program_decision_is_final l my i role fst snd : i ∈ l -> our i = true -> (forall i', i' ∈ l -> our i' = true -> i' = i) ->
  role ∈ program_roles my ->
  Forall (fun r => protocol r = my) (rules_of role i) -> Forall rule_ok (rules_of role i) -> no_default_vma (rules_of role i) ->
  __vma_match_by_program fnmatch name l my app_id = TRANS_OS ->
  addr_ok fst -> (forall s, snd = Some s -> addr_ok s) ->
  get_family_by_instance_first_matching_rule fnmatch name l TRANS_VMA role app_id fst snd = Some TRANS_OS.
Proof.
  intros Hi Ho Hu Hrole Hp Hk Hn E Hf Hs. unfold __vma_match_by_program in E.
  unfold get_family_by_instance_first_matching_rule. destruct (__vma_config_empty l); [done|].
  rewrite instance_loop_spec by done.
  destruct (list_find _ l) as [[k x]|] eqn:El.
  2: { apply list_find_None in El. rewrite list.Forall_forall in El. by destruct (El i Hi). }
  apply list_find_Some in El as (Ex & Hx & _). rewrite (Hu x) by (done || by eapply list_elem_of_lookup_2).
  apply (all_rules_program_os my); try done.
  - destruct role; simpl; done || by auto.
  - eapply program_loop_os; [done| |exact E|done]. by intros Hz; rewrite Hz in Hrole; apply elem_of_nil in Hrole.
Qed.
End programs.

(** ** Where the decision for the program is not final *)

Definition ex_fnmatch (p n : string) : bool := bool_decide (p = "*") || bool_decide (p = n).

Definition ex_file (cfg : list statement) : list instance :=
  match __vma_parse_config_file cfg parser_init with Some p => instance_list p | None => [] end.

(** An IPv4 address 10.0.0.1 with a port. *)
Definition ex_addr (port : Z) : sockaddr * Z := (Sockaddr AF_INET (htons port) (htonl 0x0a000001) [], 16).

Definition any (t : transport_t) (r : role_t) : statement := Use t r Any_addr Any_port None.

Definition ex_hidden : list statement :=
  [Use TRANS_OS ROLE_TCP_SERVER Any_addr (Port 80) None; any TRANS_VMA ROLE_TCP_SERVER; any TRANS_OS ROLE_TCP_SERVER;
   any TRANS_OS ROLE_TCP_CLIENT].
Definition ex_two_ids : list statement :=
  [App_id "*" "web"; any TRANS_OS ROLE_TCP_SERVER; App_id "*" "*"; any TRANS_OS ROLE_TCP_SERVER; any TRANS_OS ROLE_TCP_CLIENT].
Definition ex_connect : list statement :=
  [any TRANS_OS ROLE_UDP_RECEIVER; any TRANS_OS ROLE_UDP_SENDER; any TRANS_VMA ROLE_UDP_CONNECT].

(** Sockets are kept from VMA although their rules say VMA.  For each of three
    files [__vma_match_by_program] answers OS, so that no socket of the program is
    offloaded, while the rules for a socket say VMA: a rule without addresses
    for VMA that follows an OS rule for one port is passed over; when the two
    roles of the first matching application id disagree the next id decides,
    which no socket uses; and the rules for connected UDP sockets are not asked. *)
Theorem program_decision_overrules_rules :
  (__vma_match_by_program ex_fnmatch "app" (ex_file ex_hidden) PROTO_TCP "web" = TRANS_OS /\
   __vma_match_tcp_server ex_fnmatch "app" (ex_file ex_hidden) TRANS_VMA "web" (ex_addr 81) = Some TRANS_VMA) /\
  (__vma_match_by_program ex_fnmatch "app" (ex_file ex_two_ids) PROTO_TCP "web" = TRANS_OS /\
   forall b, __vma_match_tcp_client ex_fnmatch "app" (ex_file ex_two_ids) TRANS_VMA "web" (ex_addr 81) b = Some TRANS_VMA) /\
  (__vma_match_by_program ex_fnmatch "app" (ex_file ex_connect) PROTO_UDP "web" = TRANS_OS /\
   forall b, __vma_match_udp_connect ex_fnmatch "app" (ex_file ex_connect) TRANS_VMA "web" (ex_addr 81) b = Some TRANS_VMA).
Proof. repeat split; try intros b; vm_compute; reflexivity. Qed.

(** Numbers in the file are cut to their fields.  A prefix length of 256 is
    stored as 0, so that the rule matches every address; and four numbers of
    four or five digits are printed past the end of the buffer that the address
    is read back from. *)
Theorem configuration_numbers_wrap s a0 a1 a2 a3 :
  (0 <= a0 <= 255 -> 0 <= a1 <= 255 -> 0 <= a2 <= 255 -> 0 <= a3 <= 255 ->
   exists s', parse_tuple false (Addr a0 a1 a2 a3 (Some 256)) Any_port s = Some s' /\
     parse_err s' = parse_err s /\ forall sin, match_ipv4_addr (first (vma_rule s')) sin = Some false) /\
  (1000 <= a0 <= 32767 -> 1000 <= a1 <= 32767 -> 1000 <= a2 <= 32767 -> 1000 <= a3 <= 32767 ->
   parse_tuple false (Addr a0 a1 a2 a3 None) Any_port s = None).
Proof.
  split; intros H0 H1 H2 H3; unfold parse_tuple, parse_address, __vma_set_ipv4_addr; simpl map; rewrite !s16_small by lia.
  - pose proof (printed_byte _ H0). pose proof (printed_byte _ H1). pose proof (printed_byte _ H2). pose proof (printed_byte _ H3).
    rewrite decide_False by (simpl; lia). simpl forallb. rewrite !bool_decide_true by lia.
    eexists. split; [reflexivity|]. split; [done|]. intros sin. unfold match_ipv4_addr. simpl. 
    change (VMA_NETMASK 0) with 0. change (htonl 0) with 0. by rewrite !Z.land_0_r.
  - assert (forall x, 1000 <= x <= 32767 -> 4 <= printed x) as Hp.
    { intros x Hx. unfold printed. rewrite decide_False by lia. change (dec_digits 10 x) with
        (if decide (x < 10) then 1 else 1 + (if decide (x / 10 < 10) then 1 else 1 +
           (if decide (x / 10 / 10 < 10) then 1 else 1 + dec_digits 7 (x / 10 / 10 / 10)))).
      rewrite (decide_False (P := x < 10)) by lia. rewrite decide_False by (Z.div_mod_to_equations; lia).
      rewrite decide_False by (Z.div_mod_to_equations; lia).
      assert (1 <= dec_digits 7 (x / 10 / 10 / 10)) as ?; [|lia]. simpl. repeat case_decide; lia. }
    pose proof (Hp _ H0). pose proof (Hp _ H1). pose proof (Hp _ H2). pose proof (Hp _ H3).
    rewrite decide_True by (simpl; lia). done.
Qed.

(** ** Witnesses *)

Definition ex_config : list statement :=
  [App_id "app" "web"; Use TRANS_OS ROLE_TCP_SERVER (Addr 10 0 0 0 (Some 8)) (Ports 80 90) None; any TRANS_OS ROLE_TCP_CLIENT].

Lemma configuration_decides_witness : exists p,
  __vma_parse_config_file ex_config parser_init = Some p /\ parse_err p = false /\
  get_family_by_instance_first_matching_rule ex_fnmatch "app" (instance_list p) TRANS_VMA ROLE_TCP_SERVER "web" (ex_addr 85) None =
  Some TRANS_OS.
Proof.
  apply (configuration_decides ex_fnmatch "app" "web" ex_config TRANS_VMA ROLE_TCP_SERVER (ex_addr 85) None); [|done|done|done].
  repeat (apply list.Forall_cons; split); try apply list.Forall_nil; vm_compute; repeat split; discriminate.
Defined.

Definition ex_os : list statement :=
  [App_id "app" "web"; Use TRANS_OS ROLE_TCP_SERVER (Addr 10 0 0 0 (Some 8)) (Ports 80 90) None; any TRANS_OS ROLE_TCP_SERVER;
   any TRANS_OS ROLE_TCP_CLIENT].

Definition ex_os_instance : instance := Eval vm_compute in default (Instance_ "*" "*" [] [] [] [] []) (head (ex_file ex_os)).

Lemma program_decision_is_final_witness :
  __vma_match_by_program ex_fnmatch "app" (ex_file ex_os) PROTO_TCP "web" = TRANS_OS /\
  get_family_by_instance_first_matching_rule ex_fnmatch "app" (ex_file ex_os) TRANS_VMA ROLE_TCP_SERVER "web" (ex_addr 22) None =
  Some TRANS_OS.
Proof.
  assert (ex_file ex_os = [ex_os_instance]) as E by (vm_compute; reflexivity).
  split; [vm_compute; reflexivity|].
  apply (program_decision_is_final ex_fnmatch "app" "web" (ex_file ex_os) PROTO_TCP ex_os_instance ROLE_TCP_SERVER (ex_addr 22) None).
  - rewrite E. left.
  - vm_compute. reflexivity.
  - rewrite E. intros i' Hi _. by apply list_elem_of_singleton in Hi.
  - left.
  - repeat constructor.
  - repeat (apply list.Forall_cons; split); try apply list.Forall_nil; vm_compute; repeat split; intros; discriminate.
  - repeat (apply list.Forall_cons; split); try apply list.Forall_nil; vm_compute; auto.
  - vm_compute. reflexivity.
  - done.
  - done.
Defined.
End Match.
