(* ===== verification/StateMachine.v ===== *)
(** * The event-driven state machine: src/src/state_machine/sm.cpp, sm.h,
      sm_fifo.cpp

    A machine is built from a sparse table of lines (state, event, next state,
    action).  [process_event] runs the leave, transition and entry actions of
    one event; an action may post further events to the same machine
    (re-entrantly): those are queued and processed after it.

    An action is called with the machine's [m_info] and the application's
    state; it returns the new application state and the events it posted, in
    order.  [UB] is an access outside the machine's tables.  [process_event]
    and [unlock_in_process] call each other for every queued event; [fuel]
    bounds that recursion. *)

From S2P Require Import Prelude.

Local Open Scope Z_scope.

Module Sm.

Inductive res (A : Type) := Ok (a : A) | UB | Timeout.
Arguments Ok {A}.
Arguments UB {A}.
Arguments Timeout {A}.

Definition bind {A B} (x : res A) (f : A -> res B) : res B :=
  match x with Ok a => f a | UB => UB | Timeout => Timeout end.

Declare Scope sm_scope.
Delimit Scope sm_scope with sm.
Notation "x <- e ; k" := (bind e (fun x => k)) (at level 100, e at next level, right associativity) : sm_scope.
Local Open Scope sm_scope.

(** [a[i]] for an [int] index. *)
Definition at_ {A} (l : list A) (i : Z) : res A :=
  if decide (i < 0) then UB
  else match l !! Z.to_nat i with Some x => Ok x | None => UB end.

Definition SM_NO_ST : Z := -2.
Definition SM_ST_STAY : Z := -3.
Definition SM_STATE_ENTRY : Z := -4.
Definition SM_STATE_LEAVE : Z := -5.

(** A callback pointer. *)
Abbreviation cb := nat.

Record sm_info_t := Info { old_state : Z; new_state : Z; event : Z; ev_data : Z }.

Record sm_short_table_line_t := Line {
  l_state : Z; l_event : Z; l_next_state : Z; l_action_func : option cb;
}.

Record sm_event_info_t := EvInfo { next_state : Z; trans_func : option cb }.

Record sm_state_info_t := StInfo {
  entry_func : option cb; leave_func : option cb; event_info : list sm_event_info_t;
}.

Abbreviation sm_table := (list sm_state_info_t).

(** ** Building the table *)

Definition set_entry (f : option cb) (x : sm_state_info_t) : sm_state_info_t :=
  StInfo f (leave_func x) (event_info x).
Definition set_leave (f : option cb) (x : sm_state_info_t) : sm_state_info_t :=
  StInfo (entry_func x) f (event_info x).
Definition set_event (ev : Z) (e : sm_event_info_t) (x : sm_state_info_t) : sm_state_info_t :=
  StInfo (entry_func x) (leave_func x) (<[Z.to_nat ev := e]> (event_info x)).

(** One line; [None] is [return ERROR]. *)
Definition process_line (max_states max_events : Z) (default_trans_func : option cb)
    (ln : sm_short_table_line_t) (t : sm_table) : option sm_table :=
  let st := l_state ln in
  let ev := l_event ln in
  if decide (st < 0 \/ st >= max_states) then None
  else
    x ← t !! Z.to_nat st;
    if decide (ev = SM_STATE_ENTRY) then Some (<[Z.to_nat st := set_entry (l_action_func ln) x]> t)
    else if decide (ev = SM_STATE_LEAVE) then Some (<[Z.to_nat st := set_leave (l_action_func ln) x]> t)
    else if decide (ev < 0 \/ ev >= max_events) then None
    else if decide (l_next_state ln >= max_states) then None
    else
      e ← event_info x !! Z.to_nat ev;
      if decide (trans_func e <> default_trans_func) then None
      else Some (<[Z.to_nat st :=
             set_event ev (EvInfo (l_next_state ln) (l_action_func ln)) x]> t).

(** The [while] loop: it stops at the line whose state is [SM_NO_ST].  The
    result is the table as it stands and whether the function returned 0. *)
Fixpoint process_lines (max_states max_events : Z) (dt : option cb)
    (short_table : list sm_short_table_line_t) (t : sm_table) : bool * sm_table :=
  match short_table with
  | [] => (true, t)
  | ln :: r =>
    if decide (l_state ln = SM_NO_ST) then (true, t)
    else match process_line max_states max_events dt ln t with
         | None => (false, t)
         | Some t => process_lines max_states max_events dt r t
         end
  end.

Definition process_sparse_table (max_states max_events : Z)
    (short_table : list sm_short_table_line_t) (de dl dt : option cb) : bool * sm_table :=
  process_lines max_states max_events dt short_table
    (replicate (Z.to_nat max_states)
       (StInfo de dl (replicate (Z.to_nat max_events) (EvInfo SM_ST_STAY dt)))).

(** ** Running *)

Section machine.
Context {App : Type}.
(** The application's callbacks. *)
Context (call : cb -> sm_info_t -> App -> App * list (Z * Z)).
Context (new_event_notify_func : option (Z -> Z -> App -> App * list (Z * Z))).

Record state_machine := SM {
  m_max_states : Z;
  m_max_events : Z;
  m_p_sm_table : sm_table;
  m_sm_fifo : list (Z * Z);
  m_b_is_in_process : bool;
  m_info : sm_info_t;
  app : App;
}.

Definition set_fifo (q : list (Z * Z)) (s : state_machine) : state_machine :=
  SM (m_max_states s) (m_max_events s) (m_p_sm_table s) q (m_b_is_in_process s) (m_info s) (app s).
Definition set_in_process (b : bool) (s : state_machine) : state_machine :=
  SM (m_max_states s) (m_max_events s) (m_p_sm_table s) (m_sm_fifo s) b (m_info s) (app s).
Definition set_info (i : sm_info_t) (s : state_machine) : state_machine :=
  SM (m_max_states s) (m_max_events s) (m_p_sm_table s) (m_sm_fifo s) (m_b_is_in_process s) i (app s).
Definition set_app (a : App) (s : state_machine) : state_machine :=
  SM (m_max_states s) (m_max_events s) (m_p_sm_table s) (m_sm_fifo s) (m_b_is_in_process s) (m_info s) a.

Definition get_curr_state (s : state_machine) : Z := old_state (m_info s).

(** The constructor; [None] is its panic on the start state. *)
Definition ctor (start_state max_states max_events : Z) (short_table : list sm_short_table_line_t)
    (de dl dt : option cb) (a : App) : option state_machine :=
  if decide (start_state < 0 \/ start_state >= max_states) then None
  else Some (SM max_states max_events
               (process_sparse_table max_states max_events short_table de dl dt).2
               [] false (Info start_state (-1) (-1) 0) a).

Definition lock_in_process (ev data : Z) (s : state_machine) : Z * state_machine :=
  if m_b_is_in_process s then (-1, set_fifo (m_sm_fifo s ++ [(ev, data)]) s)
  else (0, set_in_process true s).

(** A callback runs while the machine is in process: [process_event] on an
    event it posts stops at [lock_in_process]. *)
Definition run_callback (r : App * list (Z * Z)) (s : state_machine) : state_machine :=
  foldl (fun s e => (lock_in_process e.1 e.2 s).2) (set_app r.1 s) r.2.

Definition run_opt (f : option cb) (s : state_machine) : state_machine :=
  match f with
  | None => s
  | Some f => run_callback (call f (m_info s) (app s)) s
  end.

(** The body of [process_event] for a legal event. *)
Definition handle_event (ev data : Z) (s : state_machine) : res state_machine :=
  p_sm_state_info <- at_ (m_p_sm_table s) (get_curr_state s);
  e <- at_ (event_info p_sm_state_info) ev;
  let next := next_state e in
  let s := set_info (Info (get_curr_state s) next ev data) s in
  let s := match new_event_notify_func with
           | Some f => run_callback (f (get_curr_state s) ev (app s)) s
           | None => s
           end in
  let moves := bool_decide (next <> get_curr_state s /\ next <> SM_ST_STAY) in
  let s := if moves then run_opt (leave_func p_sm_state_info) s else s in
  let s := run_opt (trans_func e) s in
  if moves then
    n <- at_ (m_p_sm_table s) next;
    let s := run_opt (entry_func n) s in
    Ok (set_info (Info next (new_state (m_info s)) (event (m_info s)) (ev_data (m_info s))) s)
  else Ok s.

Fixpoint process_event (fuel : nat) (ev data : Z) (s : state_machine) : res (Z * state_machine) :=
  match fuel with
  | O => Timeout
  | S fuel =>
    let unlock_in_process s :=
      let s := set_in_process false s in
      match m_sm_fifo s with
      | [] => Ok s
      | (ev, data) :: q =>
        r <- process_event fuel ev data (set_fifo q s); Ok r.2
      end in
    let '(r, s) := lock_in_process ev data s in
    if decide (r = -1) then Ok (0, s)
    else if decide (ev > m_max_events s \/ ev < 0) then
      s <- unlock_in_process s; Ok (-1, s)
    else
      s <- handle_event ev data s;
      s <- unlock_in_process s;
      Ok (0, s)
  end.
End machine.

(** ** What a short table means *)

(** The lines before the end mark. *)
Fixpoint active (l : list sm_short_table_line_t) : list sm_short_table_line_t :=
  match l with
  | [] => []
  | ln :: r => if decide (l_state ln = SM_NO_ST) then [] else ln :: active r
  end.

(** The action of the last line for (state, event), and the transition. *)
Definition action_of (lines : list sm_short_table_line_t) (st ev : Z) (d : option cb) : option cb :=
  foldl (fun a ln => if decide (l_state ln = st /\ l_event ln = ev) then l_action_func ln else a) d lines.

Definition row_of (lines : list sm_short_table_line_t) (st ev : Z) (d : sm_event_info_t) : sm_event_info_t :=
  foldl (fun a ln => if decide (l_state ln = st /\ l_event ln = ev)
                     then EvInfo (l_next_state ln) (l_action_func ln) else a) d lines.

Definition entry_of lines st d := action_of lines st SM_STATE_ENTRY d.
Definition leave_of lines st d := action_of lines st SM_STATE_LEAVE d.

(** A line that a table of these dimensions may have. *)
Definition line_ok (ms me : Z) (ln : sm_short_table_line_t) : Prop :=
  0 <= l_state ln < ms /\
  (l_event ln = SM_STATE_ENTRY \/ l_event ln = SM_STATE_LEAVE \/
   0 <= l_event ln < me /\ l_next_state ln < ms).

Definition is_trans (ln : sm_short_table_line_t) : Prop :=
  l_event ln <> SM_STATE_ENTRY /\ l_event ln <> SM_STATE_LEAVE.
#[export] Instance is_trans_dec ln : Decision (is_trans ln).
Proof. unfold is_trans. apply _. Defined.

(** [x'] is the state information [x] updated by [lines]. *)
Definition decoded (lines : list sm_short_table_line_t) (st : nat) (x x' : sm_state_info_t) : Prop :=
  entry_func x' = entry_of lines (Z.of_nat st) (entry_func x) /\
  leave_func x' = leave_of lines (Z.of_nat st) (leave_func x) /\
  length (event_info x') = length (event_info x) /\
  forall ev e, event_info x !! ev = Some e ->
    event_info x' !! ev = Some (row_of lines (Z.of_nat st) (Z.of_nat ev) e).

Lemma process_line_spec ms me dt ln t t' :
  process_line ms me dt ln t = Some t' ->
  line_ok ms me ln /\ length t' = length t /\
  forall st x, t !! st = Some x -> exists x', t' !! st = Some x' /\ decoded [ln] st x x'.
Proof.
  unfold process_line, line_ok. case_decide as Hst; [done|].
  destruct (t !! Z.to_nat (l_state ln)) as [y|] eqn:Hy; simpl; [|done].
  assert (forall y', t' = <[Z.to_nat (l_state ln) := y']> t ->
    decoded [ln] (Z.to_nat (l_state ln)) y y' ->
    length t' = length t /\
    forall st x, t !! st = Some x -> exists x', t' !! st = Some x' /\ decoded [ln] st x x') as Hput.
  { intros y' -> Hd. rewrite length_insert. split; [done|]. intros st x Hx.
    destruct (decide (Z.to_nat (l_state ln) = st)) as [<-|Hne].
    - rewrite Hy in Hx. injection Hx as <-. exists y'. split; [|done].
      apply list_lookup_insert_eq. by eapply lookup_lt_Some.
    - exists x. rewrite list_lookup_insert_ne by done. split; [done|].
      unfold decoded, entry_of, leave_of, action_of, row_of. simpl.
      rewrite !decide_False by lia. split_and!; try done. intros ev e He.
      by rewrite decide_False by lia. }
  case_decide as He; [|case_decide as Hl; [|case_decide as Hv; [done|case_decide as Hn; [done|]]]].
  - intros [= <-]. split; [lia|]. eapply Hput; [done|].
    unfold decoded, entry_of, leave_of, action_of, row_of. simpl.
    rewrite decide_True, decide_False by (unfold SM_STATE_ENTRY, SM_STATE_LEAVE in *; lia).
    split_and!; try done. intros ev e Hev. rewrite decide_False; [done|]. unfold SM_STATE_ENTRY in *. lia.
  - intros [= <-]. split; [lia|]. eapply Hput; [done|].
    unfold decoded, entry_of, leave_of, action_of, row_of. simpl.
    rewrite decide_False, decide_True by (unfold SM_STATE_ENTRY, SM_STATE_LEAVE in *; lia).
    split_and!; try done. intros ev e Hev. rewrite decide_False; [done|]. unfold SM_STATE_LEAVE in *. lia.
  - destruct (event_info y !! Z.to_nat (l_event ln)) as [e0|] eqn:He0; simpl; [|done].
    case_decide; [done|]. intros [= <-]. split; [lia|]. eapply Hput; [done|].
    unfold decoded, entry_of, leave_of, action_of, row_of. simpl.
    rewrite !decide_False by lia. rewrite length_insert. split_and!; try done.
    intros ev e Hev. destruct (decide (Z.to_nat (l_event ln) = ev)) as [<-|Hne].
    + rewrite decide_True by lia. apply list_lookup_insert_eq. by eapply lookup_lt_Some.
    + rewrite list_lookup_insert_ne, decide_False by lia. done.
Qed.

Lemma decoded_trans ln lines st x y z :
  decoded [ln] st x y -> decoded lines st y z -> decoded (ln :: lines) st x z.
Proof.
  intros (E1 & E2 & E3 & E4) (F1 & F2 & F3 & F4).
  unfold decoded, entry_of, leave_of, action_of, row_of in *. simpl in *.
  rewrite <- E1, <- E2, F1, F2, F3, E3. split_and!; try done.
  intros ev e He. apply E4 in He. apply F4 in He. done.
Qed.

Lemma process_lines_spec ms me dt lines t t' :
  process_lines ms me dt lines t = (true, t') ->
  Forall (line_ok ms me) (active lines) /\ length t' = length t /\
  forall st x, t !! st = Some x -> exists x', t' !! st = Some x' /\ decoded (active lines) st x x'.
Proof.
  revert t. induction lines as [|ln lines IH]; intros t; simpl.
  { intros [= <-]. split_and!; try done. intros st x Hx. by exists x. }
  case_decide.
  { intros [= <-]. split_and!; try done. intros st x Hx. by exists x. }
  destruct (process_line ms me dt ln t) as [t1|] eqn:E1; [|done].
  apply process_line_spec in E1 as (Hok & Hlen & H1). intros H2.
  apply IH in H2 as (Hoks & Hlen2 & H2). split_and!; [by constructor|congruence|].
  intros st x Hx. destruct (H1 _ _ Hx) as (y & Hy & D1). destruct (H2 _ _ Hy) as (z & Hz & D2).
  exists z. split; [done|]. by eapply decoded_trans.
Qed.

Definition dims (ms me : Z) (t : sm_table) : Prop :=
  length t = Z.to_nat ms /\ forall st x, t !! st = Some x -> length (event_info x) = Z.to_nat me.

Lemma lookup_st {A} (t : list A) n st :
  length t = Z.to_nat n -> 0 <= st < n -> exists x, t !! Z.to_nat st = Some x.
Proof. intros E H. apply lookup_lt_is_Some_2. lia. Qed.

(** A well-formed line whose transition is still the default one is accepted. *)
Lemma process_line_accepts ms me dt ln t :
  dims ms me t -> line_ok ms me ln ->
  (is_trans ln -> forall x e, t !! Z.to_nat (l_state ln) = Some x ->
     event_info x !! Z.to_nat (l_event ln) = Some e -> trans_func e = dt) ->
  exists t', process_line ms me dt ln t = Some t'.
Proof.
  intros [Hl He] [Hst Hev] Hd. unfold process_line. rewrite decide_False by lia.
  destruct (lookup_st t ms (l_state ln) Hl Hst) as [x Hx]. rewrite Hx. simpl.
  repeat (case_decide; [by eexists|]).
  assert (0 <= l_event ln < me /\ l_next_state ln < ms) as [H1 H2] by tauto.
  rewrite !decide_False by lia.
  destruct (lookup_st (event_info x) me (l_event ln) (He _ _ Hx) H1) as [e Hev']. rewrite Hev'. simpl.
  rewrite decide_False; [by eexists|]. intros Hne. apply Hne. by eapply (Hd ltac:(by split)).
Qed.

Lemma dims_decoded ms me ln t t' :
  dims ms me t -> length t' = length t ->
  (forall st x, t !! st = Some x -> exists x', t' !! st = Some x' /\ decoded [ln] st x x') ->
  dims ms me t'.
Proof.
  intros [Hl He] El H. split; [congruence|]. intros st x' Hx'.
  destruct (lookup_lt_is_Some_2 t st) as [x Hx]; [apply lookup_lt_Some in Hx'; lia|].
  destruct (H _ _ Hx) as (y & Hy & _ & _ & E & _). rewrite Hy in Hx'. injection Hx' as ->.
  rewrite E. by eapply He.
Qed.

Definition trans_keys (lines : list sm_short_table_line_t) : list (Z * Z) :=
  (fun ln => (l_state ln, l_event ln)) <$> filter is_trans lines.

Lemma process_lines_accepts ms me dt lines t :
  dims ms me t -> Forall (line_ok ms me) (active lines) -> NoDup (trans_keys (active lines)) ->
  (forall st ev x e, (st, ev) ∈ trans_keys (active lines) -> t !! Z.to_nat st = Some x ->
     event_info x !! Z.to_nat ev = Some e -> trans_func e = dt) ->
  (process_lines ms me dt lines t).1 = true.
Proof.
  revert t. induction lines as [|ln lines IH]; intros t Hdim; simpl; [done|].
  case_decide; [done|]. intros [Hok Hoks]%list.Forall_cons Hnd Hdef.
  unfold trans_keys in *. rewrite filter_cons in *.
  destruct (process_line_accepts ms me dt ln t) as [t1 E]; [done|done| |].
  { intros Ht x e. apply (Hdef (l_state ln) (l_event ln)).
    rewrite decide_True by done. rewrite fmap_cons. left. }
  rewrite E. apply process_line_spec in E as (_ & El & Hdec).
  assert (NoDup ((fun ln => (l_state ln, l_event ln)) <$> filter is_trans (active lines)) /\
    forall st ev, (st, ev) ∈ (fun ln => (l_state ln, l_event ln)) <$> filter is_trans (active lines) ->
      (st, ev) <> (l_state ln, l_event ln) \/ ~ is_trans ln) as [Hnd' Hne].
  { case_decide as Ht; [|split; [done|by right]]. rewrite fmap_cons in Hnd.
    apply list.NoDup_cons in Hnd as [Hni Hnd]. split; [done|]. intros st ev Hin. left. congruence. }
  apply IH; [by eapply dims_decoded|done|done|].
  intros st ev x e Hin Hx He.
  assert (0 <= st < ms /\ 0 <= ev < me) as [Hs Hv].
  { apply list_elem_of_fmap in Hin as (l & [= -> ->] & [Ht Hl]%list_elem_of_filter).
    rewrite list.Forall_forall in Hoks. destruct (Hoks _ Hl) as [? [?|[?|?]]]; destruct Ht; done || lia. }
  destruct Hdim as [Hl Hd]. destruct (lookup_st t ms st Hl Hs) as [x0 Hx0].
  destruct (lookup_st (event_info x0) me ev (Hd _ _ Hx0) Hv) as [e0 He0].
  destruct (Hdec _ _ Hx0) as (x' & Hx' & _ & _ & _ & Hrow). rewrite Hx in Hx'. injection Hx' as <-.
  apply Hrow in He0 as He'. rewrite He in He'. injection He' as ->.
  unfold row_of; simpl. rewrite !Z2Nat.id by lia. rewrite decide_False.
  - eapply (Hdef st ev); [|done|done].
    destruct (decide (is_trans ln)); [by right|done].
  - intros [E1 E2]. destruct (Hne st ev Hin) as [Hd'|Hd']; [congruence|].
    apply Hd'. split; unfold SM_STATE_ENTRY, SM_STATE_LEAVE; lia.
Qed.

Lemma at_lookup {A} (l : list A) i x : 0 <= i -> l !! Z.to_nat i = Some x -> at_ l i = Ok x.
Proof. intros Hi Hx. unfold at_. by rewrite decide_False, Hx by lia. Qed.

(** What the table built from [lines] answers. *)
Definition table_ok (ms me : Z) (lines : list sm_short_table_line_t) (de dl dt : option cb)
    (t : sm_table) : Prop :=
  forall st, 0 <= st < ms -> exists x, at_ t st = Ok x /\
    entry_func x = entry_of (active lines) st de /\ leave_func x = leave_of (active lines) st dl /\
    forall ev, 0 <= ev < me ->
      at_ (event_info x) ev = Ok (row_of (active lines) st ev (EvInfo SM_ST_STAY dt)).

Lemma sparse_table_ok ms me lines de dl dt t :
  process_sparse_table ms me lines de dl dt = (true, t) ->
  Forall (line_ok ms me) (active lines) /\ table_ok ms me lines de dl dt t.
Proof.
  intros E. apply process_lines_spec in E as (Hok & _ & H). split; [done|].
  intros st Hst. edestruct (H (Z.to_nat st)) as (x & Hx & D1 & D2 & _ & D4).
  { apply lookup_replicate_2. lia. }
  simpl in *. rewrite Z2Nat.id in * by lia. exists x. split; [by apply at_lookup; [lia|]|].
  split_and!; try done. intros ev Hev. apply at_lookup; [lia|].
  rewrite (D4 (Z.to_nat ev) (EvInfo SM_ST_STAY dt)) by (apply lookup_replicate_2; lia).
  by rewrite Z2Nat.id by lia.
Qed.

(** The full table is the short table.  A short table with states and
    events in range and no transition given twice is accepted; and whenever a
    table is accepted, every (state, event) has the next state and action of
    the last line for it (stay, with the default action, if there is none), and
    every state its entry and leave actions. *)
Theorem process_sparse_table_correct ms me lines de dl dt :
  (Forall (line_ok ms me) (active lines) -> NoDup (trans_keys (active lines)) ->
   (process_sparse_table ms me lines de dl dt).1 = true) /\
  ((process_sparse_table ms me lines de dl dt).1 = true ->
   Forall (line_ok ms me) (active lines) /\
   table_ok ms me lines de dl dt (process_sparse_table ms me lines de dl dt).2).
Proof.
  split.
  - intros Hok Hnd. apply process_lines_accepts; [|done|done|].
    + split; [apply length_replicate|]. intros st x [-> _]%lookup_replicate. apply length_replicate.
    + intros st ev x e _ [-> _]%lookup_replicate. simpl. intros [-> _]%lookup_replicate. done.
  - intros E. apply sparse_table_ok. rewrite <- E. by destruct (process_sparse_table _ _ _ _ _ _).
Qed.

(** ** The abstract machine

    Its state is the current state and the application's; one step handles one
    event completely, straight from the short table, and says which events were
    posted meanwhile; events are handled first in, first out. *)

Section abstract.
Context {App : Type}.
Context (call : cb -> sm_info_t -> App -> App * list (Z * Z)).
Context (notify : option (Z -> Z -> App -> App * list (Z * Z))).
Context (ms me : Z) (lines : list sm_short_table_line_t) (de dl dt : option cb).

(** Run an action, collecting what it posts. *)
Definition act (r : App -> App * list (Z * Z)) (w : App * list (Z * Z)) : App * list (Z * Z) :=
  let '(a, p) := r w.1 in (a, w.2 ++ p).
Definition act_opt (f : option cb) (i : sm_info_t) (w : App * list (Z * Z)) : App * list (Z * Z) :=
  match f with Some f => act (call f i) w | None => w end.

Definition spec_step (c : Z * App) (e : Z * Z) : (Z * App) * list (Z * Z) :=
  let '(cur, a) := c in
  let '(ev, data) := e in
  if decide (ev > me \/ ev < 0) then (c, [])
  else
    let r := row_of (active lines) cur ev (EvInfo SM_ST_STAY dt) in
    let next := next_state r in
    let i := Info cur next ev data in
    let w := match notify with Some f => act (f cur ev) (a, []) | None => (a, []) end in
    if decide (next <> cur /\ next <> SM_ST_STAY) then
      let w := act_opt (leave_of (active lines) cur dl) i w in
      let w := act_opt (trans_func r) i w in
      let w := act_opt (entry_of (active lines) next de) i w in
      ((next, w.1), w.2)
    else
      let w := act_opt (trans_func r) i w in
      ((cur, w.1), w.2).

(** [runs c q c']: from [c], handling the events [q] and all they post, in
    order of arrival, ends in [c']. *)
Inductive runs : Z * App -> list (Z * Z) -> Z * App -> Prop :=
  | runs_nil c : runs c [] c
  | runs_cons c e q c1 p c2 :
      spec_step c e = (c1, p) -> runs c1 (q ++ p) c2 -> runs c (e :: q) c2.

(** ** The machine implements it *)

Context (tbl : sm_table).
Context (Htbl : process_sparse_table ms me lines de dl dt = (true, tbl)).
(** Transitions lead to states (the constructor only checks the upper bound). *)
Context (Hnext : Forall (fun ln => is_trans ln -> 0 <= l_next_state ln \/ l_next_state ln = SM_ST_STAY)
                   (active lines)).
(** No action posts the event number [max_events]. *)
Context (Hcall : forall f i a, Forall (fun e => e.1 <> me) (call f i a).2).
Context (Hnotify : forall f c e a, notify = Some f -> Forall (fun e => e.1 <> me) (f c e a).2).

Abbreviation machine := (@state_machine App).

Definition core (s : machine) : Z * App := (get_curr_state s, app s).

Definition wf (s : machine) : Prop :=
  m_max_states s = ms /\ m_max_events s = me /\ m_p_sm_table s = tbl /\
  0 <= get_curr_state s < ms /\ Forall (fun e => e.1 <> me) (m_sm_fifo s).

(** Between two callbacks of an event: everything but the queue and the
    application is as before. *)
Definition mid (s0 : machine) (w : App * list (Z * Z)) : machine :=
  set_fifo (m_sm_fifo s0 ++ w.2) (set_app w.1 s0).

Lemma run_callback_mid s0 w r :
  m_b_is_in_process s0 = true ->
  run_callback (r w.1) (mid s0 w) = mid s0 (act r w).
Proof using.
  intros Hp. unfold run_callback, act. destruct (r w.1) as [a p]. simpl.
  unfold mid. destruct s0 as [x1 x2 x3 q b i a0]. simpl in *. subst b.
  unfold set_fifo, set_app; simpl. rewrite app_assoc. generalize (q ++ w.2). clear.
  induction p as [|e p IH]; intros q; simpl; [by rewrite app_nil_r|].
  unfold set_fifo, lock_in_process in *; simpl in *. destruct e as [e d]. simpl.
  rewrite IH. by rewrite <- app_assoc.
Qed.

Lemma run_opt_mid s0 w f :
  m_b_is_in_process s0 = true ->
  run_opt call f (mid s0 w) = mid s0 (act_opt f (m_info s0) w).
Proof using.
  intros Hp. destruct f as [f|]; [|done]. simpl. by rewrite <- run_callback_mid.
Qed.

Lemma row_next st ev :
  0 <= ev ->
  let n := next_state (row_of (active lines) st ev (EvInfo SM_ST_STAY dt)) in
  n = SM_ST_STAY \/ 0 <= n < ms.
Proof using Htbl Hnext.
  intros Hev. destruct (sparse_table_ok _ _ _ _ _ _ _ Htbl) as [Hok _].
  unfold row_of. assert (next_state (EvInfo SM_ST_STAY dt) = SM_ST_STAY \/
    0 <= next_state (EvInfo SM_ST_STAY dt) < ms) as Hd by (by left).
  revert Hd. generalize (EvInfo SM_ST_STAY dt).
  induction (active lines) as [|ln l IH]; intros d Hd; [done|]. simpl.
  apply list.Forall_cons in Hnext as [Hn Hns], Hok as [Ho Hos].
  apply IH; [done|done|]. case_decide as E; [|done]. simpl. destruct E as [_ <-].
  destruct Ho as [_ [Ho|[Ho|[Ho Ho']]]]; [unfold SM_STATE_ENTRY, SM_STATE_LEAVE in *; lia..|].
  destruct Hn; [|right; lia|by left].
  split; unfold SM_STATE_ENTRY, SM_STATE_LEAVE; lia.
Qed.

Abbreviation posts_ok w := (Forall (fun e : Z * Z => e.1 <> me) (snd w)).

Lemma act_opt_ok f i w : posts_ok w -> posts_ok (act_opt f i w).
Proof using Hcall.
  intros Hw. destruct f as [f|]; [|done]. simpl. unfold act.
  pose proof (Hcall f i w.1) as H. destruct (call f i w.1). simpl in *. by apply Forall_app.
Qed.

Definition notified (cur ev : Z) (a : App) : App * list (Z * Z) :=
  match notify with Some f => act (f cur ev) (a, []) | None => (a, []) end.

Lemma notified_ok cur ev a : posts_ok (notified cur ev a).
Proof using Hnotify.
  unfold notified. destruct notify as [f|] eqn:E; [|constructor]. unfold act; simpl.
  pose proof (Hnotify f cur ev a eq_refl) as H. destruct (f cur ev a). simpl in *. done.
Qed.

(** Handling one legal event is one step of the abstract machine. *)
Lemma handle_event_spec s ev data :
  wf s -> m_b_is_in_process s = true -> 0 <= ev < me ->
  exists s' p, handle_event call notify ev data s = Ok s' /\
    spec_step (core s) (ev, data) = (core s', p) /\
    m_sm_fifo s' = m_sm_fifo s ++ p /\ wf s' /\ m_b_is_in_process s' = true.
Proof using Htbl Hnext Hcall Hnotify.
  intros (Ems & Eme & Et & Hcur & Hq) Hp Hev.
  destruct (sparse_table_ok _ _ _ _ _ _ _ Htbl) as [_ Hok].
  destruct (Hok _ Hcur) as (x & Hx & _ & El & Hrow).
  unfold handle_event, core, spec_step. rewrite Et, Hx. simpl. rewrite (Hrow ev Hev). simpl.
  rewrite (decide_False (P := ev > me \/ ev < 0)) by lia.
  pose proof (row_next (get_curr_state s) ev ltac:(lia)) as Hn. simpl in Hn.
  set (row := row_of _ _ _ _) in *. set (cur := get_curr_state s) in *.
  set (i := Info cur (next_state row) ev data).
  set (s0 := set_info i s). assert (m_b_is_in_process s0 = true) as Hp0 by done.
  fold (notified cur ev (app s)).
  change (get_curr_state s0) with cur. change (app s0) with (app s).
  assert (match notify with
          | Some f => run_callback (f cur ev (app s)) s0
          | None => s0 end = mid s0 (notified cur ev (app s))) as ->.
  { unfold notified. assert (s0 = mid s0 (app s, [])) as E.
    { unfold mid, s0, set_fifo, set_info, set_app; simpl. by rewrite app_nil_r. }
    destruct notify as [f|]; [|done]. rewrite E at 1.
    rewrite <- (run_callback_mid s0 (app s, [])) by done. done. }
  pose proof (notified_ok cur ev (app s)) as Hw. set (w0 := notified _ _ _) in *.
  change (get_curr_state (mid s0 w0)) with cur.
  destruct (decide (next_state row <> cur /\ next_state row <> SM_ST_STAY)) as [Hm|Hm].
  - rewrite bool_decide_true by done. rewrite El, !run_opt_mid by done.
    destruct Hn as [Hn|Hn]; [tauto|]. destruct (Hok _ Hn) as (y & Hy & Een & _).
    change (m_p_sm_table (mid s0 _)) with (m_p_sm_table s). rewrite Et, Hy. simpl.
    rewrite Een, run_opt_mid by done. change (m_info s0) with i.
    eexists _, _. split; [done|]. split; [done|]. simpl. split; [done|]. split; [|done].
    split_and!; try done; [apply Hn..|]. apply Forall_app. split; [done|]. by repeat apply act_opt_ok.
  - rewrite bool_decide_false by done. rewrite run_opt_mid by done.
    eexists _, _. split; [done|]. split; [done|]. simpl. split; [done|]. split; [|done].
    split_and!; try done; [apply Hcur..|]. apply Forall_app. split; [done|]. by apply act_opt_ok.
Qed.

(** Whatever the fuel, a free machine never leaves its tables, and when it
    returns it has done what the abstract machine does. *)
Lemma process_event_sound fuel s ev data :
  wf s -> m_b_is_in_process s = false -> ev <> me ->
  match process_event call notify fuel ev data s with
  | Ok (_, s') => runs (core s) ((ev, data) :: m_sm_fifo s) (core s') /\
      m_sm_fifo s' = [] /\ m_b_is_in_process s' = false /\ wf s'
  | UB => False
  | Timeout => True
  end.
Proof using Htbl Hnext Hcall Hnotify.
  revert s ev data. induction fuel as [|fuel IH]; intros s ev data Hw Hp Hne; [done|].
  cbn [process_event]. unfold lock_in_process at 1. rewrite Hp.
  rewrite decide_False by done. set (s1 := set_in_process true s).
  assert (wf s1) as Hw1 by done. pose proof Hw1 as (_ & Eme & _ & _ & Hq). rewrite Eme.
  (* the end of the event: release, or go on with the queue *)
  assert (forall s2 p, wf s2 -> m_b_is_in_process s2 = true ->
    m_sm_fifo s2 = m_sm_fifo s ++ p -> spec_step (core s) (ev, data) = (core s2, p) ->
    forall r : Z, match
        bind (match m_sm_fifo (set_in_process false s2) with
              | [] => Ok (set_in_process false s2)
              | (ev, data) :: q =>
                bind (process_event call notify fuel ev data (set_fifo q (set_in_process false s2)))
                  (fun r => Ok r.2)
              end) (fun s3 : machine => Ok (r, s3)) with
      | Ok (_, s') => runs (core s) ((ev, data) :: m_sm_fifo s) (core s') /\
          m_sm_fifo s' = [] /\ m_b_is_in_process s' = false /\ wf s'
      | UB => False
      | Timeout => True
      end) as Hend.
  { intros s2 p Hw2 Hp2 Ef Es r. simpl. destruct (m_sm_fifo s2) as [|[e d] q] eqn:Eq; simpl.
    - split_and!; try done. econstructor; [done|]. rewrite <- Ef. constructor.
    - destruct Hw2 as (W1 & W2 & W3 & W4 & W5). rewrite Eq in W5. apply list.Forall_cons in W5 as [He Hq'].
      specialize (IH (set_fifo q (set_in_process false s2)) e d).
      destruct (process_event _ _ _ _ _ _) as [[r' s']| |]; simpl in *; [|by apply IH..].
      destruct IH as (Hr & ? & ? & ?); [done..|]. split_and!; try done.
      econstructor; [done|]. by rewrite <- Ef. }
  case_decide as Hbad.
  - apply (Hend s1 []); [done|done|by rewrite app_nil_r|].
    unfold spec_step, core. by rewrite decide_True.
  - destruct (handle_event_spec s1 ev data Hw1 eq_refl) as (s2 & p & E2 & Es & Ef & Hw2 & Hp2); [lia|].
    rewrite E2. simpl bind at 1. by apply (Hend s2 p).
Qed.

Lemma runs_det c q c1 c2 : runs c q c1 -> runs c q c2 -> c1 = c2.
Proof using.
  induction 1 as [c|c e q c' p c'' Hs Hr IH]; inversion 1; subst; [done|]. apply IH. congruence.
Qed.

(** If the abstract machine comes to rest, so does the machine. *)
Lemma process_event_complete c q c' :
  runs c q c' -> forall s ev data, wf s -> m_b_is_in_process s = false -> ev <> me ->
  c = core s -> q = (ev, data) :: m_sm_fifo s ->
  exists fuel r s', process_event call notify fuel ev data s = Ok (r, s').
Proof using Htbl Hnext Hcall Hnotify.
  induction 1 as [c|c e q c1 p c2 Hs Hr IH]; intros s ev data Hw Hp Hne -> Eq; [done|].
  injection Eq as -> ->. set (s1 := set_in_process true s).
  assert (wf s1) as Hw1 by done. pose proof Hw1 as (_ & Eme & _).
  (* after the event itself *)
  assert (exists s2, wf s2 /\ m_sm_fifo s2 = m_sm_fifo s ++ p /\ core s2 = c1 /\
    forall fuel, exists r, process_event call notify (S fuel) ev data s =
      bind (match m_sm_fifo s2 with
            | [] => Ok (set_in_process false s2)
            | (ev, data) :: q =>
              bind (process_event call notify fuel ev data (set_fifo q (set_in_process false s2)))
                (fun r => Ok r.2)
            end) (fun s3 : machine => Ok (r, s3))) as (s2 & Hw2 & Ef & Ec & Hev).
  { destruct (decide (ev > me \/ ev < 0)) as [Hb|Hb].
    - exists s1. unfold spec_step, core in Hs. rewrite decide_True in Hs by done.
      injection Hs as <- <-. rewrite app_nil_r. split_and!; try done. intros fuel. exists (-1).
      cbn [process_event]. unfold lock_in_process at 1. rewrite Hp. fold s1.
      rewrite decide_False, Eme, decide_True by done. done.
    - destruct (handle_event_spec s1 ev data Hw1 eq_refl) as (s2 & p' & E2 & Es & Ef & Hw2 & _); [lia|].
      exists s2. change (core s1) with (core s) in Es. rewrite Hs in Es. injection Es as -> ->.
      split_and!; try done. intros fuel. exists 0.
      cbn [process_event]. unfold lock_in_process at 1. rewrite Hp. fold s1.
      rewrite decide_False, Eme, decide_False, E2 by done. done. }
  destruct (m_sm_fifo s2) as [|[e d] q'] eqn:Eq.
  - destruct (Hev 0%nat) as [r E]. by exists 1%nat, r, (set_in_process false s2).
  - destruct Hw2 as (W1 & W2 & W3 & W4 & W5). rewrite Eq in W5. apply list.Forall_cons in W5 as [He Hq'].
    destruct (IH (set_fifo q' (set_in_process false s2)) e d) as (fuel & r & s' & E);
      [done|done|done|done|by rewrite <- Ef|].
    destruct (Hev fuel) as [r' E']. exists (S fuel), r', s'. rewrite E', E. done.
Qed.
End abstract.

(** C10: Run to completion.  For a machine built from an accepted short table
    whose transitions lead to a state that is not negative or say to stay (the
    table is accepted with other negative ones too), in a valid state, when
    neither the event nor any event that waits or that the callbacks and the
    notification post equals [max_events] (the code lets that one through),
    [process_event] on a free machine refines the abstract machine: events are
    handled one at a time and first in, first out, each completely (leave,
    transition and entry actions, then the move) before the next, including
    those the actions post; it never leaves its tables, ends free with an empty
    queue, and returns whenever the abstract machine comes to rest. *)
Theorem process_event_run_to_completion {App : Type} call notify ms me lines de dl dt tbl
    (s : @state_machine App) ev data :
  process_sparse_table ms me lines de dl dt = (true, tbl) ->
  Forall (fun ln => is_trans ln -> 0 <= l_next_state ln \/ l_next_state ln = SM_ST_STAY) (active lines) ->
  (forall f i a, Forall (fun e => e.1 <> me) (call f i a).2) ->
  (forall f c e a, notify = Some f -> Forall (fun e => e.1 <> me) (f c e a).2) ->
  wf ms me tbl s -> m_b_is_in_process s = false -> ev <> me ->
  (forall fuel, match process_event call notify fuel ev data s with
    | Ok (_, s') =>
        runs call notify me lines de dl dt (core s) ((ev, data) :: m_sm_fifo s) (core s') /\
        m_sm_fifo s' = [] /\ m_b_is_in_process s' = false /\ wf ms me tbl s'
    | UB => False
    | Timeout => True
    end) /\
  (forall c', runs call notify me lines de dl dt (core s) ((ev, data) :: m_sm_fifo s) c' ->
    exists fuel r s', process_event call notify fuel ev data s = Ok (r, s') /\ core s' = c').
Proof.
  intros Ht Hn Hc Hno Hw Hp Hne. split.
  - intros fuel. by eapply process_event_sound.
  - intros c' Hr. destruct (process_event_complete call notify ms me lines de dl dt tbl Ht Hn Hc Hno _ _ _ Hr s ev data)
      as (fuel & r & s' & E); [done..|].
    exists fuel, r, s'. split; [done|].
    pose proof (process_event_sound call notify ms me lines de dl dt tbl Ht Hn Hc Hno fuel s ev data Hw Hp Hne) as H.
    rewrite E in H. destruct H as [H _]. by eapply runs_det.
Qed.

(** Two states; event 0 moves 0 -> 1 and its action posts event 1, which moves
    back.  The application records the callbacks. *)
Definition ex_lines : list sm_short_table_line_t :=
  [Line 0 0 1 (Some 10%nat); Line 1 1 0 (Some 11%nat); Line 1 SM_STATE_ENTRY 0 (Some 12%nat);
   Line 0 SM_STATE_LEAVE 0 (Some 13%nat); Line SM_NO_ST (-2) SM_NO_ST None].
Definition ex_call (f : cb) (i : sm_info_t) (a : list (cb * Z)) : list (cb * Z) * list (Z * Z) :=
  (a ++ [(f, old_state i)], if decide (f = 10%nat) then [(1, 0)] else []).

Definition ex_table : list sm_state_info_t := Eval vm_compute in (process_sparse_table 2 2 ex_lines None None None).2.
Definition ex_sm (i : sm_info_t) (a : list (cb * Z)) : state_machine := SM 2 2 ex_table [] false i a.

Definition ex_pe_s := ex_sm (Info 0 (-1) (-1) 0) [].

Lemma process_event_run_to_completion_witness :
  ctor 0 2 2 ex_lines None None None [] = Some ex_pe_s /\
  runs ex_call None 2 ex_lines None None None (core ex_pe_s) [(0, 0)]
    (0, [(13%nat, 0); (10%nat, 0); (12%nat, 0); (11%nat, 1)]).
Proof.
  split; [by vm_compute|].
  assert (process_event ex_call None 3 0 0 ex_pe_s =
    Ok (0, ex_sm (Info 0 0 1 0) [(13%nat, 0); (10%nat, 0); (12%nat, 0); (11%nat, 1)])) as E by by vm_compute.
  destruct (process_event_run_to_completion ex_call None 2 2 ex_lines None None None
      ex_table ex_pe_s 0 0) as [H _].
  - by vm_compute.
  - repeat constructor; vm_compute; naive_solver.
  - intros f i a. unfold ex_call. simpl. case_decide; repeat constructor; done.
  - done.
  - split_and!; [done..|by vm_compute|by vm_compute|constructor].
  - done.
  - done.
  - specialize (H 3%nat). rewrite E in H. destruct H as [H _]. exact H.
Defined.

(** The guard on the event number is off by one and the next state has no
    lower bound.  On every machine the event [max_events] passes the guard and
    is looked up behind the end of the state's events; and a short table whose
    transition leads to state -1 is accepted, its event then reads the state
    table at -1. *)
Theorem process_event_out_of_bounds {App : Type} call notify ms me lines de dl dt tbl
    (s : @state_machine App) fuel data :
  process_sparse_table ms me lines de dl dt = (true, tbl) ->
  wf ms me tbl s -> m_b_is_in_process s = false -> 0 <= me ->
  process_event call notify (S fuel) me data s = UB /\
  (process_sparse_table 2 1 [Line 0 0 (-1) None] None None None).1 = true /\
  match ctor 0 2 1 [Line 0 0 (-1) None] None None None (app s) with
  | Some s => process_event call None (S fuel) 0 data s = UB
  | None => False
  end.
Proof.
  intros Ht (Ems & Eme & Et & Hcur & Hq) Hp Hme. split_and!; [|done|].
  - cbn [process_event]. unfold lock_in_process at 1. rewrite Hp.
    rewrite decide_False by done. simpl m_max_events. rewrite Eme, decide_False by lia.
    unfold handle_event. simpl m_p_sm_table. rewrite Et.
    change (get_curr_state (set_in_process true s)) with (get_curr_state s).
    apply process_lines_spec in Ht as (_ & _ & Ht).
    edestruct (Ht (Z.to_nat (get_curr_state s))) as (x & Hx & _ & _ & Hl & _).
    { apply lookup_replicate_2. lia. }
    rewrite (at_lookup _ _ _ (proj1 Hcur) Hx). simpl.
    unfold at_. rewrite decide_False by lia. simpl in Hl. rewrite length_replicate in Hl.
    rewrite lookup_ge_None_2 by lia. done.
  - done.
Qed.

Lemma process_event_out_of_bounds_witness :
  process_event ex_call None 1 2 0 (ex_sm (Info 0 (-1) (-1) 0) []) = UB.
Proof.
  apply (process_event_out_of_bounds ex_call None 2 2 ex_lines None None None
    ex_table (ex_sm (Info 0 (-1) (-1) 0) []) 0 0).
  - by vm_compute.
  - split_and!; [done..|by vm_compute|by vm_compute|constructor].
  - done.
  - lia.
Defined.

End Sm.
