(* ===== verification/Neighbour.v ===== *)
(** * Neighbours on Ethernet: src/src/vma/proto/neighbour.cpp, neighbour.h

    A neighbour finds out the hardware address of a peer and keeps the packets
    that wait for it.  It is an application of the state machine (StateMachine):
    its table, its entry actions and the operations that post events are the
    source's, for a unicast peer of an Ethernet device ([neigh_eth] over
    [neigh_entry]); a multicast peer has no state machine.

    What the neighbour asks of others is answered by the environment: the n-th
    question by the n-th answer, so that the answers may change between any two
    questions (netlink's table is filled by another thread).  The state records
    what the neighbour did to the outside in [trace]: the ARP requests and packets
    posted and the packets deleted unsent.  Operations run under the object's
    locks, one at a time.  An L2 address is the list of its bytes. *)

From S2P Require Import Prelude IpFrag FragRun UdpSend StateMachine.

Local Open Scope Z_scope.

Module Neigh.
Import Sm.

Definition ST_NOT_ACTIVE : Z := 0.
Definition ST_INIT : Z := 1.
Definition ST_INIT_RESOLUTION : Z := 2.
Definition ST_ADDR_RESOLVED : Z := 3.
Definition ST_ARP_RESOLVED : Z := 4.
Definition ST_PATH_RESOLVED : Z := 5.
Definition ST_READY : Z := 6.
Definition ST_ERROR : Z := 7.
Definition ST_LAST : Z := 8.

Definition EV_KICK_START : Z := 0.
Definition EV_START_RESOLUTION : Z := 1.
Definition EV_ARP_RESOLVED : Z := 2.
Definition EV_ADDR_RESOLVED : Z := 3.
Definition EV_PATH_RESOLVED : Z := 4.
Definition EV_ERROR : Z := 5.
Definition EV_TIMEOUT_EXPIRED : Z := 6.
Definition EV_UNHANDLED : Z := 7.
Definition EV_LAST : Z := 8.

(** The kernel's neighbour states (linux/neighbour.h). *)
Definition NUD_INCOMPLETE : Z := 0x01.
Definition NUD_REACHABLE : Z := 0x02.
Definition NUD_STALE : Z := 0x04.
Definition NUD_FAILED : Z := 0x20.
Definition NUD_PERMANENT : Z := 0x80.

Definition IPPROTO_TCP : Z := 6.
Definition IPPROTO_UDP : Z := 17.

Abbreviation l2 := (list Z).

Record netlink_neigh_info := Info_ { state : Z; lladdr : l2 }.

Record neigh_send_data := Data {
  m_iov : list Z;
  m_header : UdpSend.header;
  m_mtu : Z;
  m_protocol : Z
}.

Inductive out :=
  | Arp (dst : l2)
  | TxUdp (d : neigh_send_data) (dst : l2) (fs : list UdpSend.frame)
  | TxTcp (d : neigh_send_data) (dst : l2) (sge_length tot_len : Z)
  | Deleted (d : neigh_send_data).

(** [m_val] is [NULL], or a value whose [m_l2_address] may be [NULL].
    [timers] counts the one-shot timers the event handler holds for the object,
    [questions] the answers used up.  [null_arp]: a member function was called
    through a null address in [post_send_arp]; [crash]: any other null pointer
    or a division by zero. *)
Record neigh := Neigh {
  m_cma_id : option Z;
  m_state : bool;
  m_unsent_queue : list neigh_send_data;
  m_err_counter : Z;
  m_timer_handle : bool;
  m_arp_counter : Z;
  m_val : option (option l2);
  m_is_first_send_arp : bool;
  cleaned : bool;
  timers : nat;
  questions : nat;
  notified : nat;
  trace : list out;
  null_arp : bool;
  crash : bool
}.

Definition set_cma v n := Neigh v (m_state n) (m_unsent_queue n) (m_err_counter n) (m_timer_handle n) (m_arp_counter n) (m_val n) (m_is_first_send_arp n) (cleaned n) (timers n) (questions n) (notified n) (trace n) (null_arp n) (crash n).
Definition set_state v n := Neigh (m_cma_id n) v (m_unsent_queue n) (m_err_counter n) (m_timer_handle n) (m_arp_counter n) (m_val n) (m_is_first_send_arp n) (cleaned n) (timers n) (questions n) (notified n) (trace n) (null_arp n) (crash n).
Definition set_queue v n := Neigh (m_cma_id n) (m_state n) v (m_err_counter n) (m_timer_handle n) (m_arp_counter n) (m_val n) (m_is_first_send_arp n) (cleaned n) (timers n) (questions n) (notified n) (trace n) (null_arp n) (crash n).
Definition set_err v n := Neigh (m_cma_id n) (m_state n) (m_unsent_queue n) v (m_timer_handle n) (m_arp_counter n) (m_val n) (m_is_first_send_arp n) (cleaned n) (timers n) (questions n) (notified n) (trace n) (null_arp n) (crash n).
Definition set_timer v n := Neigh (m_cma_id n) (m_state n) (m_unsent_queue n) (m_err_counter n) v (m_arp_counter n) (m_val n) (m_is_first_send_arp n) (cleaned n) (timers n) (questions n) (notified n) (trace n) (null_arp n) (crash n).
Definition set_arp c f n := Neigh (m_cma_id n) (m_state n) (m_unsent_queue n) (m_err_counter n) (m_timer_handle n) c (m_val n) f (cleaned n) (timers n) (questions n) (notified n) (trace n) (null_arp n) (crash n).
Definition set_val v n := Neigh (m_cma_id n) (m_state n) (m_unsent_queue n) (m_err_counter n) (m_timer_handle n) (m_arp_counter n) v (m_is_first_send_arp n) (cleaned n) (timers n) (questions n) (notified n) (trace n) (null_arp n) (crash n).
Definition set_cleaned n := Neigh (m_cma_id n) (m_state n) (m_unsent_queue n) (m_err_counter n) (m_timer_handle n) (m_arp_counter n) (m_val n) (m_is_first_send_arp n) true (timers n) (questions n) (notified n) (trace n) (null_arp n) (crash n).
Definition set_timers v n := Neigh (m_cma_id n) (m_state n) (m_unsent_queue n) (m_err_counter n) (m_timer_handle n) (m_arp_counter n) (m_val n) (m_is_first_send_arp n) (cleaned n) v (questions n) (notified n) (trace n) (null_arp n) (crash n).
Definition ask n := Neigh (m_cma_id n) (m_state n) (m_unsent_queue n) (m_err_counter n) (m_timer_handle n) (m_arp_counter n) (m_val n) (m_is_first_send_arp n) (cleaned n) (timers n) (S (questions n)) (notified n) (trace n) (null_arp n) (crash n).
Definition notify_observers n := Neigh (m_cma_id n) (m_state n) (m_unsent_queue n) (m_err_counter n) (m_timer_handle n) (m_arp_counter n) (m_val n) (m_is_first_send_arp n) (cleaned n) (timers n) (questions n) (S (notified n)) (trace n) (null_arp n) (crash n).
Definition emit o n := Neigh (m_cma_id n) (m_state n) (m_unsent_queue n) (m_err_counter n) (m_timer_handle n) (m_arp_counter n) (m_val n) (m_is_first_send_arp n) (cleaned n) (timers n) (questions n) (notified n) (trace n ++ [o]) (null_arp n) (crash n).
Definition null_call n := Neigh (m_cma_id n) (m_state n) (m_unsent_queue n) (m_err_counter n) (m_timer_handle n) (m_arp_counter n) (m_val n) (m_is_first_send_arp n) (cleaned n) (timers n) (questions n) (notified n) (trace n) true (crash n).
Definition crashes n := Neigh (m_cma_id n) (m_state n) (m_unsent_queue n) (m_err_counter n) (m_timer_handle n) (m_arp_counter n) (m_val n) (m_is_first_send_arp n) (cleaned n) (timers n) (questions n) (notified n) (trace n) (null_arp n) true.

(** Answers to the n-th question: netlink's entry for the peer; whether a call of
    librdmacm succeeds, and with which id; whether the ring has that many
    transmit buffers. *)
Record env := Env {
  get_neigh : nat -> option netlink_neigh_info;
  rdma_create_id : nat -> option Z;
  rdma_resolve_addr : nat -> bool;
  mem_buf_tx_get : nat -> Z -> bool
}.

Record config := Config {
  cma_event_channel : bool;          (* not [NULL] *)
  l2_address : l2;                   (* of the device *)
  br_address : l2;
  vlan : bool;
  m_is_loopback : bool;
  neigh_uc_arp_quata : Z;
  neigh_num_err_retries : Z
}.

Definition priv_is_reachable (state : Z) : bool := ctrue (Z.land state (Z.lor NUD_REACHABLE NUD_PERMANENT)).
Definition priv_is_failed (state : Z) : bool := ctrue (Z.land state (Z.lor NUD_FAILED NUD_INCOMPLETE)).

Section neigh.
Context (c : config) (e : env).

(** ** Helpers of the entry actions *)

Definition priv_get_neigh_state (n : neigh) : option Z * neigh :=
  if m_is_loopback c then (Some NUD_REACHABLE, n)
  else (state <$> get_neigh e (questions n), ask n).

Definition priv_get_neigh_l2 (n : neigh) : option l2 * neigh :=
  if m_is_loopback c then (Some (l2_address c), n)
  else (match get_neigh e (questions n) with
        | Some info => if priv_is_failed (state info) then None else Some (lladdr info)
        | None => None
        end, ask n).

Definition priv_destroy_cma_id (n : neigh) : neigh :=
  match m_cma_id n with Some _ => set_cma None n | None => n end.

(** A one-shot timer is forgotten here, not unregistered. *)
Definition priv_unregister_timer (n : neigh) : neigh := if m_timer_handle n then set_timer false n else n.

(** [m_timer_handle = priv_register_timer_event(...)]. *)
Definition register_timer (n : neigh) : neigh :=
  if cleaned n then set_timer false n else set_timer true (set_timers (S (timers n)) n).

(** ** ARP *)

(** The address is used before it is tested. *)
Definition post_send_arp (is_broadcast : bool) (n : neigh) : bool * neigh :=
  let '(dst, n) :=
    if is_broadcast then (Some (br_address c), n)
    else match m_val n with Some a => (a, n) | None => (None, crashes n) end in
  match dst with
  | None => (false, null_call n)
  | Some dst =>
    if mem_buf_tx_get e (questions n) 1 then (true, emit (Arp dst) (ask n)) else (false, ask n)
  end.

Definition send_arp (n : neigh) : neigh :=
  let is_broadcast := bool_decide (m_arp_counter n >= neigh_uc_arp_quata c) || m_is_first_send_arp n ||
                      (match m_val n with None => true | Some _ => false end) in
  let '(ok, n) := post_send_arp is_broadcast n in
  if ok then set_arp (u32 (m_arp_counter n + 1)) false n else n.

(** ** Waiting packets *)

(** [configure_eth_headers], [configure_vlan_eth_headers]: the lengths. *)
Definition configure_l2 (h : UdpSend.header) : UdpSend.header :=
  let len := if vlan c then 18 else 14 in
  UdpSend.Header len (UdpSend.m_ip_header_len h) (u16 (UdpSend.m_total_hdr_len h + len))
    (UdpSend.m_ip_hdr h) (UdpSend.udp_source h) (UdpSend.udp_dest h).

(** The header gets the peer's address; without one the packet is dropped. *)
Definition prepare_to_send_packet (n : neigh) : option l2 * neigh :=
  match m_val n with Some a => (a, n) | None => (None, crashes n) end.

Definition post_send_tcp (d : neigh_send_data) (dst : l2) (n : neigh) : neigh :=
  if mem_buf_tx_get e (questions n) 1 then
    let h := configure_l2 (m_header d) in
    let len := Z.of_nat (length (m_iov d)) in
    emit (TxTcp d dst (u32 (len + UdpSend.m_total_hdr_len h)) (htons (u16 (len + UdpSend.m_ip_header_len h)))) (ask n)
  else emit (Deleted d) (ask n).

(** [post_send_packet]; the packet is deleted afterwards in any case. *)
Definition post_send_packet (d : neigh_send_data) (dst : l2) (n : neigh) : neigh :=
  if decide (m_protocol d = IPPROTO_UDP) then
    match UdpSend.post_send_udp (mem_buf_tx_get e (questions n)) (configure_l2 (m_header d)) (m_iov d) (m_mtu d) with
    | None => crashes n
    | Some (ok, []) => if ok then emit (TxUdp d dst []) (ask n) else emit (Deleted d) (ask n)
    | Some (_, fs) => emit (TxUdp d dst fs) (ask n)
    end
  else if decide (m_protocol d = IPPROTO_TCP) then post_send_tcp d dst n
  else emit (Deleted d) n.

Definition send_one (n : neigh) (d : neigh_send_data) : neigh :=
  let '(dst, n) := prepare_to_send_packet n in
  let n := match dst with Some dst => post_send_packet d dst n | None => emit (Deleted d) n end in
  set_queue (tail (m_unsent_queue n)) n.

Definition empty_unsent_queue (n : neigh) : neigh := foldl send_one n (m_unsent_queue n).

(** ** The entry actions: the new state and the events posted *)

Definition post (ev : Z) : list (Z * Z) := [(ev, 0)].

Definition entry_priv_enter_init (n : neigh) : neigh := register_timer n.

Definition priv_enter_init (n : neigh) : neigh * list (Z * Z) :=
  let '(state, n) := priv_get_neigh_state n in
  match state with
  | Some state => if negb (priv_is_failed state) then (n, post EV_ARP_RESOLVED) else (entry_priv_enter_init n, [])
  | None => (entry_priv_enter_init n, [])
  end.

(** [neigh_entry::priv_enter_init_resolution]: whether it returned 0. *)
Definition entry_priv_enter_init_resolution (n : neigh) : bool * neigh :=
  if negb (cma_event_channel c) then (true, n)
  else
    let n := priv_destroy_cma_id n in
    match rdma_create_id e (questions n) with
    | None => (false, ask n)
    | Some id =>
      let n := set_cma (Some id) (ask n) in
      (rdma_resolve_addr e (questions n), ask n)
    end.

Definition priv_enter_init_resolution (n : neigh) : neigh * list (Z * Z) :=
  let '(ok, n) := entry_priv_enter_init_resolution n in
  if ok then
    let '(state, n) := priv_get_neigh_state n in
    match state with
    | Some state => if negb (priv_is_failed state) then (n, post EV_ARP_RESOLVED) else (n, [])
    | None => (n, [])
    end
  else (n, post EV_ERROR).

Definition priv_enter_addr_resolved (n : neigh) : neigh * list (Z * Z) :=
  let '(state, n) := priv_get_neigh_state n in
  match state with
  | Some state => if priv_is_reachable state then (n, post EV_ARP_RESOLVED) else (register_timer (send_arp n), [])
  | None => (register_timer (send_arp n), [])
  end.

Definition zero_all_members (n : neigh) : neigh :=
  match m_val n with Some _ => set_val (Some None) n | None => n end.

(** The part [priv_enter_not_active] and [priv_enter_error] share. *)
Definition leave_service (n : neigh) : neigh :=
  set_arp 0 true (priv_unregister_timer (priv_destroy_cma_id (set_state false n))).

Definition priv_enter_not_active (n : neigh) : neigh * list (Z * Z) :=
  let n := leave_service n in
  let n := foldl (fun n d => emit (Deleted d) (set_queue (tail (m_unsent_queue n)) n)) n (m_unsent_queue n) in
  (zero_all_members n, []).

Definition priv_enter_error (n : neigh) : neigh * list (Z * Z) :=
  let n := notify_observers (zero_all_members (leave_service n)) in
  if decide (m_unsent_queue n <> [] /\ m_err_counter n < neigh_num_err_retries c)
  then (set_err (u32 (m_err_counter n + 1)) n, post EV_KICK_START)
  else (set_err 0 n, post EV_ERROR).

(** [build_uc_neigh_val]: whether it returned 0. *)
Definition build_uc_neigh_val (n : neigh) : bool * neigh :=
  let n := match m_val n with None => set_val (Some None) n | Some _ => n end in
  let '(a, n) := priv_get_neigh_l2 n in
  match a with Some a => (true, set_val (Some (Some a)) n) | None => (false, n) end.

Definition entry_priv_enter_ready (n : neigh) : neigh :=
  let n := empty_unsent_queue (set_state true n) in
  if m_is_loopback c then n
  else
    let '(state, n) := priv_get_neigh_state n in
    match state with
    | Some state => if negb (priv_is_reachable state) then register_timer (send_arp n) else n
    | None => n
    end.

Definition priv_enter_ready (n : neigh) : neigh * list (Z * Z) :=
  let '(ok, n) := build_uc_neigh_val (priv_destroy_cma_id n) in
  if ok then (entry_priv_enter_ready n, []) else (n, post EV_ERROR).

(** ** The machine *)

Definition general_st_entry : cb := 0%nat.
Definition dofunc_enter_init : cb := 1%nat.
Definition dofunc_enter_init_resolution : cb := 2%nat.
Definition dofunc_enter_error : cb := 3%nat.
Definition dofunc_enter_not_active : cb := 4%nat.
Definition dofunc_enter_addr_resolved : cb := 5%nat.
Definition dofunc_enter_ready : cb := 6%nat.

Definition call (f : cb) (i : sm_info_t) (n : neigh) : neigh * list (Z * Z) :=
  match f with
  | 1%nat => priv_enter_init n
  | 2%nat => priv_enter_init_resolution n
  | 3%nat => priv_enter_error n
  | 4%nat => priv_enter_not_active n
  | 5%nat => priv_enter_addr_resolved n
  | 6%nat => priv_enter_ready n
  | _ => (n, [])
  end.

Definition print_event_info (state event : Z) (n : neigh) : neigh * list (Z * Z) := (n, []).

Definition short_sm_table : list sm_short_table_line_t :=
  [ Line ST_NOT_ACTIVE EV_KICK_START ST_INIT None;
    Line ST_ERROR EV_KICK_START ST_INIT None;
    Line ST_INIT EV_ARP_RESOLVED ST_READY None;
    Line ST_INIT EV_START_RESOLUTION ST_INIT_RESOLUTION None;
    Line ST_INIT_RESOLUTION EV_ADDR_RESOLVED ST_ADDR_RESOLVED None;
    Line ST_INIT_RESOLUTION EV_ARP_RESOLVED ST_READY None;
    Line ST_ADDR_RESOLVED EV_ARP_RESOLVED ST_READY None;
    Line ST_READY EV_ERROR ST_ERROR None;
    Line ST_INIT EV_ERROR ST_ERROR None;
    Line ST_INIT_RESOLUTION EV_ERROR ST_ERROR None;
    Line ST_ERROR EV_ERROR ST_NOT_ACTIVE None;
    Line ST_INIT SM_STATE_ENTRY SM_NO_ST (Some dofunc_enter_init);
    Line ST_INIT_RESOLUTION SM_STATE_ENTRY SM_NO_ST (Some dofunc_enter_init_resolution);
    Line ST_ERROR SM_STATE_ENTRY SM_NO_ST (Some dofunc_enter_error);
    Line ST_NOT_ACTIVE SM_STATE_ENTRY SM_NO_ST (Some dofunc_enter_not_active);
    Line ST_ADDR_RESOLVED SM_STATE_ENTRY SM_NO_ST (Some dofunc_enter_addr_resolved);
    Line ST_READY SM_STATE_ENTRY SM_NO_ST (Some dofunc_enter_ready);
    Line SM_NO_ST SM_NO_ST SM_NO_ST None ].

Abbreviation machine := (@state_machine neigh).

(** [event_handler] and [priv_event_handler_no_locks]. *)
Definition event_handler (fuel : nat) (ev : Z) (s : machine) : res machine :=
  if decide (ev = EV_UNHANDLED) then Ok s
  else bind (process_event call (Some print_event_info) fuel ev 0 s) (fun r => Ok r.2).

Definition priv_kick_start_sm (fuel : nat) (s : machine) : res machine := event_handler fuel EV_KICK_START s.

Definition new_neigh : neigh := Neigh None false [] 0 false 0 None true false 0 0 0 [] false false.

(** The constructor for a unicast peer. *)
Definition neigh_eth (fuel : nat) : res machine :=
  match ctor ST_NOT_ACTIVE ST_LAST EV_LAST short_sm_table (Some general_st_entry) None None new_neigh with
  | Some s => priv_kick_start_sm fuel s
  | None => UB
  end.

Definition upd (f : neigh -> neigh) (s : machine) : machine := set_app (f (app s)) s.

Definition is_deletable (s : machine) : bool :=
  bool_decide (get_curr_state s = ST_NOT_ACTIVE \/ get_curr_state s = ST_READY).

Definition clean_obj (s : machine) : machine :=
  if cleaned (app s) then s else upd (fun n => set_timers 0 (set_timer false (set_cleaned n))) s.

(** [send]: the packet is queued, and sent at once if the address is known. *)
Definition send (d : neigh_send_data) (s : machine) : Z * machine :=
  let s := upd (fun n => set_queue (m_unsent_queue n ++ [d]) n) s in
  (Z.of_nat (length (m_iov d)), if m_state (app s) then upd empty_unsent_queue s else s).

(** [get_peer_info]: the address it copies out, if any. *)
Definition valid_val (s : machine) : option (option l2) :=
  if m_state (app s) then m_val (app s) else None.

Definition get_peer_info (fuel : nat) (s : machine) : res (option (option l2) * machine) :=
  if m_state (app s) then Ok (valid_val s, s)
  else bind (if decide (get_curr_state s = ST_NOT_ACTIVE) then priv_kick_start_sm fuel s else Ok s)
         (fun s => Ok (valid_val s, s)).

(** [register_observer] after the observer is new. *)
Definition register_observer (fuel : nat) (s : machine) : res machine :=
  if negb (m_state (app s)) && bool_decide (get_curr_state s = ST_NOT_ACTIVE)
  then priv_kick_start_sm fuel s else Ok s.

(** Whether the address differs from the one known; then [EV_ERROR] is posted. *)
Definition priv_handle_neigh_is_l2_changed (fuel : nat) (new : l2) (s : machine) : res (bool * machine) :=
  let changed := bind (event_handler fuel EV_ERROR s) (fun s => Ok (true, s)) in
  match m_val (app s) with
  | Some (Some old) => if decide (old = new) then Ok (false, s) else changed
  | _ => changed
  end.

Definition arp_again (s : machine) : machine := upd (fun n => register_timer (send_arp n)) s.

Definition handle_timer_expired (fuel : nat) (s : machine) : res machine :=
  let s := upd (set_timer false) s in
  if decide (get_curr_state s = ST_INIT) then event_handler fuel EV_START_RESOLUTION s
  else
    let '(st, n) := priv_get_neigh_state (app s) in
    let s := set_app n s in
    match st with
    | None => Ok s
    | Some st =>
      let finish s := if negb (priv_is_reachable st) then arp_again s else s in
      if negb (priv_is_failed st) then
        let '(a, n) := priv_get_neigh_l2 (app s) in
        let s := set_app n s in
        match a with
        | None => Ok s
        | Some a =>
          bind (priv_handle_neigh_is_l2_changed fuel a s)
            (fun r => if r.1 then Ok r.2 else Ok (finish r.2))
        end
      else Ok (finish s)
    end.

(** A timer of the object expires: it is gone from the event handler. *)
Definition timer_expires (fuel : nat) (s : machine) : res machine :=
  match timers (app s) with
  | O => Ok s
  | S k => handle_timer_expired fuel (upd (set_timers k) s)
  end.

Definition priv_handle_neigh_reachable_event (n : neigh) : neigh :=
  priv_unregister_timer (set_arp 0 (m_is_first_send_arp n) n).

Definition handle_neigh_event (fuel : nat) (nl_info : netlink_neigh_info) (s : machine) : res machine :=
  let neigh_state := state nl_info in
  if decide (neigh_state = NUD_REACHABLE \/ neigh_state = NUD_PERMANENT) then
    let s := upd priv_handle_neigh_reachable_event s in
    if decide (get_curr_state s <> ST_READY) then event_handler fuel EV_ARP_RESOLVED s
    else bind (priv_handle_neigh_is_l2_changed fuel (lladdr nl_info) s) (fun r => Ok r.2)
  else if decide (neigh_state = NUD_STALE) then
    if decide (get_curr_state s <> ST_READY) then Ok s
    else bind (priv_handle_neigh_is_l2_changed fuel (lladdr nl_info) s)
           (fun r => if r.1 then Ok r.2 else Ok (arp_again r.2))
  else if decide (neigh_state = NUD_FAILED) then event_handler fuel EV_ERROR s
  else Ok s.

Inductive rdma_cm_event_type :=
  | RDMA_CM_EVENT_ADDR_RESOLVED | RDMA_CM_EVENT_MULTICAST_JOIN | RDMA_CM_EVENT_ROUTE_RESOLVED
  | RDMA_CM_EVENT_ADDR_ERROR | RDMA_CM_EVENT_MULTICAST_ERROR | RDMA_CM_EVENT_ROUTE_ERROR
  | RDMA_CM_EVENT_TIMEWAIT_EXIT | RDMA_CM_EVENT_OTHER.

Definition rdma_event_mapping (id : Z) (event : rdma_cm_event_type) (n : neigh) : Z :=
  if decide (m_cma_id n <> None /\ m_cma_id n <> Some id) then EV_UNHANDLED
  else match event with
       | RDMA_CM_EVENT_ADDR_RESOLVED => EV_ADDR_RESOLVED
       | RDMA_CM_EVENT_MULTICAST_JOIN | RDMA_CM_EVENT_ROUTE_RESOLVED => EV_PATH_RESOLVED
       | RDMA_CM_EVENT_ADDR_ERROR | RDMA_CM_EVENT_MULTICAST_ERROR | RDMA_CM_EVENT_ROUTE_ERROR
       | RDMA_CM_EVENT_TIMEWAIT_EXIT => EV_ERROR
       | RDMA_CM_EVENT_OTHER => EV_UNHANDLED
       end.

Definition handle_event_rdma_cm_cb (fuel : nat) (id : Z) (event : rdma_cm_event_type) (s : machine) : res machine :=
  event_handler fuel (rdma_event_mapping id event (app s)) s.
End neigh.

(** ** The table as a function

    What the short table says: the state an event leads to, and the action on
    entering a state. *)

Definition tbl : list sm_state_info_t :=
  Eval vm_compute in (process_sparse_table ST_LAST EV_LAST short_sm_table (Some general_st_entry) None None).2.

Definition target (st ev : Z) : option Z :=
  match st, ev with
  | 0, 0 => Some 1
  | 7, 0 => Some 1
  | 1, 2 => Some 6 | 2, 2 => Some 6 | 3, 2 => Some 6
  | 1, 1 => Some 2
  | 2, 3 => Some 3
  | 6, 5 => Some 7 | 1, 5 => Some 7 | 2, 5 => Some 7
  | 7, 5 => Some 0
  | _, _ => None
  end.

Section run.
Context (c : config) (e : env).

Definition entry (st : Z) (n : neigh) : neigh * list (Z * Z) :=
  match st with
  | 0 => priv_enter_not_active n
  | 1 => priv_enter_init c e n
  | 2 => priv_enter_init_resolution c e n
  | 3 => priv_enter_addr_resolved c e n
  | 6 => priv_enter_ready c e n
  | 7 => priv_enter_error c n
  | _ => (n, [])
  end.

(** One event: the new state, the neighbour and the events posted. *)
Definition nstep (st ev : Z) (n : neigh) : Z * neigh * list (Z * Z) :=
  match target st ev with
  | None => (st, n, [])
  | Some st' => (st', (entry st' n).1, (entry st' n).2)
  end.

(** All events that follow from one. *)
Fixpoint run (fuel : nat) (st ev : Z) (n : neigh) : option (Z * neigh) :=
  match fuel with
  | O => None
  | S fuel =>
    match nstep st ev n with
    | (st, n, []) => Some (st, n)
    | (st, n, (ev, _) :: _) => run fuel st ev n
    end
  end.

Definition at_rest (st : Z) (n : neigh) (s : @state_machine neigh) : Prop :=
  exists i, s = SM 8 8 tbl [] false i n /\ old_state i = st.

(** The table was accepted as it is. *)
Lemma tbl_accepted :
  process_sparse_table ST_LAST EV_LAST short_sm_table (Some general_st_entry) None None = (true, tbl).
Proof. by vm_compute. Qed.

Definition row_ok (st ev : Z) : Prop :=
  exists x, at_ tbl st = Ok x /\ leave_func x = None /\
    match target st ev with
    | None => at_ (event_info x) ev = Ok (EvInfo SM_ST_STAY None)
    | Some st' => at_ (event_info x) ev = Ok (EvInfo st' None) /\ st' <> st /\ st' <> SM_ST_STAY /\
        exists y, at_ tbl st' = Ok y /\
        forall i n, run_opt (call c e) (entry_func y) (SM 8 8 tbl [] true i n) =
                    run_callback (entry st' n) (SM 8 8 tbl [] true i n)
    end.

Lemma rows st ev : 0 <= st < 8 -> 0 <= ev < 8 -> row_ok st ev.
Proof.
  intros Hst Hev. assert (st = 0 \/ st = 1 \/ st = 2 \/ st = 3 \/ st = 4 \/ st = 5 \/ st = 6 \/ st = 7) as Hs by lia.
  assert (ev = 0 \/ ev = 1 \/ ev = 2 \/ ev = 3 \/ ev = 4 \/ ev = 5 \/ ev = 6 \/ ev = 7) as He by lia.
  destruct_or! Hs; destruct_or! He; subst; unfold row_ok; cbn [target]; eexists;
    repeat first [split; [reflexivity|] | split; [discriminate|] | reflexivity | eexists | intros].
Qed.

Lemma run_callback_eq (r : neigh * list (Z * Z)) t q i n :
  run_callback r (SM 8 8 t q true i n) = SM 8 8 t (q ++ r.2) true i r.1.
Proof.
  unfold run_callback, set_app. cbn [m_max_states m_max_events m_p_sm_table m_sm_fifo m_b_is_in_process m_info].
  revert q. induction r.2 as [|[ev d] l IH]; intros q; [by rewrite app_nil_r|].
  cbn [foldl]. etransitivity; [apply IH|]. by rewrite <- app_assoc.
Qed.

Lemma handle_step st ev d n i :
  0 <= st < 8 -> 0 <= ev < 8 -> old_state i = st ->
  let '(st', n', evs) := nstep st ev n in
  exists i', old_state i' = st' /\
    handle_event (call c e) (Some print_event_info) ev d (SM 8 8 tbl [] true i n) = Ok (SM 8 8 tbl evs true i' n').
Proof.
  intros Hst Hev Ei. destruct (rows st ev Hst Hev) as (x & Ex & El & H). unfold handle_event, nstep.
  unfold get_curr_state at 1. cbn [m_info m_p_sm_table bind]. rewrite Ei, Ex. cbn [bind].
  destruct (target st ev) as [st'|].
  - destruct H as (Ee & Hne & Hstay & y & Ey & Hrun). rewrite Ee. cbn [bind next_state trans_func].
    unfold set_info, get_curr_state. cbn [m_max_states m_max_events m_p_sm_table m_sm_fifo m_b_is_in_process m_info app].
    rewrite !run_callback_eq. cbn [print_event_info fst snd]. change ([] ++ []) with (@nil (Z * Z)).
    cbn [m_info old_state m_p_sm_table]. rewrite !Ei. rewrite !bool_decide_true by done.
    rewrite ?El. cbn [run_opt m_p_sm_table]. rewrite Ey. cbn [bind].
    rewrite !Hrun, !run_callback_eq.
    cbn [m_max_states m_max_events m_p_sm_table m_sm_fifo m_b_is_in_process m_info Sm.app].
    eexists. split; [|reflexivity]. reflexivity.
  - rewrite H. cbn [bind next_state trans_func].
    unfold set_info, get_curr_state. cbn [m_max_states m_max_events m_p_sm_table m_sm_fifo m_b_is_in_process m_info app].
    rewrite !run_callback_eq. cbn [print_event_info fst snd]. change ([] ++ []) with (@nil (Z * Z)).
    cbn [m_info old_state m_p_sm_table]. rewrite !Ei. rewrite !bool_decide_false by tauto.
    cbn [run_opt]. eexists. split; [|done]. done.
Qed.

Lemma process_step fuel st ev d n i :
  0 <= st < 8 -> 0 <= ev < 8 -> old_state i = st ->
  let '(st', n', evs) := nstep st ev n in
  exists i', old_state i' = st' /\
    process_event (call c e) (Some print_event_info) (S fuel) ev d (SM 8 8 tbl [] false i n) =
    match evs with
    | [] => Ok (0, SM 8 8 tbl [] false i' n')
    | (ev', d') :: q =>
      bind (process_event (call c e) (Some print_event_info) fuel ev' d' (SM 8 8 tbl q false i' n'))
        (fun r => Ok (0, r.2))
    end.
Proof.
  intros Hst Hev Ei. pose proof (handle_step st ev d n i Hst Hev Ei) as H.
  destruct (nstep st ev n) as [[st' n'] evs]. destruct H as (i' & Ei' & E). exists i'. split; [done|].
  cbn [process_event lock_in_process m_b_is_in_process set_in_process m_max_states m_max_events
       m_p_sm_table m_sm_fifo m_info Sm.app].
  rewrite decide_False, decide_False by lia.
  change (set_in_process true (SM 8 8 tbl [] false i n)) with (SM 8 8 tbl [] true i n). rewrite E. cbn [bind].
  unfold set_in_process, set_fifo. cbn [m_max_states m_max_events m_p_sm_table m_sm_fifo m_info Sm.app].
  destruct evs as [|[ev' d'] q]; [done|].
  cbn [m_max_states m_max_events m_p_sm_table m_sm_fifo m_info Sm.app m_b_is_in_process].
  by destruct (process_event _ _ fuel ev' d' _).
Qed.

(** Events and states stay in their ranges, and an action posts at most one. *)
Definition one_event (l : list (Z * Z)) : Prop := l = [] \/ exists ev, l = [(ev, 0)] /\ 0 <= ev < 7.

Lemma post_one ev : 0 <= ev < 7 -> one_event (post ev).
Proof. intros H. right. by exists ev. Qed.

Ltac one := first [by left | by apply post_one].

Lemma entry_one st n : one_event (entry st n).2.
Proof.
  assert (one_event (priv_enter_init c e n).2) as H1.
  { unfold priv_enter_init. destruct (priv_get_neigh_state c e n) as [[s|] n']; cbn; [case_match|]; one. }
  assert (one_event (priv_enter_init_resolution c e n).2) as H2.
  { unfold priv_enter_init_resolution. destruct (entry_priv_enter_init_resolution c e n) as [[] n0]; [|one].
    destruct (priv_get_neigh_state c e n0) as [[s|] n']; cbn; [case_match|]; one. }
  assert (one_event (priv_enter_addr_resolved c e n).2) as H3.
  { unfold priv_enter_addr_resolved. destruct (priv_get_neigh_state c e n) as [[s|] n']; cbn; [case_match|]; one. }
  assert (one_event (priv_enter_ready c e n).2) as H6.
  { unfold priv_enter_ready. destruct (build_uc_neigh_val c e _) as [[] n']; one. }
  assert (one_event (priv_enter_error c n).2) as H7 by (unfold priv_enter_error; case_decide; one).
  unfold entry. repeat case_match; first [done|one].
Qed.

Lemma target_range st ev st' : target st ev = Some st' -> 0 <= st' < 8.
Proof. unfold target. repeat case_match; intros [= <-]; lia. Qed.

(** The machine does what [run] says. *)
Lemma event_handler_run fuel st ev n st' n' s :
  at_rest st n s -> 0 <= st < 8 -> 0 <= ev < 7 -> run fuel st ev n = Some (st', n') ->
  exists s', event_handler c e fuel ev s = Ok s' /\ at_rest st' n' s'.
Proof.
  intros (i & -> & Ei) Hst Hev Hrun. unfold event_handler. rewrite decide_False by (unfold EV_UNHANDLED; lia).
  enough (exists r i', process_event (call c e) (Some print_event_info) fuel ev 0 (SM 8 8 tbl [] false i n) =
    Ok (r, SM 8 8 tbl [] false i' n') /\ old_state i' = st') as (r & i' & -> & E).
  { eexists. split; [done|]. by exists i'. }
  revert st ev n i Ei Hst Hev Hrun. induction fuel as [|fuel IH]; intros st ev n i Ei Hst Hev Hrun; [done|].
  pose proof (process_step fuel st ev 0 n i Hst ltac:(lia) Ei) as H. cbn [run] in Hrun.
  destruct (nstep st ev n) as [[st1 n1] evs] eqn:En. destruct H as (i1 & Ei1 & ->).
  assert (one_event evs /\ 0 <= st1 < 8) as [Hevs Hst1].
  { unfold nstep in En. destruct (target st ev) as [t|] eqn:Et; simplify_eq; [|split; [by left|lia]].
    split; [apply entry_one|by eapply target_range]. }
  destruct Hevs as [->|(ev' & -> & Hev')].
  - injection Hrun as <- <-. by eexists _, _.
  - destruct (IH st1 ev' n1 i1 Ei1 Hst1 Hev' Hrun) as (r & i' & -> & E). by eexists _, _.
Qed.

(** ** What is kept

    The packets in the trace, in order. *)
Definition packet (o : out) : option neigh_send_data :=
  match o with Arp _ => None | TxUdp d _ _ | TxTcp d _ _ _ | Deleted d => Some d end.
Definition packets (l : list out) : list neigh_send_data := omap packet l.

(** An address the kernel has given for the peer, or the device's own. *)
Definition known (a : l2) : Prop :=
  if m_is_loopback c then a = l2_address c
  else exists q info, get_neigh e q = Some info /\ priv_is_failed (state info) = false /\ a = lladdr info.

Definition out_ok (o : out) : Prop :=
  match o with TxUdp _ dst _ | TxTcp _ dst _ _ => known dst | _ => True end.

(** Only ARP requests went out and only timers were added. *)
Definition quiet (n n' : neigh) : Prop :=
  m_state n' = m_state n /\ m_unsent_queue n' = m_unsent_queue n /\ m_err_counter n' = m_err_counter n /\
  m_val n' = m_val n /\ cleaned n' = cleaned n /\ (timers n <= timers n')%nat /\ crash n' = crash n /\
  exists l, trace n' = trace n ++ l /\ packets l = [] /\ Forall out_ok l.

#[local] Instance quiet_preorder : PreOrder quiet.
Proof.
  split.
  - intros n. split_and!; try done. exists []. by rewrite app_nil_r.
  - intros n1 n2 n3 (E1 & E2 & E3 & E4 & E5 & E6 & E7 & l & El & Hl & Hok)
      (F1 & F2 & F3 & F4 & F5 & F6 & F7 & k & Ek & Hk & Hok').
    split_and!; try congruence; [lia|]. exists (l ++ k).
    rewrite Ek, El, app_assoc. unfold packets in *. rewrite omap_app, Hl, Hk.
    split_and!; [done|done|by apply Forall_app].
Qed.

Lemma quiet_intro n n' l :
  m_state n' = m_state n -> m_unsent_queue n' = m_unsent_queue n -> m_err_counter n' = m_err_counter n ->
  m_val n' = m_val n -> cleaned n' = cleaned n -> (timers n <= timers n')%nat -> crash n' = crash n ->
  trace n' = trace n ++ l -> packets l = [] -> Forall out_ok l -> quiet n n'.
Proof. intros. split_and!; eauto. Qed.

Ltac quiet_same := apply (quiet_intro _ _ []); simpl; rewrite ?app_nil_r; try done; try lia.

Lemma quiet_ask n : quiet n (ask n).
Proof. quiet_same. Qed.
Lemma quiet_get_state n : quiet n (priv_get_neigh_state c e n).2.
Proof. unfold priv_get_neigh_state. case_match; [done|apply quiet_ask]. Qed.
Lemma quiet_get_l2 n : quiet n (priv_get_neigh_l2 c e n).2.
Proof. unfold priv_get_neigh_l2. case_match; [done|apply quiet_ask]. Qed.
Lemma quiet_destroy n : quiet n (priv_destroy_cma_id n).
Proof. unfold priv_destroy_cma_id. case_match; [quiet_same|done]. Qed.
Lemma quiet_unregister n : quiet n (priv_unregister_timer n).
Proof. unfold priv_unregister_timer. case_match; [quiet_same|done]. Qed.
Lemma quiet_register n : quiet n (register_timer n).
Proof. unfold register_timer. case_match; quiet_same. Qed.

Lemma quiet_send_arp n : quiet n (send_arp c e n).
Proof.
  unfold send_arp, post_send_arp.
  destruct (bool_decide (m_arp_counter n >= neigh_uc_arp_quata c) || m_is_first_send_arp n ||
    match m_val n with Some _ => false | None => true end) eqn:Eb.
  - destruct (mem_buf_tx_get _ _ _); [|apply quiet_ask]. by apply (quiet_intro _ _ [Arp (br_address c)]); repeat constructor.
  - destruct (m_val n) as [[a|]|] eqn:Ev.
    + destruct (mem_buf_tx_get _ _ _); [|apply quiet_ask]. by apply (quiet_intro _ _ [Arp a]); repeat constructor.
    + quiet_same.
    + by rewrite orb_true_r in Eb.
Qed.

Lemma quiet_arp_again n : quiet n (register_timer (send_arp c e n)).
Proof. etransitivity; [apply quiet_send_arp|apply quiet_register]. Qed.

Lemma get_l2_known n a : (priv_get_neigh_l2 c e n).1 = Some a -> known a.
Proof.
  unfold priv_get_neigh_l2, known. case_match; [by intros [= <-]|]. cbn.
  destruct (get_neigh e (questions n)) as [info|] eqn:E; [|done]. destruct (priv_is_failed _) eqn:Ef; [done|].
  intros [= <-]. by exists (questions n), info.
Qed.

(** A packet that may be queued: its route's MTU has room for the headers. *)
Definition data_ok (d : neigh_send_data) : Prop := 28 <= m_mtu d < 2 ^ 32.

(** Of the packets [acc] accepted so far the first ones left, in order, and the
    rest is queued; packets went to known addresses only. *)
Definition kept (acc : list neigh_send_data) (n : neigh) : Prop :=
  crash n = false /\ packets (trace n) ++ m_unsent_queue n = acc /\ Forall data_ok (m_unsent_queue n) /\
  Forall out_ok (trace n) /\ (forall a, m_val n = Some (Some a) -> known a).

Lemma kept_quiet acc n n' : quiet n n' -> kept acc n -> kept acc n'.
Proof.
  intros (E1 & E2 & E3 & E4 & E5 & E6 & E7 & l & El & Hl & Hok) (H1 & H2 & H3 & H4 & H5).
  unfold kept, packets in *. rewrite E2, E4, E7, El, omap_app, Hl, app_nil_r.
  split_and!; try done. by apply Forall_app.
Qed.

(** The fields that sending packets leaves alone. *)
Definition same (n n' : neigh) : Prop :=
  m_state n' = m_state n /\ m_err_counter n' = m_err_counter n /\ m_val n' = m_val n /\
  cleaned n' = cleaned n /\ timers n' = timers n.

#[local] Instance same_preorder : PreOrder same.
Proof.
  split; [done|]. unfold same. intros n1 n2 n3 (? & ? & ? & ? & ?) (? & ? & ? & ? & ?). split_and!; congruence.
Qed.

(** [n'] is [n] after one more action that disposes of packet [d]. *)
Definition sends (d : neigh_send_data) (n n' : neigh) : Prop :=
  same n n' /\ crash n' = crash n /\ m_unsent_queue n' = m_unsent_queue n /\
  exists o, trace n' = trace n ++ [o] /\ packet o = Some d /\ out_ok o.

Lemma post_send_udp_defined get h iov mtu :
  28 <= mtu < 2 ^ 32 -> UdpSend.post_send_udp get h iov mtu <> None.
Proof.
  intros Hm. unfold UdpSend.post_send_udp, UdpSend.sizeof_iphdr.
  rewrite (wrap_small 64 (mtu - 20)) by lia. rewrite UdpSend.land_m8.
  pose proof (Z.div_mod (mtu - 20) 8 ltac:(lia)). pose proof (Z.mod_pos_bound (mtu - 20) 8 ltac:(lia)).
  case_decide; [done|]. rewrite (decide_False (P := _ /\ _)) by (intros [_ ?]; lia).
  destruct (negb (get _)); [done|]. by destruct (UdpSend.frag_loop _ _ _ _ _ _ _ _ _).
Qed.

Lemma sends_emit d o n : packet o = Some d -> out_ok o -> sends d n (emit o n).
Proof. intros Hp Ho. split_and!; try done. by exists o. Qed.
Lemma sends_emit_ask d o n : packet o = Some d -> out_ok o -> sends d n (emit o (ask n)).
Proof. intros Hp Ho. split_and!; try done. by exists o. Qed.

Lemma post_send_packet_sends d dst n : data_ok d -> known dst -> sends d n (post_send_packet c e d dst n).
Proof.
  intros Hd Hk. unfold post_send_packet. repeat case_decide.
  - pose proof (post_send_udp_defined (mem_buf_tx_get e (questions n)) (configure_l2 c (m_header d)) (m_iov d) _ Hd) as Hdef.
    destruct (UdpSend.post_send_udp _ _ _ _) as [[ok fs]|]; [|done].
    destruct fs; [destruct ok|]; by apply sends_emit_ask.
  - unfold post_send_tcp. destruct (mem_buf_tx_get _ _ _); by apply sends_emit_ask.
  - by apply sends_emit.
Qed.

Lemma kept_sends acc d q n n' :
  kept acc n -> m_unsent_queue n = d :: q -> sends d n n' -> kept acc (set_queue q n').
Proof.
  intros (H1 & H2 & H3 & H4 & H5) Eq ((_ & _ & Ev & _) & Ec & _ & o & Et & Hp & Ho).
  unfold kept, packets in *. simpl. rewrite Ec, Et, Ev, omap_app. simpl. rewrite Hp. rewrite Eq in *.
  split_and!; [done| | |apply Forall_app; split; [done|by constructor]|done].
  - by rewrite <- H2, <- app_assoc.
  - by inversion H3.
Qed.

Lemma send_one_spec acc a n d q :
  kept acc n -> m_val n = Some (Some a) -> m_unsent_queue n = d :: q ->
  kept acc (send_one c e n d) /\ same n (send_one c e n d) /\ m_unsent_queue (send_one c e n d) = q.
Proof.
  intros Hk Ev Eq. unfold send_one, prepare_to_send_packet. rewrite Ev.
  pose proof Hk as (_ & _ & Hd & _ & Ha). rewrite Eq in Hd. apply list.Forall_cons in Hd as [Hd _].
  pose proof (post_send_packet_sends d a n Hd (Ha a Ev)) as Hs.
  pose proof Hs as (Hsame & _ & Equeue & _). rewrite Equeue, Eq. cbn [tail].
  split_and!; [by eapply kept_sends|done|done].
Qed.

Lemma empty_unsent_queue_spec acc a n :
  kept acc n -> m_val n = Some (Some a) ->
  kept acc (empty_unsent_queue c e n) /\ same n (empty_unsent_queue c e n) /\
  m_unsent_queue (empty_unsent_queue c e n) = [].
Proof.
  unfold empty_unsent_queue. remember (m_unsent_queue n) as q eqn:Eq. symmetry in Eq.
  revert n Eq. induction q as [|d q IH]; intros n Eq Hk Ev; [done|]. cbn [foldl].
  destruct (send_one_spec acc a n d q Hk Ev Eq) as (Hk' & Hs & Eq').
  destruct (IH _ Eq' Hk') as (H1 & H2 & H3).
  { by destruct Hs as (_ & _ & -> & _). }
  split_and!; [done|by etransitivity|done].
Qed.

(** ** The entry actions *)

Definition armed (n : neigh) : Prop := cleaned n = true \/ (1 <= timers n)%nat.

Lemma armed_register n : armed (register_timer n).
Proof. unfold register_timer, armed. destruct (cleaned n) eqn:E; simpl; [by left|right; lia]. Qed.

Lemma enter_init_spec n n' evs :
  priv_enter_init c e n = (n', evs) -> quiet n n' /\ (evs = post EV_ARP_RESOLVED \/ evs = [] /\ armed n').
Proof.
  unfold priv_enter_init, entry_priv_enter_init. pose proof (quiet_get_state n) as Hq.
  destruct (priv_get_neigh_state c e n) as [[s|] n0]; cbn in *; [case_match|]; intros [= <- <-].
  1: by split; [|left].
  all: split; [etransitivity; [done|apply quiet_register]|right; split; [done|apply armed_register]].
Qed.

Lemma enter_init_resolution_spec n n' evs :
  priv_enter_init_resolution c e n = (n', evs) ->
  quiet n n' /\ (evs = [] \/ evs = post EV_ARP_RESOLVED \/ evs = post EV_ERROR).
Proof.
  unfold priv_enter_init_resolution.
  assert (quiet n (entry_priv_enter_init_resolution c e n).2) as Hq.
  { unfold entry_priv_enter_init_resolution. case_match; [done|].
    etransitivity; [apply quiet_destroy|]. case_match; [|apply quiet_ask]. quiet_same. }
  destruct (entry_priv_enter_init_resolution c e n) as [[] n0]; cbn in *; [|intros [= <- <-]; auto].
  pose proof (quiet_get_state n0) as Hq2. destruct (priv_get_neigh_state c e n0) as [[s|] n1]; cbn in *;
    [case_match|]; intros [= <- <-]; (split; [by etransitivity|auto]).
Qed.

Lemma enter_addr_resolved_spec n n' evs :
  priv_enter_addr_resolved c e n = (n', evs) -> quiet n n' /\ (evs = [] \/ evs = post EV_ARP_RESOLVED).
Proof.
  unfold priv_enter_addr_resolved. pose proof (quiet_get_state n) as Hq.
  destruct (priv_get_neigh_state c e n) as [[s|] n0]; cbn in *; [case_match|]; intros [= <- <-].
  1: by split; [|right].
  all: split; [etransitivity; [done|apply quiet_arp_again]|by left].
Qed.

(** In service: the address is known and nothing waits. *)
Definition serving (n : neigh) : Prop :=
  m_state n = true /\ m_unsent_queue n = [] /\ exists a, m_val n = Some (Some a).

Lemma entry_enter_ready_spec acc a n :
  kept acc n -> m_val n = Some (Some a) ->
  let n' := entry_priv_enter_ready c e n in
  kept acc n' /\ serving n' /\ m_err_counter n' = m_err_counter n.
Proof.
  intros Hk Ev. unfold entry_priv_enter_ready.
  destruct (empty_unsent_queue_spec acc a (set_state true n)) as (Hk1 & (E1 & E2 & E3 & _) & Eq); [done|done|].
  set (n1 := empty_unsent_queue c e (set_state true n)) in *.
  assert (serving n1 /\ m_err_counter n1 = m_err_counter n) as [Hs1 He1].
  { split; [|done]. split_and!; [done|done|]. rewrite E3. by exists a. }
  assert (forall n2, quiet n1 n2 -> kept acc n2 /\ serving n2 /\ m_err_counter n2 = m_err_counter n) as Hgo.
  { intros n2 Hq. split; [by eapply kept_quiet|]. destruct Hq as (F1 & F2 & F3 & F4 & _).
    unfold serving. rewrite F1, F2, F3, F4. by split. }
  case_match; [by split_and!|].
  pose proof (quiet_get_state n1) as Hq. destruct (priv_get_neigh_state c e n1) as [[s|] n2]; cbn in *; [case_match|];
    apply Hgo; try done. etransitivity; [done|apply quiet_arp_again].
Qed.

Lemma kept_val acc n v : kept acc n -> (forall a, v = Some (Some a) -> known a) -> kept acc (set_val v n).
Proof. intros (? & ? & ? & ? & _) Hv. by split_and!. Qed.

Lemma enter_ready_spec acc n n' evs :
  kept acc n -> m_state n = false -> priv_enter_ready c e n = (n', evs) ->
  kept acc n' /\ m_err_counter n' = m_err_counter n /\
  (evs = [] /\ serving n' \/ evs = post EV_ERROR /\ m_state n' = false).
Proof.
  intros Hk Hs. unfold priv_enter_ready, build_uc_neigh_val.
  pose proof (quiet_destroy n) as Hq. pose proof (kept_quiet acc _ _ Hq Hk) as Hk1.
  destruct Hq as (F1 & _ & F3 & _). set (n1 := priv_destroy_cma_id n) in *.
  set (n2 := match m_val n1 with Some _ => n1 | None => set_val (Some None) n1 end).
  assert (kept acc n2 /\ m_state n2 = false /\ m_err_counter n2 = m_err_counter n) as (Hk2 & Hs2 & He2).
  { unfold n2. case_match; [split_and!; congruence || done|].
    split_and!; [by apply kept_val|simpl; congruence|simpl; congruence]. }
  clearbody n2. pose proof (quiet_get_l2 n2) as Hq2. pose proof (get_l2_known n2) as Hkn.
  destruct (priv_get_neigh_l2 c e n2) as [[a|] n3]; cbn in *; pose proof (kept_quiet acc _ _ Hq2 Hk2) as Hk3;
    destruct Hq2 as (G1 & _ & G3 & _); intros [= <- <-].
  - destruct (entry_enter_ready_spec acc a (set_val (Some (Some a)) n3)) as (H1 & H2 & H3); [|done|].
    { apply kept_val; [done|]. intros a' [= <-]. by apply Hkn. }
    cbn in H3. split_and!; [done|congruence|by left].
  - split_and!; [done|congruence|right; split; congruence].
Qed.

Lemma leave_service_spec acc n :
  kept acc n ->
  let n' := leave_service n in
  kept acc n' /\ m_state n' = false /\ m_err_counter n' = m_err_counter n /\ m_unsent_queue n' = m_unsent_queue n.
Proof.
  intros Hk. unfold leave_service.
  assert (quiet (set_state false n) (priv_unregister_timer (priv_destroy_cma_id (set_state false n)))) as Hq.
  { etransitivity; [apply quiet_destroy|apply quiet_unregister]. }
  set (n1 := priv_unregister_timer _) in *. assert (kept acc n1) as Hk1 by (by eapply kept_quiet).
  destruct Hq as (F1 & F2 & F3 & _). by split_and!.
Qed.

Lemma zero_spec acc n :
  kept acc n -> kept acc (zero_all_members n) /\ m_state (zero_all_members n) = m_state n /\
  m_err_counter (zero_all_members n) = m_err_counter n /\ m_unsent_queue (zero_all_members n) = m_unsent_queue n.
Proof. intros Hk. unfold zero_all_members. case_match; split_and!; try done. by apply kept_val. Qed.

Lemma enter_error_spec acc n n' evs :
  kept acc n -> priv_enter_error c n = (n', evs) ->
  kept acc n' /\ m_state n' = false /\
  (evs = post EV_KICK_START /\ m_err_counter n < neigh_num_err_retries c /\ m_err_counter n' = u32 (m_err_counter n + 1) \/
   evs = post EV_ERROR /\ m_err_counter n' = 0).
Proof.
  intros Hk. unfold priv_enter_error. destruct (leave_service_spec acc n Hk) as (H1 & H2 & H3 & H4).
  set (n1 := leave_service n) in *. destruct (zero_spec acc n1 H1) as (G1 & G2 & G3 & G4).
  set (n2 := zero_all_members n1) in *. case_decide as Hd; intros [= <- <-]; split_and!; try (simpl; congruence).
  1, 3: exact G1.
  - left. simpl in *. rewrite G3, H3 in *. split_and!; [done|apply Hd|done].
  - by right.
Qed.

Lemma enter_not_active_spec acc n n' evs :
  kept acc n -> priv_enter_not_active n = (n', evs) ->
  kept acc n' /\ m_state n' = false /\ m_err_counter n' = m_err_counter n /\ evs = [].
Proof.
  intros Hk. unfold priv_enter_not_active. destruct (leave_service_spec acc n Hk) as (H1 & H2 & H3 & H4).
  set (n1 := leave_service n) in *. intros [= <- <-].
  assert (forall l n1, m_unsent_queue n1 = l -> kept acc n1 -> m_state n1 = false ->
    let n2 := foldl (fun n d => emit (Deleted d) (set_queue (tail (m_unsent_queue n)) n)) n1 l in
    kept acc n2 /\ m_state n2 = false /\ m_err_counter n2 = m_err_counter n1) as Hfold.
  { clear. induction l as [|d l IH]; intros n Eq Hk Hs; [done|]. cbn [foldl].
    destruct (IH (emit (Deleted d) (set_queue (tail (m_unsent_queue n)) n))) as (H1 & H2 & H3).
    - simpl. by rewrite Eq.
    - rewrite Eq. cbn [tail].
      change (emit (Deleted d) (set_queue l n)) with (set_queue l (emit (Deleted d) n)).
      eapply kept_sends; [done|done|by apply sends_emit].
    - done.
    - by split_and!. }
  destruct (Hfold _ n1 eq_refl H1 H2) as (G1 & G2 & G3). cbn beta in *.
  set (n2 := foldl _ n1 _) in *. destruct (zero_spec acc n2 G1) as (K1 & K2 & K3 & _).
  split_and!; [done|congruence|congruence|done].
Qed.

(** ** The machine comes to rest *)

(** At rest: the states in which the machine waits.  It is in [ST_READY] exactly
    when the address is valid, and then nothing waits; in [ST_INIT] a timer is
    pending. *)
Definition Inv (st : Z) (n : neigh) : Prop :=
  (st = ST_NOT_ACTIVE \/ st = ST_INIT \/ st = ST_INIT_RESOLUTION \/ st = ST_ADDR_RESOLVED \/ st = ST_READY) /\
  (m_state n = true <-> st = ST_READY) /\ (st = ST_READY -> serving n) /\ (st = ST_INIT -> armed n) /\
  0 <= m_err_counter n.

(** Between two events of a run. *)
Definition ready_for (st ev : Z) (n : neigh) : Prop :=
  0 <= m_err_counter n /\ (m_state n = true -> st = ST_READY) /\ (target st ev = None -> Inv st n).

(** The events a run can still take: every failed resolution is retried at most
    [neigh_num_err_retries] times. *)
Definition cost (st ev : Z) (n : neigh) : nat :=
  let r := Z.to_nat (neigh_num_err_retries c - m_err_counter n) in
  if decide (st = ST_ERROR /\ ev = EV_ERROR) then 1
  else if decide (ev = EV_ERROR) then 2 + 3 * r
  else if decide (ev = EV_ARP_RESOLVED) then 3 + 3 * r
  else 4 + 3 * r.

Hypothesis retries_word : 0 <= neigh_num_err_retries c < 2 ^ 32.

Lemma inv_false st n :
  st = ST_NOT_ACTIVE \/ st = ST_INIT \/ st = ST_INIT_RESOLUTION \/ st = ST_ADDR_RESOLVED ->
  m_state n = false -> 0 <= m_err_counter n -> (st = ST_INIT -> armed n) -> Inv st n.
Proof.
  intros Hst Hs He Ha. unfold Inv, ST_NOT_ACTIVE, ST_INIT, ST_INIT_RESOLUTION, ST_ADDR_RESOLVED, ST_READY in *.
  rewrite Hs. split_and!; try done; lia.
Qed.

(** What is left after entering a state. *)
Definition rest_cost (st : Z) (n : neigh) : nat :=
  let r := Z.to_nat (neigh_num_err_retries c - m_err_counter n) in
  match st with 0 => 0 | 6 => 2 + 3 * r | 7 => 1 + 3 * r | _ => 3 + 3 * r end.

Ltac costs :=
  unfold cost, rest_cost, ST_READY, ST_ERROR, EV_KICK_START, EV_ARP_RESOLVED, EV_ERROR in *;
  repeat case_decide; lia.

Lemma target_spec st ev st' n :
  target st ev = Some st' ->
  (S (rest_cost st' n) <= cost st ev n)%nat /\ (st = ST_READY -> st' = ST_ERROR) /\
  (st' = 0 \/ st' = 1 \/ st' = 2 \/ st' = 3 \/ st' = 6 \/ st' = 7).
Proof using.
  unfold target. repeat case_match; intros [= <-]; subst; split_and!; intros; try costs.
Qed.

Lemma ready_false st ev n :
  0 <= m_err_counter n -> m_state n = false -> is_Some (target st ev) -> ready_for st ev n.
Proof using. intros He Hm [t Ht]. split_and!; [done|by rewrite Hm|by rewrite Ht]. Qed.

Lemma cost_same st ev n n' : m_err_counter n' = m_err_counter n -> cost st ev n' = cost st ev n.
Proof using. intros E. unfold cost. by rewrite E. Qed.

Lemma entered st n n' evs acc :
  kept acc n -> 0 <= m_err_counter n -> (m_state n = true -> st = ST_ERROR) ->
  st = 0 \/ st = 1 \/ st = 2 \/ st = 3 \/ st = 6 \/ st = 7 -> entry st n = (n', evs) ->
  kept acc n' /\ (evs = [] /\ Inv st n' \/
    exists ev, evs = post ev /\ ready_for st ev n' /\ (cost st ev n' <= rest_cost st n)%nat).
Proof using retries_word.
  intros Hk He Hm Hst E. unfold ST_ERROR in Hm.
  assert (st <> 7 -> m_state n = false) as Hm' by (destruct (m_state n); [intros []; auto|done]).
  destruct_or! Hst; subst st; cbn [entry] in E.
  - destruct (enter_not_active_spec acc n n' evs Hk E) as (Hk' & Hs & He' & ->). split; [done|]. left.
    split; [done|]. apply inv_false; [by left|done|congruence|done].
  - destruct (enter_init_spec n n' evs E) as [Hq Hev]. split; [by eapply kept_quiet|].
    destruct Hq as (F1 & _ & F3 & _). rewrite Hm' in F1 by done. rewrite <- F3 in He.
    destruct Hev as [->|[-> Ha]]; [right; eexists; split; [done|]|left; split; [done|]].
    + split; [by apply ready_false|]. rewrite (cost_same _ _ _ _ F3). costs.
    + apply inv_false; [by right; left|done|done|done].
  - destruct (enter_init_resolution_spec n n' evs E) as [Hq Hev]. split; [by eapply kept_quiet|].
    destruct Hq as (F1 & _ & F3 & _). rewrite Hm' in F1 by done. rewrite <- F3 in He.
    destruct Hev as [->|[->| ->]]; [left; split; [done|]|right; eexists; split; [done|]..].
    + apply inv_false; [by do 2 right; left|done|done|done].
    + split; [by apply ready_false|]. rewrite (cost_same _ _ _ _ F3). costs.
    + split; [by apply ready_false|]. rewrite (cost_same _ _ _ _ F3). costs.
  - destruct (enter_addr_resolved_spec n n' evs E) as [Hq Hev]. split; [by eapply kept_quiet|].
    destruct Hq as (F1 & _ & F3 & _). rewrite Hm' in F1 by done. rewrite <- F3 in He.
    destruct Hev as [->| ->]; [left; split; [done|]|right; eexists; split; [done|]].
    + apply inv_false; [by do 3 right|done|done|done].
    + split; [by apply ready_false|]. rewrite (cost_same _ _ _ _ F3). costs.
  - destruct (enter_ready_spec acc n n' evs Hk) as (Hk' & F3 & Hev); [by apply Hm'|done|]. split; [done|].
    rewrite <- F3 in He. destruct Hev as [[-> Hsv]|[-> Hs]]; [left; split; [done|]|right; eexists; split; [done|]].
    + unfold Inv, ST_NOT_ACTIVE, ST_INIT, ST_INIT_RESOLUTION, ST_ADDR_RESOLVED, ST_READY.
      split_and!; try done; [lia|]. by destruct Hsv as (-> & _).
    + split; [by apply ready_false|]. rewrite (cost_same _ _ _ _ F3). costs.
  - destruct (enter_error_spec acc n n' evs Hk E) as (Hk' & Hs & Hev). split; [done|]. right.
    destruct Hev as [(-> & Hlt & Ee)|(-> & Ee)]; eexists; (split; [done|]).
    + rewrite wrap_small in Ee by lia. split; [apply ready_false; [lia|done|done]|].
      costs.
    + split; [apply ready_false; [lia|done|done]|]. costs.
Qed.

Lemma run_rests fuel st ev n acc :
  ready_for st ev n -> kept acc n -> (cost st ev n <= fuel)%nat ->
  exists st' n', run fuel st ev n = Some (st', n') /\ Inv st' n' /\ kept acc n'.
Proof using retries_word.
  revert st ev n. induction fuel as [|fuel IH]; intros st ev n (He & Hs & HI) Hk Hc.
  { unfold cost in Hc. repeat case_decide; lia. }
  destruct (target st ev) as [st'|] eqn:Et.
  2: { exists st, n. cbn [run]. unfold nstep. rewrite Et. split_and!; [done|by apply HI|done]. }
  destruct (target_spec st ev st' n Et) as (Hcost & Hready & Hset).
  destruct (entry st' n) as [n' evs] eqn:Ee. cbn [run]. unfold nstep. rewrite Et, Ee. cbn [fst snd].
  destruct (entered st' n n' evs acc Hk He) as (Hk' & [[-> HI']|(ev' & -> & Hr & Hc')]); try done.
  - intros Hm. by apply Hready, Hs.
  - by exists st', n'.
  - cbn. apply IH; [done|done|lia].
Qed.

(** ** Sequences of operations *)

Inductive op :=
  | OSend (d : neigh_send_data)
  | ONetlink (info : netlink_neigh_info)
  | OTimer
  | ORdma (id : Z) (event : rdma_cm_event_type)
  | OPeerInfo
  | OObserver
  | OClean.

Definition apply_op (fuel : nat) (o : op) (s : @state_machine neigh) : res (@state_machine neigh) :=
  match o with
  | OSend d => Ok (send c e d s).2
  | ONetlink info => handle_neigh_event c e fuel info s
  | OTimer => timer_expires c e fuel s
  | ORdma id ev => handle_event_rdma_cm_cb c e fuel id ev s
  | OPeerInfo => bind (get_peer_info c e fuel s) (fun r => Ok r.2)
  | OObserver => register_observer c e fuel s
  | OClean => Ok (clean_obj s)
  end.

Fixpoint run_ops (fuel : nat) (ops : list op) (s : @state_machine neigh) : res (@state_machine neigh) :=
  match ops with
  | [] => Ok s
  | o :: ops => bind (apply_op fuel o s) (run_ops fuel ops)
  end.

Definition accepted (ops : list op) : list neigh_send_data :=
  omap (fun o => match o with OSend d => Some d | _ => None end) ops.

Definition good (acc : list neigh_send_data) (s : @state_machine neigh) : Prop :=
  exists st n, at_rest st n s /\ Inv st n /\ kept acc n.

Lemma Inv_quiet st n n' : quiet n n' -> Inv st n -> Inv st n'.
Proof using.
  intros (E1 & E2 & E3 & E4 & E5 & E6 & _) (H1 & H2 & H3 & H4 & H5). unfold Inv, serving, armed in *.
  rewrite E1, E2, E3, E4, E5. split_and!; try done. intros Hst. destruct (H4 Hst); [by left|right; lia].
Qed.

Lemma rest_upd st n s f : at_rest st n s -> at_rest st (f n) (upd f s).
Proof using. intros (i & -> & Ei). by exists i. Qed.
Lemma rest_set_app st n s n' : at_rest st n s -> at_rest st n' (set_app n' s).
Proof using. intros (i & -> & Ei). by exists i. Qed.
Lemma rest_app st n s : at_rest st n s -> app s = n /\ get_curr_state s = st.
Proof using. by intros (i & -> & Ei). Qed.

Section fuel.
Context (fuel : nat) (Hfuel : (4 + 3 * Z.to_nat (neigh_num_err_retries c) <= fuel)%nat).

Lemma event_good acc st n s ev :
  at_rest st n s -> 0 <= st < 8 -> kept acc n -> 0 <= ev < 8 -> (ev = EV_UNHANDLED -> Inv st n) -> ready_for st ev n ->
  exists s', event_handler c e fuel ev s = Ok s' /\ good acc s'.
Proof using retries_word Hfuel.
  intros Hr Hst Hk Hev HU Hrd. destruct (decide (ev = EV_UNHANDLED)) as [->|Hne].
  { exists s. unfold event_handler. rewrite decide_True by done. split; [done|]. exists st, n. auto. }
  unfold EV_UNHANDLED in Hne. destruct (run_rests fuel st ev n acc) as (st' & n' & E & HI & Hk'); [done|done| |].
  { destruct Hrd as [He _]. costs. }
  destruct (event_handler_run fuel st ev n st' n' s Hr Hst ltac:(lia) E) as (s' & -> & Hr').
  exists s'. split; [done|]. by exists st', n'.
Qed.

Lemma Inv_range st n : Inv st n -> 0 <= st < 8.
Proof using.
  unfold Inv, ST_NOT_ACTIVE, ST_INIT, ST_INIT_RESOLUTION, ST_ADDR_RESOLVED, ST_READY.
  intros [H _]. clear -H. lia.
Qed.

Lemma Inv_ready st ev n : Inv st n -> ready_for st ev n.
Proof using. intros HI. split_and!; [apply HI|apply HI|done]. Qed.

Lemma event_inv acc st n s ev :
  at_rest st n s -> Inv st n -> kept acc n -> 0 <= ev < 8 ->
  exists s', event_handler c e fuel ev s = Ok s' /\ good acc s'.
Proof using retries_word Hfuel.
  intros Hr HI Hk Hev. eapply event_good; try done; [by eapply Inv_range|by apply Inv_ready].
Qed.

Lemma good_quiet acc st n s f :
  at_rest st n s -> Inv st n -> kept acc n -> quiet n (f n) -> good acc (upd f s).
Proof using.
  intros Hr HI Hk Hq. exists st, (f n). split_and!; [by apply rest_upd|by eapply Inv_quiet|by eapply kept_quiet].
Qed.

Lemma l2_changed_good acc st n s a :
  at_rest st n s -> Inv st n -> kept acc n ->
  exists b s', priv_handle_neigh_is_l2_changed c e fuel a s = Ok (b, s') /\
    if b then good acc s' else s' = s.
Proof using retries_word Hfuel.
  intros Hr HI Hk. unfold priv_handle_neigh_is_l2_changed. destruct (rest_app _ _ _ Hr) as [-> _].
  destruct (event_inv acc st n s EV_ERROR Hr HI Hk) as (s' & -> & Hg); [unfold EV_ERROR; lia|]. cbn [bind].
  destruct (m_val n) as [[old|]|]; [case_decide|..]; first [by exists false, s | by exists true, s'].
Qed.

Lemma send_good acc s d : good acc s -> data_ok d -> good (acc ++ [d]) (send c e d s).2.
Proof using.
  intros (st & n & Hr & HI & Hk) Hd. unfold send. cbn [snd].
  set (n1 := set_queue (m_unsent_queue n ++ [d]) n).
  assert (kept (acc ++ [d]) n1) as Hk1.
  { destruct Hk as (H1 & <- & H3 & H4 & H5). unfold kept. simpl. split_and!; try done.
    - by rewrite app_assoc.
    - apply Forall_app. split; [done|by constructor]. }
  pose proof (rest_upd _ _ _ (fun n => set_queue (m_unsent_queue n ++ [d]) n) Hr) as Hr1. cbn beta in Hr1.
  destruct (rest_app _ _ _ Hr1) as [-> _]. fold n1 in Hr1. cbn [set_queue m_state].
  destruct HI as (H1 & H2 & H3 & H4 & H5). destruct (m_state n) eqn:Em.
  - assert (st = ST_READY) as -> by (by apply H2). destruct (H3 eq_refl) as (_ & _ & a & Ev).
    destruct (empty_unsent_queue_spec (acc ++ [d]) a n1 Hk1 Ev) as (Hk2 & (E1 & E2 & E3 & E4 & E5) & Eq).
    exists ST_READY, (empty_unsent_queue c e n1). split_and!; [by apply rest_upd| |done].
    assert (m_state (empty_unsent_queue c e n1) = true) as Em1 by (rewrite E1; exact Em).
    split_and!; [done|done| |done|by rewrite E2].
    intros _. split_and!; [done|done|]. exists a. rewrite E3. exact Ev.
  - exists st, n1. split_and!; [done| |done]. unfold Inv, serving. cbn [n1 set_queue m_state m_err_counter].
    rewrite Em. split_and!; try done. intros ->. by destruct H2 as [_ H2]; specialize (H2 eq_refl).
Qed.

Lemma Inv_timers st n k : st <> ST_INIT -> Inv st n -> Inv st (set_timer false (set_timers k n)).
Proof using. intros Hne (H1 & H2 & H3 & H4 & H5). by split_and!. Qed.

Lemma finish_good acc st n s b :
  at_rest st n s -> Inv st n -> kept acc n -> good acc (if negb b then arp_again c e s else s).
Proof using.
  intros Hr HI Hk. destruct b; simpl; [by exists st, n|]. unfold arp_again.
  apply (good_quiet acc st n); try done. apply quiet_arp_again.
Qed.

Lemma timer_good acc s : good acc s -> exists s', timer_expires c e fuel s = Ok s' /\ good acc s'.
Proof using retries_word Hfuel.
  intros (st & n & Hr & HI & Hk). unfold timer_expires. destruct (rest_app _ _ _ Hr) as [-> _].
  destruct (timers n) as [|k]; [exists s; split; [done|by exists st, n]|].
  unfold handle_timer_expired. set (n1 := set_timer false (set_timers k n)).
  assert (at_rest st n1 (upd (set_timer false) (upd (set_timers k) s))) as Hr1 by (by do 2 apply (rest_upd _ _ _ _)).
  assert (kept acc n1) as Hk1 by done. set (s1 := upd (set_timer false) _) in *. clearbody s1.
  destruct (rest_app _ _ _ Hr1) as [-> ->]. case_decide as Hst.
  { eapply event_good; try done; [by eapply Inv_range|subst st; split_and!; [apply HI|apply HI|done]]. }
  assert (Inv st n1) as HI1 by (by apply Inv_timers). clearbody n1.
  pose proof (quiet_get_state n1) as Hq. destruct (priv_get_neigh_state c e n1) as [[sta|] n2]; cbn in Hq;
    assert (at_rest st n2 (set_app n2 s1)) as Hr2 by (by eapply rest_set_app);
    pose proof (Inv_quiet _ _ _ Hq HI1) as HI2; pose proof (kept_quiet acc _ _ Hq Hk1) as Hk2.
  2: { eexists. split; [done|]. by exists st, n2. }
  set (s2 := set_app n2 s1) in *. clearbody s2.
  destruct (negb (priv_is_failed sta)); [|eexists; split; [done|by eapply finish_good]].
  destruct (rest_app _ _ _ Hr2) as [-> _].
  pose proof (quiet_get_l2 n2) as Hq3. destruct (priv_get_neigh_l2 c e n2) as [[a|] n3]; cbn in Hq3;
    assert (at_rest st n3 (set_app n3 s2)) as Hr3 by (by eapply rest_set_app);
    pose proof (Inv_quiet _ _ _ Hq3 HI2) as HI3; pose proof (kept_quiet acc _ _ Hq3 Hk2) as Hk3.
  2: { eexists. split; [done|]. by exists st, n3. }
  destruct (l2_changed_good acc st n3 (set_app n3 s2) a Hr3 HI3 Hk3) as (b & s' & -> & Hb). cbn [bind fst snd].
  destruct b; [by eexists|]. subst s'. eexists. split; [done|by eapply finish_good].
Qed.

Lemma netlink_good acc s info : good acc s -> exists s', handle_neigh_event c e fuel info s = Ok s' /\ good acc s'.
Proof using retries_word Hfuel.
  intros (st & n & Hr & HI & Hk). unfold handle_neigh_event. case_decide.
  - assert (quiet n (priv_handle_neigh_reachable_event n)) as Hq.
    { unfold priv_handle_neigh_reachable_event. etransitivity; [|apply quiet_unregister]. quiet_same. }
    pose proof (rest_upd _ _ _ priv_handle_neigh_reachable_event Hr) as Hr1.
    pose proof (Inv_quiet _ _ _ Hq HI) as HI1. pose proof (kept_quiet acc _ _ Hq Hk) as Hk1.
    case_decide; [eapply event_inv; try done; unfold EV_ARP_RESOLVED; lia|].
    destruct (l2_changed_good acc _ _ _ (lladdr info) Hr1 HI1 Hk1) as (b & s' & -> & Hb). cbn [bind snd].
    eexists. split; [done|]. destruct b; [done|]. subst s'. by eexists _, _.
  - case_decide; [case_decide; [exists s; split; [done|by exists st, n]|]|].
    + destruct (l2_changed_good acc _ _ _ (lladdr info) Hr HI Hk) as (b & s' & -> & Hb). cbn [bind fst snd].
      destruct b; [by eexists|]. subst s'. eexists. split; [done|].
      apply (good_quiet acc st n); try done. apply quiet_arp_again.
    + case_decide; [eapply event_inv; try done; unfold EV_ERROR; lia|]. exists s. split; [done|by exists st, n].
Qed.

Lemma kick_good acc s (b : bool) :
  good acc s -> exists s', (if b then priv_kick_start_sm c e fuel s else Ok s) = Ok s' /\ good acc s'.
Proof using retries_word Hfuel.
  intros Hg. destruct b; [|by exists s]. destruct Hg as (st & n & Hr & HI & Hk).
  by eapply event_inv.
Qed.

Definition op_ok (o : op) : Prop := match o with OSend d => data_ok d | _ => True end.

Lemma apply_op_good acc o s :
  op_ok o -> good acc s ->
  exists s', apply_op fuel o s = Ok s' /\ good (acc ++ accepted [o]) s'.
Proof using retries_word Hfuel.
  intros Ho Hg. destruct o as [d|info| |id ev| | |]; cbn [apply_op accepted omap list_omap]; rewrite ?app_nil_r.
  - eexists. split; [done|]. by apply send_good.
  - by apply netlink_good.
  - by apply timer_good.
  - destruct Hg as (st & n & Hr & HI & Hk). eapply event_inv; try done.
    unfold rdma_event_mapping. repeat case_match; done.
  - unfold get_peer_info. case_match; [by exists s|].
    destruct (kick_good acc s (bool_decide (get_curr_state s = ST_NOT_ACTIVE)) Hg) as (s' & E & Hg').
    exists s'. split; [|done]. case_bool_decide; [rewrite decide_True by done|rewrite decide_False by done];
      rewrite E; done.
  - unfold register_observer. by apply kick_good.
  - unfold clean_obj. eexists. split; [done|]. case_match; [done|]. destruct Hg as (st & n & Hr & HI & Hk).
    exists st, (set_timers 0 (set_timer false (set_cleaned n))).
    split; [by apply (rest_upd st n s (fun n => set_timers 0 (set_timer false (set_cleaned n))))|].
    destruct HI as (H1 & H2 & H3 & H4 & H5).
    split; [split; [done|split; [done|split; [done|split; [intros _; by left|done]]]]|done].
Qed.

Lemma run_ops_good acc ops s :
  Forall op_ok ops -> good acc s ->
  exists s', run_ops fuel ops s = Ok s' /\ good (acc ++ accepted ops) s'.
Proof using retries_word Hfuel.
  revert acc s. induction ops as [|o ops IH]; intros acc s Ho Hg.
  - exists s. split; [done|]. by rewrite app_nil_r.
  - apply list.Forall_cons in Ho as [Ho Hos].
    destruct (apply_op_good acc o s Ho Hg) as (s1 & E & Hg1). cbn [run_ops]. rewrite E. cbn [bind].
    destruct (IH _ _ Hos Hg1) as (s' & -> & Hg'). exists s'. split; [done|].
    by rewrite <- app_assoc in Hg'; unfold accepted in *; rewrite <- omap_app in Hg'.
Qed.

Lemma ctor_good : exists s, neigh_eth c e fuel = Ok s /\ good [] s.
Proof using retries_word Hfuel.
  assert (Inv ST_NOT_ACTIVE new_neigh) as HI.
  { apply inv_false; [by left|done|done|done]. }
  apply (event_inv [] ST_NOT_ACTIVE new_neigh); [by eexists|done| |unfold EV_KICK_START; lia].
  split_and!; try done; constructor.
Qed.
End fuel.
End run.

(** ** The theorems *)

(** Enough events for every retry. *)
Definition enough (c : config) (fuel : nat) : Prop :=
  0 <= neigh_num_err_retries c < 2 ^ 32 /\ (4 + 3 * Z.to_nat (neigh_num_err_retries c) <= fuel)%nat.

(** C14: A neighbour works.  After any sequence of packets, kernel notifications, timers,
    RDMA events and queries, whatever the environment answers in between: every
    operation returns and the machine has come to rest; the address counts as valid
    exactly in [ST_READY], where it is one the kernel has given and no packet waits;
    in [ST_INIT] a timer is pending; the packets accepted have left (sent or
    dropped) in the order they came, but for the queued ones, none twice and none
    forgotten; and packets were sent to addresses given by the kernel only. *)
Theorem neighbour_invariant c e fuel ops :
  enough c fuel -> Forall op_ok ops ->
  exists s, bind (neigh_eth c e fuel) (run_ops c e fuel ops) = Ok s /\
    m_sm_fifo s = [] /\ m_b_is_in_process s = false /\
    (m_state (app s) = true <-> get_curr_state s = ST_READY) /\
    (get_curr_state s = ST_READY ->
       m_unsent_queue (app s) = [] /\ exists a, m_val (app s) = Some (Some a) /\ known c e a) /\
    (get_curr_state s = ST_INIT -> armed (app s)) /\
    packets (trace (app s)) ++ m_unsent_queue (app s) = accepted ops /\
    Forall (out_ok c e) (trace (app s)) /\ crash (app s) = false.
Proof.
  intros [Hr Hf] Hops. destruct (ctor_good c e Hr fuel Hf) as (s0 & -> & Hg0). cbn [bind].
  destruct (run_ops_good c e Hr fuel Hf [] ops s0 Hops Hg0) as (s & -> & st & n & Hrest & HI & Hk).
  exists s. split; [done|]. destruct (rest_app _ _ _ Hrest) as [-> ->]. destruct Hrest as (i & -> & _).
  destruct HI as (_ & H2 & H3 & H4 & _), Hk as (K1 & K2 & _ & K4 & K5).
  split_and!; try done. intros Hst. destruct (H3 Hst) as (_ & Hq & a & Ha). split; [done|]. exists a. auto.
Qed.

(** An event without an entry in the table changes nothing. *)
Lemma event_ignored c e fuel st ev n s :
  (1 <= fuel)%nat -> 0 <= st < 8 -> 0 <= ev < 8 -> target st ev = None -> at_rest st n s ->
  exists s', event_handler c e fuel ev s = Ok s' /\ at_rest st n s'.
Proof.
  intros Hf Hst Hev Ht Hr. destruct (decide (ev = EV_UNHANDLED)) as [->|Hne].
  { exists s. unfold event_handler. by rewrite decide_True. }
  unfold EV_UNHANDLED in Hne. destruct fuel as [|fuel]; [lia|].
  apply (event_handler_run c e (S fuel) st ev n); [done|done|lia|].
  cbn [run]. unfold nstep. by rewrite Ht.
Qed.

Section stuck.
Context (c : config) (e : env) (fuel : nat) (n0 : neigh).
Context (Hfuel : (1 <= fuel)%nat) (Hloop : m_is_loopback c = false).
Context (Hstale : forall q, (questions n0 <= q)%nat -> exists info, get_neigh e q = Some info /\
  priv_is_failed (state info) = false /\ priv_is_reachable (state info) = false).

Definition no_address (n : neigh) : Prop := forall a, m_val n <> Some (Some a).

Definition not_confirmed (o : op) : Prop :=
  match o with ONetlink info => state info <> NUD_REACHABLE /\ state info <> NUD_PERMANENT | _ => True end.

(** [n] is [n0] but for waiting packets [acc] and used up timers. *)
Definition waits (acc : list neigh_send_data) (s : @state_machine neigh) : Prop :=
  exists n, at_rest ST_ADDR_RESOLVED n s /\ m_state n = false /\ no_address n /\ trace n = trace n0 /\
    (timers n <= timers n0)%nat /\ m_unsent_queue n = m_unsent_queue n0 ++ acc /\
    (questions n0 <= questions n)%nat.

Lemma timer_waits acc s : waits acc s -> exists s', timer_expires c e fuel s = Ok s' /\ waits acc s'.
Proof using Hfuel Hloop Hstale.
  intros (n & Hr & Hs & Ha & Ht & Hle & Hq & Hqu). unfold timer_expires. destruct (rest_app _ _ _ Hr) as [-> _].
  destruct (timers n) as [|k] eqn:Ek; [exists s; split; [done|]; exists n; rewrite Ek; by split_and!|].
  unfold handle_timer_expired, priv_get_neigh_state, priv_get_neigh_l2. rewrite Hloop.
  assert (at_rest ST_ADDR_RESOLVED (set_timer false (set_timers k n)) (upd (set_timer false) (upd (set_timers k) s)))
    as Hr1 by (by do 2 apply (rest_upd _ _ _ _)).
  set (s1 := upd (set_timer false) _) in *. clearbody s1. destruct (rest_app _ _ _ Hr1) as [-> ->].
  rewrite decide_False by done.
  destruct (Hstale (questions (set_timer false (set_timers k n)))) as (info & -> & Hf & Hre); [done|].
  cbn [fmap option_fmap option_map]. rewrite Hf. cbn [negb].
  set (n1 := ask (set_timer false (set_timers k n))). cbn [Sm.app set_app].
  destruct (Hstale (questions n1)) as (info2 & -> & Hf2 & _); [simpl; lia|]. rewrite Hf2.
  unfold priv_handle_neigh_is_l2_changed. cbn [Sm.app set_app].
  destruct (event_ignored c e fuel ST_ADDR_RESOLVED EV_ERROR (ask n1) (set_app (ask n1) (set_app n1 s1)))
    as (s2 & E2 & Hr2); try done.
  { by do 2 eapply rest_set_app. }
  exists s2. split.
  - rewrite E2. cbn [bind]. change (m_val (ask n1)) with (m_val n).
    destruct (m_val n) as [[a|]|] eqn:Ev; [by destruct (Ha a)|done|done].
  - exists (ask n1). split_and!; try done; simpl; lia.
Qed.

Lemma op_waits acc o s :
  not_confirmed o -> waits acc s ->
  exists s', apply_op c e fuel o s = Ok s' /\ waits (acc ++ accepted [o]) s'.
Proof using Hfuel Hloop Hstale.
  intros Ho Hw. destruct o as [d|info| |id ev| | |]; cbn [apply_op accepted omap list_omap]; rewrite ?app_nil_r.
  3: by apply timer_waits.
  all: destruct Hw as (n & Hr & Hs & Ha & Ht & Hle & Hq & Hqu).
  - eexists. split; [done|]. unfold send. cbn [snd].
    pose proof (rest_upd _ _ _ (fun n => set_queue (m_unsent_queue n ++ [d]) n) Hr) as Hr1. cbn beta in Hr1.
    destruct (rest_app _ _ _ Hr1) as [-> _]. cbn [set_queue m_state]. rewrite Hs.
    eexists. split; [exact Hr1|]. split_and!; try done. simpl. by rewrite Hq, app_assoc.
  - unfold handle_neigh_event. destruct Ho as [H1 H2]. rewrite decide_False by tauto.
    destruct (rest_app _ _ _ Hr) as [_ ->]. rewrite (decide_True (P := ST_ADDR_RESOLVED <> ST_READY)) by done.
    case_decide; [exists s; split; [done|by exists n]|].
    case_decide; [|exists s; split; [done|by exists n]].
    destruct (event_ignored c e fuel ST_ADDR_RESOLVED EV_ERROR n s) as (s' & -> & Hr'); try done.
    exists s'. split; [done|]. by exists n.
  - destruct (rest_app _ _ _ Hr) as [En _]. unfold handle_event_rdma_cm_cb. rewrite En.
    destruct (event_ignored c e fuel ST_ADDR_RESOLVED (rdma_event_mapping id ev n) n s) as (s' & -> & Hr'); try done.
    1, 2: unfold rdma_event_mapping; repeat case_match; done.
    exists s'. split; [done|]. by exists n.
  - unfold get_peer_info. destruct (rest_app _ _ _ Hr) as [-> ->]. rewrite Hs, decide_False by done.
    exists s. split; [done|]. by exists n.
  - unfold register_observer. destruct (rest_app _ _ _ Hr) as [-> ->]. rewrite Hs. cbn [negb andb].
    rewrite bool_decide_false by done. exists s. split; [done|]. by exists n.
  - unfold clean_obj. eexists. split; [done|]. case_match; [by exists n|].
    exists (set_timers 0 (set_timer false (set_cleaned n))).
    split; [by apply (rest_upd _ n s (fun n => set_timers 0 (set_timer false (set_cleaned n))))|].
    split_and!; try done. simpl. lia.
Qed.

Lemma ops_wait acc ops s :
  Forall not_confirmed ops -> waits acc s ->
  exists s', run_ops c e fuel ops s = Ok s' /\ waits (acc ++ accepted ops) s'.
Proof using Hfuel Hloop Hstale.
  revert acc s. induction ops as [|o ops IH]; intros acc s Ho Hw.
  - exists s. split; [done|]. by rewrite app_nil_r.
  - apply list.Forall_cons in Ho as [Ho Hos].
    destruct (op_waits acc o s Ho Hw) as (s1 & E & Hw1). cbn [run_ops]. rewrite E. cbn [bind].
    destruct (IH _ _ Hos Hw1) as (s' & -> & Hw'). exists s'. split; [done|].
    by rewrite <- app_assoc in Hw'; unfold accepted in *; rewrite <- omap_app in Hw'.
Qed.
End stuck.

(** C28: A stale entry is never resolved.  The neighbour asks for the address in
    [ST_ADDR_RESOLVED] and the kernel holds a usable entry that is not confirmed
    (stale, delay or probe): the timer takes the missing address for a changed
    one, posts [EV_ERROR], which the table ignores in this state, and is not armed
    again.  From then on no sequence of operations except a confirmation by the
    kernel makes the neighbour send an ARP request or leave the state; its packets
    wait. *)
Theorem stale_entry_stays_unresolved c e fuel n s ops :
  (1 <= fuel)%nat -> m_is_loopback c = false ->
  (forall q, (questions n <= q)%nat -> exists info, get_neigh e q = Some info /\
     priv_is_failed (state info) = false /\ priv_is_reachable (state info) = false) ->
  at_rest ST_ADDR_RESOLVED n s -> m_state n = false -> no_address n -> Forall not_confirmed ops ->
  exists s', run_ops c e fuel ops s = Ok s' /\ get_curr_state s' = ST_ADDR_RESOLVED /\
    trace (app s') = trace n /\ (timers (app s') <= timers n)%nat /\
    m_unsent_queue (app s') = m_unsent_queue n ++ accepted ops.
Proof.
  intros Hf Hl Hst Hr Hs Ha Hops.
  destruct (ops_wait c e fuel n Hf Hl Hst [] ops s Hops) as (s' & -> & n' & Hr' & _ & _ & Ht & Hle & Hq & Hqu).
  { exists n. rewrite app_nil_r. by split_and!. }
  exists s'. destruct (rest_app _ _ _ Hr') as [-> ->]. by split_and!.
Qed.

(** *** ARP after an error *)

Section lost_arp.
Context (c : config) (e : env) (fuel : nat) (n0 : neigh).
Context (Hloop : m_is_loopback c = false).
Context (Hfailed : forall q, (questions n0 <= q)%nat -> exists info, get_neigh e q = Some info /\
  priv_is_failed (state info) = true /\ priv_is_reachable (state info) = false).

(** The address was zeroed, a broadcast has been sent and the quota of unicast
    requests is not used up. *)
Definition unicast_without_address (n : neigh) : Prop :=
  m_val n = Some None /\ m_is_first_send_arp n = false /\ m_arp_counter n < neigh_uc_arp_quata c.

Definition mute (n : neigh) : Prop :=
  unicast_without_address n /\ trace n = trace n0 /\ cleaned n = false /\ timers n = timers n0 /\
  (questions n0 <= questions n)%nat.

Lemma timer_mute n s :
  at_rest ST_ADDR_RESOLVED n s -> mute n -> (1 <= timers n0)%nat ->
  exists n' s', timer_expires c e fuel s = Ok s' /\ at_rest ST_ADDR_RESOLVED n' s' /\ mute n' /\ null_arp n' = true.
Proof using Hloop Hfailed.
  intros Hr ((Hv & Hfirst & Hc) & Ht & Hcl & Htm & Hq) Hone. unfold timer_expires.
  destruct (rest_app _ _ _ Hr) as [-> _]. rewrite Htm. destruct (timers n0) as [|k] eqn:Ek; [lia|].
  unfold handle_timer_expired, priv_get_neigh_state. rewrite Hloop.
  assert (at_rest ST_ADDR_RESOLVED (set_timer false (set_timers k n)) (upd (set_timer false) (upd (set_timers k) s)))
    as Hr1 by (by do 2 apply (rest_upd _ _ _ _)).
  set (s1 := upd (set_timer false) _) in *. clearbody s1. destruct (rest_app _ _ _ Hr1) as [-> ->].
  rewrite decide_False by done.
  destruct (Hfailed (questions (set_timer false (set_timers k n)))) as (info & -> & Hf & Hre); [done|].
  cbn [fmap option_fmap option_map]. rewrite Hf, Hre. cbn [negb].
  set (n1 := ask (set_timer false (set_timers k n))).
  pose proof (rest_set_app _ _ _ n1 Hr1) as Hr2. unfold arp_again.
  exists (register_timer (send_arp c e n1)), (upd (fun n => register_timer (send_arp c e n)) (set_app n1 s1)).
  split; [done|]. split; [by apply (rest_upd _ _ _ (fun n => register_timer (send_arp c e n)))|].
  assert (send_arp c e n1 = null_call n1) as ->.
  { unfold send_arp, post_send_arp. change (m_arp_counter n1) with (m_arp_counter n).
    change (m_is_first_send_arp n1) with (m_is_first_send_arp n). change (m_val n1) with (m_val n).
    rewrite Hfirst, Hv, bool_decide_false by lia. done. }
  unfold register_timer. change (cleaned (null_call n1)) with (cleaned n). rewrite Hcl.
  split; [|done]. unfold mute, unicast_without_address. cbn. rewrite Ek. split_and!; try done. lia.
Qed.
End lost_arp.


(** *** Timers of a stale entry *)

Definition is_stale (o : op) : nat := match o with ONetlink _ => 1 | _ => 0 end.

Section stale.
Context (c : config) (e : env) (fuel : nat) (a : l2).
Context (Hloop : m_is_loopback c = false).
Context (Hstale : forall q, get_neigh e q = Some (Info_ NUD_STALE a)).

Definition in_service (t : nat) (s : @state_machine neigh) : Prop :=
  exists n, at_rest ST_READY n s /\ m_val n = Some (Some a) /\ cleaned n = false /\ timers n = t.

Lemma arp_again_service t s : in_service t s -> in_service (S t) (arp_again c e s).
Proof using.
  intros (n & Hr & Hv & Hc & Ht). exists (register_timer (send_arp c e n)).
  split; [by apply (rest_upd _ _ _ (fun n => register_timer (send_arp c e n)))|].
  assert (timers (send_arp c e n) = timers n /\ m_val (send_arp c e n) = m_val n /\
    cleaned (send_arp c e n) = cleaned n) as (E1 & E2 & E3).
  { unfold send_arp, post_send_arp. destruct (_ || _); [|rewrite Hv]; by destruct (mem_buf_tx_get _ _ _). }
  unfold register_timer. rewrite E3, Hc. cbn. by rewrite E1, E2, E3, Ht.
Qed.

Lemma stale_op t o s :
  o = OTimer \/ o = ONetlink (Info_ NUD_STALE a) -> in_service t s ->
  exists s', apply_op c e fuel o s = Ok s' /\ in_service (t + is_stale o) s'.
Proof using Hloop Hstale.
  intros [->| ->] Hs; cbn [is_stale].
  - rewrite Nat.add_0_r. destruct Hs as (n & Hr & Hv & Hc & Ht). cbn [apply_op]. unfold timer_expires.
    destruct (rest_app _ _ _ Hr) as [-> _]. rewrite Ht.
    destruct t as [|t]; [exists s; split; [done|]; by exists n|].
    unfold handle_timer_expired, priv_get_neigh_state, priv_get_neigh_l2. rewrite Hloop.
    assert (at_rest ST_READY (set_timer false (set_timers t n)) (upd (set_timer false) (upd (set_timers t) s)))
      as Hr1 by (by do 2 apply (rest_upd _ _ _ _)).
    set (s1 := upd (set_timer false) _) in *. clearbody s1. destruct (rest_app _ _ _ Hr1) as [-> ->].
    rewrite decide_False, Hstale by done. cbn [fmap option_fmap option_map state].
    change (priv_is_failed NUD_STALE) with false. change (priv_is_reachable NUD_STALE) with false. cbn [negb].
    rewrite Hstale. cbn [state lladdr Sm.app set_app]. change (priv_is_failed NUD_STALE) with false.
    unfold priv_handle_neigh_is_l2_changed. cbn [Sm.app set_app].
    change (m_val (ask (ask (set_timer false (set_timers t n))))) with (m_val n).
    rewrite Hv, decide_True by done. cbn [bind fst snd]. eexists. split; [done|].
    apply arp_again_service. exists (ask (ask (set_timer false (set_timers t n)))).
    split; [by do 2 eapply rest_set_app|]. by split_and!.
  - rewrite Nat.add_1_r. cbn [apply_op]. unfold handle_neigh_event. cbn [state lladdr].
    rewrite decide_False by (intros []; done). rewrite decide_True by done.
    pose proof Hs as (n & Hr & Hv & _). destruct (rest_app _ _ _ Hr) as [En ->]. rewrite decide_False by tauto.
    unfold priv_handle_neigh_is_l2_changed. rewrite En, Hv, decide_True by done. cbn [bind fst snd].
    eexists. split; [done|]. by apply arp_again_service.
Qed.
End stale.

(** Timers add up.  While a resolved peer's entry stays stale, every notification
    starts one more one-shot timer, and every timer that expires starts itself again:
    none is ever given up, so each notification adds one ARP request per period for
    good. *)
Theorem stale_timers_add_up c e fuel a n s ops :
  m_is_loopback c = false -> (forall q, get_neigh e q = Some (Info_ NUD_STALE a)) ->
  at_rest ST_READY n s -> m_val n = Some (Some a) -> cleaned n = false ->
  Forall (fun o => o = OTimer \/ o = ONetlink (Info_ NUD_STALE a)) ops ->
  exists s', run_ops c e fuel ops s = Ok s' /\ get_curr_state s' = ST_READY /\
    timers (app s') = (timers n + sum_list_with is_stale ops)%nat.
Proof.
  intros Hl Hst Hr Hv Hc Hops.
  assert (forall ops t s, Forall (fun o => o = OTimer \/ o = ONetlink (Info_ NUD_STALE a)) ops -> in_service a t s ->
    exists s', run_ops c e fuel ops s = Ok s' /\ in_service a (t + sum_list_with is_stale ops) s') as H.
  { clear -Hl Hst. induction ops as [|o ops IH]; intros t s Ho Hs.
    - exists s. split; [done|]. simpl. by rewrite Nat.add_0_r.
    - apply list.Forall_cons in Ho as [Ho Hos].
      destruct (stale_op c e fuel a Hl Hst t o s Ho Hs) as (s1 & E & Hs1). cbn [run_ops]. rewrite E. cbn [bind].
      destruct (IH _ _ Hos Hs1) as (s' & -> & Hs'). exists s'. split; [done|]. simpl. by rewrite Nat.add_assoc. }
  destruct (H ops (timers n) s Hops) as (s' & -> & n' & Hr' & _ & _ & Ht'); [by exists n|].
  exists s'. destruct (rest_app _ _ _ Hr') as [-> ->]. by split_and!.
Qed.

(** ** Examples *)

Definition ex_config : config := Config true [2; 0; 0; 0; 0; 1] [255; 255; 255; 255; 255; 255] false false 3 1.
Definition ex_env (f : nat -> option netlink_neigh_info) : env :=
  Env f (fun _ => Some 7) (fun _ => true) (fun _ _ => true).
Definition ex_peer : l2 := [2; 0; 0; 0; 0; 2].
Definition ex_data : neigh_send_data := Data [1; 2; 3] UdpSend.ex_header 1500 IPPROTO_UDP.

(** The state after [ops]. *)
Definition ex_run (f : nat -> option netlink_neigh_info) (ops : list op) : @state_machine neigh :=
  match bind (neigh_eth ex_config (ex_env f) 7) (run_ops ex_config (ex_env f) 7 ops) with
  | Ok s => s
  | _ => SM 0 0 [] [] false (Info 0 0 0 0) new_neigh
  end.

(** The first [k] answers, and the ones after. *)
Definition ex_answers (k : nat) (first later : netlink_neigh_info) (q : nat) : option netlink_neigh_info :=
  Some (if (q <? k)%nat then first else later).
Definition failed_ := Info_ NUD_FAILED ex_peer.
Definition reachable_ := Info_ NUD_REACHABLE ex_peer.
Definition stale_ := Info_ NUD_STALE ex_peer.

Lemma ex_later k first later q : (k <= q)%nat -> ex_answers k first later q = Some later.
Proof. intros H. unfold ex_answers. by destruct (Nat.ltb_spec q k); [lia|]. Qed.

(** A packet waits in [ST_INIT]; the timer starts the resolution, which finds the
    address. *)
Definition ex_ops : list op := [OSend ex_data; OTimer].
Definition ex_answers_1 := ex_answers 1 failed_ reachable_.

Lemma ex_run_Ok f ops s :
  bind (neigh_eth ex_config (ex_env f) 7) (run_ops ex_config (ex_env f) 7 ops) = Ok s -> ex_run f ops = s.
Proof. intros E. unfold ex_run. by rewrite E. Qed.

Lemma ex_curr : get_curr_state (ex_run ex_answers_1 ex_ops) = ST_READY.
Proof. by vm_compute. Qed.

Lemma neighbour_invariant_witness :
  exists s, bind (neigh_eth ex_config (ex_env ex_answers_1) 7) (run_ops ex_config (ex_env ex_answers_1) 7 ex_ops) = Ok s /\
    m_state (app s) = true /\ packets (trace (app s)) = [ex_data].
Proof.
  destruct (neighbour_invariant ex_config (ex_env ex_answers_1) 7 ex_ops)
    as (s & E & _ & _ & Hm & Hr & _ & Hp & _).
  - split; vm_compute; [done|lia].
  - repeat constructor; vm_compute; done.
  - assert (get_curr_state s = ST_READY) as Est.
    { rewrite <- (ex_run_Ok _ _ _ E). apply ex_curr. }
    exists s. split; [exact E|]. split; [by apply Hm|].
    destruct (Hr Est) as [Eq _]. rewrite Eq, app_nil_r in Hp. exact Hp.
Defined.

(** The kernel's entry is failed until the first request is sent, and stale then. *)
Definition ex_to_addr_resolved : list op := [OTimer; ORdma 7 RDMA_CM_EVENT_ADDR_RESOLVED].
Definition ex_answers_2 := ex_answers 6 failed_ stale_.
Definition ex_stuck := ex_run ex_answers_2 ex_to_addr_resolved.

Lemma stale_entry_stays_unresolved_witness :
  bind (neigh_eth ex_config (ex_env ex_answers_2) 7)
    (run_ops ex_config (ex_env ex_answers_2) 7 ex_to_addr_resolved) = Ok ex_stuck /\
  trace (app ex_stuck) = [Arp (br_address ex_config)] /\ timers (app ex_stuck) = 1%nat /\
  exists s, run_ops ex_config (ex_env ex_answers_2) 7 [OTimer; OSend ex_data; ONetlink failed_; OTimer] ex_stuck = Ok s /\
    get_curr_state s = ST_ADDR_RESOLVED /\ m_unsent_queue (app s) = [ex_data].
Proof.
  split; [by vm_compute|]. split; [by vm_compute|]. split; [by vm_compute|].
  destruct (stale_entry_stays_unresolved ex_config (ex_env ex_answers_2) 7 (app ex_stuck) ex_stuck
    [OTimer; OSend ex_data; ONetlink failed_; OTimer]) as (s & E & Hst & _ & _ & Hq).
  - lia.
  - done.
  - intros q Hq. exists stale_. split; [|by vm_compute]. apply ex_later. vm_compute in Hq. exact Hq.
  - exists (m_info ex_stuck). by vm_compute.
  - by vm_compute.
  - intros a. by vm_compute.
  - repeat constructor; done.
  - exists s. split; [exact E|]. split; [exact Hst|]. rewrite Hq. by vm_compute.
Defined.

(** The peer was resolved, then lost; the kernel cannot find it again. *)
Definition ex_lost : list op :=
  [ONetlink failed_; OPeerInfo; OTimer; ORdma 7 RDMA_CM_EVENT_ADDR_RESOLVED].
Definition ex_answers_3 := ex_answers 3 reachable_ failed_.
Definition ex_mute := ex_run ex_answers_3 ex_lost.


Definition ex_answers_4 := ex_answers 0 stale_ stale_.
Definition ex_ready := ex_run ex_answers_4 [].

Lemma stale_timers_add_up_witness :
  exists s, run_ops ex_config (ex_env ex_answers_4) 7
      [ONetlink stale_; ONetlink stale_; OTimer; OTimer; OTimer; OTimer] ex_ready = Ok s /\
    timers (app ex_ready) = 1%nat /\ timers (app s) = 3%nat.
Proof.
  destruct (stale_timers_add_up ex_config (ex_env ex_answers_4) 7 ex_peer (app ex_ready) ex_ready
    [ONetlink stale_; ONetlink stale_; OTimer; OTimer; OTimer; OTimer]) as (s & E & _ & Ht).
  - done.
  - intros q. apply (ex_later 0 stale_ stale_). lia.
  - exists (m_info ex_ready). by vm_compute.
  - by vm_compute.
  - by vm_compute.
  - repeat (constructor; [first [by left | by right]|]). constructor.
  - exists s. split; [exact E|]. split; [by vm_compute|]. rewrite Ht. by vm_compute.
Defined.
End Neigh.
