(* ===== verification/BufferPool.v ===== *)
(** * The buffer pool: src/src/vma/dev/buffer_pool.cpp and buffer_pool.h

    A free list of packet buffers, threaded through the buffers' own
    [p_next_desc] fields.  A pointer is the address of the buffer descriptor
    and the buffers live in a store, since the callers hold pointers to them
    and the lists they return are linked through the same fields.  A
    [descq_t] is the list of the pointers it holds.  The pool is used under its
    spin lock, one operation at a time.

    [None] is a dereference of an invalid pointer or a list longer than the
    store (a circular list). *)

From stdpp Require Import finite.
From S2P Require Import Prelude.

Local Open Scope Z_scope.

Module Pool.

Abbreviation ptr := Z.

Definition MCE_ALIGNMENT : Z := 63.

(** The fields of [mem_buf_desc_t] the pool uses. *)
Record mem_buf_desc_t := Buf {
  p_buffer : Z;
  sz_buffer : Z;
  p_next_desc : option ptr;
  lkey : Z;
  p_desc_owner : Z;
  n_ref_count : Z;
  pbuf_flags : Z;
  pbuf_ref : Z;
}.

Abbreviation heap := (gmap ptr mem_buf_desc_t).

Record buffer_pool := BufferPool {
  m_size : Z;
  m_n_buffers : Z;
  m_n_buffers_created : Z;
  m_p_head : option ptr;
  n_buffer_pool_size : Z;
  n_buffer_pool_no_bufs : Z;
  is_rx : bool;
  is_tx : bool;
  mem : heap;
}.

(** ** Returning buffers *)

Definition free_lwip_pbuf (b : mem_buf_desc_t) : mem_buf_desc_t :=
  Buf (p_buffer b) (sz_buffer b) (p_next_desc b) (lkey b) (p_desc_owner b) (n_ref_count b) 0 0.

Definition set_next (n : option ptr) (b : mem_buf_desc_t) : mem_buf_desc_t :=
  Buf (p_buffer b) (sz_buffer b) n (lkey b) (p_desc_owner b) (n_ref_count b) (pbuf_flags b) (pbuf_ref b).

Definition put_buffer_helper (buff : ptr) (p : buffer_pool) : option buffer_pool :=
  b ← mem p !! buff;
  Some (BufferPool (m_size p) (u64 (m_n_buffers p + 1)) (m_n_buffers_created p) (Some buff)
          (u32 (n_buffer_pool_size p + 1)) (n_buffer_pool_no_bufs p) (is_rx p) (is_tx p)
          (<[buff := free_lwip_pbuf (set_next (m_p_head p) b)]> (mem p))).

(** The [while (buff_list)] loop. *)
Fixpoint put_list (fuel : nat) (buff_list : option ptr) (p : buffer_pool) : option buffer_pool :=
  match buff_list with
  | None => Some p
  | Some x =>
    match fuel with
    | O => None
    | S fuel =>
      b ← mem p !! x;
      p ← put_buffer_helper x p;
      put_list fuel (p_next_desc b) p
    end
  end.

(** What a returning operation ends in; [Panic]: [buffersPanic] was called. *)
Inductive outcome := Done (p : buffer_pool) | Panic (p : buffer_pool).

Definition check_count (p : buffer_pool) : outcome :=
  if decide (m_n_buffers p > m_n_buffers_created p) then Panic p else Done p.

Definition put_buffers (buff_list : option ptr) (p : buffer_pool) : option outcome :=
  p ← put_list (size (mem p)) buff_list p;
  Some (check_count p).

(** [put_buffers(descq_t*, size_t)]: the last [amount] entries of the queue,
    each a list. *)
Fixpoint put_deque_loop (amount : nat) (q : list ptr) (p : buffer_pool) : option (list ptr * buffer_pool) :=
  match amount with
  | O => Some (q, p)
  | S amount =>
    x ← list.last q;
    p ← put_list (size (mem p)) (Some x) p;
    put_deque_loop amount (take (length q - 1) q) p
  end.

Definition put_buffers_deque (q : list ptr) (count : Z) (p : buffer_pool) : option (list ptr * outcome) :=
  '(q, p) ← put_deque_loop (Z.to_nat (Z.min count (Z.of_nat (length q)))) q p;
  Some (q, check_count p).

(** [put_buffers_after_deref_thread_safe]: a buffer goes back when both its
    reference counts (read before the decrement) are at most one. *)
Fixpoint put_buffers_after_deref (q : list ptr) (p : buffer_pool) : option outcome :=
  match q with
  | [] => Some (Done p)
  | x :: q =>
    b ← mem p !! x;
    let first := bool_decide (n_ref_count b <= 1) in
    let both := first && bool_decide (pbuf_ref b <= 1) in
    let b' := Buf (p_buffer b) (sz_buffer b) (p_next_desc b) (lkey b) (p_desc_owner b)
                (s32 (n_ref_count b - 1)) (pbuf_flags b)
                (if first then u16 (pbuf_ref b - 1) else pbuf_ref b) in
    let p := BufferPool (m_size p) (m_n_buffers p) (m_n_buffers_created p) (m_p_head p)
               (n_buffer_pool_size p) (n_buffer_pool_no_bufs p) (is_rx p) (is_tx p)
               (<[x := b']> (mem p)) in
    if both then
      match put_buffers (Some x) p with
      | Some (Done p) => put_buffers_after_deref q p
      | r => r
      end
    else put_buffers_after_deref q p
  end.

(** ** Taking buffers *)

(** The [while (count-- > 0)] loop. *)
Fixpoint get_loop (count : nat) (owner lk : Z) (deque : list ptr) (head : option ptr) (h : heap)
  : option (list ptr * option ptr * heap) :=
  match count with
  | O => Some (deque, head, h)
  | S count =>
    x ← head;
    b ← h !! x;
    get_loop count owner lk (deque ++ [x]) (p_next_desc b)
      (<[x := Buf (p_buffer b) (sz_buffer b) None lk owner (n_ref_count b) (pbuf_flags b) (pbuf_ref b)]> h)
  end.

Definition get_buffers_thread_safe (deque : list ptr) (desc_owner count lk : Z) (p : buffer_pool)
  : option (bool * list ptr * buffer_pool) :=
  if decide (m_n_buffers p < count) then
    Some (false, deque,
      BufferPool (m_size p) (m_n_buffers p) (m_n_buffers_created p) (m_p_head p)
        (n_buffer_pool_size p) (u32 (n_buffer_pool_no_bufs p + 1)) (is_rx p) (is_tx p) (mem p))
  else
    '(deque, head, h) ← get_loop (Z.to_nat count) desc_owner lk deque (m_p_head p) (mem p);
    Some (true, deque,
      BufferPool (m_size p) (u64 (m_n_buffers p - count)) (m_n_buffers_created p) head
        (u32 (n_buffer_pool_size p - count)) (n_buffer_pool_no_bufs p) (is_rx p) (is_tx p) h).

Definition get_free_count (p : buffer_pool) : Z := m_n_buffers p.

Definition set_RX_TX_for_stats (rx : bool) (p : buffer_pool) : buffer_pool :=
  BufferPool (m_size p) (m_n_buffers p) (m_n_buffers_created p) (m_p_head p) (n_buffer_pool_size p)
    (n_buffer_pool_no_bufs p) (if rx then true else is_rx p) (if rx then is_tx p else true) (mem p).

(** ** The constructor *)

Definition align (x : Z) : Z := u64 (Z.land (u64 (x + MCE_ALIGNMENT)) (Z.lnot MCE_ALIGNMENT)).

Definition block_size (sz_desc buffer_count buf_size : Z) : Z :=
  if decide (buffer_count <> 0)
  then u64 ((sz_desc + align buf_size) * buffer_count + MCE_ALIGNMENT)
  else buf_size.

(** The loop that splits the block. *)
Fixpoint split_block (n : nat) (sz_aligned sz_desc buf_size ptr_buff ptr_desc : Z) (p : buffer_pool)
  : option buffer_pool :=
  match n with
  | O => Some p
  | S n =>
    let d := Buf ptr_buff buf_size None 0 0 0 0 0 in
    let p := BufferPool (m_size p) (m_n_buffers p) (m_n_buffers_created p) (m_p_head p)
               (n_buffer_pool_size p) (n_buffer_pool_no_bufs p) (is_rx p) (is_tx p)
               (<[ptr_desc := d]> (mem p)) in
    p ← put_buffer_helper ptr_desc p;
    split_block n sz_aligned sz_desc buf_size (ptr_buff + sz_aligned) (ptr_desc + sz_desc) p
  end.

(** [data_block] is what the allocator returns for [block_size] bytes,
    [sz_desc] is [sizeof(mem_buf_desc_t)]. *)
Definition ctor (sz_desc data_block buffer_count buf_size : Z) : option buffer_pool :=
  let p := BufferPool (block_size sz_desc buffer_count buf_size) 0 buffer_count None 0 0 false false ∅ in
  if decide (buffer_count = 0) then Some p
  else
    let sz_aligned := align buf_size in
    let ptr_buff := align data_block in
    split_block (Z.to_nat buffer_count) sz_aligned sz_desc buf_size ptr_buff
      (ptr_buff + sz_aligned * buffer_count) p.

(** ** Circle detection *)

(** [isCircle], its loop and the pointers [p1] and [p2]. *)
Fixpoint isCircle_loop (fuel : nat) (h : heap) (p1 p2 : ptr) : option bool :=
  match fuel with
  | O => None
  | S fuel =>
    b2 ← h !! p2;
    match p_next_desc b2 with
    | None => Some false
    | Some q =>
      bq ← h !! q;
      match p_next_desc bq with
      | None => Some false
      | Some p2 =>
        b1 ← h !! p1;
        p1 ← p_next_desc b1;
        if decide (p1 = p2) then Some true else isCircle_loop fuel h p1 p2
      end
    end
  end.

Definition isCircle (fuel : nat) (h : heap) (pNode : option ptr) : option bool :=
  match pNode with
  | None => Some false
  | Some x => isCircle_loop fuel h x x
  end.

Definition MAX_STEPS : Z := 2 ^ 24.

(** [f]: the next node, not checked for [NULL]. *)
Definition f (h : heap) (x : ptr) : option ptr := b ← h !! x; p_next_desc b.

(** The three loops of [Floyd_LogCircleInfo]. *)
Fixpoint floyd_meet (fuel : nat) (h : heap) (tortoise hare : ptr) : option ptr :=
  if decide (tortoise = hare) then Some tortoise
  else match fuel with
       | O => None
       | S fuel => t ← f h tortoise; a ← f h hare; a ← f h a; floyd_meet fuel h t a
       end.

Fixpoint floyd_mu (fuel : nat) (h : heap) (tortoise hare : ptr) (mu : Z) : option (ptr * Z) :=
  if decide (tortoise = hare) then Some (tortoise, mu)
  else match fuel with
       | O => None
       | S fuel =>
         t ← f h tortoise; a ← f h hare;
         if decide (mu + 1 > MAX_STEPS) then Some (t, mu + 1)
         else floyd_mu fuel h t a (mu + 1)
       end.

Fixpoint floyd_lambda (fuel : nat) (h : heap) (tortoise hare : ptr) (lambda : Z) : option Z :=
  if decide (tortoise = hare) then Some lambda
  else match fuel with
       | O => None
       | S fuel =>
         a ← f h hare;
         if decide (lambda + 1 > MAX_STEPS) then Some (lambda + 1)
         else floyd_lambda fuel h tortoise a (lambda + 1)
       end.

(** The pair it logs: first index of the circle and its length. *)
Definition Floyd_LogCircleInfo (fuel : nat) (h : heap) (x0 : ptr) : option (Z * Z) :=
  t ← f h x0; a ← f h t;
  meet ← floyd_meet fuel h t a;
  '(t, mu) ← floyd_mu fuel h x0 meet 0;
  a ← f h t;
  lambda ← floyd_lambda fuel h t a 1;
  Some (mu, lambda).

(** ** The free list *)

Abbreviation chain := (Prelude.chain p_next_desc).

(** [F] is the pool's free list: linked from the head, without repetition, and
    as long as the count says. *)
Definition pool_inv (p : buffer_pool) (F : list ptr) : Prop :=
  chain (mem p) (m_p_head p) F /\ NoDup F /\ m_n_buffers p = Z.of_nat (length F) /\
  Z.of_nat (length F) <= m_n_buffers_created p < 2 ^ 64.

(** What a buffer looks like when it is handed out. *)
Definition handed_out (owner lk : Z) (h : heap) (x : ptr) : Prop :=
  exists b, h !! x = Some b /\ p_next_desc b = None /\ p_desc_owner b = owner /\ lkey b = lk.

Lemma get_loop_spec owner lk n deque F head h :
  chain h head F -> NoDup F -> (n <= length F)%nat ->
  exists head' h', get_loop n owner lk deque head h = Some (deque ++ take n F, head', h') /\
    chain h' head' (drop n F) /\ Forall (handed_out owner lk h') (take n F) /\
    (forall x, x ∉ take n F -> h' !! x = h !! x).
Proof.
  revert deque F head h. induction n as [|n IH]; intros deque F head h Hc Hn Hle.
  { exists head, h. simpl. rewrite take_0, app_nil_r, drop_0. by split_and!. }
  destruct F as [|x F]; simpl in Hle; [lia|]. destruct Hc as (-> & b & Hb & Hc). simpl. rewrite Hb. simpl.
  apply list.NoDup_cons in Hn as [Hx Hn]. set (b' := Buf _ _ None _ _ _ _ _).
  assert (chain (<[x := b']> h) (p_next_desc b) F) as Hc'.
  { eapply chain_mono; [|done]. intros y Hy. rewrite lookup_insert_ne; [done|]. by intros ->. }
  destruct (IH (deque ++ [x]) F (p_next_desc b) (<[x := b']> h) Hc' Hn ltac:(lia))
    as (hd & h' & E & Hd & Hh & Hs). exists hd, h'. rewrite <- app_assoc in E.
  assert (x ∉ take n F) as Hxt. { intros Hin%elem_of_take. destruct Hin as (i & Hi & _). apply Hx.
    by eapply list_elem_of_lookup_2. }
  split_and!; [done|done| |].
  - constructor; [|done]. exists b'. rewrite Hs, lookup_insert_eq by done. done.
  - intros y [Hy1 Hy2]%not_elem_of_cons. rewrite Hs, lookup_insert_ne; done.
Qed.

(** C13: Taking buffers is all or nothing.  With enough buffers in the pool the
    queue gets exactly the requested number, the first of the free list in
    order, each unlinked and marked with its new owner and key, and the rest
    stays the free list; otherwise nothing moves and the failure is counted. *)
Theorem get_buffers_correct p F deque owner count lk :
  pool_inv p F -> 0 <= count ->
  exists r deque' p', get_buffers_thread_safe deque owner count lk p = Some (r, deque', p') /\
    if decide (count <= Z.of_nat (length F)) then
      r = true /\ deque' = deque ++ take (Z.to_nat count) F /\
      pool_inv p' (drop (Z.to_nat count) F) /\
      Forall (handed_out owner lk (mem p')) (take (Z.to_nat count) F) /\
      (forall x, x ∉ take (Z.to_nat count) F -> mem p' !! x = mem p !! x)
    else
      r = false /\ deque' = deque /\ pool_inv p' F /\ mem p' = mem p /\
      n_buffer_pool_no_bufs p' = u32 (n_buffer_pool_no_bufs p + 1).
Proof.
  intros (Hc & Hn & En & Hle) H0. unfold get_buffers_thread_safe. rewrite En.
  destruct (decide (count <= Z.of_nat (length F))) as [Hd|Hd].
  - rewrite decide_False by lia.
    destruct (get_loop_spec owner lk (Z.to_nat count) deque F (m_p_head p) (mem p))
      as (hd & h' & -> & Hch & Hh & Hs); [done|done|lia|]. simpl.
    eexists _, _, _. split; [done|]. split_and!; try done.
    split_and!; simpl; try done.
    + rewrite <- (take_drop (Z.to_nat count) F) in Hn. by apply list.NoDup_app in Hn as (_ & _ & ?).
    + rewrite length_drop, wrap_small by lia. lia.
    + rewrite length_drop. lia.
    + lia.
  - rewrite decide_True by lia. eexists _, _, _. split; [done|]. by split_and!.
Qed.

(** Returning a list: it ends up reversed in front of the free list. *)
Lemma put_list_spec fuel l o p F :
  pool_inv p F -> chain (mem p) o l -> NoDup (l ++ F) -> (length l <= fuel)%nat ->
  Z.of_nat (length l + length F) < 2 ^ 64 ->
  exists p', put_list fuel o p = Some p' /\
    chain (mem p') (m_p_head p') (reverse l ++ F) /\
    m_n_buffers p' = Z.of_nat (length l + length F) /\
    m_n_buffers_created p' = m_n_buffers_created p /\
    (forall x, x ∉ l -> mem p' !! x = mem p !! x).
Proof.
  intros (Hc & Hn & En & _). clear Hn. revert o p F fuel Hc En.
  induction l as [|x l IH]; intros o p F fuel Hc En Hl Hn Hf Hb.
  { simpl in Hl. subst o. exists p. destruct fuel; by split_and!. }
  destruct Hl as (-> & b & Hx & Hl). destruct fuel as [|fuel]; simpl in Hf; [lia|].
  simpl. rewrite Hx. unfold put_buffer_helper. rewrite Hx. simpl.
  simpl in Hn. apply list.NoDup_cons in Hn as [Hxn Hn].
  set (p1 := BufferPool _ _ _ _ _ _ _ _ _).
  destruct (IH (p_next_desc b) p1 (x :: F) fuel) as (p' & E & Hc' & En' & Ec & Hs); simpl.
  - split; [done|]. eexists. rewrite lookup_insert_eq. split; [done|]. simpl.
    eapply chain_mono; [|done]. intros y Hy. rewrite lookup_insert_ne; set_solver.
  - rewrite En. simpl in Hb. wsimpl. lia.
  - eapply chain_mono; [|done]. intros y Hy. rewrite lookup_insert_ne; set_solver.
  - apply list.NoDup_app in Hn as (N1 & N2 & N3). apply list.NoDup_app.
    split_and!; [done|set_solver|]. apply list.NoDup_cons. set_solver.
  - lia.
  - simpl in Hb. lia.
  - exists p'. split; [done|]. rewrite reverse_cons, <- app_assoc. split; [done|].
    simpl in En'. split_and!; [lia|done|]. intros y [H1 H2]%not_elem_of_cons.
    rewrite Hs by done. simpl. by rewrite lookup_insert_ne.
Qed.

(** Returning buffers.  A list of buffers that are not in the pool goes,
    whole, to the front of the free list; the pool panics exactly when it would
    then hold more buffers than were created, and no buffer outside the list is
    touched. *)
Theorem put_buffers_correct p F o l :
  pool_inv p F -> chain (mem p) o l -> NoDup (l ++ F) ->
  Z.of_nat (length l + length F) < 2 ^ 64 ->
  exists p', put_buffers o p =
      Some (if decide (Z.of_nat (length l + length F) <= m_n_buffers_created p)
            then Done p' else Panic p') /\
    (Z.of_nat (length l + length F) <= m_n_buffers_created p -> pool_inv p' (reverse l ++ F)) /\
    (forall x, x ∉ l -> mem p' !! x = mem p !! x).
Proof.
  intros Hp Hl Hn Hb. unfold put_buffers. pose proof Hp as (_ & _ & _ & Hcr).
  destruct (put_list_spec (size (mem p)) l o p F) as (p' & -> & Hc & En & Ec & Hs); try done.
  { eapply chain_size; [done|]. by apply list.NoDup_app in Hn as (? & _). }
  simpl. exists p'. unfold check_count. rewrite En, Ec. split_and!; [| |done].
  - repeat case_decide; lia || done.
  - intros Hle. split_and!; try done.
    + rewrite (reverse_Permutation l). done.
    + rewrite En, length_app, length_reverse. lia.
    + rewrite length_app, length_reverse. lia.
    + lia.
Qed.

Definition two_bufs : heap :=
  <[100 := Buf 0 64 (Some 200) 0 0 0 0 0]> (<[200 := Buf 64 64 None 0 0 0 0 0]> ∅).
Definition two_pool : buffer_pool := BufferPool 0 2 3 (Some 100) 2 0 true false two_bufs.

Lemma two_pool_inv : pool_inv two_pool [100; 200].
Proof.
  split_and!; simpl; try done; try lia.
  - split; [done|]. eexists. split; [done|]. simpl. split; [done|]. eexists. by split.
  - repeat (apply list.NoDup_cons; split; [set_solver|]). constructor.
Qed.

Lemma get_buffers_correct_witness :
  exists r q p', get_buffers_thread_safe [] 7 1 42 two_pool = Some (r, q, p') /\
    r = true /\ q = [100] /\ pool_inv p' [200].
Proof.
  destruct (get_buffers_correct two_pool [100; 200] [] 7 1 42 two_pool_inv ltac:(lia))
    as (r & q & p' & E & H). rewrite decide_True in H by done.
  destruct H as (H1 & H2 & H3 & _). by exists r, q, p'.
Defined.

Lemma put_buffers_correct_witness :
  exists p', put_buffers (Some 300)
    (BufferPool 0 2 3 (Some 100) 2 0 true false (<[300 := Buf 128 64 None 5 1 0 0 1]> two_bufs))
      = Some (Done p') /\ pool_inv p' [300; 100; 200].
Proof.
  edestruct (put_buffers_correct (BufferPool 0 2 3 (Some 100) 2 0 true false
    (<[300 := Buf 128 64 None 5 1 0 0 1]> two_bufs)) [100; 200] (Some 300) [300]) as (p' & E & Hi & _).
  - destruct two_pool_inv as (Hc & Hn & He & Hl). split_and!; try done.
  - simpl. split; [done|]. eexists. by rewrite lookup_insert_eq.
  - repeat (apply list.NoDup_cons; split; [set_solver|]). constructor.
  - simpl. lia.
  - exists p'. rewrite decide_True in E by done. split; [done|]. by apply Hi.
Defined.

(** ** Circle detection *)

Section circles.
Context (h : heap) (x0 : ptr).
Context (Hx0 : is_Some (h !! x0)).
Context (Hclosed : forall x b y, h !! x = Some b -> p_next_desc b = Some y -> is_Some (h !! y)).

(** The node [n] links after [x0]; [None] past the end of the list. *)
Fixpoint walk (n : nat) : option ptr :=
  match n with O => Some x0 | S n => walk n ≫= f h end.

Definition circular : Prop := forall n, is_Some (walk n).

Lemma walk_dom n x : walk n = Some x -> is_Some (h !! x).
Proof using Hx0 Hclosed.
  revert x. induction n as [|n IH]; simpl; intros x E; [by simplify_eq|].
  destruct (walk n) as [y|] eqn:Ey; simplify_eq/=. unfold f in E.
  destruct (h !! y) as [b|] eqn:Eb; simplify_eq/=. by eapply Hclosed.
Qed.

Lemma walk_next n x b : walk n = Some x -> h !! x = Some b -> walk (S n) = p_next_desc b.
Proof using. intros E Hb. simpl. rewrite E. simpl. unfold f. by rewrite Hb. Qed.

Lemma walk_shift i j n : walk i = walk j -> walk (i + n) = walk (j + n).
Proof using.
  intros E. induction n as [|n IH]; [by rewrite !Nat.add_0_r|].
  rewrite !Nat.add_succ_r. simpl. by rewrite IH.
Qed.

Lemma walk_Some_le n m : is_Some (walk m) -> (n <= m)%nat -> is_Some (walk n).
Proof using.
  intros Hm Hle. induction Hle as [|m Hle IH]; [done|]. apply IH.
  simpl in Hm. destruct (walk m); [done|]. by destruct Hm.
Qed.

(** A node visited twice: the list is circular. *)
Lemma repeat_circular i j : (i < j)%nat -> walk i = walk j -> is_Some (walk i) -> circular.
Proof using.
  intros Hij E Hi n. destruct (decide (n <= i)%nat); [by eapply walk_Some_le|].
  replace n with (i + (n - i))%nat by lia. generalize (n - i)%nat as k. clear n n0.
  induction k as [k IH] using lt_wf_ind. destruct (decide (i + k <= j)%nat).
  - eapply walk_Some_le; [|done]. by rewrite <- E.
  - replace (i + k)%nat with (j + (i + k - j))%nat by lia. rewrite <- (walk_shift i j _ E).
    apply IH. lia.
Qed.

Lemma walk_period i p k : walk (i + p) = walk i -> walk (i + k * p) = walk i.
Proof using.
  intros E. induction k as [|k IH]; [by rewrite Nat.add_0_r|].
  replace (i + S k * p)%nat with ((i + p) + k * p)%nat by lia.
  by rewrite (walk_shift (i + p) i (k * p) E).
Qed.

(** A period of one node of the circle is a period of every node of it. *)
Lemma period_transfer a p b q :
  (0 < q)%nat -> walk (a + p) = walk a -> walk (b + q) = walk b -> walk (b + p) = walk b.
Proof using.
  intros Hq Ea Eb. pose proof (walk_period b q a Eb) as E1.
  assert (a <= b + a * q)%nat by nia. set (m := (b + a * q)%nat) in *.
  assert (walk (m + p) = walk m) as E2.
  { replace (m + p)%nat with ((a + p) + (m - a))%nat by lia.
    rewrite (walk_shift _ _ (m - a) Ea). f_equal. lia. }
  rewrite <- E1, <- E2. apply walk_shift. done.
Qed.

(** Either the list ends within the store, or a node repeats within it. *)
Lemma ends_or_repeats :
  walk (size h) = None \/
  exists i j, (i < j <= size h)%nat /\ walk i = walk j /\ is_Some (walk i).
Proof using Hx0 Hclosed.
  destruct (walk (size h)) as [z|] eqn:Ez; [right|by left].
  assert (forall n, (n <= size h)%nat -> is_Some (walk n)) as Hs.
  { intros n Hn. eapply walk_Some_le; [|done]. by rewrite Ez. }
  pose (l := (fun n => default 0 (walk n)) <$> seq 0 (S (size h))).
  destruct (list_pigeonhole l (elements (dom h))) as (i & j & x & Hij & Hi & Hj).
  - intros x (n & -> & Hn)%list_elem_of_fmap. apply elem_of_seq in Hn.
    destruct (Hs n ltac:(lia)) as [y Hy]. rewrite Hy. simpl.
    apply elem_of_elements, elem_of_dom. by eapply walk_dom.
  - unfold l. rewrite length_fmap, length_seq. change (length (elements (dom h))) with (size (dom h)).
    rewrite size_dom. lia.
  - assert (forall n, l !! n = Some x -> (n <= size h)%nat /\ walk n = Some x) as Hl.
    { intros n Hn. unfold l in Hn. apply list_lookup_fmap_Some in Hn as (m & Hx & Hm).
      apply lookup_seq in Hm as [-> Hm]. simpl in *. destruct (Hs n ltac:(lia)) as [y Hy].
      rewrite Hy in *. simpl in *. subst. split; [lia|done]. }
    destruct (Hl _ Hi) as [? Wi], (Hl _ Hj) as [? Wj]. exists i, j.
    rewrite Wi, Wj. split_and!; [lia|lia|done|done].
Qed.

(** Tortoise and hare meet after at most [size h] steps. *)
Lemma meets i j :
  (i < j)%nat -> walk i = walk j ->
  exists k, (0 < k <= j)%nat /\ walk k = walk (2 * k).
Proof using.
  intros Hij E. set (p := (j - i)%nat). assert (0 < p)%nat by lia.
  assert (walk (i + p) = walk i) as Ep by (rewrite E; f_equal; lia).
  pose proof (Nat.div_mod_eq i p) as Ed. pose proof (Nat.mod_upper_bound i p ltac:(lia)) as Em.
  set (k := (p * (i / p + 1))%nat). exists k. assert (i < k <= j)%nat by (unfold k; nia).
  split; [lia|]. replace (2 * k)%nat with ((i + (i / p + 1) * p) + (k - i))%nat by (unfold k; lia).
  rewrite (walk_shift _ i (k - i) (walk_period i p _ Ep)). f_equal. lia.
Qed.

Lemma isCircle_loop_true fuel i x1 x2 :
  circular -> walk i = Some x1 -> walk (2 * i) = Some x2 ->
  (exists k, (i < k <= i + fuel)%nat /\ walk k = walk (2 * k)) ->
  isCircle_loop fuel h x1 x2 = Some true.
Proof using Hx0 Hclosed.
  intros Hc. revert i x1 x2. induction fuel as [|fuel IH]; intros i x1 x2 E1 E2 (k & Hk & Ek); [lia|].
  simpl. destruct (walk_dom _ _ E2) as [b2 Hb2], (walk_dom _ _ E1) as [b1 Hb1].
  rewrite Hb2. simpl. pose proof (walk_next _ _ _ E2 Hb2) as W2.
  destruct (Hc (S (2 * i))) as [q Hq]. rewrite <- W2, Hq.
  destruct (walk_dom _ _ Hq) as [bq Hbq]. rewrite Hbq. simpl.
  pose proof (walk_next _ _ _ Hq Hbq) as W3. destruct (Hc (S (S (2 * i)))) as [y2 Hy2].
  rewrite <- W3, Hy2, Hb1. simpl. pose proof (walk_next _ _ _ E1 Hb1) as W1.
  destruct (Hc (S i)) as [y1 Hy1]. rewrite <- W1, Hy1. simpl.
  replace (S (S (2 * i))) with (2 * S i)%nat in Hy2 by lia.
  case_decide as Heq; [done|]. apply (IH (S i)); [done|done|].
  exists k. split; [|done]. assert (k <> S i); [|lia]. intros ->. congruence.
Qed.

Lemma isCircle_loop_false fuel i x1 x2 :
  ~ circular -> walk i = Some x1 -> walk (2 * i) = Some x2 ->
  walk (2 * (i + fuel)) = None -> isCircle_loop fuel h x1 x2 = Some false.
Proof using Hx0 Hclosed.
  intros Hc. revert i x1 x2. induction fuel as [|fuel IH]; intros i x1 x2 E1 E2 En.
  { rewrite Nat.add_0_r in En. congruence. }
  simpl. destruct (walk_dom _ _ E2) as [b2 Hb2], (walk_dom _ _ E1) as [b1 Hb1].
  rewrite Hb2. simpl. pose proof (walk_next _ _ _ E2 Hb2) as W2. rewrite <- W2.
  destruct (walk (S (2 * i))) as [q|] eqn:Hq; [|done].
  destruct (walk_dom _ _ Hq) as [bq Hbq]. rewrite Hbq. simpl.
  rewrite <- (walk_next _ _ _ Hq Hbq).
  destruct (walk (S (S (2 * i)))) as [y2|] eqn:Hy2; [|done]. rewrite Hb1. simpl.
  replace (S (S (2 * i))) with (2 * S i)%nat in Hy2 by lia.
  destruct (walk_Some_le (S i) (2 * S i)) as [y1 Hy1]; [by rewrite Hy2|lia|].
  rewrite <- (walk_next _ _ _ E1 Hb1), Hy1. simpl. case_decide as Heq.
  - exfalso. apply Hc, (repeat_circular (S i) (2 * S i)); [lia| |by rewrite Hy1]. congruence.
  - apply (IH (S i)); [done|done|]. rewrite <- En. f_equal. lia.
Qed.

Lemma isCircle_correct :
  exists b, isCircle (S (size h)) h (Some x0) = Some b /\ (b = true <-> circular).
Proof using Hx0 Hclosed.
  unfold isCircle. destruct ends_or_repeats as [En|(i & j & Hij & E & Hi)].
  - assert (~ circular) as Hc. { intros Hc. destruct (Hc (size h)) as [? Hx]. congruence. }
    exists false. split; [|done]. apply (isCircle_loop_false _ 0); [done|done|done|].
    destruct (walk (2 * (0 + S (size h)))) as [y|] eqn:Ey; [|done].
    destruct (walk_Some_le (size h) (2 * (0 + S (size h)))) as [z Hz]; [by rewrite Ey|lia|]. congruence.
  - assert (circular) as Hc by (by eapply (repeat_circular i j); [lia|..]).
    exists true. split; [|done]. apply (isCircle_loop_true _ 0); [done|done|done|].
    destruct (meets i j) as (k & Hk & Ek); [lia|done|]. exists k. split; [lia|done].
Qed.

(** *** Position and length of the circle *)

(** [mu] is the first node that recurs and [lambda] the least distance after
    which it does. *)
Definition circle_info (mu lambda : nat) : Prop :=
  (0 < lambda)%nat /\ walk (mu + lambda) = walk mu /\
  (forall m l, (m < mu)%nat -> (0 < l)%nat -> walk (m + l) <> walk m) /\
  (forall l, (0 < l < lambda)%nat -> walk (mu + l) <> walk mu).

Lemma walk_f n x y : walk n = Some x -> walk (S n) = Some y -> f h x = Some y.
Proof using. simpl. intros ->. done. Qed.

Lemma floyd_meet_spec fuel i t a :
  circular -> (0 < i)%nat -> walk i = Some t -> walk (2 * i) = Some a ->
  (exists k, (i <= k <= i + fuel)%nat /\ walk k = walk (2 * k)) ->
  exists nu z, (0 < nu)%nat /\ floyd_meet fuel h t a = Some z /\
    walk nu = Some z /\ walk (nu + nu) = walk nu.
Proof using.
  intros Hc. revert i t a. induction fuel as [|fuel IH]; intros i t a Hi E1 E2 (k & Hk & Ek); simpl;
    (case_decide as Hd; [exists i, t; replace (i + i)%nat with (2 * i)%nat by lia; subst;
      split_and!; [lia|done|done|congruence]|]).
  - exfalso. assert (k = i) as -> by lia. congruence.
  - destruct (Hc (S i)) as [t' Ht], (Hc (S (2 * i))) as [a1 Ha1], (Hc (S (S (2 * i)))) as [a' Ha].
    rewrite (walk_f _ _ _ E1 Ht), (walk_f _ _ _ E2 Ha1). simpl. rewrite (walk_f _ _ _ Ha1 Ha). simpl.
    replace (S (S (2 * i))) with (2 * S i)%nat in Ha by lia.
    apply (IH (S i)); [lia|done|done|]. exists k. split; [|done].
    assert (k <> i); [intros ->; congruence|lia].
Qed.

Lemma floyd_mu_spec nu fuel m t a :
  circular -> walk m = Some t -> walk (m + nu) = Some a ->
  (exists k, (m <= k <= m + fuel)%nat /\ Z.of_nat k <= MAX_STEPS /\ walk (k + nu) = walk k) ->
  exists mu z, floyd_mu fuel h t a (Z.of_nat m) = Some (z, Z.of_nat mu) /\
    walk mu = Some z /\ walk (mu + nu) = walk mu /\
    (forall j, (m <= j < mu)%nat -> walk (j + nu) <> walk j).
Proof using.
  intros Hc. revert m t a. induction fuel as [|fuel IH]; intros m t a E1 E2 (k & Hk & HM & Ek); simpl;
    (case_decide as Hd; [exists m, t; subst; split_and!; try done; [congruence|lia]|]).
  - exfalso. assert (k = m) as -> by lia. congruence.
  - assert (k <> m) by (intros ->; congruence).
    destruct (Hc (S m)) as [t' Ht], (Hc (S (m + nu))) as [a' Ha].
    rewrite (walk_f _ _ _ E1 Ht), (walk_f _ _ _ E2 Ha). simpl.
    rewrite decide_False by lia. replace (Z.of_nat m + 1) with (Z.of_nat (S m)) by lia.
    destruct (IH (S m) t' a' Ht Ha) as (mu & z & E & H1 & H2 & H3).
    { exists k. split_and!; try done; lia. }
    exists mu, z. split_and!; try done. intros j Hj. destruct (decide (j = m)) as [->|].
    + congruence.
    + apply H3. lia.
Qed.

Lemma floyd_lambda_spec mu fuel l t a :
  circular -> walk mu = Some t -> walk (mu + l) = Some a ->
  (exists k, (l <= k <= l + fuel)%nat /\ Z.of_nat k <= MAX_STEPS /\ walk (mu + k) = walk mu) ->
  exists lambda, floyd_lambda fuel h t a (Z.of_nat l) = Some (Z.of_nat lambda) /\
    (l <= lambda)%nat /\ walk (mu + lambda) = walk mu /\
    (forall j, (l <= j < lambda)%nat -> walk (mu + j) <> walk mu).
Proof using.
  intros Hc. revert l a. induction fuel as [|fuel IH]; intros l a E1 E2 (k & Hk & HM & Ek); simpl;
    (case_decide as Hd; [exists l; subst; split_and!; try done; [congruence|lia]|]).
  - exfalso. assert (k = l) as -> by lia. congruence.
  - assert (k <> l) by (intros ->; congruence).
    destruct (Hc (S (mu + l))) as [a' Ha]. rewrite (walk_f _ _ _ E2 Ha). simpl.
    rewrite decide_False by lia. replace (Z.of_nat l + 1) with (Z.of_nat (S l)) by lia.
    replace (S (mu + l)) with (mu + S l)%nat in Ha by lia.
    destruct (IH (S l) a' E1 Ha) as (lam & E & H1 & H2 & H3).
    { exists k. split_and!; try done; lia. }
    exists lam. split_and!; try done; [lia|]. intros j Hj. destruct (decide (j = l)) as [->|].
    + congruence.
    + apply H3. lia.
Qed.

Lemma Floyd_correct :
  circular -> Z.of_nat (size h) <= MAX_STEPS ->
  exists mu lambda, circle_info mu lambda /\
    Floyd_LogCircleInfo (size h) h x0 = Some (Z.of_nat mu, Z.of_nat lambda).
Proof using Hx0 Hclosed.
  intros Hc HM. destruct ends_or_repeats as [En|(i & j & Hij & E & Hi)].
  { destruct (Hc (size h)) as [? ?]. congruence. }
  destruct (meets i j) as (k & Hk & Ek); [lia|done|].
  destruct (Hc 1%nat) as [t Ht], (Hc 2%nat) as [a Ha]. unfold Floyd_LogCircleInfo.
  rewrite (walk_f 0 x0 t eq_refl Ht). simpl. rewrite (walk_f 1 t a Ht Ha). simpl.
  destruct (floyd_meet_spec (size h) 1 t a) as (nu & z & Hnu & -> & Hz & Enu); [done|lia|done|done| |].
  { exists k. split; [lia|done]. }
  simpl. assert (walk (i + (j - i)) = walk i) as Ep by (rewrite E; f_equal; lia).
  destruct (floyd_mu_spec nu (size h) 0 x0 z) as (mu & y & Emu & Hy & Hmu & Hmin); [done|done|done| |].
  { exists i. split_and!; [lia..|]. by apply (period_transfer nu nu i (j - i)); [lia|..]. }
  change (Z.of_nat 0) with 0 in Emu. rewrite Emu. simpl.
  destruct (Hc (mu + 1)%nat) as [b Hb].
  rewrite (walk_f mu y b Hy) by (by rewrite <- Nat.add_1_r). simpl.
  destruct (floyd_lambda_spec mu (size h) 1 y b) as (lam & El & Hl1 & Hl2 & Hl3); [done|done|done| |].
  { exists (j - i)%nat. split_and!; [lia..|]. by apply (period_transfer i (j - i) mu nu). }
  change (Z.of_nat 1) with 1 in El. rewrite El. simpl. exists mu, lam. split; [|done]. split_and!; [lia|done| |].
  - intros m l Hm Hl El'. apply (Hmin m); [lia|]. by apply (period_transfer nu nu m l).
  - intros l Hl. apply Hl3. lia.
Qed.
End circles.

(** Circle detection.  On any list whose links stay in the store, within
    one step per buffer, [isCircle] says whether the list never ends; and on a
    circular list (of at most [MAX_STEPS] buffers) [Floyd_LogCircleInfo] logs
    the index of the first buffer that recurs and the length of the circle. *)
Theorem circle_detection_correct h x0 :
  is_Some (h !! x0) ->
  (forall x b y, h !! x = Some b -> p_next_desc b = Some y -> is_Some (h !! y)) ->
  exists b, isCircle (S (size h)) h (Some x0) = Some b /\ (b = true <-> circular h x0) /\
    (b = true -> Z.of_nat (size h) <= MAX_STEPS ->
     exists mu lambda, circle_info h x0 mu lambda /\
       Floyd_LogCircleInfo (size h) h x0 = Some (Z.of_nat mu, Z.of_nat lambda)).
Proof.
  intros Hx0 Hcl. destruct (isCircle_correct h x0 Hx0 Hcl) as (b & E & Hb).
  exists b. split_and!; try done. intros Ht HM. apply Floyd_correct; [done|done|by apply Hb|done].
Qed.

(** 1 -> 2 -> 3 -> 2. *)
Definition rho : heap :=
  <[1 := Buf 0 0 (Some 2) 0 0 0 0 0]> (<[2 := Buf 0 0 (Some 3) 0 0 0 0 0]>
  (<[3 := Buf 0 0 (Some 2) 0 0 0 0 0]> ∅)).

Lemma circle_detection_correct_witness :
  isCircle 4 rho (Some 1) = Some true /\ circular rho 1 /\
  Floyd_LogCircleInfo 3 rho 1 = Some (1, 2).
Proof.
  destruct (circle_detection_correct rho 1) as (b & E & Hb & _).
  - by eexists.
  - intros x c y H1 H2. unfold rho in H1.
    repeat (apply lookup_insert_Some in H1 as [[<- <-]|[_ H1]]; [simpl in H2; simplify_eq; by eexists|]).
    by rewrite lookup_empty in H1.
  - vm_compute in E. injection E as <-. split_and!; [done|by apply Hb|by vm_compute].
Defined.

(** ** The layout of the block *)

Lemma align_spec x :
  0 <= x -> x + 63 < 2 ^ 64 -> align x mod 64 = 0 /\ x <= align x <= x + 63.
Proof.
  intros H0 H. unfold align, MCE_ALIGNMENT. rewrite (wrap_small 64 (x + 63)) by lia.
  rewrite <- Z.ldiff_land. change (Z.ldiff (x + 63) 63) with (Z.ldiff (x + 63) (Z.ones 6)). rewrite Z.ldiff_ones_r by lia.
  rewrite Z.shiftr_div_pow2, Z.shiftl_mul_pow2 by lia. change (2 ^ 6) with 64.
  pose proof (Z.div_mod (x + 63) 64 ltac:(lia)) as E.
  pose proof (Z.mod_pos_bound (x + 63) 64 ltac:(lia)) as B.
  rewrite wrap_small by lia. split; [apply Z.mod_mul; lia|lia].
Qed.

(** The addresses of [n] descriptors from [pd] on. *)
Definition descs (pd sd : Z) (n : nat) : list ptr := (fun i => pd + Z.of_nat i * sd) <$> seq 0 n.

Lemma descs_S pd sd n : descs pd sd (S n) = pd :: descs (pd + sd) sd n.
Proof.
  unfold descs. simpl. f_equal; [lia|]. rewrite <- fmap_S_seq, <- list_fmap_compose.
  apply list_fmap_ext. intros i x _. unfold compose. lia.
Qed.

Lemma descs_ge pd sd n x : 0 < sd -> x ∈ descs pd sd n -> pd <= x.
Proof. intros Hs (i & -> & _)%list_elem_of_fmap. nia. Qed.

(** Splitting puts a descriptor for every slot on the free list, each with its
    slice of the data area. *)
Lemma split_block_spec n al sd bs pb pd p F :
  0 < sd -> chain (mem p) (m_p_head p) F -> NoDup F -> Forall (fun x => x < pd) F ->
  m_n_buffers p = Z.of_nat (length F) -> Z.of_nat (length F + n) < 2 ^ 64 ->
  exists p', split_block n al sd bs pb pd p = Some p' /\
    let F' := reverse (descs pd sd n) ++ F in
    chain (mem p') (m_p_head p') F' /\ NoDup F' /\ m_n_buffers p' = Z.of_nat (length F') /\
    m_n_buffers_created p' = m_n_buffers_created p /\ m_size p' = m_size p /\
    (forall x, x < pd -> mem p' !! x = mem p !! x) /\
    (forall i, (i < n)%nat -> exists b, mem p' !! (pd + Z.of_nat i * sd) = Some b /\
       p_buffer b = pb + Z.of_nat i * al /\ sz_buffer b = bs).
Proof.
  intros Hsd. revert pb pd p F. induction n as [|n IH]; intros pb pd p F Hc Hn Hlt En Hb.
  { exists p. simpl. split; [done|]. split_and!; try done. lia. }
  simpl. unfold put_buffer_helper. simpl. rewrite lookup_insert_eq. simpl.
  set (p1 := BufferPool _ _ _ _ _ _ _ _ _). rewrite list.Forall_forall in Hlt.
  destruct (IH (pb + al) (pd + sd) p1 (pd :: F)) as (p' & -> & Hc' & Hn' & En' & Ecr & Esz & Hs & Hd).
  - simpl. split; [done|]. eexists. rewrite lookup_insert_eq. split; [done|]. simpl.
    eapply chain_mono; [|done]. intros x Hx. specialize (Hlt x Hx). rewrite !lookup_insert_ne by lia. done.
  - apply list.NoDup_cons. split; [|done]. intros Hin%Hlt. lia.
  - apply list.Forall_forall. intros x [->|Hin%Hlt]%elem_of_cons; lia.
  - simpl. rewrite En. wsimpl. lia.
  - simpl. lia.
  - exists p'. split; [done|]. rewrite descs_S, reverse_cons, <- app_assoc. split_and!; try done.
    + intros x Hx. rewrite Hs by lia. simpl. by rewrite !lookup_insert_ne by lia.
    + intros [|i] Hi.
      * eexists. rewrite Z.mul_0_l, !Z.add_0_r. rewrite Hs by lia. simpl. rewrite lookup_insert_eq. done.
      * destruct (Hd i ltac:(lia)) as (b & Hb' & E1 & E2). exists b.
        replace (pd + Z.of_nat (S i) * sd) with (pd + sd + Z.of_nat i * sd) by lia.
        split_and!; try done. lia.
Qed.

(** The constructor.  All the buffers are free at the start; buffer [i]
    has its own slice of the block, aligned to 64 bytes and of the requested
    size, the descriptors follow the data area, and everything lies inside the
    memory that was allocated. *)
Theorem ctor_layout sd A count bs :
  0 < sd -> 0 <= A -> 0 < count -> 0 <= bs ->
  A + (sd + bs + 63) * count + 63 < 2 ^ 64 ->
  exists p al B D, ctor sd A count bs = Some p /\
    pool_inv p (reverse (descs D sd (Z.to_nat count))) /\ m_n_buffers p = count /\
    B mod 64 = 0 /\ al mod 64 = 0 /\ bs <= al /\ A <= B /\ B + al * count = D /\
    D + sd * count <= A + m_size p /\
    (forall i, 0 <= i < count -> exists b, mem p !! (D + i * sd) = Some b /\
       p_buffer b = B + i * al /\ sz_buffer b = bs).
Proof.
  intros Hsd HA Hc Hbs Hov.
  destruct (align_spec A) as [HB1 HB2]; [lia|nia|]. destruct (align_spec bs) as [Ha1 Ha2]; [lia|nia|].
  assert ((sd + align bs) * count <= (sd + bs + 63) * count) by (apply Z.mul_le_mono_nonneg_r; lia).
  unfold ctor. rewrite decide_False by lia.
  set (p0 := BufferPool _ _ _ _ _ _ _ _ _).
  destruct (split_block_spec (Z.to_nat count) (align bs) sd bs (align A) (align A + align bs * count) p0 [])
    as (p & E & Hch & Hn & En & Ecr & Esz & _ & Hd); try done.
  { constructor. }
  { simpl. nia. }
  rewrite app_nil_r in *.
  assert (length (reverse (descs (align A + align bs * count) sd (Z.to_nat count))) = Z.to_nat count) as El.
  { unfold descs. by rewrite length_reverse, length_fmap, length_seq. }
  eexists p, (align bs), (align A), (align A + align bs * count). split; [done|].
  split_and!; try done; try lia.
  - split_and!; try done. rewrite El, Ecr. simpl. lia. rewrite Ecr. simpl. nia.
  - rewrite Esz. simpl. unfold block_size. rewrite decide_True by lia. unfold MCE_ALIGNMENT.
    rewrite wrap_small by nia. nia.
  - intros i Hi. destruct (Hd (Z.to_nat i) ltac:(lia)) as (b & Hb & E1 & E2).
    rewrite Z2Nat.id in Hb, E1 by lia. by exists b.
Qed.

Lemma ctor_layout_witness :
  exists p, ctor 256 4100 2 1500 = Some p /\ m_n_buffers p = 2.
Proof.
  destruct (ctor_layout 256 4100 2 1500) as (p & al & B & D & E & _ & En & _);
    [lia..|vm_compute; reflexivity|]. by exists p.
Defined.

End Pool.
