(* ===== verification/ChunkList.v ===== *)
(** * Queues in chunks: src/src/vma/util/chunk_list.h

    The queue of received packets of a UDP socket.  Elements are kept in
    containers of 64 cells; [m_front] and [m_back] are the positions of the first
    and the last element in the first and the last used container, and empty
    containers are kept for reuse, with whatever is in them.  A container is its
    buffer; whether memory can be allocated is an argument; [None] is an access
    outside of a buffer or through a null pointer. *)

From S2P Require Import Prelude.

Local Open Scope Z_scope.

Module ChunkList.

Definition CHUNK_LIST_CONTAINER_SIZE : Z := 64.
Definition CHUNK_LIST_CONTAINER_INIT : nat := 4.
Definition CHUNK_LIST_CONTIANER_THRESHOLD : Z := 15.

Section chunk_list.
Context {T : Type} (null : T).

Abbreviation container := (list T).

Record chunk_list_t := ChunkList_ {
  m_free_containers : list container;
  m_used_containers : list container;
  m_size : Z;
  m_front : Z;
  m_back : Z
}.

(** [calloc] *)
Definition new_container : container := replicate 64 null.

(** [oks]: whether the allocations succeed, one for each container. *)
Fixpoint allocate (oks : list bool) (free : list container) : list container :=
  match oks with
  | [] => free
  | ok :: oks => if (ok : bool) then allocate oks (free ++ [new_container]) else free
  end.

Definition initialize (ok : nat -> bool) : chunk_list_t :=
  match allocate (map ok (seq 0 CHUNK_LIST_CONTAINER_INIT)) [] with
  | [] => ChunkList_ [] [] 0 0 (-1)
  | c :: free => ChunkList_ free [c] 0 0 (-1)
  end.

Definition empty (s : chunk_list_t) : bool := bool_decide (m_size s = 0).
Definition size (s : chunk_list_t) : Z := m_size s.

Definition front (s : chunk_list_t) : option T :=
  if empty s then Some null
  else c ← head (m_used_containers s); if decide (0 <= m_front s) then c !! Z.to_nat (m_front s) else None.

Definition pop_front (s : chunk_list_t) : option chunk_list_t :=
  if empty s then Some s
  else
    let f := m_front s + 1 in
    if decide (f = CHUNK_LIST_CONTAINER_SIZE) then
      match m_used_containers s with
      | [] => None
      | c :: used =>
        let free := if decide (Z.of_nat (length (m_free_containers s)) > CHUNK_LIST_CONTIANER_THRESHOLD)
                    then m_free_containers s else m_free_containers s ++ [c] in
        Some (ChunkList_ free used (m_size s - 1) 0 (m_back s))
      end
    else Some (ChunkList_ (m_free_containers s) (m_used_containers s) (m_size s - 1) f (m_back s)).

Definition get_and_pop_front (s : chunk_list_t) : option (T * chunk_list_t) :=
  x ← front s; s ← pop_front s; Some (x, s).

(** [m_used_containers.back()->m_p_buffer[i] = obj] *)
Definition store (obj : T) (i : Z) (used : list container) : option (list container) :=
  c ← list.last used;
  if decide (0 <= i < CHUNK_LIST_CONTAINER_SIZE) then Some (removelast used ++ [<[Z.to_nat i := obj]> c]) else None.

(** [ok]: whether a container can be allocated. *)
Definition push_back (ok : bool) (obj : T) (s : chunk_list_t) : option chunk_list_t :=
  let b := m_back s + 1 in
  if decide (b = CHUNK_LIST_CONTAINER_SIZE) then
    let free := match m_free_containers s with [] => allocate [ok] [] | l => l end in
    match list.last free with
    | None => Some (ChunkList_ [] (m_used_containers s) (m_size s) (m_front s) b)
    | Some c =>
      used ← store obj 0 (m_used_containers s ++ [c]);
      Some (ChunkList_ (removelast free) used (m_size s + 1) (m_front s) 0)
    end
  else
    used ← store obj b (m_used_containers s);
    Some (ChunkList_ (m_free_containers s) used (m_size s + 1) (m_front s) b).

(** ** The queue *)

(** What the containers hold between the two ends. *)
Definition elements (s : chunk_list_t) : list T :=
  take (Z.to_nat (m_size s)) (drop (Z.to_nat (m_front s)) (concat (m_used_containers s))).

Definition full (c : container) : Prop := length c = 64%nat.

Record inv (s : chunk_list_t) : Prop := Inv {
  i_used : Forall full (m_used_containers s);
  i_free : Forall full (m_free_containers s);
  i_front : 0 <= m_front s < 64;
  i_back : -1 <= m_back s < 64;
  i_size : m_size s = 64 * Z.of_nat (length (m_used_containers s)) - 64 + m_back s + 1 - m_front s;
  i_pos : 0 <= m_size s;
  i_none : m_used_containers s = [] -> m_back s = 63
}.

Lemma full_concat l : Forall full l -> length (concat l) = (64 * length l)%nat.
Proof using. induction 1 as [|c l Hc _ IH]; [done|]. simpl. rewrite length_app, IH, Hc. lia. Qed.

Lemma new_full : full new_container.
Proof using. apply length_replicate. Qed.

Lemma allocate_full oks free : Forall full free -> Forall full (allocate oks free).
Proof using.
  revert free. induction oks as [|[] oks IH]; intros free Hf; simpl; auto.
  apply IH, list.Forall_app. split; [done|]. apply list.Forall_singleton, new_full.
Qed.

Lemma initialize_inv ok : ok 0%nat = true -> inv (initialize ok) /\ elements (initialize ok) = [].
Proof using.
  intros E. unfold initialize. pose proof (allocate_full (map ok (seq 0 CHUNK_LIST_CONTAINER_INIT)) [] ltac:(constructor)) as Hf.
  destruct (allocate _ _) as [|c free] eqn:Ea.
  { exfalso. simpl in Ea. rewrite E in Ea. by destruct (ok 1%nat), (ok 2%nat), (ok 3%nat). }
  apply list.Forall_cons in Hf as [Hc Hf]. split; [|done].
  split; simpl; try done; try lia. by apply list.Forall_singleton.
Qed.

(** Cell [k] behind the first element. *)
Lemma elements_lookup s k : inv s -> Z.of_nat k < m_size s ->
  elements s !! k = concat (m_used_containers s) !! (Z.to_nat (m_front s) + k)%nat.
Proof using. intros H Hk. unfold elements. rewrite lookup_take_lt by lia. apply lookup_drop. Qed.

Lemma elements_length s : inv s -> length (elements s) = Z.to_nat (m_size s).
Proof using.
  intros H. unfold elements. rewrite length_take, length_drop, full_concat by apply H.
  pose proof (i_size _ H). pose proof (i_back _ H). pose proof (i_front _ H). lia.
Qed.

Lemma used_cons s : inv s -> m_size s <> 0 -> exists c used, m_used_containers s = c :: used /\ full c.
Proof using.
  intros H Hz. destruct (m_used_containers s) as [|c used] eqn:E.
  - pose proof (i_size _ H) as Hs. rewrite E in Hs. simpl in Hs. rewrite (i_none _ H E) in Hs.
    pose proof (i_pos _ H). pose proof (i_front _ H). lia.
  - exists c, used. split; [done|]. pose proof (i_used _ H) as Hu. rewrite E in Hu. by apply list.Forall_cons in Hu as [? _].
Qed.

Lemma front_spec s : inv s -> front s = Some (default null (head (elements s))).
Proof using.
  intros H. unfold front, empty. case_bool_decide as Hz.
  { pose proof (elements_length s H) as Hl. rewrite Hz in Hl. by destruct (elements s). }
  destruct (used_cons s H Hz) as (c & used & E & Hc). rewrite E. simpl. pose proof (i_front _ H). pose proof (i_pos _ H).
  rewrite decide_True by lia. assert (elements s !! 0%nat = c !! Z.to_nat (m_front s)) as Hk.
  { rewrite elements_lookup by (done || lia). rewrite E, Nat.add_0_r. simpl. apply lookup_app_l. rewrite Hc. lia. }
  rewrite <- Hk. pose proof (elements_length s H). destruct (elements s) as [|x l]; [simpl in *; lia|done].
Qed.

Lemma pop_front_spec s : inv s -> exists s', pop_front s = Some s' /\ inv s' /\ elements s' = tail (elements s).
Proof using.
  intros H. unfold pop_front, empty. case_bool_decide as Hz.
  { exists s. split; [done|]. split; [done|]. pose proof (elements_length s H) as Hl. rewrite Hz in Hl. by destruct (elements s). }
  destruct (used_cons s H Hz) as (c & used & E & Hc). pose proof (i_size _ H) as Hs. pose proof (i_pos _ H).
  pose proof (i_front _ H). pose proof (i_back _ H).
  pose proof (i_used _ H) as Hu. rewrite E in Hs, Hu. apply list.Forall_cons in Hu as [_ Hu]. simpl in Hs.
  assert (forall (l : list T) f, tail (take (Z.to_nat (m_size s)) (drop f l)) = take (Z.to_nat (m_size s - 1)) (drop (S f) l)) as Ht.
  { intros l f. replace (Z.to_nat (m_size s)) with (S (Z.to_nat (m_size s - 1))) by lia.
    replace (S f) with (f + 1)%nat by lia. rewrite <- drop_drop. destruct (drop f l); simpl; [by rewrite take_nil|by rewrite drop_0]. }
  unfold CHUNK_LIST_CONTAINER_SIZE. case_decide as Hf.
  - rewrite E. eexists. split; [reflexivity|]. split.
    + split; simpl; try done; try lia.
      * case_decide; [apply H|]. apply list.Forall_app. split; [apply H|by apply list.Forall_singleton].
      * intros ->. simpl in Hs. lia.
    + unfold elements. simpl. rewrite Ht, E. simpl. f_equal. rewrite drop_0, drop_app_ge by (rewrite Hc; lia).
      rewrite Hc. replace (S (Z.to_nat (m_front s)) - 64)%nat with 0%nat by lia. by rewrite drop_0.
  - eexists. split; [reflexivity|]. split.
    + split; simpl; try apply H; try lia. by rewrite E; simpl; lia.
    + unfold elements. simpl. rewrite Ht. do 2 f_equal. lia.
Qed.

(** Storing behind the last element appends. *)
Lemma store_spec obj i used : Forall full used -> used <> [] -> 0 <= i < 64 ->
  exists used', store obj i used = Some used' /\ Forall full used' /\ length used' = length used /\
    concat used' = <[(64 * (length used - 1) + Z.to_nat i)%nat := obj]> (concat used).
Proof using.
  intros Hu Hn Hi. destruct (List.exists_last Hn) as (us & c & ->). apply list.Forall_app in Hu as [Hu Hc].
  apply list.Forall_cons in Hc as [Hc _]. unfold store. rewrite last_snoc. simpl. rewrite decide_True by (unfold CHUNK_LIST_CONTAINER_SIZE; lia).
  rewrite removelast_last. eexists. split; [reflexivity|]. split.
  { apply list.Forall_app. split; [done|]. apply list.Forall_singleton. unfold full. rewrite length_insert. exact Hc. }
  split; [by rewrite !length_app|]. rewrite !concat_app. simpl. rewrite !app_nil_r, length_app. simpl.
  rewrite insert_app_r_alt by (rewrite full_concat by done; lia). rewrite full_concat by done. f_equal. f_equal. lia.
Qed.

Lemma append_elements (obj : T) (n f : nat) (l : list T) : (f + n < length l)%nat ->
  take (S n) (drop f (<[(f + n)%nat := obj]> l)) = take n (drop f l) ++ [obj].
Proof using.
  intros Hl. rewrite drop_insert_ge by lia. replace (f + n - f)%nat with n by lia.
  assert (n < length (drop f l))%nat by (rewrite length_drop; lia).
  rewrite (take_S_r _ _ obj) by (by apply list_lookup_insert_eq). by rewrite take_insert_ge.
Qed.

Lemma push_back_spec ok obj s : inv s -> ok = true \/ m_free_containers s <> [] ->
  exists s', push_back ok obj s = Some s' /\ inv s' /\ elements s' = elements s ++ [obj].
Proof using.
  intros H Hok. pose proof (i_size _ H) as Hs. pose proof (i_pos _ H). pose proof (i_front _ H). pose proof (i_back _ H).
  pose proof (i_used _ H) as Hu. unfold push_back, CHUNK_LIST_CONTAINER_SIZE. case_decide as Hb.
  - set (free := match m_free_containers s with [] => _ | _ => _ end).
    assert (free <> [] /\ Forall full free) as [Hne Hff].
    { unfold free. pose proof (i_free _ H) as Hf. destruct (m_free_containers s) as [|c l]; [|done].
      destruct Hok as [-> |]; [|done]. simpl. split; [done|]. apply list.Forall_singleton, new_full. }
    destruct (List.exists_last Hne) as (fs & c & ->). apply list.Forall_app in Hff as [Hfs Hc]. apply list.Forall_cons in Hc as [Hc _].
    rewrite last_snoc, removelast_last.
    destruct (store_spec obj 0 (m_used_containers s ++ [c])) as (used' & -> & Hu' & Hl & Ec).
    { apply list.Forall_app. split; [done|by apply list.Forall_singleton]. } { by destruct (m_used_containers s). } { lia. }
    simpl. eexists. split; [reflexivity|]. rewrite length_app in Hl, Ec. change (length [c]) with 1%nat in Hl, Ec. split.
    + split; simpl; try done; try lia. intros ->. simpl in Hl. lia.
    + unfold elements. cbn [m_size m_front m_used_containers]. rewrite Ec, concat_app. cbn [concat]. rewrite app_nil_r.
      replace (Z.to_nat (m_size s + 1)) with (S (Z.to_nat (m_size s))) by lia.
      replace (64 * _ + Z.to_nat 0)%nat with (Z.to_nat (m_front s) + Z.to_nat (m_size s))%nat by lia.
      rewrite append_elements by (rewrite length_app, full_concat, Hc by done; lia). f_equal.
      rewrite drop_app_le by (rewrite full_concat by done; lia). apply take_app_le.
      rewrite length_drop, full_concat by done. lia.
  - assert (m_used_containers s <> []) as Hne. { intros E. rewrite (i_none _ H E) in Hb. lia. }
    destruct (store_spec obj (m_back s + 1) (m_used_containers s)) as (used' & -> & Hu' & Hl & Ec); [done|done|lia|].
    simpl. eexists. split; [reflexivity|]. assert (length (m_used_containers s) <> 0%nat) by (by destruct (m_used_containers s)). split.
    + split; simpl; try apply H; try done; try lia. intros ->. simpl in Hl. lia.
    + unfold elements. cbn [m_size m_front m_used_containers]. rewrite Ec.
      replace (Z.to_nat (m_size s + 1)) with (S (Z.to_nat (m_size s))) by lia.
      replace (64 * _ + Z.to_nat _)%nat with (Z.to_nat (m_front s) + Z.to_nat (m_size s))%nat by lia.
      apply append_elements. rewrite full_concat by done. lia.
Qed.

(** ** Runs *)

Inductive op := Push (ok : bool) (x : T) | Pop.

(** What the socket takes out, and the list afterwards. *)
Fixpoint run (l : list op) (s : chunk_list_t) : option (list T * chunk_list_t) :=
  match l with
  | [] => Some ([], s)
  | Push ok x :: l => s ← push_back ok x s; run l s
  | Pop :: l => '(x, s) ← get_and_pop_front s; '(xs, s) ← run l s; Some (x :: xs, s)
  end.

(** The same with a queue; an empty one gives the null pointer. *)
Fixpoint queue (l : list op) (q : list T) : list T * list T :=
  match l with
  | [] => ([], q)
  | Push _ x :: l => queue l (q ++ [x])
  | Pop :: l => let '(xs, q') := queue l (tail q) in (default null (head q) :: xs, q')
  end.

Definition succeeds (o : op) : Prop := match o with Push ok _ => ok = true | Pop => True end.

Lemma run_queue l s : inv s -> Forall succeeds l -> exists s', run l s = Some ((queue l (elements s)).1, s') /\ inv s' /\
  elements s' = (queue l (elements s)).2.
Proof using.
  intros H Hl. revert s H. induction Hl as [|o l Ho Hl IH]; intros s H; [by exists s|]. destruct o as [ok x|].
  - destruct (push_back_spec ok x s H (or_introl Ho)) as (s1 & E & H1 & E1). simpl. rewrite E, <- E1. simpl. by apply IH.
  - destruct (pop_front_spec s H) as (s1 & E & H1 & E1). simpl. unfold get_and_pop_front.
    rewrite (front_spec s H), E. simpl. rewrite <- E1. destruct (IH s1 H1) as (s' & Er & H' & Eq). rewrite Er.
    destruct (queue l (elements s1)) as [xs q]. by exists s'.
Qed.

(** C19: The list is a queue.  For every sequence of insertions and removals, a list
    whose allocations succeed hands out exactly what a queue hands out, without
    an access outside of its containers, whatever is left in containers that
    are reused, and its size is that of the queue. *)
Theorem chunk_list_is_queue ok l : ok 0%nat = true -> Forall succeeds l ->
  exists s, run l (initialize ok) = Some ((queue l []).1, s) /\
    elements s = (queue l []).2 /\ size s = Z.of_nat (length (queue l []).2).
Proof using.
  intros Hok Hl. destruct (initialize_inv ok Hok) as [Hi He]. destruct (run_queue l _ Hi Hl) as (s & Er & H & Eq).
  rewrite He in Er, Eq. exists s. split; [done|]. split; [done|]. rewrite <- Eq, elements_length by done.
  pose proof (i_pos _ H). unfold size. lia.
Qed.

(** After a failed allocation the list writes outside of its container.  The
    insertion that needs a container and gets none leaves the elements as they
    are, but has already moved [m_back] past the end: the next insertion, even if
    memory is back, stores behind the buffer.  A list whose constructor gets no
    memory has no container to store into. *)
Theorem failed_allocation_overruns s : inv s -> m_back s = 63 -> m_free_containers s = [] ->
  (forall x, exists s', push_back false x s = Some s' /\ elements s' = elements s /\ forall ok y, push_back ok y s' = None) /\
  (forall ok ok' x, ok 0%nat = false -> push_back ok' x (initialize ok) = None).
Proof using.
  intros H Hb Hf. split.
  - intros x. unfold push_back at 1. rewrite Hb, Hf. simpl. eexists. split; [reflexivity|]. split; [done|]. intros ok y.
    unfold push_back. simpl. unfold store. by destruct (list.last _).
  - intros ok ok' x E. unfold initialize. simpl. by rewrite E.
Qed.
End chunk_list.

Lemma chunk_list_is_queue_witness : exists s,
  run 0 [Push true 7; Push true 8; Pop; Pop; Pop] (initialize 0 (fun _ => true)) = Some ([7; 8; 0], s) /\
  elements s = [] /\ size s = 0.
Proof. apply (chunk_list_is_queue 0 (fun _ => true) [Push true 7; Push true 8; Pop; Pop; Pop]); [done|]. repeat constructor. Defined.

(** One container, filled by 64 insertions. *)
Definition ex_filled : chunk_list_t :=
  match run 0 (replicate 64 (Push true 5)) (initialize 0 (fun i => bool_decide (i = 0%nat))) with
  | Some (_, s) => s
  | None => ChunkList_ [] [] 0 0 0
  end.

Lemma failed_allocation_overruns_witness :
  (forall x, exists s', push_back 0 false x ex_filled = Some s' /\ elements s' = elements ex_filled /\
    forall ok y, push_back 0 ok y s' = None) /\
  (forall ok ok' x, ok 0%nat = false -> push_back 0 ok' x (initialize 0 ok) = None).
Proof.
  apply (failed_allocation_overruns 0 ex_filled).
  - split; try (vm_compute; intuition congruence); vm_compute; repeat constructor.
  - vm_compute. reflexivity.
  - vm_compute. reflexivity.
Defined.
End ChunkList.
