(* ===== verification/HashMap.v ===== *)
(** * Hash tables: src/src/vma/util/hash_map.h, hash_map.inl

    The table of a ring's flows: 4096 buckets, each a linked list of nodes, and
    [m_last], a pointer to the node found last, which is looked at first.  A node
    is only on the list of its bucket and keeps its key, so that the pointer is
    the key of its node, and may dangle.  What the object representation of a key
    is, byte by byte, is a parameter.  [set_replace] compares a key with a value
    and has no instance.  [None] is an access that is not defined. *)

From S2P Require Import Prelude.

Local Open Scope Z_scope.

Module HashMap.

Definition HASH_MAP_SIZE : Z := 4096.

(** The bytes alternate between the halves of [csum], the upper one first. *)
Fixpoint hash_loop (l : list Z) (j : bool) (c0 c1 : Z) : Z * Z :=
  match l with
  | [] => (c0, c1)
  | x :: l => if j then hash_loop l (negb j) c0 (Z.lxor c1 x) else hash_loop l (negb j) (Z.lxor c0 x) c1
  end.

Definition hash_bytes (l : list Z) : Z :=
  let '(c0, c1) := hash_loop l true 0 0 in
  let csum := c0 + Z.shiftl c1 8 in
  Z.lor (Z.lxor c0 c1) (Z.shiftl (Z.land (Z.lxor (Z.shiftr csum 4) (Z.shiftr csum 8)) 0xf) 8).

Definition bytes_ok (l : list Z) : Prop := Forall (fun x => 0 <= x < 2 ^ 8) l.

Lemma lxor_range n x y : 0 <= n -> 0 <= x < 2 ^ n -> 0 <= y < 2 ^ n -> 0 <= Z.lxor x y < 2 ^ n.
Proof.
  intros Hn Hx Hy. assert (Z.lxor x y = Z.lxor x y mod 2 ^ n) as ->; [|apply Z.mod_pos_bound; lia].
  apply Z.bits_inj'. intros i Hi. destruct (decide (i < n)).
  - by rewrite Z.mod_pow2_bits_low by lia.
  - rewrite Z.mod_pow2_bits_high by lia. rewrite Z.lxor_spec.
    rewrite <- (Z.mod_small x (2 ^ n)), <- (Z.mod_small y (2 ^ n)) by lia. by rewrite !Z.mod_pow2_bits_high by lia.
Qed.

Lemma hash_loop_range l j c0 c1 : bytes_ok l -> 0 <= c0 < 2 ^ 8 -> 0 <= c1 < 2 ^ 8 ->
  0 <= (hash_loop l j c0 c1).1 < 2 ^ 8 /\ 0 <= (hash_loop l j c0 c1).2 < 2 ^ 8.
Proof.
  intros Hl. revert j c0 c1. induction Hl as [|x l Hx Hl IH]; intros j c0 c1 H0 H1; [done|].
  simpl. destruct j; apply IH; auto using lxor_range with lia; by apply lxor_range.
Qed.

(** The bucket exists. *)
Lemma hash_bytes_range l : bytes_ok l -> 0 <= hash_bytes l < HASH_MAP_SIZE.
Proof.
  intros Hl. unfold hash_bytes. destruct (hash_loop_range l true 0 0 Hl ltac:(lia) ltac:(lia)) as [H0 H1].
  destruct (hash_loop l true 0 0) as [c0 c1]. simpl in *. rewrite Z.lor_comm, lor_field by (lia || by apply lxor_range).
  change 15 with (Z.ones 4). rewrite Z.land_ones by lia. pose proof (lxor_range 8 c0 c1 ltac:(lia) H0 H1).
  pose proof (Z.mod_pos_bound (Z.lxor (Z.shiftr (c0 + Z.shiftl c1 8) 4) (Z.shiftr (c0 + Z.shiftl c1 8) 8)) (2 ^ 4) ltac:(lia)).
  unfold HASH_MAP_SIZE. lia.
Qed.

(** A type of keys: equality and object representation. *)
Class hash_key (K : Type) := HashKey {
  key_eq_dec :: EqDecision K;
  key_bytes : K -> list Z;
  key_bytes_ok k : bytes_ok (key_bytes k)
}.

Section hash_map.
Context `{hash_key K} {V : Type}.

Abbreviation bucket := (list (K * V)).

Record hash_map := HashMap_ { m_hash_table : list bucket; m_last : option K }.

Definition ctor : hash_map := HashMap_ (replicate 4096 []) None.

Definition calc_hash (k : K) : Z := hash_bytes (key_bytes k).

(** The walk along a bucket. *)
Fixpoint assoc (k : K) (b : bucket) : option V :=
  match b with [] => None | (k', v) :: b => if decide (k' = k) then Some v else assoc k b end.

Definition bucket_of (k : K) (m : hash_map) : option bucket := m_hash_table m !! Z.to_nat (calc_hash k).

Definition get (k : K) (default_value : V) (m : hash_map) : option (V * hash_map) :=
  let walk := b ← bucket_of k m;
    Some (match assoc k b with
          | Some v => (v, HashMap_ (m_hash_table m) (Some k))
          | None => (default_value, m)
          end) in
  match m_last m with
  | Some k' =>
    b ← bucket_of k' m; v ← assoc k' b;
    if decide (k' = k) then Some (v, m) else walk
  | None => walk
  end.

Fixpoint set_bucket (k : K) (v : V) (b : bucket) : bucket :=
  match b with
  | [] => [(k, v)]
  | (k', v') :: b => if decide (k' = k) then (k', v) :: b else (k', v') :: set_bucket k v b
  end.

Definition put (k : K) (b : bucket) (m : hash_map) : list bucket := <[Z.to_nat (calc_hash k) := b]> (m_hash_table m).

Definition set (k : K) (v : V) (m : hash_map) : option hash_map :=
  b ← bucket_of k m; Some (HashMap_ (put k (set_bucket k v b) m) (m_last m)).

Fixpoint del_bucket (k : K) (b : bucket) : option bucket :=
  match b with
  | [] => None
  | (k', v') :: b => if decide (k' = k) then Some b else b ← del_bucket k b; Some ((k', v') :: b)
  end.

Definition del (k : K) (m : hash_map) : option (bool * hash_map) :=
  b ← bucket_of k m;
  Some (match del_bucket k b with
        | Some b => (true, HashMap_ (put k b m) (if decide (m_last m = Some k) then None else m_last m))
        | None => (false, m)
        end).

(** *** Iterators

    The node is the rest of its bucket, [[]] the null pointer. *)
Record iterator := Iterator { m_index : Z; m_node : bucket }.

Fixpoint advance (fuel : nat) (m : hash_map) (i : iterator) : option iterator :=
  match m_node i, fuel with
  | _ :: _, _ => Some (if decide (m_index i >= HASH_MAP_SIZE) then Iterator (m_index i) [] else i)
  | [], O => None
  | [], S fuel =>
    if decide (m_index i < HASH_MAP_SIZE) then
      b ← m_hash_table m !! Z.to_nat (m_index i + 1); advance fuel m (Iterator (m_index i + 1) b)
    else Some i
  end.

(** Every round of [advance] moves on by a bucket. *)
Definition advance_fuel : nat := 4098.

Definition begin_ (m : hash_map) : option iterator :=
  b ← m_hash_table m !! 0%nat; advance advance_fuel m (Iterator 0 b).

Definition next (m : hash_map) (i : iterator) : option iterator :=
  advance advance_fuel m (Iterator (m_index i) (tail (m_node i))).

(** ** The table is a finite map *)

Definition keys (b : bucket) : list K := b.*1.

Record inv (m : hash_map) : Prop := Inv {
  i_length : length (m_hash_table m) = 4096%nat;
  i_nodup j b : m_hash_table m !! j = Some b -> NoDup (keys b);
  i_hash j b k : m_hash_table m !! j = Some b -> k ∈ keys b -> Z.to_nat (calc_hash k) = j;
  i_last k : m_last m = Some k -> exists b, bucket_of k m = Some b /\ k ∈ keys b
}.

(** What the table maps [k] to. *)
Definition lookup_map (m : hash_map) (k : K) : option V := b ← bucket_of k m; assoc k b.

Lemma assoc_elem k b : k ∈ keys b <-> is_Some (assoc k b).
Proof using.
  induction b as [|[k' v] b IH]; simpl; [by rewrite elem_of_nil; split; [|intros [? ?]]|].
  unfold keys in *. simpl. rewrite elem_of_cons, IH. case_decide as E; naive_solver.
Qed.

Lemma assoc_set k v b k' : assoc k' (set_bucket k v b) = if decide (k = k') then Some v else assoc k' b.
Proof using.
  induction b as [|[k1 v1] b IH]; simpl; [done|]. destruct (decide (k1 = k)) as [->|Hn]; simpl.
  - by destruct (decide (k = k')).
  - rewrite IH. repeat case_decide; naive_solver.
Qed.

Lemma keys_cons k v b : keys ((k, v) :: b) = k :: keys b.
Proof using. done. Qed.

Lemma keys_set k v b : keys (set_bucket k v b) = if decide (k ∈ keys b) then keys b else keys b ++ [k].
Proof using.
  induction b as [|[k1 v1] b IH]; [done|]. cbn [set_bucket]. destruct (decide (k1 = k)) as [->|Hn]; rewrite !keys_cons.
  - rewrite decide_True by (by left). done.
  - rewrite IH. destruct (decide (k ∈ keys b)); [rewrite decide_True by (by right)|rewrite decide_False]; try done.
    rewrite elem_of_cons. naive_solver.
Qed.

Lemma del_bucket_spec k b : NoDup (keys b) ->
  match del_bucket k b with
  | Some b' => k ∈ keys b /\ NoDup (keys b') /\ (forall k', k' ∈ keys b' -> k' ∈ keys b /\ k' <> k) /\
      forall k', assoc k' b' = if decide (k = k') then None else assoc k' b
  | None => assoc k b = None
  end.
Proof using.
  induction b as [|[k1 v1] b IH]; cbn [del_bucket assoc]; [done|]. rewrite keys_cons. intros [H1 Hn]%list.NoDup_cons.
  destruct (decide (k1 = k)) as [->|Hk].
  - split; [by left|]. split; [done|]. split.
    + intros k' Hk'. split; [by right|]. by intros ->.
    + intros k'. case_decide as E; [|done]. subst k'. destruct (assoc k b) eqn:Ea; [|done].
      exfalso. apply H1. apply (proj2 (assoc_elem k b)). by eexists.
  - specialize (IH Hn). destruct (del_bucket k b) as [b'|]; cbn [mbind option_bind]; [|done]. rewrite keys_cons. cbn [assoc].
    destruct IH as (Hi & Hn' & Hs & Ha). split; [by right|]. split.
    { apply list.NoDup_cons. split; [|done]. intros Hx. by apply H1, Hs. }
    split.
    + intros k' [->|Hk']%elem_of_cons; [by split; [left|]|]. destruct (Hs k' Hk'). split; [by right|done].
    + intros k'. rewrite Ha. repeat case_decide; naive_solver.
Qed.

Lemma bucket_of_some m k : inv m -> exists b, bucket_of k m = Some b.
Proof using.
  intros Hm. apply lookup_lt_is_Some. rewrite (i_length _ Hm).
  pose proof (hash_bytes_range _ (key_bytes_ok k)). unfold calc_hash, HASH_MAP_SIZE in *. lia.
Qed.

Lemma lookup_put m k b b' l x : bucket_of k m = Some b ->
  bucket_of x (HashMap_ (put k b' m) l) =
  if decide (Z.to_nat (calc_hash x) = Z.to_nat (calc_hash k)) then Some b' else bucket_of x m.
Proof using.
  intros Hb. unfold bucket_of, put in *. simpl. case_decide as E.
  - rewrite E. apply list_lookup_insert_eq. by eapply lookup_lt_Some.
  - by rewrite list_lookup_insert_ne.
Qed.

Lemma put_inv m k b b' l : inv m -> bucket_of k m = Some b -> NoDup (keys b') ->
  (forall x, x ∈ keys b' -> x ∈ keys b \/ x = k) ->
  (forall x, l = Some x -> exists b1, bucket_of x (HashMap_ (put k b' m) l) = Some b1 /\ x ∈ keys b1) ->
  inv (HashMap_ (put k b' m) l).
Proof using.
  intros [Hl Hn Hh _] Hb Hd Hs Hx. split; [by unfold put; simpl; rewrite length_insert| | |done].
  - intros j c. simpl. unfold put. intros [(<- & <- & _)|[_ E]]%list_lookup_insert_Some; [done|by eapply Hn].
  - intros j c x. simpl. unfold put. intros [(<- & <- & _)|[_ E]]%list_lookup_insert_Some Hc; [|by eapply Hh].
    destruct (Hs x Hc) as [Hc'| ->]; [|done]. by apply (Hh _ b).
Qed.

(** An element of the table is in the bucket of its hash. *)
Lemma lookup_elsewhere m k b x : inv m -> bucket_of k m = Some b ->
  Z.to_nat (calc_hash x) <> Z.to_nat (calc_hash k) -> assoc x b = None.
Proof using.
  intros Hm Hb Hx. destruct (assoc x b) eqn:E; [|done]. exfalso. apply Hx.
  apply (i_hash _ Hm _ b); [done|]. apply assoc_elem. by eexists.
Qed.

Lemma set_spec k v m : inv m -> exists m', set k v m = Some m' /\ inv m' /\
  forall x, lookup_map m' x = if decide (k = x) then Some v else lookup_map m x.
Proof using.
  intros Hm. destruct (bucket_of_some m k Hm) as [b Hb]. unfold set. rewrite Hb. simpl. eexists. split; [reflexivity|]. split.
  - apply (put_inv m k b); [done|done| | |].
    + rewrite keys_set. pose proof (i_nodup _ Hm _ _ Hb). case_decide; [done|]. apply list.NoDup_app.
      split; [done|]. split; [|apply NoDup_singleton]. intros x Hx ->%list_elem_of_singleton. done.
    + intros x. rewrite keys_set. case_decide; [by left|]. intros [?|?%list_elem_of_singleton]%elem_of_app; auto.
    + intros x Ex. destruct (i_last _ Hm x Ex) as (b1 & E1 & Hx). rewrite (lookup_put m k b) by done.
      case_decide as E; [|by exists b1]. eexists. split; [done|]. unfold bucket_of in E1, Hb. rewrite E, Hb in E1.
      injection E1 as <-. rewrite keys_set. case_decide; [done|]. apply elem_of_app. by left.
  - intros x. unfold lookup_map. rewrite (lookup_put m k b) by done. destruct (decide (_ = _)) as [E|E]; simpl.
    + rewrite assoc_set. case_decide; [done|]. unfold bucket_of in Hb |- *. by rewrite E, Hb.
    + rewrite decide_False; [done|]. by intros <-.
Qed.

Lemma del_spec k m : inv m -> exists m', del k m = Some (bool_decide (is_Some (lookup_map m k)), m') /\ inv m' /\
  forall x, lookup_map m' x = if decide (k = x) then None else lookup_map m x.
Proof using.
  intros Hm. destruct (bucket_of_some m k Hm) as [b Hb]. unfold del. rewrite Hb. simpl.
  assert (lookup_map m k = assoc k b) as Ek by (by unfold lookup_map; rewrite Hb).
  pose proof (del_bucket_spec k b (i_nodup _ Hm _ _ Hb)) as Hd. destruct (del_bucket k b) as [b'|].
  2: { rewrite Ek, Hd. eexists. split; [reflexivity|]. split; [done|]. intros x. case_decide; [|done]. subst x. by rewrite Ek. }
  destruct Hd as (Hk & Hn & Hs & Ha). rewrite bool_decide_true by (by rewrite Ek; apply assoc_elem).
  eexists. split; [reflexivity|]. split.
  - apply (put_inv m k b); [done|done|done| |].
    + intros x Hx. left. by apply Hs.
    + intros x Ex. case_decide as El; [done|]. destruct (i_last _ Hm x Ex) as (b1 & E1 & Hx). rewrite (lookup_put m k b) by done.
      case_decide as E; [|by exists b1]. eexists. split; [done|]. unfold bucket_of in E1, Hb. rewrite E, Hb in E1.
      injection E1 as <-. apply assoc_elem. rewrite Ha, decide_False by (by intros ->). by apply assoc_elem.
  - intros x. unfold lookup_map. rewrite (lookup_put m k b) by done. destruct (decide (_ = _)) as [E|E]; simpl.
    + rewrite Ha. case_decide; [done|]. unfold bucket_of in Hb |- *. by rewrite E, Hb.
    + rewrite decide_False; [done|]. by intros <-.
Qed.

Lemma get_spec k d m : inv m -> exists m', get k d m = Some (default d (lookup_map m k), m') /\ inv m' /\
  forall x, lookup_map m' x = lookup_map m x.
Proof using.
  intros Hm. unfold get.
  assert (exists m', (b ← bucket_of k m; Some (match assoc k b with
      | Some v => (v, HashMap_ (m_hash_table m) (Some k)) | None => (d, m) end)) =
    Some (default d (lookup_map m k), m') /\ inv m' /\ forall x, lookup_map m' x = lookup_map m x) as Hw.
  { destruct (bucket_of_some m k Hm) as [b Hb]. unfold lookup_map at 1. rewrite Hb. simpl.
    destruct (assoc k b) as [v|] eqn:E; [|by exists m]. eexists. split; [reflexivity|]. split; [|done].
    destruct Hm as [Hl Hn Hh Hx]. split; try done. intros x [= <-]. exists b. split; [done|]. apply assoc_elem. by eexists. }
  destruct (m_last m) as [k'|] eqn:El; [|done]. destruct (i_last _ Hm k' El) as (b & Hb & [v Hv]%assoc_elem).
  rewrite Hb. simpl. rewrite Hv. simpl. case_decide as E; [|done]. subst k'.
  exists m. split; [|done]. unfold lookup_map. rewrite Hb. simpl. by rewrite Hv.
Qed.

Lemma ctor_inv : inv ctor /\ forall x, lookup_map ctor x = None.
Proof using.
  assert (forall j b, m_hash_table ctor !! j = Some b -> b = []) as He.
  { intros j b E. by apply lookup_replicate in E as [? _]. }
  split.
  - split.
    + apply length_replicate.
    + intros j b E. rewrite (He _ _ E). constructor.
    + intros j b k E Hk. rewrite (He _ _ E) in Hk. by apply elem_of_nil in Hk.
    + done.
  - intros x. unfold lookup_map, bucket_of. destruct (m_hash_table ctor !! _) eqn:E; [|done]. by rewrite (He _ _ E).
Qed.

(** ** Runs *)

Inductive op := Set_ (k : K) (v : V) | Get (k : K) (d : V) | Del (k : K).

Fixpoint run (l : list op) (m : hash_map) : option (list (V + bool) * hash_map) :=
  match l with
  | [] => Some ([], m)
  | Set_ k v :: l => m ← set k v m; run l m
  | Get k d :: l => '(v, m) ← get k d m; '(r, m) ← run l m; Some (inl v :: r, m)
  | Del k :: l => '(b, m) ← del k m; '(r, m) ← run l m; Some (inr b :: r, m)
  end.

Context `{!Countable K}.

Fixpoint run_map (l : list op) (g : gmap K V) : list (V + bool) * gmap K V :=
  match l with
  | [] => ([], g)
  | Set_ k v :: l => run_map l (<[k := v]> g)
  | Get k d :: l => let '(r, g') := run_map l g in (inl (default d (g !! k)) :: r, g')
  | Del k :: l => let '(r, g') := run_map l (delete k g) in (inr (bool_decide (is_Some (g !! k))) :: r, g')
  end.

Lemma run_refines l m g : inv m -> (forall k, lookup_map m k = g !! k) ->
  exists m', run l m = Some ((run_map l g).1, m') /\ inv m' /\ forall k, lookup_map m' k = (run_map l g).2 !! k.
Proof using.
  revert m g. induction l as [|o l IH]; intros m g Hm Hg; [by exists m|]. destruct o as [k v|k d|k]; simpl.
  - destruct (set_spec k v m Hm) as (m1 & -> & H1 & E1). simpl. apply IH; [done|]. intros x. rewrite E1, Hg.
    destruct (decide (k = x)) as [->|]; [by rewrite lookup_insert_eq|by rewrite lookup_insert_ne].
  - destruct (get_spec k d m Hm) as (m1 & -> & H1 & E1). simpl. destruct (IH m1 g H1) as (m' & -> & H' & E').
    { intros x. by rewrite E1. }
    destruct (run_map l g) as [r g']. simpl. exists m'. by rewrite Hg.
  - destruct (del_spec k m Hm) as (m1 & -> & H1 & E1). simpl. destruct (IH m1 (delete k g) H1) as (m' & -> & H' & E').
    { intros x. rewrite E1, Hg. destruct (decide (k = x)) as [->|]; [by rewrite lookup_delete_eq|by rewrite lookup_delete_ne]. }
    destruct (run_map l (delete k g)) as [r g']. simpl. exists m'. by rewrite Hg.
Qed.

(** C20: The hash table is a finite map.  For every sequence of insertions, look-ups
    and deletions that starts with a new table, every look-up gives the value
    inserted last for its key and not deleted since, or the default, deletions
    report whether there was one, and no access is undefined: the bucket of a
    key exists, and the pointer to the node found last never dangles. *)
Theorem hash_map_is_map l : exists m, run l ctor = Some ((run_map l ∅).1, m) /\
  forall k, lookup_map m k = (run_map l ∅).2 !! k.
Proof using.
  destruct ctor_inv as [Hc Hl]. destruct (run_refines l ctor ∅ Hc) as (m & E & _ & Hm).
  { intros k. by rewrite Hl, lookup_empty. }
  by exists m.
Qed.

Lemma advance_stays fuel m i i' : inv m -> 0 <= m_index i < HASH_MAP_SIZE -> advance fuel m i = Some i' ->
  m_node i' <> [] /\ 0 <= m_index i' < HASH_MAP_SIZE.
Proof using.
  intros Hm. revert i. induction fuel as [|fuel IH]; intros i Hi; destruct i as [j b]; simpl in Hi |- *; destruct b as [|x b]; try done.
  1, 3: intros [= <-]; rewrite decide_False by lia; done.
  rewrite decide_True by lia. destruct (m_hash_table m !! _) as [b|] eqn:E; [|done]. simpl.
  apply IH. simpl. apply lookup_lt_Some in E. rewrite (i_length _ Hm) in E. unfold HASH_MAP_SIZE in *. lia.
Qed.

(** No iteration over a table ends.  [begin] and the increment never give the
    iterator [end]: after the last element, and at once for an empty table, the
    search for the next bucket goes on to index 4096 of an array of 4096. *)
Theorem iteration_overruns m : inv m ->
  (forall i, begin_ m = Some i -> m_node i <> [] /\ 0 <= m_index i < HASH_MAP_SIZE) /\
  (forall i i', 0 <= m_index i < HASH_MAP_SIZE -> next m i = Some i' -> m_node i' <> [] /\ 0 <= m_index i' < HASH_MAP_SIZE) /\
  ((forall k, lookup_map m k = None) -> begin_ m = None).
Proof using.
  intros Hm. assert (forall i, begin_ m = Some i -> m_node i <> [] /\ 0 <= m_index i < HASH_MAP_SIZE) as Hb.
  { intros i. unfold begin_. destruct (m_hash_table m !! 0%nat) as [b|]; [|discriminate]. cbn [mbind option_bind]. apply advance_stays; [exact Hm|].
    unfold HASH_MAP_SIZE. simpl. lia. }
  split; [exact Hb|]. split; [intros i i' Hi; apply advance_stays; [exact Hm|exact Hi]|]. intros He.
  assert (forall j b, m_hash_table m !! j = Some b -> b = []) as Hz.
  { intros j [|[k v] b] E; [done|]. assert (Z.to_nat (calc_hash k) = j) as <- by (eapply i_hash; [done|done|by left]).
    specialize (He k). unfold lookup_map, bucket_of in He. rewrite E in He. simpl in He. by rewrite decide_True in He. }
  unfold begin_. destruct (m_hash_table m !! 0%nat) as [b|] eqn:E0; [|reflexivity]. cbn [mbind option_bind]. rewrite (Hz _ _ E0).
  generalize advance_fuel. intros fuel0. destruct (advance fuel0 m (Iterator 0 [])) as [i|] eqn:E; [|reflexivity]. exfalso.
  assert (forall fuel j i, advance fuel m (Iterator j []) = Some i -> m_node i = []) as Ha.
  { intros fuel. induction fuel as [|fuel IH]; intros j i'; [done|]. simpl. case_decide; [|by intros [= <-]].
    destruct (m_hash_table m !! Z.to_nat (j + 1)) as [b'|] eqn:Eb; [|done]. simpl. apply Hz in Eb as ->. apply IH. }
  apply (advance_stays _ _ _ _ Hm) in E as E'; [|by simpl]. apply Ha in E. by destruct E'.
Qed.
End hash_map.

(** ** A table to try it on *)

Lemma byte_key_ok (k : Z) : bytes_ok [u8 k].
Proof. apply list.Forall_singleton, wrap_range. lia. Qed.

#[local] Instance byte_key : hash_key Z := HashKey Z _ (fun k => [u8 k]) byte_key_ok.

Lemma iteration_overruns_witness : begin_ (ctor : @hash_map Z Z) = None.
Proof. apply (iteration_overruns (ctor : @hash_map Z Z)); [apply ctor_inv|]. apply ctor_inv. Defined.
End HashMap.
