(* ===== verification/Checksum.v ===== *)
(** * Internet checksums: src/src/vma/util/utils.cpp

    The checksums of the IP header and of TCP segments, and the check of a
    received UDP datagram over its fragments.  Memory is a list of bytes, read as
    16-bit words in the byte order of the host.  [UB] is a read past the end of
    the memory, [Loops] a loop that has not ended when the fuel is used up. *)

From S2P Require Import Prelude.

Local Open Scope Z_scope.

Module Checksum.

Inductive res (A : Type) := Ret (a : A) | UB | Loops.
Arguments Ret {A}. Arguments UB {A}. Arguments Loops {A}.

#[global] Instance res_bind : MBind res := fun A B f m => match m with Ret a => f a | UB => UB | Loops => Loops end.
#[global] Instance res_ret : MRet res := @Ret.

Definition IPPROTO_TCP : Z := 6.
Definition IPPROTO_UDP : Z := 17.

(** [n] words from [m] on, and the memory behind them. *)
Fixpoint add_words (n : nat) (m : list Z) (sum : Z) : res (Z * list Z) :=
  match n, m with
  | O, _ => Ret (sum, m)
  | S n, b0 :: b1 :: m => add_words n m (sum + (b0 + Z.shiftl b1 8))
  | S _, _ => UB
  end.

Definition compute_ip_checksum (buf : list Z) (nshort_words : Z) : res Z :=
  '(sum, _) ← add_words (Z.to_nat nshort_words) buf 0;
  let sum := Z.shiftr sum 16 + Z.land sum 0xffff in
  let sum := sum + Z.shiftr sum 16 in
  Ret (u16 (Z.lnot sum)).

(** The fields of an IP header the functions read: addresses and lengths as they
    are in memory. *)
Record iphdr := IpHdr { ihl : Z; tot_len : Z; protocol : Z; saddr : Z; daddr : Z }.

Definition pseudo (h : iphdr) (proto len : Z) : Z :=
  Z.land (Z.shiftr (saddr h) 16) 0xFFFF + Z.land (saddr h) 0xFFFF +
  (Z.land (Z.shiftr (daddr h) 16) 0xFFFF + Z.land (daddr h) 0xFFFF) + htons proto + len.

(** A byte that is left over: the word it begins, without its other half. *)
Definition add_byte (len : Z) (m : list Z) (sum : Z) : res Z :=
  if decide (len > 0) then
    match m with b0 :: b1 :: _ => Ret (sum + Z.land (b0 + Z.shiftl b1 8) (htons 0xFF00)) | _ => UB end
  else Ret sum.

(** [while (sum >> 16) sum = (sum & 0xffff) + (sum >> 16);] *)
Fixpoint fold_loop (fuel : nat) (sum : Z) : res Z :=
  if decide (Z.shiftr sum 16 = 0) then Ret sum
  else match fuel with O => Loops | S fuel => fold_loop fuel (Z.land sum 0xffff + Z.shiftr sum 16) end.

(** A sum of less than [2 ^ 32] is folded twice at most. *)
Definition fold_fuel : nat := 2.

Definition tcp_len (h : iphdr) : Z := u16 (ntohs (tot_len h) - Z.shiftl (ihl h) 2).

Definition compute_tcp_checksum (h : iphdr) (payload : list Z) : res Z :=
  let len := tcp_len h in
  '(sum, m) ← add_words (Z.to_nat (len / 2)) payload (pseudo h IPPROTO_TCP (htons len));
  sum ← add_byte (len mod 2) m sum;
  sum ← fold_loop fold_fuel sum;
  Ret (u16 (Z.lnot sum)).

(** The rest of a datagram: its buffers and the length of each. *)
Abbreviation frags := (list (list Z * Z)).

(** [while (udp_len > 1)]: [m] is where [p_ip_payload] points. *)
Fixpoint udp_loop (fuel : nat) (udp_len frag_len remainder : Z) (m : list Z) (fs : frags) (sum : Z) : res (Z * list Z * Z) :=
  if decide (udp_len > 1) then
    match fuel with
    | O => Loops
    | S fuel =>
      let '(m, fs, frag_len, remainder) := match decide (remainder = 0), fs with
        | left _, (b, len) :: fs => (b, fs, u16 len, u16 len)
        | _, _ => (m, fs, frag_len, remainder)
        end in
      '(sum, m) ← add_words (Z.to_nat (remainder / 2)) m sum;
      let remainder := remainder mod 2 in
      udp_loop fuel (u16 (udp_len - (frag_len - remainder))) frag_len remainder m fs sum
    end
  else Ret (udp_len, m, sum).

(** [len]: the length field of the UDP header as it is in memory; [m]: the header
    and what follows it in the first buffer, of which [iov_len] bytes are payload. *)
Definition compute_udp_checksum_rx (fuel : nat) (h : iphdr) (len : Z) (m : list Z) (iov_len : Z) (fs : frags) : res Z :=
  let ip_frag_len := u16 (iov_len + 8) in
  '(udp_len, m, sum) ← udp_loop fuel (htons len) ip_frag_len ip_frag_len m fs (pseudo h IPPROTO_UDP len);
  sum ← add_byte udp_len m sum;
  sum ← fold_loop fold_fuel sum;
  Ret (u16 (Z.lnot sum)).

(** ** The sum of RFC 1071 *)

(** A sum with end-around carry: the representative between 1 and 65535, 0 for 0. *)
Definition carry (x : Z) : Z := if decide (x = 0) then 0 else (x - 1) mod 65535 + 1.

(** The words of the memory in network byte order, padded with a zero byte. *)
Fixpoint words (m : list Z) : list Z :=
  match m with b0 :: b1 :: m => b0 * 256 + b1 :: words m | [b] => [b * 256] | [] => [] end.

Definition sum_list (l : list Z) : Z := foldr Z.add 0 l.

(** The checksum of a list of words. *)
Definition rfc1071 (l : list Z) : Z := 65535 - carry (sum_list l).

Definition bytes_ok (m : list Z) : Prop := Forall (fun b => 0 <= b <= 255) m.

Lemma carry_small x : 0 <= x <= 65535 -> carry x = x.
Proof.
  intros Hx. unfold carry. case_decide; [lia|]. rewrite Z.mod_small; lia.
Qed.

Lemma carry_range x : 0 <= x -> 0 <= carry x <= 65535.
Proof. intros Hx. unfold carry. case_decide; [lia|]. pose proof (Z.mod_pos_bound (x - 1) 65535). lia. Qed.

Lemma carry_eq x y : 0 < x -> 0 < y -> x mod 65535 = y mod 65535 -> carry x = carry y.
Proof.
  intros Hx Hy E. unfold carry. rewrite !decide_False by lia. f_equal.
  rewrite (Zminus_mod x), (Zminus_mod y), E. done.
Qed.

Lemma carry_fold x : 0 <= x -> carry (Z.land x 65535 + Z.shiftr x 16) = carry x.
Proof.
  intros Hx. change 65535 with (Z.ones 16). rewrite Z.land_ones, Z.shiftr_div_pow2 by lia. change (2 ^ 16) with 65536.
  pose proof (Z.div_mod x 65536 ltac:(lia)). pose proof (Z.mod_pos_bound x 65536 ltac:(lia)).
  assert (0 <= x / 65536) by (apply Z.div_pos; lia).
  destruct (decide (x = 0)) as [->|Hn]; [done|]. apply carry_eq; [nia|lia|].
  replace x with (x mod 65536 + x / 65536 + x / 65536 * 65535) at 3 by lia. by rewrite Z.mod_add.
Qed.

(** *** Byte order *)

(** The words as the host reads them. *)
Fixpoint host_words (m : list Z) : list Z :=
  match m with b0 :: b1 :: m => b0 + 256 * b1 :: host_words m | [b] => [b] | [] => [] end.

Lemma pair_ind {A} (P : list A -> Prop) : P [] -> (forall a, P [a]) -> (forall a b l, P l -> P (a :: b :: l)) -> forall l, P l.
Proof.
  intros H0 H1 H2 l. assert (P l /\ forall a, P (a :: l)) as [? _]; [|done].
  induction l as [|a l [IH1 IH2]]; split; auto.
Qed.

Lemma ntohs_eq x : 0 <= x <= 65535 -> ntohs x = x mod 256 * 256 + x / 256.
Proof.
  intros Hx. unfold ntohs. change 255 with (Z.ones 8). rewrite !Z.land_ones, Z.shiftr_div_pow2 by lia. change (2 ^ 8) with 256.
  assert (x / 256 < 256) by (apply Z.div_lt_upper_bound; lia). pose proof (Z.div_pos x 256). rewrite (Z.mod_small (x / 256)) by lia.
  rewrite lor_field by lia. lia.
Qed.

Lemma ntohs_le x : 0 <= x <= 65535 -> 0 <= ntohs x <= 65535.
Proof.
  intros Hx. rewrite ntohs_eq by done. assert (x / 256 < 256) by (apply Z.div_lt_upper_bound; lia).
  pose proof (Z.div_pos x 256). pose proof (Z.mod_pos_bound x 256). lia.
Qed.

(** Swapping the bytes of a word is multiplication by 256. *)
Lemma ntohs_mod x : 0 <= x <= 65535 -> ntohs x mod 65535 = (256 * x) mod 65535.
Proof.
  intros Hx. rewrite ntohs_eq by done. rewrite (Z.div_mod x 256) at 3 by lia.
  replace (256 * (256 * (x / 256) + x mod 256)) with (x mod 256 * 256 + x / 256 + x / 256 * 65535) by lia. by rewrite Z.mod_add.
Qed.

Lemma ntohs_compl x : 0 <= x <= 65535 -> ntohs (65535 - x) = 65535 - ntohs x.
Proof.
  intros Hx. rewrite !ntohs_eq by lia. assert ((65535 - x) / 256 = 255 - x / 256 /\ (65535 - x) mod 256 = 255 - x mod 256) as [-> ->];
    [|lia]. Z.div_mod_to_equations. lia.
Qed.

Lemma ntohs_carry x y : 0 <= x -> 0 <= y -> (x = 0 <-> y = 0) -> (256 * x) mod 65535 = y mod 65535 ->
  ntohs (65535 - carry x) = 65535 - carry y.
Proof.
  intros Hx Hy Hz E. pose proof (carry_range x Hx). rewrite ntohs_compl by done. f_equal.
  destruct (decide (x = 0)) as [->|Hn]. { by rewrite (proj1 Hz eq_refl). }
  assert (1 <= carry x) by (unfold carry; rewrite decide_False by done; pose proof (Z.mod_pos_bound (x - 1) 65535); lia).
  assert (carry x mod 65535 = x mod 65535) as Ec.
  { unfold carry. rewrite decide_False by done. rewrite Zplus_mod_idemp_l. f_equal. lia. }
  assert (0 < ntohs (carry x)).
  { rewrite ntohs_eq by done. pose proof (Z.div_mod (carry x) 256). pose proof (Z.mod_pos_bound (carry x) 256).
    pose proof (Z.div_pos (carry x) 256). lia. }
  rewrite <- (carry_small (ntohs (carry x))) by (by apply ntohs_le). apply carry_eq; [done|naive_solver lia|].
  rewrite ntohs_mod, <- E by done. by rewrite Z.mul_mod, Ec, <- Z.mul_mod.
Qed.

Lemma host_words_sum m : bytes_ok m -> 0 <= sum_list (host_words m) /\ 0 <= sum_list (words m) /\
  (sum_list (host_words m) = 0 <-> sum_list (words m) = 0) /\
  (256 * sum_list (host_words m)) mod 65535 = sum_list (words m) mod 65535 /\
  2 * sum_list (host_words m) <= 65535 * Z.of_nat (length m).
Proof.
  induction m as [|b|b0 b1 m IH] using pair_ind; intros Hm; simpl; [done| |].
  - apply list.Forall_cons in Hm as [Hb _]. unfold sum_list. simpl. split; [lia|]. split; [lia|]. split; [lia|]. split; [f_equal; lia|lia].
  - apply list.Forall_cons in Hm as [H0 Hm]. apply list.Forall_cons in Hm as [H1 Hm]. destruct (IH Hm) as (A & B & C & D & F).
    unfold sum_list in *. simpl. set (x := foldr _ 0 (host_words m)) in *. set (y := foldr _ 0 (words m)) in *.
    split; [lia|]. split; [lia|]. split; [lia|]. split; [|lia].
    replace (256 * (b0 + 256 * b1 + x)) with (256 * x + (b0 * 256 + b1) + b1 * 65535) by lia. rewrite Z.mod_add by done.
    rewrite Z.add_mod, D, <- Z.add_mod by done. f_equal. lia.
Qed.

(** *** The loops *)

Lemma add_words_spec n m s : (2 * n <= length m)%nat ->
  add_words n m s = Ret (s + sum_list (host_words (take (2 * n) m)), drop (2 * n) m).
Proof.
  revert m s. induction n as [|n IH]; intros m s Hl; [by rewrite Z.add_0_r|].
  destruct m as [|b0 [|b1 m]]; simpl in Hl; [lia|lia|]. cbn [add_words]. rewrite IH by lia.
  replace (2 * S n)%nat with (S (S (2 * n))) by lia. cbn [take drop host_words]. unfold sum_list. cbn [foldr].
  rewrite Z.shiftl_mul_pow2 by lia. do 2 f_equal. lia.
Qed.

Lemma shiftr16 x : 0 <= x -> Z.shiftr x 16 = 0 <-> x <= 65535.
Proof.
  intros Hx. rewrite Z.shiftr_div_pow2 by lia. change (2 ^ 16) with 65536. split; intros E.
  - apply Z.div_small_iff in E; lia.
  - apply Z.div_small. lia.
Qed.

Lemma fold_step x n : 0 <= x < 2 ^ 16 * n -> 0 < n -> 0 <= Z.land x 65535 + Z.shiftr x 16 < 65535 + n.
Proof.
  intros Hx Hn. rewrite (Z.land_ones x 16 ltac:(lia) : Z.land x 65535 = _), Z.shiftr_div_pow2 by lia.
  pose proof (Z.mod_pos_bound x (2 ^ 16) ltac:(lia)). assert (x / 2 ^ 16 < n) by (apply Z.div_lt_upper_bound; lia).
  pose proof (Z.div_pos x (2 ^ 16) ltac:(lia) ltac:(lia)). lia.
Qed.

(** Two rounds fold a sum of 32 bits. *)
Lemma fold_loop_spec x : 0 <= x < 2 ^ 32 -> fold_loop fold_fuel x = Ret (carry x).
Proof.
  intros Hx. assert (forall fuel y, 0 <= y <= 65535 -> fold_loop fuel y = Ret y) as Hs.
  { intros fuel y Hy. destruct fuel; simpl; rewrite decide_True by (apply shiftr16; lia); done. }
  destruct (decide (x <= 65535)). { rewrite Hs by lia. by rewrite carry_small by lia. }
  unfold fold_fuel. cbn [fold_loop]. rewrite decide_False by (rewrite shiftr16 by lia; lia).
  rewrite <- (carry_fold x) by lia. pose proof (fold_step x (2 ^ 16) ltac:(lia) ltac:(lia)) as H1. set (y := _ + _) in *.
  destruct (decide (y <= 65535)). { rewrite decide_True by (apply shiftr16; lia). by rewrite carry_small by lia. }
  rewrite decide_False by (rewrite shiftr16 by lia; lia). rewrite <- (carry_fold y) by lia.
  assert (Z.land y 65535 + Z.shiftr y 16 = y - 65535) as ->.
  { change 65535 with (Z.ones 16) at 1. rewrite Z.land_ones, Z.shiftr_div_pow2 by lia. change (2 ^ 16) with 65536 in *.
    assert (y / 65536 = 1) as Hd by (symmetry; apply (Z.div_unique_pos _ _ _ (y - 65536)); lia).
    pose proof (Z.div_mod y 65536). lia. }
  rewrite decide_True by (apply shiftr16; lia). by rewrite carry_small by lia.
Qed.

Lemma u16_lnot x : 0 <= x <= 65535 -> u16 (Z.lnot x) = 65535 - x.
Proof.
  intros Hx. unfold Z.lnot, wrap. replace (Z.pred (- x)) with (65535 - x + (-1) * 2 ^ 16) by lia. rewrite Z.mod_add by lia.
  apply Z.mod_small. lia.
Qed.

(** *** The results *)

Lemma finish_spec s y : 0 < s < 2 ^ 32 -> 0 < y -> (256 * s) mod 65535 = y mod 65535 ->
  exists r, (x ← fold_loop fold_fuel s; Ret (u16 (Z.lnot x))) = Ret r /\ r = 65535 - carry s /\ ntohs r = 65535 - carry y.
Proof.
  intros Hs Hy E. rewrite fold_loop_spec by lia. simpl. pose proof (carry_range s ltac:(lia)). rewrite u16_lnot by done.
  eexists. split; [reflexivity|]. split; [done|]. apply ntohs_carry; [lia|lia|lia|done].
Qed.

(** The checksum of an IP header, in network byte order, is that of RFC 1071. *)
Lemma ip_checksum_spec buf n : bytes_ok buf -> (2 * n <= length buf)%nat -> Z.of_nat n <= 2 ^ 15 ->
  exists r, compute_ip_checksum buf (Z.of_nat n) = Ret r /\
    r = 65535 - carry (sum_list (host_words (take (2 * n) buf))) /\ ntohs r = rfc1071 (words (take (2 * n) buf)).
Proof.
  intros Hb Hl Hn. unfold compute_ip_checksum. rewrite Nat2Z.id, add_words_spec by done. cbn [mbind res_bind].
  rewrite Z.add_0_l. destruct (host_words_sum (take (2 * n) buf)) as (A & B & C & D & F); [by apply Forall_take|].
  rewrite length_take in F. set (s := sum_list (host_words _)) in *.
  assert (0 <= s < 2 ^ 32) as Hs by lia.
  assert (u16 (Z.lnot (Z.shiftr s 16 + Z.land s 65535 + Z.shiftr (Z.shiftr s 16 + Z.land s 65535) 16)) = 65535 - carry s) as ->.
  { rewrite (Z.add_comm (Z.shiftr s 16)). pose proof (fold_step s (2 ^ 16) ltac:(lia) ltac:(lia)) as Hf. rewrite <- (carry_fold s) by lia.
    set (y := Z.land s 65535 + Z.shiftr s 16) in *. destruct (decide (y <= 65535)).
    - rewrite (proj2 (shiftr16 y ltac:(lia))) by done. rewrite Z.add_0_r, carry_small by lia. apply u16_lnot. lia.
    - assert (Z.shiftr y 16 = 1) as ->.
      { rewrite Z.shiftr_div_pow2 by lia. symmetry. apply (Z.div_unique_pos _ _ _ (y - 65536)); lia. }
      assert (carry y = y - 65535) as ->.
      { rewrite <- (carry_small (y - 65535)) by lia. apply carry_eq; [lia|lia|].
        replace y with (y - 65535 + 1 * 65535) at 1 by lia. by rewrite Z.mod_add. }
      unfold Z.lnot, wrap. replace (Z.pred (- (y + 1))) with (65535 - (y - 65535) + (-2) * 2 ^ 16) by lia.
      rewrite Z.mod_add by lia. apply Z.mod_small. lia. }
  eexists. split; [reflexivity|]. split; [done|]. by apply ntohs_carry.
Qed.

(** The pseudo header in network byte order; [n] is the length of the segment. *)
Definition pseudo_words (h : iphdr) (proto n : Z) : list Z :=
  [ntohs (Z.land (saddr h) 0xFFFF); ntohs (Z.land (Z.shiftr (saddr h) 16) 0xFFFF);
   ntohs (Z.land (daddr h) 0xFFFF); ntohs (Z.land (Z.shiftr (daddr h) 16) 0xFFFF); proto; n].

Lemma land16_range x : 0 <= Z.land x 65535 <= 65535.
Proof. rewrite (Z.land_ones x 16 ltac:(lia) : Z.land x 65535 = _). pose proof (Z.mod_pos_bound x (2 ^ 16) ltac:(lia)). lia. Qed.

Lemma ntohs_htons x : 0 <= x <= 65535 -> ntohs (htons x) = x.
Proof.
  intros Hx. rewrite (ntohs_eq (htons x)) by (by apply ntohs_le). rewrite ntohs_eq by done.
  assert (x / 256 < 256) by (apply Z.div_lt_upper_bound; lia). pose proof (Z.div_pos x 256). pose proof (Z.mod_pos_bound x 256).
  rewrite (Z.add_comm (x mod 256 * 256)), Z.mod_add, Z.div_add by lia.
  rewrite (Z.mod_small (x / 256)), (Z.div_small (x / 256)) by lia. pose proof (Z.div_mod x 256). lia.
Qed.

Lemma ntohs_cong x : 0 <= x <= 65535 -> 0 <= ntohs x /\ exists q, ntohs x = 256 * x + q * 65535.
Proof.
  intros Hx. split; [by apply ntohs_le|]. pose proof (ntohs_mod x Hx). exists (ntohs x / 65535 - 256 * x / 65535).
  pose proof (Z.div_mod (ntohs x) 65535). pose proof (Z.div_mod (256 * x) 65535). lia.
Qed.

Lemma pseudo_sum h proto n : 0 < proto <= 255 -> 0 <= n <= 65535 ->
  0 < pseudo h proto (htons n) <= 6 * 65535 /\ 0 < sum_list (pseudo_words h proto n) /\
  (256 * pseudo h proto (htons n)) mod 65535 = sum_list (pseudo_words h proto n) mod 65535.
Proof.
  intros Hp Hn. unfold pseudo, pseudo_words, sum_list. cbn [foldr].
  pose proof (land16_range (saddr h)) as Ra. pose proof (land16_range (Z.shiftr (saddr h) 16)) as Rb.
  pose proof (land16_range (daddr h)) as Rc. pose proof (land16_range (Z.shiftr (daddr h) 16)) as Rd.
  pose proof (ntohs_le proto ltac:(lia)) as Rp. pose proof (ntohs_le n ltac:(lia)) as Rn.
  set (a := Z.land (saddr h) 65535) in *. set (b := Z.land (Z.shiftr (saddr h) 16) 65535) in *.
  set (c := Z.land (daddr h) 65535) in *. set (d := Z.land (Z.shiftr (daddr h) 16) 65535) in *.
  destruct (ntohs_cong a Ra) as [? [qa Ea]]. destruct (ntohs_cong b Rb) as [? [qb Eb]]. destruct (ntohs_cong c Rc) as [? [qc Ec]].
  destruct (ntohs_cong d Rd) as [? [qd Ed]]. destruct (ntohs_cong _ Rp) as [_ [qp Ep]]. destruct (ntohs_cong _ Rn) as [_ [qn En]].
  rewrite (ntohs_htons proto : _ -> ntohs (ntohs _) = _) in Ep by lia. rewrite (ntohs_htons n : _ -> ntohs (ntohs _) = _) in En by lia.
  set (hp := ntohs proto) in *. set (hn := ntohs n) in *. clearbody a b c d hp hn.
  split; [lia|]. split; [lia|].
  replace (ntohs a + _) with (256 * (b + a + (d + c) + hp + hn) + (qa + qb + qc + qd + qp + qn) * 65535) by lia.
  by rewrite Z.mod_add.
Qed.

(** A list of [n] bytes and the rest. *)
Lemma host_words_app a b : Nat.Even (length a) -> host_words (a ++ b) = host_words a ++ host_words b.
Proof.
  induction a as [|x|x y a IH] using pair_ind; intros [k Hk]; simpl in Hk |- *; [done|lia|]. f_equal. apply IH. exists (k - 1)%nat. lia.
Qed.

Lemma sum_list_app a b : sum_list (a ++ b) = sum_list a + sum_list b.
Proof. unfold sum_list. induction a; simpl; lia. Qed.

(** [n] bytes added as words and a byte. *)
Lemma add_bytes_spec n m s : bytes_ok m -> Z.of_nat n <= 65535 -> (n + n mod 2 <= length m)%nat ->
  ('(s, m) ← add_words (Z.to_nat (Z.of_nat n / 2)) m s; add_byte (Z.of_nat n mod 2) m s) =
  Ret (s + sum_list (host_words (take n m))).
Proof.
  intros Hb Hn Hl. assert (n = 2 * (n / 2) + n mod 2)%nat as En by (apply Nat.div_mod; lia).
  pose proof (Nat.mod_upper_bound n 2 ltac:(lia)). change 2 with (Z.of_nat 2). rewrite <- Nat2Z.inj_div, Nat2Z.id, <- Nat2Z.inj_mod.
  rewrite add_words_spec by lia. cbn [mbind res_bind]. unfold add_byte. set (k := (2 * (n / 2))%nat) in *.
  destruct (decide (n mod 2 = 0)%nat) as [E|E].
  { rewrite decide_False by lia. rewrite E, Nat.add_0_r in En. by rewrite <- En. }
  assert (n mod 2 = 1)%nat as E1 by lia. rewrite E1 in *. rewrite decide_True by lia.
  pose proof (length_drop m k) as Hk. destruct (drop k m) as [|b0 [|b1 r]] eqn:Ed; simpl in Hk; [lia|lia|].
  f_equal. rewrite <- Z.add_assoc. f_equal.
  assert (take n m = take k m ++ [b0]) as ->.
  { rewrite En, Nat.add_1_r. apply take_S_r. rewrite <- (Nat.add_0_r k), <- lookup_drop, Ed. done. }
  rewrite host_words_app by (exists (n / 2)%nat; rewrite length_take; lia). rewrite sum_list_app. f_equal. simpl.
  assert (bytes_ok (b0 :: b1 :: r)) as Hr by (rewrite <- Ed; by apply Forall_drop). apply list.Forall_cons in Hr as [H0 _].
  change (htons 65280) with (Z.ones 8). rewrite Z.land_ones, Z.shiftl_mul_pow2, Z.mod_add by lia. unfold sum_list. simpl.
  rewrite Z.mod_small; lia.
Qed.

Lemma tcp_checksum_spec h p : bytes_ok p -> (Z.to_nat (tcp_len h) + Z.to_nat (tcp_len h) mod 2 <= length p)%nat ->
  exists r, compute_tcp_checksum h p = Ret r /\
    r = 65535 - carry (pseudo h IPPROTO_TCP (htons (tcp_len h)) + sum_list (host_words (take (Z.to_nat (tcp_len h)) p))) /\
    ntohs r = rfc1071 (pseudo_words h IPPROTO_TCP (tcp_len h) ++ words (take (Z.to_nat (tcp_len h)) p)).
Proof.
  intros Hb Hl. pose proof (wrap_range 16 ltac:(lia) (ntohs (tot_len h) - Z.shiftl (ihl h) 2)) as Hn. fold (tcp_len h) in Hn.
  pose proof (add_bytes_spec (Z.to_nat (tcp_len h)) p (pseudo h IPPROTO_TCP (htons (tcp_len h))) Hb ltac:(lia) Hl) as E.
  rewrite Z2Nat.id in E by lia. unfold compute_tcp_checksum.
  destruct (pseudo_sum h IPPROTO_TCP (tcp_len h)) as (P1 & P2 & P3); [unfold IPPROTO_TCP; lia|lia|].
  destruct (host_words_sum (take (Z.to_nat (tcp_len h)) p)) as (A & B & _ & D & F); [by apply Forall_take|]. rewrite length_take in F.
  destruct (add_words _ _ _) as [[s m]| |]; try done. cbn [mbind res_bind] in E |- *. rewrite E. cbn [mbind res_bind].
  destruct (finish_spec (pseudo h IPPROTO_TCP (htons (tcp_len h)) + sum_list (host_words (take (Z.to_nat (tcp_len h)) p)))
    (sum_list (pseudo_words h IPPROTO_TCP (tcp_len h) ++ words (take (Z.to_nat (tcp_len h)) p)))) as (r & Er & E1 & E2).
  - lia.
  - rewrite sum_list_app. lia.
  - rewrite sum_list_app, Z.mul_add_distr_l, Z.add_mod, P3, D, <- Z.add_mod; done.
  - by exists r.
Qed.
(** ** Filling in the checksums of a packet *)

(** [m] begins with the IP header. *)
Definition u16_at (m : list Z) (i : nat) : Z := m !!! i + Z.shiftl (m !!! S i) 8.
Definition u32_at (m : list Z) (i : nat) : Z := u16_at m i + Z.shiftl (u16_at m (2 + i)) 16.

Definition ip_header (m : list Z) : iphdr :=
  IpHdr (Z.land (m !!! 0%nat) 15) (u16_at m 2) (m !!! 9%nat) (u32_at m 12) (u32_at m 16).

Definition set_word (i : nat) (v : Z) (m : list Z) : list Z := <[i := Z.land v 255]> (<[S i := Z.shiftr v 8]> m).

Definition put_word (i : nat) (v : Z) (m : list Z) : res (list Z) :=
  if decide (S i < length m)%nat then Ret (set_word i v m) else UB.

(** [l4]: the offset of the UDP or TCP header; the checksum is at byte 6 or 16 of it. *)
Definition compute_tx_checksum (l4 : nat) (m : list Z) (l3_csum l4_csum : bool) : res (list Z) :=
  if l3_csum then
    m ← put_word 10 0 m;
    check ← compute_ip_checksum m (ihl (ip_header m) * 2);
    m ← put_word 10 check m;
    if l4_csum then
      if decide (protocol (ip_header m) = IPPROTO_UDP) then put_word (l4 + 6) 0 m
      else if decide (protocol (ip_header m) = IPPROTO_TCP) then
        m ← put_word (l4 + 16) 0 m;
        check ← compute_tcp_checksum (ip_header m) (drop l4 m);
        put_word (l4 + 16) check m
      else Ret m
    else Ret m
  else Ret m.

Section set_word.
Context (i : nat) (v : Z).

Lemma length_set_word m : length (set_word i v m) = length m.
Proof using. unfold set_word. by rewrite !length_insert. Qed.

Lemma set_word_twice w m : set_word i v (set_word i w m) = set_word i v m.
Proof using. unfold set_word. rewrite (list_insert_insert_ne _ (S i) i) by lia. by rewrite !list_insert_insert_eq. Qed.

Lemma take_set_word n m : (S i < n)%nat -> take n (set_word i v m) = set_word i v (take n m).
Proof using. intros Hn. unfold set_word. by rewrite !take_insert_lt by lia. Qed.

Lemma take_before_word n m : (n <= i)%nat -> take n (set_word i v m) = take n m.
Proof using. intros Hn. unfold set_word. by rewrite !take_insert_ge by lia. Qed.

Lemma drop_set_word n m : drop n (set_word (n + i) v m) = set_word i v (drop n m).
Proof using. unfold set_word. rewrite !drop_insert_ge by lia. do 2 f_equal; lia. Qed.

Lemma set_word_bytes m : 0 <= v <= 65535 -> bytes_ok m -> bytes_ok (set_word i v m).
Proof using.
  intros Hv Hm. unfold bytes_ok, set_word. assert (v / 256 < 256) by (apply Z.div_lt_upper_bound; lia). pose proof (Z.div_pos v 256).
  apply Forall_insert; [apply Forall_insert; [done|]|].
  - rewrite Z.shiftr_div_pow2 by lia. change (2 ^ 8) with 256. lia.
  - rewrite (Z.land_ones v 8 ltac:(lia) : Z.land v 255 = _). pose proof (Z.mod_pos_bound v (2 ^ 8)). lia.
Qed.

Lemma set_word_other k m : k <> i -> k <> S i -> set_word i v m !!! k = m !!! k.
Proof using. intros H1 H2. unfold set_word. by rewrite !list_lookup_total_insert_ne. Qed.

Lemma set_word_at m : (S i < length m)%nat -> 0 <= v -> u16_at (set_word i v m) i = v.
Proof using.
  intros Hi Hv. unfold u16_at, set_word. rewrite list_lookup_total_insert_eq by (rewrite length_insert; lia).
  rewrite list_lookup_total_insert_ne, list_lookup_total_insert_eq by lia.
  rewrite (Z.land_ones v 8 ltac:(lia) : Z.land v 255 = _), Z.shiftr_div_pow2, Z.shiftl_mul_pow2 by lia.
  pose proof (Z.div_mod v (2 ^ 8)). lia.
Qed.
End set_word.

(** The sum changes by what a word at an even offset changes by. *)
Lemma set_word_sum k v m : (S (2 * k) < length m)%nat ->
  sum_list (host_words (set_word (2 * k) v m)) = sum_list (host_words m) - u16_at m (2 * k) + v.
Proof.
  revert m. induction k as [|k IH]; intros m Hl; destruct m as [|b0 [|b1 m]]; simpl in Hl; try lia.
  - unfold set_word, u16_at, sum_list. simpl. rewrite (Z.land_ones v 8 ltac:(lia) : Z.land v 255 = _), Z.shiftr_div_pow2, Z.shiftl_mul_pow2 by lia.
    change (2 ^ 8) with 256. pose proof (Z.div_mod v 256). unfold lookup_total, list_lookup_total. simpl. lia.
  - replace (2 * S k)%nat with (S (S (2 * k))) by lia.
    change (set_word (S (S (2 * k))) v (b0 :: b1 :: m)) with (b0 :: b1 :: set_word (2 * k) v m).
    change (u16_at (b0 :: b1 :: m) (S (S (2 * k)))) with (u16_at m (2 * k)). unfold sum_list in *. cbn [host_words foldr].
    rewrite IH by lia. lia.
Qed.

Lemma carry_compl s : 0 <= s -> carry (s + (65535 - carry s)) = 65535.
Proof.
  intros Hs. pose proof (carry_range s Hs). destruct (decide (s = 0)) as [->|Hn]; [done|].
  unfold carry at 2. rewrite decide_False by done. transitivity (carry 65535); [|done].
  pose proof (Z.mod_le (s - 1) 65535 ltac:(lia) ltac:(lia)). apply carry_eq; [lia|lia|].
  pose proof (Z.div_mod (s - 1) 65535). replace (s + _) with (65535 + (s - 1) / 65535 * 65535) by lia. by rewrite Z.mod_add.
Qed.

(** A word filled in with the checksum of the rest makes the checksum of all 0. *)
Lemma filled_sum k x m : (S (2 * k) < length m)%nat -> bytes_ok m -> 0 <= x ->
  let s := x + sum_list (host_words (set_word (2 * k) 0 m)) in
  carry (x + sum_list (host_words (set_word (2 * k) (65535 - carry s) m))) = 65535.
Proof.
  intros Hl Hb Hx s. rewrite <- (set_word_twice _ _ 0), set_word_sum by (rewrite length_set_word; lia). rewrite set_word_at by lia.
  transitivity (carry (s + (65535 - carry s))). { f_equal. unfold s. lia. }
  apply carry_compl.
  destruct (host_words_sum (set_word (2 * k) 0 m)) as [A _]; [by apply set_word_bytes|]. lia.
Qed.

(** A word at 10 or behind the header is not part of what the functions read of it. *)
Lemma ip_header_set_word i v m : i = 10%nat \/ (20 <= i)%nat -> ip_header (set_word i v m) = ip_header m.
Proof. intros Hi. unfold ip_header, u32_at, u16_at. by rewrite !set_word_other by lia. Qed.

(** A TCP segment behind an IP header, with a byte of memory behind an odd one. *)
Record tcp_packet (l4 : nat) (m : list Z) : Prop := {
  tp_bytes : bytes_ok m;
  tp_header : l4 = (4 * Z.to_nat (ihl (ip_header m)))%nat;
  tp_ihl : 5 <= ihl (ip_header m);
  tp_protocol : protocol (ip_header m) = IPPROTO_TCP;
  tp_len : 20 <= tcp_len (ip_header m);
  tp_memory : (l4 + (Z.to_nat (tcp_len (ip_header m)) + Z.to_nat (tcp_len (ip_header m)) mod 2) <= length m)%nat;
}.

Section fill.
Context (l4 : nat) (m : list Z) (H : tcp_packet l4 m).
#[local] Abbreviation ip := (ip_header m).
#[local] Abbreviation n := (Z.to_nat (tcp_len (ip_header m))).

Lemma ihl_range : 5 <= ihl ip <= 15 /\ (20 <= l4 <= 60)%nat /\ (20 <= n)%nat.
Proof using H.
  pose proof (tp_ihl _ _ H). pose proof (tp_header _ _ H). pose proof (tp_len _ _ H).
  assert (ihl ip <= 15); [|lia]. unfold ip_header. simpl ihl. rewrite (Z.land_ones _ 4 ltac:(lia) : Z.land _ 15 = _).
  pose proof (Z.mod_pos_bound (m !!! 0%nat) (2 ^ 4)). lia.
Qed.

(** The checksum of the header is filled in, and then the header's checksum is 0. *)
Lemma fill_ip : exists c, 0 <= c <= 65535 /\ compute_ip_checksum (set_word 10 0 m) (ihl ip * 2) = Ret c /\
  compute_ip_checksum (set_word 10 c m) (ihl ip * 2) = Ret 0.
Proof using H.
  pose proof ihl_range as (R1 & R2 & R3). pose proof (tp_memory _ _ H) as Hm. pose proof (tp_bytes _ _ H) as Hb.
  set (k := Z.to_nat (ihl ip * 2)). assert (ihl ip * 2 = Z.of_nat k) as -> by lia.
  pose proof (tp_header _ _ H) as Hh. assert (2 * k = l4)%nat as Ek by lia.
  assert (forall v, 0 <= v <= 65535 -> exists r, compute_ip_checksum (set_word 10 v m) (Z.of_nat k) = Ret r /\
    r = 65535 - carry (0 + sum_list (host_words (set_word (2 * 5) v (take l4 m))))) as Hc.
  { intros v Hv. destruct (ip_checksum_spec (set_word 10 v m) k) as (r & E1 & E2 & _);
      [by apply set_word_bytes|rewrite length_set_word; lia|lia|]. exists r. split; [done|].
    rewrite Ek, take_set_word in E2 by lia. by rewrite Z.add_0_l. }
  destruct (Hc 0 ltac:(lia)) as (c & E1 & E2). exists c.
  destruct (host_words_sum (set_word (2 * 5) 0 (take l4 m))) as [A _]; [apply set_word_bytes; [lia|by apply Forall_take]|].
  pose proof (carry_range _ A). rewrite Z.add_0_l in E2. split; [lia|]. split; [done|].
  destruct (Hc c ltac:(lia)) as (r & F1 & F2). rewrite F1. f_equal. rewrite F2, E2.
  pose proof (filled_sum 5 0 (take l4 m)) as Hf. cbn zeta in Hf. rewrite (Z.add_0_l (sum_list (host_words (set_word (2 * 5) 0 _)))) in Hf.
  rewrite Hf; [lia|rewrite length_take; lia|by apply Forall_take|lia].
Qed.

(** So is the checksum of the segment. *)
Lemma fill_tcp : exists c, 0 <= c <= 65535 /\ compute_tcp_checksum ip (drop l4 (set_word (l4 + 16) 0 m)) = Ret c /\
  compute_tcp_checksum ip (drop l4 (set_word (l4 + 16) c m)) = Ret 0.
Proof using H.
  pose proof ihl_range as (R1 & R2 & R3). pose proof (tp_memory _ _ H) as Hm. pose proof (tp_bytes _ _ H) as Hb.
  pose proof (length_drop m l4) as Hl. assert (bytes_ok (drop l4 m)) as Hd by (by apply Forall_drop).
  set (x := pseudo ip IPPROTO_TCP (htons (tcp_len ip))).
  pose proof (wrap_range 16 ltac:(lia) (ntohs (tot_len ip) - Z.shiftl (ihl ip) 2)) as Hn. fold (tcp_len ip) in Hn.
  destruct (pseudo_sum ip IPPROTO_TCP (tcp_len ip)) as (P & _); [unfold IPPROTO_TCP; lia|lia|]. fold x in P.
  assert (forall v, 0 <= v <= 65535 -> exists r, compute_tcp_checksum ip (drop l4 (set_word (l4 + 16) v m)) = Ret r /\
    r = 65535 - carry (x + sum_list (host_words (set_word (2 * 8) v (take n (drop l4 m)))))) as Hc.
  { intros v Hv. rewrite drop_set_word. destruct (tcp_checksum_spec ip (set_word 16 v (drop l4 m))) as (r & E1 & E2 & _);
      [by apply set_word_bytes|rewrite length_set_word; lia|]. exists r. split; [done|]. by rewrite take_set_word in E2 by lia. }
  destruct (Hc 0 ltac:(lia)) as (c & E1 & E2). exists c.
  destruct (host_words_sum (set_word (2 * 8) 0 (take n (drop l4 m)))) as [A _]; [apply set_word_bytes; [lia|by apply Forall_take]|].
  pose proof (carry_range (x + sum_list (host_words (set_word (2 * 8) 0 (take n (drop l4 m))))) ltac:(lia)).
  split; [lia|]. split; [done|].
  destruct (Hc c ltac:(lia)) as (r & F1 & F2). rewrite F1. f_equal. rewrite F2, E2.
  pose proof (filled_sum 8 x (take n (drop l4 m))) as Hf. cbn zeta in Hf.
  rewrite Hf; [lia|rewrite length_take; lia|by apply Forall_take|lia].
Qed.
End fill.
(** ** The fragments of a UDP datagram *)

(** The buffers of a datagram hold an even number of bytes each, the last one at
    least two, with a byte of memory behind an odd one. *)
Fixpoint frags_ok (m : list Z) (len : nat) (fs : list (list Z * nat)) : Prop :=
  bytes_ok m /\ (len + len mod 2 <= length m)%nat /\ (2 <= len)%nat /\
  match fs with [] => True | (m', len') :: fs => Nat.Even len /\ frags_ok m' len' fs end.

Definition payload (fs : list (list Z * nat)) : list Z := concat (map (fun '(m, len) => take len m) fs).

Abbreviation rest fs := (map (fun '(m, len) => (m, Z.of_nat len)) fs).

Lemma frags_ok_length m len fs : frags_ok m len fs -> (2 <= length (payload ((m, len) :: fs)) /\ len <= length (payload ((m, len) :: fs)))%nat.
Proof.
  intros H. unfold payload. cbn [map concat]. rewrite length_app, length_take.
  destruct fs as [|[m' len'] fs]; destruct H as (_ & H1 & H2 & _); lia.
Qed.

Lemma payload_bytes m len fs : frags_ok m len fs -> bytes_ok (payload ((m, len) :: fs)).
Proof.
  revert m len. induction fs as [|[m' len'] fs IH]; intros m len H; unfold payload; cbn [map concat]; destruct H as (H1 & _ & _ & H2).
  - rewrite app_nil_r. by apply Forall_take.
  - apply list.Forall_app. split; [by apply Forall_take|]. apply IH, H2.
Qed.

(** At the end of a buffer the loop goes on with the next one. *)
Lemma udp_loop_next fuel n frag_len m m' len fs sum : 0 < len < 2 ^ 16 -> n > 1 ->
  udp_loop fuel n frag_len 0 m ((m', len) :: fs) sum = udp_loop fuel n len len m' fs sum.
Proof.
  intros Hl Hn. destruct fuel as [|fuel]; cbn [udp_loop]; rewrite !decide_True by lia; [done|].
  rewrite (wrap_small 16 len) by lia. destruct (decide (0 = 0)); [|done]. destruct (decide (len = 0)); [lia|]. by destruct fs as [|[??] ?].
Qed.

(** A buffer is added up at once. *)
Lemma udp_loop_step fuel n len m fs sum : n > 1 -> 0 < len ->
  udp_loop (S fuel) n len len m fs sum =
  '(sum, m) ← add_words (Z.to_nat (len / 2)) m sum; udp_loop fuel (u16 (n - (len - len mod 2))) len (len mod 2) m fs sum.
Proof.
  intros Hn Hl. cbn [udp_loop]. rewrite decide_True by lia. destruct (decide (len = 0)); [lia|]. by destruct fs as [|[??] ?].
Qed.

Lemma udp_loop_end fuel n len r m fs sum : n <= 1 -> udp_loop fuel n len r m fs sum = Ret (n, m, sum).
Proof. intros Hn. destruct fuel; simpl; by rewrite decide_False by lia. Qed.

Lemma udp_loop_spec fuel m len fs sum : frags_ok m len fs -> Z.of_nat (length (payload ((m, len) :: fs))) <= 65535 -> (length fs < fuel)%nat ->
  ('(n, m, s) ← udp_loop fuel (Z.of_nat (length (payload ((m, len) :: fs)))) (Z.of_nat len) (Z.of_nat len) m (rest fs) sum; add_byte n m s) =
  Ret (sum + sum_list (host_words (payload ((m, len) :: fs)))).
Proof.
  revert fuel m len sum. induction fs as [|[m' len'] fs IH]; intros fuel m len sum H Hn Hf; pose proof (frags_ok_length _ _ _ H) as [L1 L2];
    (destruct fuel as [|fuel]; [simpl in Hf; lia|]); rewrite udp_loop_step by (destruct H as (_ & _ & ? & _); lia).
  - destruct H as (Hb & Hl & H2 & _). unfold payload in *. cbn [map concat] in *. rewrite app_nil_r in *. rewrite length_take in *.
    replace (Z.of_nat (len `min` length m)) with (Z.of_nat len) in * by lia.
    pose proof (add_bytes_spec len m sum Hb ltac:(lia) Hl) as E. pose proof (Z.mod_pos_bound (Z.of_nat len) 2).
    destruct (add_words _ _ _) as [[s m1]| |]; try done. cbn [mbind res_bind] in E |- *.
    replace (Z.of_nat len - _) with (Z.of_nat len mod 2) by lia. rewrite wrap_small by lia. rewrite udp_loop_end by lia. done.
  - destruct H as (Hb & Hl & H2 & He & H). pose proof (frags_ok_length _ _ _ H) as [L3 L4].
    assert (length (payload ((m, len) :: (m', len') :: fs)) = len + length (payload ((m', len') :: fs)))%nat as Ep.
    { unfold payload. cbn [map concat]. rewrite !length_app, length_take. lia. }
    assert (Z.of_nat len mod 2 = 0 /\ (2 * Z.to_nat (Z.of_nat len / 2) = len)%nat) as [E0 E1].
    { destruct He as [k ->]. replace (Z.of_nat (2 * k)) with (Z.of_nat k * 2) by lia. rewrite Z.mod_mul, Z.div_mul by lia. lia. }
    rewrite add_words_spec by lia. cbn [mbind res_bind]. rewrite E0, E1, Ep. cbn [map].
    replace (Z.of_nat (len + _) - _) with (Z.of_nat (length (payload ((m', len') :: fs)))) by lia. rewrite wrap_small by lia.
    rewrite udp_loop_next by (destruct fs as [|[??] ?]; destruct H as (_ & _ & ? & _); lia).
    rewrite IH by (done || simpl in Hf; lia). f_equal. unfold payload at 2. cbn [map concat].
    rewrite host_words_app by (by rewrite length_take_le by lia). rewrite sum_list_app. unfold payload. cbn [map concat]. lia.
Qed.

Lemma udp_checksum_spec fuel h m len fs : frags_ok m len fs -> (8 <= len)%nat ->
  let p := payload ((m, len) :: fs) in let n := Z.of_nat (length p) in n <= 65535 -> (length fs < fuel)%nat ->
  exists r, compute_udp_checksum_rx fuel h (htons n) m (Z.of_nat len - 8) (rest fs) = Ret r /\
    ntohs r = rfc1071 (pseudo_words h IPPROTO_UDP n ++ words p).
Proof.
  intros H H8 p n Hn Hf. pose proof (frags_ok_length _ _ _ H) as [L1 L2]. fold p in L1, L2.
  pose proof (udp_loop_spec fuel m len fs (pseudo h IPPROTO_UDP (htons n)) H Hn Hf) as E. fold p n in E.
  unfold compute_udp_checksum_rx. rewrite (ntohs_htons n : _ -> ntohs (ntohs _) = _) by lia.
  replace (Z.of_nat len - 8 + 8) with (Z.of_nat len) by lia. rewrite wrap_small by lia.
  destruct (udp_loop _ _ _ _ _ _ _) as [[[n' m'] s]| |]; try done. cbn [mbind res_bind] in E |- *. rewrite E. cbn [mbind res_bind].
  destruct (pseudo_sum h IPPROTO_UDP n) as (P1 & P2 & P3); [unfold IPPROTO_UDP; lia|lia|].
  destruct (host_words_sum p) as (A & B & _ & D & F); [by apply payload_bytes|].
  destruct (finish_spec (pseudo h IPPROTO_UDP (htons n) + sum_list (host_words p))
    (sum_list (pseudo_words h IPPROTO_UDP n ++ words p))) as (r & Er & _ & E2).
  - lia.
  - rewrite sum_list_app. lia.
  - rewrite sum_list_app, Z.mul_add_distr_l, Z.add_mod, P3, D, <- Z.add_mod; done.
  - by exists r.
Qed.

(** Without a byte behind it, the last byte of an odd segment is read together with
    memory that is not there. *)
Lemma odd_segment_read_past_end h p : length p = Z.to_nat (tcp_len h) -> tcp_len h mod 2 = 1 -> compute_tcp_checksum h p = UB.
Proof.
  intros Hl Ho. assert (0 <= tcp_len h) as H0 by (apply (wrap_range 16); lia). unfold compute_tcp_checksum.
  rewrite add_words_spec by (Z.div_mod_to_equations; lia). cbn [mbind res_bind]. rewrite Ho. unfold add_byte. rewrite decide_True by lia.
  assert (length (drop (2 * Z.to_nat (tcp_len h / 2)) p) = 1%nat) as E by (rewrite length_drop; Z.div_mod_to_equations; lia).
  destruct (drop _ p) as [|b [|? ?]]; done.
Qed.

(** *** Datagrams for which the loop does not end *)

(** What the loop takes off the length in every round, for a single buffer with
    [iov_len] bytes of payload: the bytes of the UDP header and the payload, the
    last one left out when they are odd in number. *)
Definition taken (iov_len : Z) : Z := (iov_len + 8) / 2 * 2.

Section one_buffer.
Context (frag r : Z) (m : list Z) (sum : Z).
Hypothesis Hr : r = frag mod 2.

(** Once the buffer is used up a round adds nothing and takes the same off again. *)
Lemma udp_loop_idle fuel n : n > 1 -> udp_loop (S fuel) n frag r m [] sum = udp_loop fuel (u16 (n - (frag - r))) frag r m [] sum.
Proof.
  intros Hn. cbn [udp_loop]. rewrite decide_True by lia.
  assert (match decide (r = 0), ([] : frags) with left _, (b, len) :: fs => (b, fs, u16 len, u16 len) | _, _ => (m, [], frag, r) end = (m, [], frag, r)) as ->
    by (by destruct (decide (r = 0))).
  assert (0 <= r < 2) by (subst r; apply Z.mod_pos_bound; lia). by rewrite Z.div_small, Z.mod_small by lia.
Qed.

(** The remainder of the length left does not change. *)
Lemma u16_sub_mod_gcd n e : u16 (n - e) mod Z.gcd e (2 ^ 16) = n mod Z.gcd e (2 ^ 16).
Proof.
  set (g := Z.gcd e (2 ^ 16)). destruct (Z.gcd_divide_l e (2 ^ 16)) as [a Ha]. destruct (Z.gcd_divide_r e (2 ^ 16)) as [b Hb]. fold g in Ha, Hb.
  assert (g <> 0) by (intros E; rewrite E in Hb; lia). unfold wrap. rewrite (Z.mod_eq (n - e) (2 ^ 16)) by lia.
  set (q := (n - e) / 2 ^ 16). clearbody q g. rewrite Ha, Hb.
  replace (n - a * g - b * g * q) with (n + (- (a + b * q)) * g) by ring. by rewrite Z.mod_add.
Qed.

Lemma udp_loop_stuck fuel n : 2 <= n mod Z.gcd (frag - r) (2 ^ 16) -> 0 <= n -> udp_loop fuel n frag r m [] sum = Loops.
Proof.
  assert (0 < Z.gcd (frag - r) (2 ^ 16)) as Hg by (pose proof (Z.gcd_nonneg (frag - r) (2 ^ 16)); pose proof (Z.gcd_eq_0_r (frag - r) (2 ^ 16)); lia).
  revert n. induction fuel as [|fuel IH]; intros n Hn H0; assert (n > 1) by (pose proof (Z.mod_le n _ H0 Hg); lia).
  - cbn [udp_loop]. by rewrite decide_True by lia.
  - rewrite udp_loop_idle by done. apply IH; [by rewrite u16_sub_mod_gcd|by apply (wrap_range 16)].
Qed.

(** The loop ends with the round in which the length left is 0 or 1. *)
Lemma udp_loop_returns k n : 0 <= n < 2 ^ 16 -> u16 (n - Z.of_nat k * (frag - r)) <= 1 ->
  exists n', udp_loop k n frag r m [] sum = Ret (n', m, sum).
Proof.
  revert n. induction k as [|k IH]; intros n Hn Hk.
  - rewrite Z.mul_0_l, Z.sub_0_r, wrap_small in Hk by lia. exists n. by apply udp_loop_end.
  - destruct (decide (n <= 1)); [exists n; by apply udp_loop_end|]. rewrite udp_loop_idle by lia.
    apply IH; [apply (wrap_range 16); lia|]. unfold wrap in *. rewrite Zminus_mod_idemp_l.
    by replace (n - (frag - r) - Z.of_nat k * (frag - r)) with (n - Z.of_nat (S k) * (frag - r)) by lia.
Qed.

(** Some multiple of [e] takes [n] down to its remainder. *)
Lemma multiple_to_remainder n e : 0 < e -> exists k : nat, u16 (n - Z.of_nat k * e) = n mod Z.gcd e (2 ^ 16).
Proof.
  intros He. set (g := Z.gcd e (2 ^ 16)). destruct (Z.gcd_bezout e (2 ^ 16) g eq_refl) as (u & v & Huv).
  assert (0 < g) as Hg by (pose proof (Z.gcd_nonneg e (2 ^ 16)); pose proof (Z.gcd_eq_0_r e (2 ^ 16)); lia).
  assert (g <= 2 ^ 16) by (apply Z.divide_pos_le; [lia|apply Z.gcd_divide_r]).
  pose proof (Z.mod_pos_bound n g Hg). exists (Z.to_nat ((u * (n / g)) mod 2 ^ 16)).
  pose proof (Z.mod_pos_bound (u * (n / g)) (2 ^ 16) ltac:(lia)). rewrite Z2Nat.id by lia. unfold wrap.
  symmetry. apply (Z.mod_unique_pos _ _ (v * (n / g) + u * (n / g) / 2 ^ 16 * e)); [lia|].
  pose proof (Z.div_mod n g ltac:(lia)). pose proof (Z.div_mod (u * (n / g)) (2 ^ 16) ltac:(lia)).
  set (q := n / g) in *. set (w := (u * q) mod 2 ^ 16) in *. set (d := u * q / 2 ^ 16) in *. clearbody q w d. nia.
Qed.
End one_buffer.

(** What follows the loop returns for any bytes in memory, or reads behind them. *)
Lemma checksum_tail_ends n m s : bytes_ok m -> 0 <= s <= 2 ^ 32 - 256 - 1 -> (s ← add_byte n m s; s ← fold_loop fold_fuel s; Ret (u16 (Z.lnot s))) <> Loops.
Proof.
  intros Hm Hs. unfold add_byte. destruct (decide (n > 0)); [|cbn [mbind res_bind]; rewrite fold_loop_spec by lia; done].
  destruct m as [|b0 [|b1 m]]; [done..|]. cbn [mbind res_bind]. change (htons 65280) with (Z.ones 8).
  rewrite Z.land_ones by lia. pose proof (Z.mod_pos_bound (b0 + b1 ≪ 8) (2 ^ 8) ltac:(lia)). rewrite fold_loop_spec by lia. done.
Qed.

Lemma pseudo_range h len : 0 <= len < 2 ^ 16 -> 0 <= pseudo h IPPROTO_UDP len <= 2 ^ 19.
Proof.
  intros Hn. unfold pseudo. change (htons IPPROTO_UDP) with 4352.
  pose proof (land16_range (saddr h)). pose proof (land16_range (Z.shiftr (saddr h) 16)).
  pose proof (land16_range (daddr h)). pose proof (land16_range (Z.shiftr (daddr h) 16)). lia.
Qed.

(** The first round adds the bytes of the buffer. *)
Lemma udp_loop_first m iov_len n s : 0 <= iov_len < 2 ^ 16 - 8 -> bytes_ok m -> (Z.to_nat iov_len + 8 <= length m)%nat -> n > 1 -> 0 <= s <= 2 ^ 19 ->
  exists m' s', bytes_ok m' /\ 0 <= s' <= 2 ^ 32 - 256 - 1 /\ forall fuel,
    udp_loop (S fuel) n (iov_len + 8) (iov_len + 8) m [] s =
    udp_loop fuel (u16 (n - (iov_len + 8 - (iov_len + 8) mod 2))) (iov_len + 8) ((iov_len + 8) mod 2) m' [] s'.
Proof.
  intros Hi Hb Hl Hn Hs. set (w := Z.to_nat ((iov_len + 8) / 2)).
  assert ((2 * w <= length m)%nat /\ Z.of_nat w <= 32768) as [Hw Hw2] by (unfold w; Z.div_mod_to_equations; lia).
  exists (drop (2 * w) m), (s + sum_list (host_words (take (2 * w) m))).
  destruct (host_words_sum (take (2 * w) m)) as (A & _ & _ & _ & F); [by apply Forall_take|]. rewrite length_take in F.
  split; [by apply Forall_drop|]. split; [lia|]. intros fuel. rewrite udp_loop_step by lia. fold w. by rewrite add_words_spec by done.
Qed.

(** A last fragment of one byte is not read: what is added instead is the byte
    behind the fragment before it. *)
Lemma last_byte_not_read fuel h m iov_len fs : 0 <= iov_len <= 65526 -> iov_len mod 2 = 0 -> (Z.to_nat iov_len + 8 <= length m)%nat ->
  compute_udp_checksum_rx (S fuel) h (htons (iov_len + 9)) m iov_len fs = compute_udp_checksum_rx (S fuel) h (htons (iov_len + 9)) m iov_len [].
Proof.
  intros Hi H2 Hl. unfold compute_udp_checksum_rx. rewrite (ntohs_htons (iov_len + 9) : _ -> ntohs (ntohs _) = _) by lia.
  rewrite (wrap_small 16 (iov_len + 8)) by lia. rewrite !udp_loop_step by lia.
  rewrite add_words_spec by (Z.div_mod_to_equations; lia). cbn [mbind res_bind].
  replace (iov_len + 9 - _) with 1 by (Z.div_mod_to_equations; lia). change (u16 1) with 1. by rewrite !udp_loop_end by lia.
Qed.
(** *** Both checksums *)

Lemma fill_checksums l4 m : tcp_packet l4 m ->
  exists m', compute_tx_checksum l4 m true true = Ret m' /\
    compute_ip_checksum m' (ihl (ip_header m') * 2) = Ret 0 /\ compute_tcp_checksum (ip_header m') (drop l4 m') = Ret 0 /\
    ip_header m' = ip_header m /\ length m' = length m /\
    forall i, (i ∉ [10; 11; l4 + 16; l4 + 17])%nat -> m' !!! i = m !!! i.
Proof.
  intros H. destruct (ihl_range l4 m H) as (R1 & R2 & R3). pose proof (tp_memory _ _ H) as Hm.
  destruct (fill_ip l4 m H) as (c & Rc & C1 & C2).
  set (m1 := set_word 10 c m). assert (ip_header m1 = ip_header m) as E1 by (apply ip_header_set_word; lia).
  assert (length m1 = length m) as L1 by apply length_set_word.
  assert (tcp_packet l4 m1) as H1.
  { destruct H. split; rewrite ?E1, ?L1; try done. by apply set_word_bytes. }
  destruct (fill_tcp l4 m1 H1) as (d & Rd & D1 & D2). rewrite E1 in D1, D2.
  exists (set_word (l4 + 16) d m1). assert (ip_header (set_word (l4 + 16) d m1) = ip_header m) as E2 by (rewrite ip_header_set_word by lia; done).
  split; [|split; [|split; [|split; [done|split; [by rewrite length_set_word|]]]]].
  - unfold compute_tx_checksum, put_word. rewrite decide_True by lia. cbn [mbind res_bind]. rewrite ip_header_set_word by lia. rewrite C1.
    cbn [mbind res_bind]. rewrite length_set_word, decide_True by lia. cbn [mbind res_bind]. rewrite set_word_twice. fold m1.
    rewrite E1, (tp_protocol _ _ H). rewrite decide_False by done. rewrite decide_True by done. rewrite L1, decide_True by lia.
    cbn [mbind res_bind]. rewrite ip_header_set_word, E1, D1 by lia. cbn [mbind res_bind].
    rewrite length_set_word, L1, decide_True by lia. by rewrite set_word_twice.
  - rewrite E2. rewrite <- C2. unfold compute_ip_checksum. pose proof (tp_header _ _ H) as Hh.
    rewrite !add_words_spec by (rewrite ?length_set_word; lia). cbn [mbind res_bind]. by rewrite take_before_word by lia.
  - by rewrite E2.
  - intros i Hi. unfold m1. rewrite !set_word_other; [done|..]; intros ->; apply Hi; set_solver by lia.
Qed.

(** ** Theorems *)

(** C21: the checksums are those of RFC 1071 over the words in network byte order:
    of an IP header; of the pseudo header and a TCP segment, also one with an odd
    number of bytes; of the pseudo header and the fragments of a UDP datagram, when
    the fragments together are as long as the length field of the datagram says,
    all but the last one are even and none is shorter than two bytes.  The sums are
    formed in the byte order of the host, and the loops end.  When the TCP segment, or
    the last fragment, has an odd number of bytes the code reads a whole word for its
    last byte, so one byte more than the packet has; the theorem assumes that this byte
    is in memory ([odd_segment_read_past_end]: without it the read is out of bounds)
    and shows that it does not count. *)
Theorem checksums_are_rfc1071 :
  (forall buf n, bytes_ok buf -> (2 * n <= length buf)%nat -> Z.of_nat n <= 2 ^ 15 ->
     exists r, compute_ip_checksum buf (Z.of_nat n) = Ret r /\ ntohs r = rfc1071 (words (take (2 * n) buf))) /\
  (forall h p, bytes_ok p -> (Z.to_nat (tcp_len h) + Z.to_nat (tcp_len h) mod 2 <= length p)%nat ->
     exists r, compute_tcp_checksum h p = Ret r /\
       ntohs r = rfc1071 (pseudo_words h IPPROTO_TCP (tcp_len h) ++ words (take (Z.to_nat (tcp_len h)) p))) /\
  (forall fuel h m len fs, frags_ok m len fs -> (8 <= len)%nat ->
     let p := payload ((m, len) :: fs) in let n := Z.of_nat (length p) in n <= 65535 -> (length fs < fuel)%nat ->
     exists r, compute_udp_checksum_rx fuel h (htons n) m (Z.of_nat len - 8) (rest fs) = Ret r /\
       ntohs r = rfc1071 (pseudo_words h IPPROTO_UDP n ++ words p)).
Proof.
  split; [|split].
  - intros buf n Hb Hl Hn. destruct (ip_checksum_spec buf n Hb Hl Hn) as (r & E1 & _ & E2). by exists r.
  - intros h p Hb Hl. destruct (tcp_checksum_spec h p Hb Hl) as (r & E1 & _ & E2). by exists r.
  - intros fuel h m len fs. apply udp_checksum_spec.
Qed.

Definition example_ip : list Z :=
  [69; 0; 0; 41; 0; 1; 0; 0; 64; 6; 1; 2; 10; 0; 0; 1; 10; 0; 0; 2].
Definition example_tcp : list Z :=
  [4; 210; 0; 80; 0; 0; 0; 1; 0; 0; 0; 2; 80; 16; 4; 0; 7; 7; 0; 0; 33].
Definition example_packet : list Z := example_ip ++ example_tcp ++ [170].

(** A datagram of 8 and 3 bytes in two buffers. *)
Definition example_frags : list (list Z * nat) := [([104; 101; 108; 108; 111], 3%nat)].
Definition example_udp : list Z := [4; 210; 0; 80; 0; 11; 0; 0].

Lemma checksums_are_rfc1071_witness :
  bytes_ok example_packet /\ frags_ok example_udp 8 example_frags /\
  (exists r, compute_ip_checksum example_packet 10 = Ret r /\ ntohs r = rfc1071 (words example_ip)) /\
  (exists r, compute_tcp_checksum (ip_header example_packet) (example_tcp ++ [170]) = Ret r /\
     ntohs r = rfc1071 (pseudo_words (ip_header example_packet) 6 21 ++ words example_tcp)) /\
  (exists r, compute_udp_checksum_rx 2 (ip_header example_packet) (htons 11) example_udp 0 [([104; 101; 108; 108; 111], 3)] = Ret r /\
     ntohs r = rfc1071 (pseudo_words (ip_header example_packet) 17 11 ++ words (example_udp ++ [104; 101; 108]))).
Proof.
  assert (bytes_ok example_packet) as Hb by (apply (bool_decide_unpack _); vm_compute; exact I).
  assert (frags_ok example_udp 8 example_frags) as Hf.
  { split; [apply (bool_decide_unpack _); vm_compute; exact I|]. split; [simpl; lia|]. split; [lia|]. split; [by exists 4%nat|].
    split; [apply (bool_decide_unpack _); vm_compute; exact I|]. simpl. lia. }
  split; [exact Hb|]. split; [exact Hf|]. split; [|split].
  - apply (proj1 checksums_are_rfc1071 example_packet 10%nat Hb); simpl; lia.
  - apply (proj1 (proj2 checksums_are_rfc1071) (ip_header example_packet) (example_tcp ++ [170])).
    + apply (bool_decide_unpack _). vm_compute. exact I.
    + vm_compute. lia.
  - apply (proj2 (proj2 checksums_are_rfc1071) 2%nat (ip_header example_packet) example_udp 8%nat example_frags Hf); simpl; lia.
Defined.

(** C22: a TCP packet whose checksums have been filled in passes the checks of the
    receiver: both checksums computed over it are 0.  Filling them in succeeds, the
    header is read as before and no other byte is changed.  The packet has at least
    the two headers and lies in memory, with a byte behind it when its segment has an
    odd number of bytes. *)
Theorem filled_checksums_verify l4 m : tcp_packet l4 m ->
  exists m', compute_tx_checksum l4 m true true = Ret m' /\
    compute_ip_checksum m' (ihl (ip_header m') * 2) = Ret 0 /\ compute_tcp_checksum (ip_header m') (drop l4 m') = Ret 0 /\
    ip_header m' = ip_header m /\ length m' = length m /\
    forall i, (i ∉ [10; 11; l4 + 16; l4 + 17])%nat -> m' !!! i = m !!! i.
Proof. apply fill_checksums. Qed.

Lemma filled_checksums_verify_witness : tcp_packet 20 example_packet /\
  exists m', compute_tx_checksum 20 example_packet true true = Ret m' /\ compute_ip_checksum m' (ihl (ip_header m') * 2) = Ret 0.
Proof.
  assert (tcp_packet 20 example_packet) as H.
  { split; [apply (bool_decide_unpack _); vm_compute; exact I|reflexivity|vm_compute; discriminate|reflexivity|vm_compute; discriminate|].
    vm_compute. lia. }
  split; [exact H|]. destruct (filled_checksums_verify 20 example_packet H) as (m' & E1 & E2 & _). by exists m'.
Defined.

(** C24: the check of a received UDP checksum, for a datagram in one buffer, exactly
    when it does not end.  Every round takes the same number of bytes off the 16-bit
    length left: those of the UDP header and the [iov_len] bytes of payload, rounded
    down to an even number.  The check loops for ever, however long it is given, just
    when the length field of the UDP header leaves a remainder of 2 or more modulo
    the greatest common divisor of that number and 2^16; for every other length it
    ends.  So no length that fits the payload makes it loop, and 10 in the header of
    a datagram with 4 bytes of payload does.  Assumes a payload of less than
    2^16 - 8 bytes that lies in memory. *)
Theorem udp_checksum_never_returns h len m iov_len :
  0 <= iov_len < 2 ^ 16 - 8 -> bytes_ok m -> (Z.to_nat iov_len + 8 <= length m)%nat -> 0 <= len < 2 ^ 16 ->
  (forall fuel, compute_udp_checksum_rx fuel h len m iov_len [] = Loops) <->
  2 <= ntohs len mod Z.gcd (taken iov_len) (2 ^ 16).
Proof.
  intros Hi Hb Hl Hn. unfold compute_udp_checksum_rx. rewrite (wrap_small 16 (iov_len + 8)) by lia.
  pose proof (ntohs_le len ltac:(lia)) as HL. pose proof (pseudo_range h len Hn) as Hp.
  change (ntohs len) with (htons len) in *. set (L := htons len) in *.
  assert (taken iov_len = iov_len + 8 - (iov_len + 8) mod 2 /\ 0 < taken iov_len) as [-> Ht] by (unfold taken; Z.div_mod_to_equations; lia).
  destruct (decide (L > 1)) as [H1|H1].
  - destruct (udp_loop_first m iov_len L (pseudo h IPPROTO_UDP len)) as (m' & s & Hm' & Hs & E); [done..|lia|]. split.
    + intros HF. apply Z.le_ngt. intros Hlt. destruct (multiple_to_remainder L (iov_len + 8 - (iov_len + 8) mod 2)) as [[|k] Hk]; [Z.div_mod_to_equations; lia|..].
      { rewrite Z.mul_0_l, Z.sub_0_r, wrap_small in Hk; lia. }
      specialize (HF (S k)). rewrite E in HF.
      destruct (udp_loop_returns (iov_len + 8) _ m' s eq_refl k (u16 (L - (iov_len + 8 - (iov_len + 8) mod 2)))) as [n' E'].
      * apply (wrap_range 16). lia.
      * unfold wrap in *. rewrite Zminus_mod_idemp_l, <- Z.sub_add_distr.
        replace (_ + Z.of_nat k * _) with (Z.of_nat (S k) * (iov_len + 8 - (iov_len + 8) mod 2)) by lia. lia.
      * rewrite E' in HF. cbn [mbind res_bind] in HF. by apply checksum_tail_ends in HF.
    + intros Hg [|fuel]; [simpl; by rewrite decide_True by lia|]. rewrite E, udp_loop_stuck; [done..| |apply (wrap_range 16); lia].
      by rewrite u16_sub_mod_gcd.
  - split.
    + intros HF. specialize (HF 0%nat). rewrite udp_loop_end in HF by lia. cbn [mbind res_bind] in HF. apply checksum_tail_ends in HF; [done..|lia].
    + intros Hg. pose proof (Z.mod_le L (Z.gcd (iov_len + 8 - (iov_len + 8) mod 2) (2 ^ 16)) ltac:(lia)).
      pose proof (Z.gcd_nonneg (iov_len + 8 - (iov_len + 8) mod 2) (2 ^ 16)). pose proof (Z.gcd_eq_0_r (iov_len + 8 - (iov_len + 8) mod 2) (2 ^ 16)). lia.
Qed.

Lemma udp_checksum_never_returns_witness :
  (forall fuel, compute_udp_checksum_rx fuel (ip_header example_packet) (htons 10) (example_udp ++ [1; 2; 3; 4]) 4 [] = Loops) /\
  ~ (forall fuel, compute_udp_checksum_rx fuel (ip_header example_packet) (htons 9) (example_udp ++ [1; 2; 3; 4]) 4 [] = Loops).
Proof.
  assert (bytes_ok (example_udp ++ [1; 2; 3; 4])) as Hb by (apply (bool_decide_unpack _); vm_compute; exact I).
  split.
  - apply udp_checksum_never_returns; [lia|exact Hb|simpl; lia|vm_compute; split; [discriminate|reflexivity]|vm_compute; discriminate].
  - intros H. apply udp_checksum_never_returns in H; [revert H; vm_compute; intros H; apply H; reflexivity|lia|exact Hb|simpl; lia|vm_compute; split; [discriminate|reflexivity]].
Defined.

End Checksum.
