(* ===== verification/Steering.v ===== *)
(** * Steering of received flows: src/src/vma/dev/rfs.cpp, ring_slave.cpp

    A ring hands a received packet to the sockets ("sinks") that are attached to
    the packet's flow.  An [rfs] object holds the sinks of one flow and the rule
    that makes the adapter send the flow's packets to the ring.  When several
    flows share one rule (TCP flows of a local port with [tcp_3t_rules], multicast
    groups with [eth_mc_l2_only_rules] or on InfiniBand) a "filter" counts the
    users of the rule, and the rule is created for the first and destroyed with
    the last of them.

    The three maps from keys to [rfs] objects are hash tables (a finite map, as
    HashMap shows); they are one map here, whose key says which of them is meant,
    and so are the two maps of filters.  An [rfs] is in one map only, so it is a
    value.  [hw] is what the adapter holds: the rules by their handles.  Whether
    the adapter accepts a new rule and destroys an old one are parameters.
    [attach_flow] drops the ring's lock while it builds a new [rfs]: it is two
    steps, [attach_begin] and [attach_end]. *)

From S2P Require Import Prelude Match.

Local Open Scope Z_scope.

Module Steering.

#[local] Existing Instance Match.protocol_eq_dec.

(** ** Flows: proto/flow_tuple.h *)

Record flow_tuple := FlowTuple {
  m_dst_ip : Z;                        (* addresses and ports in network byte order *)
  m_src_ip : Z;
  m_dst_port : Z;
  m_src_port : Z;
  m_protocol : Match.in_protocol_t
}.

Definition IN_MULTICAST_N (a : Z) : bool := bool_decide (Z.land a (htonl 0xf0000000) = htonl 0xe0000000).

Definition is_tcp (t : flow_tuple) : bool := bool_decide (m_protocol t = Match.PROTO_TCP).
Definition is_udp_uc (t : flow_tuple) : bool :=
  bool_decide (m_protocol t = Match.PROTO_UDP) && negb (IN_MULTICAST_N (m_dst_ip t)).
Definition is_udp_mc (t : flow_tuple) : bool :=
  bool_decide (m_protocol t = Match.PROTO_UDP) && IN_MULTICAST_N (m_dst_ip t).
Definition is_5_tuple (t : flow_tuple) : bool := bool_decide (m_src_ip t <> 0) && bool_decide (m_src_port t <> 0).
Definition is_3_tuple (t : flow_tuple) : bool := bool_decide (m_src_ip t = 0) && bool_decide (m_src_port t = 0).

(** The keys of [m_flow_udp_uc_map], [m_flow_udp_mc_map] and [m_flow_tcp_map]. *)
Inductive flow_key :=
  | Udp_uc (dst_ip dst_port : Z)
  | Udp_mc (dst_ip dst_port : Z)
  | Tcp (dst_ip src_ip dst_port src_port : Z).

#[export] Instance flow_key_eq_dec : EqDecision flow_key.
Proof. solve_decision. Defined.
#[export] Instance flow_key_countable : Countable flow_key.
Proof.
  refine (inj_countable'
    (fun k => match k with
      | Udp_uc a b => inl (a, b) | Udp_mc a b => inr (inl (a, b)) | Tcp a b c d => inr (inr (a, b, c, d)) end)
    (fun x => match x with
      | inl (a, b) => Udp_uc a b | inr (inl (a, b)) => Udp_mc a b | inr (inr (a, b, c, d)) => Tcp a b c d end) _).
  by intros [].
Defined.

Definition key_of (t : flow_tuple) : option flow_key :=
  if is_udp_uc t then Some (Udp_uc (m_dst_ip t) (m_dst_port t))
  else if is_udp_mc t then Some (Udp_mc (m_dst_ip t) (m_dst_port t))
  else if is_tcp t then Some (Tcp (m_dst_ip t) (m_src_ip t) (m_dst_port t) (m_src_port t))
  else None.

(** The keys of [m_l2_mc_ip_attach_map] and [m_tcp_dst_port_attach_map]. *)
Inductive rule_key := L2_mc_ip (key : Z) | Tcp_dst_port (key : Z).

#[export] Instance rule_key_eq_dec : EqDecision rule_key.
Proof. solve_decision. Defined.
#[export] Instance rule_key_countable : Countable rule_key.
Proof.
  refine (inj_countable' (fun k => match k with L2_mc_ip a => inl a | Tcp_dst_port a => inr a end)
    (fun x => match x with inl a => L2_mc_ip a | inr a => Tcp_dst_port a end) _).
  by intros [].
Defined.

Definition rule_key_t (addr port : Z) : Z := Z.lor (Z.shiftl addr 32) port.

(** ** The ring *)

Inductive transport_type_t := VMA_TRANSPORT_IB | VMA_TRANSPORT_ETH.
#[export] Instance transport_eq_dec : EqDecision transport_type_t.
Proof. solve_decision. Defined.

Record config := Config {
  is_simple : bool;
  m_transport_type : transport_type_t;
  underly_qpn : Z;
  flow_spec_ib : bool;                 (* DEFINED_IBV_FLOW_SPEC_IB *)
  eth_mc_l2_only_rules : bool;
  mc_force_flowtag : bool;
  tcp_3t_rules : bool;
  gro_streams_max : bool;              (* not 0 *)
  m_flow_tag_enabled : bool
}.

(** What a rule matches: the multicast address of the second layer if it has one;
    address and ports, of which 0 matches all; [is_tcp_spec] is [None] without a
    specification of the upper layers.  [tag] is 0 without a tag. *)
Record pattern := Pattern {
  mc_l2 : option Z;
  spec_dst_ip : Z;
  spec_src_ip : Z;
  is_tcp_spec : option bool;
  spec_dst_port : Z;
  spec_src_port : Z
}.
Record flow_attr := FlowAttr { pat : pattern; priority : Z; tag : Z }.

(** The bytes 3 to 5 of [create_multicast_mac_from_ip]. *)
Definition multicast_mac (ip : Z) : Z :=
  Z.land (Z.shiftr ip 8) 0x7f + Z.shiftl (Z.land (Z.shiftr ip 16) 0xff) 8 + Z.shiftl (Z.land (Z.shiftr ip 24) 0xff) 16.

(** [rfs_uc::prepare_flow_spec]; only Ethernet rules carry a tag. *)
Definition prepare_flow_spec_uc (c : config) (t : flow_tuple) (tag_id : Z) : option flow_attr :=
  Some (FlowAttr (Pattern None (m_dst_ip t) (m_src_ip t) (Some (is_tcp t)) (m_dst_port t) (m_src_port t))
          (if decide (m_src_port t <> 0 \/ m_src_ip t <> 0) then 0 else 1)
          (if decide (m_transport_type c = VMA_TRANSPORT_ETH) then tag_id else 0)).

(** [rfs_mc::prepare_flow_spec]; the second layer of InfiniBand is addressed by
    the group. *)
Definition prepare_flow_spec_mc (c : config) (t : flow_tuple) (tag_id : Z) : option flow_attr :=
  match m_transport_type c with
  | VMA_TRANSPORT_IB =>
    if decide (underly_qpn c = 0) then
      if flow_spec_ib c then Some (FlowAttr (Pattern (Some (m_dst_ip t)) 0 0 None 0 0) 1 0) else None
    else Some (FlowAttr (Pattern None (m_dst_ip t) 0 (Some (is_tcp t)) (m_dst_port t) (m_src_port t)) 1 0)
  | VMA_TRANSPORT_ETH =>
    let mac := Some (multicast_mac (m_dst_ip t)) in
    if eth_mc_l2_only_rules c then Some (FlowAttr (Pattern mac 0 0 (Some false) 0 0) 1 0)
    else Some (FlowAttr (Pattern mac (m_dst_ip t) 0 (Some (is_tcp t)) (m_dst_port t) (m_src_port t)) 1 tag_id)
  end.

Record rfs := Rfs {
  m_p_rule_filter : option rule_key;
  m_attach_flow_data_vector : list (flow_attr * option nat);   (* rule and [ibv_flow] *)
  m_sinks_list : list nat;                                     (* the entries in use *)
  m_n_sinks_list_max_length : Z;
  m_flow_tag_id : Z;
  m_b_tmp_is_attached : bool
}.

Record ring := Ring {
  flows : gmap flow_key rfs;
  filters : gmap rule_key (Z * list (option nat));             (* [counter_and_ibv_flows] *)
  hw : gmap nat flow_attr;
  next_flow : nat
}.

Definition ring_init : ring := Ring ∅ ∅ ∅ 0.

Definition set_flow (k : flow_key) (f : rfs) (r : ring) : ring := Ring (<[k := f]> (flows r)) (filters r) (hw r) (next_flow r).
Definition del_flow (k : flow_key) (r : ring) : ring := Ring (delete k (flows r)) (filters r) (hw r) (next_flow r).
Definition set_filter (g : rule_key) (c : Z * list (option nat)) (r : ring) : ring :=
  Ring (flows r) (<[g := c]> (filters r)) (hw r) (next_flow r).
Definition del_filter (g : rule_key) (r : ring) : ring := Ring (flows r) (delete g (filters r)) (hw r) (next_flow r).
Definition set_vector (v : list (flow_attr * option nat)) (f : rfs) : rfs :=
  Rfs (m_p_rule_filter f) v (m_sinks_list f) (m_n_sinks_list_max_length f) (m_flow_tag_id f) (m_b_tmp_is_attached f).
Definition set_attached (b : bool) (f : rfs) : rfs :=
  Rfs (m_p_rule_filter f) (m_attach_flow_data_vector f) (m_sinks_list f) (m_n_sinks_list_max_length f) (m_flow_tag_id f) b.
Definition set_sinks (l : list nat) (n : Z) (f : rfs) : rfs :=
  Rfs (m_p_rule_filter f) (m_attach_flow_data_vector f) l n (m_flow_tag_id f) (m_b_tmp_is_attached f).

(** *** Sinks *)

Definition RFS_SINKS_LIST_DEFAULT_LEN : Z := 32.

Definition rfs_new (filter : option rule_key) (v : list (flow_attr * option nat)) (tag_id : Z) : rfs :=
  Rfs filter v [] RFS_SINKS_LIST_DEFAULT_LEN tag_id false.

(** The array is doubled when it is full. *)
Definition add_sink (s : nat) (f : rfs) : rfs :=
  if decide (s ∈ m_sinks_list f) then f
  else
    let n := if decide (Z.of_nat (length (m_sinks_list f)) = m_n_sinks_list_max_length f)
             then u32 (2 * m_n_sinks_list_max_length f) else m_n_sinks_list_max_length f in
    set_sinks (m_sinks_list f ++ [s]) n f.

Fixpoint remove_first (s : nat) (l : list nat) : list nat :=
  match l with [] => [] | x :: l => if decide (x = s) then l else x :: remove_first s l end.

Lemma remove_first_length s l : s ∈ l -> length l = S (length (remove_first s l)).
Proof.
  induction l as [|x l IH]; intros Hs; [set_solver|]. simpl. case_decide; [done|]. simpl. f_equal. apply IH. set_solver.
Qed.

Definition del_sink (s : nat) (f : rfs) : bool * rfs :=
  (bool_decide (s ∈ m_sinks_list f), set_sinks (remove_first s (m_sinks_list f)) (m_n_sinks_list_max_length f) f).

Section steering.
Context (c : config) (create_ok destroy_ok : nat -> bool).

(** *** Rules *)

Fixpoint create_loop (v : list (flow_attr * option nat)) (r : ring) : bool * list (flow_attr * option nat) * ring :=
  match v with
  | [] => (true, [], r)
  | (a, o) :: v =>
    let h := next_flow r in
    if create_ok h then
      let '(b, v, r) := create_loop v (Ring (flows r) (filters r) (<[h := a]> (hw r)) (S h)) in (b, (a, Some h) :: v, r)
    else (false, (a, None) :: v, Ring (flows r) (filters r) (hw r) (S h))
  end.

Definition create_ibv_flow (f : rfs) (r : ring) : bool * rfs * ring :=
  let '(b, v, r) := create_loop (m_attach_flow_data_vector f) r in
  (b, set_attached (if (b : bool) then true else m_b_tmp_is_attached f) (set_vector v f), r).

(** A failure to destroy a rule is only logged. *)
Fixpoint destroy_loop (v : list (flow_attr * option nat)) (m : gmap nat flow_attr) : gmap nat flow_attr :=
  match v with
  | [] => m
  | (_, None) :: v => destroy_loop v m
  | (_, Some h) :: v => destroy_loop v (if destroy_ok h then delete h m else m)
  end.

Definition destroy_ibv_flow (f : rfs) (r : ring) : rfs * ring :=
  (set_attached false f, Ring (flows r) (filters r) (destroy_loop (m_attach_flow_data_vector f) (hw r)) (next_flow r)).

(** *** Filters *)

(** The counter and the flag. *)
Definition prepare_filter_attach (f : rfs) (r : ring) : Z * bool :=
  match m_p_rule_filter f ≫= (filters r !!.) with
  | None => (1, m_b_tmp_is_attached f)
  | Some (n, _) => (n, bool_decide (n > 1) || m_b_tmp_is_attached f)
  end.

Definition filter_keep_attached (f : rfs) (r : ring) : ring :=
  match m_p_rule_filter f with
  | None => r
  | Some g => match filters r !! g with
    | None => r
    | Some (n, l) => set_filter g (n, l ++ map snd (m_attach_flow_data_vector f)) r
    end
  end.

(** The handles that the filter has kept are given to an [rfs] without its own. *)
Definition take_handles (v : list (flow_attr * option nat)) (l : list (option nat)) : option (list (flow_attr * option nat)) :=
  if decide (length v <= length l)%nat then
    Some (zip_with (fun '(a, o) o' => (a, match o with Some h => Some h | None => o' end)) v l)
  else None.

(** [decrease] is the destructor's.  [None]: [ibv_flows] is read past its end. *)
Definition prepare_filter_detach (decrease : bool) (f : rfs) (r : ring) : option (Z * rfs * ring) :=
  match m_p_rule_filter f with
  | None => Some (0, f, r)
  | Some g => match filters r !! g with
    | None => Some (0, f, r)
    | Some (n, l) =>
      let n := if decrease then (if decide (n > 0) then n - 1 else 0) else n in
      let r := set_filter g (n, l) r in
      let f := set_attached (bool_decide (n = 0) && m_b_tmp_is_attached f) f in
      if decide (n <> 0 \/ l = []) then Some (n, f, r)
      else v ← take_handles (m_attach_flow_data_vector f) l; Some (n, set_vector v f, r)
    end
  end.

(** *** [rfs] *)

Definition rfs_attach_flow (s : nat) (f : rfs) (r : ring) : bool * rfs * ring :=
  let '(n, b) := prepare_filter_attach f r in
  let f := set_attached b f in
  if decide (m_sinks_list f = [] /\ b = false /\ n = 1) then
    if is_simple c then
      let '(ok, f, r) := create_ibv_flow f r in
      if (ok : bool) then (true, add_sink s f, filter_keep_attached f r) else (false, f, r)
    else (true, add_sink s f, filter_keep_attached f r)
  else (true, add_sink s f, r).

Definition rfs_detach_flow (s : nat) (f : rfs) (r : ring) : option (bool * rfs * ring) :=
  let '(ret, f) := del_sink s f in
  '(n, f, r) ← prepare_filter_detach false f r;
  if is_simple c && bool_decide (m_sinks_list f = []) && bool_decide (n = 0) then
    let '(f, r) := destroy_ibv_flow f r in Some (true, f, r)
  else Some (ret, f, r).

(** The destructor. *)
Definition rfs_delete (f : rfs) (r : ring) : option ring :=
  if m_b_tmp_is_attached f then
    match m_p_rule_filter f with
    | Some g =>
      '(n, f, r) ← prepare_filter_detach true f r;
      if decide (n = 0) then
        let r := if is_simple c then (destroy_ibv_flow f r).2 else r in Some (del_filter g r)
      else Some r
    | None => Some (if is_simple c then (destroy_ibv_flow f r).2 else r)
    end
  else Some r.

(** ** [ring_slave] *)

(** A socket: its identity, [get_flow_tag_val] and [flow_in_reuse]. *)
Record sockinfo := Sockinfo { si_id : nat; flow_tag_val : Z; flow_in_reuse : bool }.

Definition FLOW_TAG_MASK : Z := 0xfffff.

(** Whether multicast rules are shared by the ports of a group: when attaching,
    and (line 386 leaves out the queue pair) when detaching. *)
Definition mc_filtered : bool :=
  (bool_decide (m_transport_type c = VMA_TRANSPORT_IB) && bool_decide (underly_qpn c = 0)) || eth_mc_l2_only_rules c.
Definition mc_filtered_detach : bool := bool_decide (m_transport_type c = VMA_TRANSPORT_IB) || eth_mc_l2_only_rules c.

(** The filter of a flow. *)
Definition group_of (k : flow_key) : option rule_key :=
  match k with
  | Udp_uc _ _ => None
  | Udp_mc ip _ => if mc_filtered then Some (L2_mc_ip ip) else None
  | Tcp ip _ port _ => if tcp_3t_rules c then Some (Tcp_dst_port (rule_key_t ip port)) else None
  end.

(** [flow_tag_id]; [fresh] when there is no [rfs] yet. *)
Definition flow_tag (si : sockinfo) (t : flow_tuple) (fresh : bool) : Z :=
  let id := if m_flow_tag_enabled c then flow_tag_val si else 0 in
  if decide (id = 0) then 0
  else if is_udp_uc t then (if flow_in_reuse si then FLOW_TAG_MASK else id)
  else if is_udp_mc t then (if mc_force_flowtag c || negb (flow_in_reuse si) then id else FLOW_TAG_MASK)
  else if fresh && gro_streams_max c && is_5_tuple t && is_simple c then FLOW_TAG_MASK
  else id.

(** The tuple the rule is made of: that of the filter if there is one. *)
Definition rule_tuple (k : flow_key) (t : flow_tuple) : flow_tuple :=
  match k with
  | Tcp _ _ _ _ => if tcp_3t_rules c then FlowTuple (m_dst_ip t) 0 (m_dst_port t) 0 (m_protocol t) else t
  | _ => t
  end.

(** [new rfs_uc], [new rfs_mc], [new rfs_uc_tcp_gro]: a ring that is not simple
    has no queue pair to attach to. *)
Definition build_rfs (k : flow_key) (t : flow_tuple) (tag_id : Z) : option rfs :=
  if is_simple c then
    a ← match k with
        | Udp_mc _ _ => prepare_flow_spec_mc c (rule_tuple k t) tag_id
        | _ => prepare_flow_spec_uc c (rule_tuple k t) tag_id
        end;
    Some (rfs_new (group_of k) [(a, None)] tag_id)
  else Some (rfs_new (group_of k) [] tag_id).

(** The user of the filter is counted. *)
Definition count_up (k : flow_key) (r : ring) : ring :=
  match group_of k with
  | None => r
  | Some g => match filters r !! g with
    | None => set_filter g (1, []) r
    | Some (n, l) => set_filter g (n + 1, l) r
    end
  end.

(** Up to the first lookup. *)
Definition attach_begin (t : flow_tuple) (r : ring) : option (flow_key * bool * ring) :=
  k ← key_of t; let r := count_up k r in Some (k, bool_decide (flows r !! k = None), r).

(** With the lock again: [tmp] is the [rfs] that was built if there was none.
    The second result is the tag given to the socket ([set_flow_tag]), the third
    whether [set_tcp_flow_is_5t] is called. *)
Definition attach_end (k : flow_key) (t : flow_tuple) (si : sockinfo) (tmp : option rfs) (fresh : bool) (r : ring)
    : option (bool * option Z * bool * ring) :=
  f ← match flows r !! k with Some f => Some f | None => tmp end;
  let '(ret, f, r) := rfs_attach_flow (si_id si) f r in
  let r := set_flow k f r in
  let id := flow_tag si t fresh in
  Some (ret,
    (if (ret : bool) && negb (bool_decide (id = 0)) && negb (bool_decide (id = FLOW_TAG_MASK)) then Some id else None),
    ret && is_tcp t && negb (is_3_tuple t), r).

(** [ok]: the new object could be allocated.  [None]: not a flow of the ring. *)
Definition attach_flow (ok : bool) (t : flow_tuple) (si : sockinfo) (r : ring) : option (bool * option Z * bool * ring) :=
  '(k, fresh, r) ← attach_begin t r;
  if (fresh : bool) then
    match build_rfs k t (flow_tag si t fresh) with
    | Some f => if ok then attach_end k t si (Some f) fresh r else Some (false, None, false, r)
    | None => Some (false, None, false, r)
    end
  else attach_end k t si None fresh r.

(** The counter before the flow is detached, and whether it is kept in the map. *)
Definition count_down (k : flow_key) (r : ring) : bool * ring :=
  let g := match k with
    | Udp_uc _ _ => None
    | Udp_mc ip _ => if mc_filtered_detach then Some (L2_mc_ip ip) else None
    | Tcp ip _ port _ => if tcp_3t_rules c then Some (Tcp_dst_port (rule_key_t ip port)) else None
    end in
  match g with
  | None => (true, r)
  | Some g => match filters r !! g with
    | None => (true, r)
    | Some (n, l) => let n := Z.max 0 (n - 1) in (negb (bool_decide (n = 0)), set_filter g (n, l) r)
    end
  end.

Definition erase_filter (k : flow_key) (r : ring) : ring :=
  match k with
  | Udp_uc _ _ => r
  | Udp_mc ip _ => del_filter (L2_mc_ip ip) r
  | Tcp ip _ port _ => del_filter (Tcp_dst_port (rule_key_t ip port)) r
  end.

Definition detach_flow (t : flow_tuple) (s : nat) (r : ring) : option (bool * ring) :=
  match key_of t with
  | None => Some (false, r)
  | Some k =>
    let '(keep_in_map, r) := count_down k r in
    match flows r !! k with
    | None => Some (false, r)
    | Some f =>
      '(_, f, r) ← rfs_detach_flow s f r;
      let r := set_flow k f r in
      let r := if (keep_in_map : bool) then r else erase_filter k r in
      if decide (m_sinks_list f = []) then r ← rfs_delete f (del_flow k r); Some (true, r)
      else Some (true, r)
    end
  end.

(** [flow_udp_del_all], [flow_tcp_del_all]: [l] is the order the tables are
    walked in. *)
Fixpoint flow_del_all (l : list flow_key) (r : ring) : option ring :=
  match l with
  | [] => Some r
  | k :: l => match flows r !! k with
    | Some f => r ← rfs_delete f r; flow_del_all l (del_flow k r)
    | None => flow_del_all l r
    end
  end.

(** ** What the ring is to hold *)

(** The tuple of a flow: datagrams of any source. *)
Definition tuple_of (k : flow_key) : flow_tuple :=
  match k with
  | Udp_uc ip port | Udp_mc ip port => FlowTuple ip 0 port 0 Match.PROTO_UDP
  | Tcp dip sip dport sport => FlowTuple dip sip dport sport Match.PROTO_TCP
  end.

Definition attr_of (k : flow_key) (tag_id : Z) : option flow_attr :=
  match k with
  | Udp_mc _ _ => prepare_flow_spec_mc c (rule_tuple k (tuple_of k)) tag_id
  | _ => prepare_flow_spec_uc c (rule_tuple k (tuple_of k)) tag_id
  end.

(** What the rule of a flow has to match. *)
Definition pattern_of (k : flow_key) : option pattern := pat <$> attr_of k 0.

Definition dst_of (k : flow_key) : Z * Z :=
  match k with Udp_uc ip port | Udp_mc ip port | Tcp ip _ port _ => (ip, port) end.

Definition valid (k : flow_key) : Prop :=
  key_of (tuple_of k) = Some k /\ 0 <= (dst_of k).1 < 2 ^ 32 /\ 0 <= (dst_of k).2 < 2 ^ 16 /\ is_Some (attr_of k 0).

(** A configuration in which the rules that are shared match what they are shared
    for. *)
Definition config_ok : Prop :=
  is_simple c = true /\
  (m_transport_type c = VMA_TRANSPORT_IB -> eth_mc_l2_only_rules c = true -> underly_qpn c = 0).

Lemma attr_of_pat k id : pat <$> attr_of k id = pattern_of k.
Proof using.
  unfold pattern_of, attr_of, prepare_flow_spec_mc, prepare_flow_spec_uc. destruct k; try done.
  destruct (m_transport_type c); [|by destruct (eth_mc_l2_only_rules c)].
  destruct (decide (underly_qpn c = 0)); [by destruct (flow_spec_ib c)|done].
Qed.

Lemma rule_key_inj a p a' p' : 0 <= a < 2 ^ 32 -> 0 <= p < 2 ^ 16 -> 0 <= a' < 2 ^ 32 -> 0 <= p' < 2 ^ 16 ->
  rule_key_t a p = rule_key_t a' p' -> a = a' /\ p = p'.
Proof using.
  intros Ha Hp Ha' Hp'. unfold rule_key_t. rewrite !lor_field by lia. lia.
Qed.

(** Flows of one filter have one pattern. *)
Lemma group_pattern k k' g : config_ok -> valid k -> valid k' -> group_of k = Some g -> group_of k' = Some g ->
  pattern_of k = pattern_of k'.
Proof using.
  intros [_ Hc] (_ & H1 & H2 & _) (_ & H1' & H2' & _) E E'. unfold group_of, mc_filtered in E, E'.
  destruct k as [|ip p|ip sip p sp], k' as [|ip' p'|ip' sip' p' sp']; try done; repeat case_match; simplify_eq; simpl in *.
  - unfold pattern_of, attr_of, prepare_flow_spec_mc. simpl.
    destruct (m_transport_type c); simpl in *; [|by rewrite H].
    destruct (eth_mc_l2_only_rules c) eqn:El.
    + by rewrite !decide_True by (by apply Hc).
    + rewrite orb_false_r in H. case_bool_decide; [|done]. by rewrite !decide_True.
  - unfold pattern_of, attr_of, prepare_flow_spec_uc, rule_tuple. rewrite H. simpl.
    destruct (rule_key_inj ip p ip' p') as [-> ->]; done.
Qed.

(** The users of a filter. *)
Definition weight (g : rule_key) (k : flow_key) (f : rfs) : Z :=
  if decide (group_of k = Some g) then Z.of_nat (length (m_sinks_list f)) else 0.
Definition total (g : rule_key) (m : gmap flow_key rfs) : Z := map_fold (fun k f n => weight g k f + n) 0 m.

Lemma total_insert_new g k f m : m !! k = None -> total g (<[k := f]> m) = weight g k f + total g m.
Proof using. intros H. unfold total. rewrite map_fold_insert_L; [done|lia|done]. Qed.

Lemma total_delete g k f m : m !! k = Some f -> total g (delete k m) = total g m - weight g k f.
Proof using.
  intros H. rewrite <- (insert_delete_id m k f) at 2 by done. rewrite total_insert_new by apply lookup_delete_eq. lia.
Qed.

Lemma total_insert g k f f0 m : m !! k = Some f0 -> total g (<[k := f]> m) = total g m - weight g k f0 + weight g k f.
Proof using.
  intros H. rewrite <- insert_delete_eq, total_insert_new by apply lookup_delete_eq. rewrite (total_delete g k f0) by done. lia.
Qed.

Lemma total_ge g m : 0 <= total g m.
Proof using.
  unfold total. apply (map_fold_weak_ind (fun n _ => 0 <= n)); [lia|]. intros k f m' n _ H. unfold weight. case_decide; lia.
Qed.

Lemma total_member g k f m : m !! k = Some f -> weight g k f <= total g m.
Proof using. intros H. pose proof (total_ge g (delete k m)). rewrite (total_delete g k f) in H0 by done. lia. Qed.

(** *** Who owns a rule *)

(** A rule belongs to a flow or to a filter. *)
Definition owner (k : flow_key) : flow_key + rule_key := match group_of k with Some g => inr g | None => inl k end.

Definition kept (f : rfs) : option nat := head (m_attach_flow_data_vector f) ≫= snd.

Definition handle (r : ring) (o : flow_key + rule_key) : option nat :=
  match o with
  | inl k => if decide (group_of k = None) then flows r !! k ≫= kept else None
  | inr g => '(_, l) ← filters r !! g; mjoin (head l)
  end.

Definition rule_ok (k : flow_key) (a : flow_attr) : Prop := Some (pat a) = pattern_of k.

(** An [rfs] on the map: its sinks, its rule and the handle it knows. *)
Definition rfs_ok (r : ring) (k : flow_key) (f : rfs) : Prop :=
  valid k /\ m_p_rule_filter f = group_of k /\ m_sinks_list f <> [] /\
  exists a x h, m_attach_flow_data_vector f = [(a, x)] /\ rule_ok k a /\ handle r (owner k) = Some h /\ (x = None \/ x = Some h).

Record ledger (r : ring) : Prop := {
  ledger_handle o h : handle r o = Some h -> (h < next_flow r)%nat /\
    exists a k f, hw r !! h = Some a /\ flows r !! k = Some f /\ owner k = o /\ rule_ok k a;
  ledger_hw h a : hw r !! h = Some a -> exists o, handle r o = Some h;
  ledger_inj o o' h : handle r o = Some h -> handle r o' = Some h -> o = o';
}.

Record inv (r : ring) : Prop := {
  inv_flow k f : flows r !! k = Some f -> rfs_ok r k f;
  inv_filter g n l : filters r !! g = Some (n, l) -> n = total g (flows r) /\ 0 < n /\ exists h, l = [Some h];
  inv_ledger : ledger r;
}.

Lemma ring_init_inv : inv ring_init.
Proof using.
  split; try done. split; try done.
  - intros [k|g] h E; simpl in E; [by case_decide|done].
  - intros [k|g] o' h E; simpl in E; [by case_decide|done].
Qed.

(** The rules stay: every owner keeps a flow. *)
Lemma ledger_same r r' : ledger r -> (forall o, handle r' o = handle r o) -> hw r' = hw r -> next_flow r' = next_flow r ->
  (forall k f, flows r !! k = Some f -> is_Some (handle r (owner k)) -> exists k' f', flows r' !! k' = Some f' /\ owner k' = owner k /\ pattern_of k' = pattern_of k) ->
  ledger r'.
Proof using.
  intros [L1 L2 L3] Eh Ew En Hm. split; intros o; rewrite ?Eh, ?Ew, ?En.
  - intros h E. destruct (L1 o h E) as (? & a & k & f & E1 & E2 & E3 & E4). split; [done|].
    destruct (Hm k f E2) as (k' & f' & F1 & F2 & F3); [by rewrite E3, E|]. exists a, k', f'. unfold rule_ok in *. by rewrite F3, F2.
  - intros a E. destruct (L2 o a E) as [o' Ho]. exists o'. by rewrite Eh.
  - intros o' h. rewrite Eh. apply L3.
Qed.

(** A rule is created for an owner that has none. *)
Lemma ledger_create r r' k f a : ledger r -> handle r (owner k) = None ->
  (forall o, handle r' o = if decide (o = owner k) then Some (next_flow r) else handle r o) ->
  hw r' = <[next_flow r := a]> (hw r) -> next_flow r' = S (next_flow r) -> flows r' = <[k := f]> (flows r) -> rule_ok k a -> ledger r'.
Proof using.
  intros [L1 L2 L3] H0 Eh Ew En Ef Ha.
  assert (forall o h, handle r o = Some h -> h <> next_flow r) as Hne by (intros o h E; destruct (L1 o h E); lia).
  split; intros o; rewrite ?Eh, ?Ew, ?En, ?Ef.
  - intros h E. case_decide as Eo.
    + simplify_eq. split; [lia|]. exists a, k, f. by rewrite !lookup_insert_eq.
    + destruct (L1 o h E) as (? & b & k' & f' & E1 & E2 & E3 & E4). split; [lia|].
      exists b, k', f'. rewrite !lookup_insert_ne by (intros <-; congruence || lia). done.
  - intros b E. destruct (decide (o = next_flow r)) as [->|Hn].
    + exists (owner k). by rewrite Eh, decide_True.
    + rewrite lookup_insert_ne in E by done. destruct (L2 o b E) as [o' Ho]. exists o'. rewrite Eh, decide_False; [done|].
      intros ->. congruence.
  - intros o' h. rewrite Eh. repeat case_decide; subst; try done; intros E E'; simplify_eq.
    + by destruct (Hne o' (next_flow r)).
    + by destruct (Hne o (next_flow r)).
    + by apply (L3 o o' h).
Qed.

(** The rule of an owner is destroyed with its last flow. *)
Lemma ledger_destroy r r' k h : ledger r -> handle r (owner k) = Some h ->
  (forall o, handle r' o = if decide (o = owner k) then None else handle r o) ->
  hw r' = delete h (hw r) -> next_flow r' = next_flow r -> flows r' = delete k (flows r) -> ledger r'.
Proof using.
  intros [L1 L2 L3] H0 Eh Ew En Ef. split; intros o; rewrite ?Eh, ?Ew, ?En, ?Ef.
  - intros h' E. case_decide as Eo; [done|]. destruct (L1 o h' E) as (? & b & k' & f' & E1 & E2 & E3 & E4). split; [done|].
    exists b, k', f'. rewrite !lookup_delete_ne; [done|intros <-; congruence|]. intros <-. by apply Eo, (L3 o (owner k) h).
  - intros b E. apply lookup_delete_Some in E as [Hn E]. destruct (L2 o b E) as [o' Ho]. exists o'.
    rewrite Eh, decide_False; [done|]. intros ->. congruence.
  - intros o' h'. rewrite Eh. repeat case_decide; try done. apply L3.
Qed.

(** *** Attaching *)

Definition sinks_of (m : gmap flow_key rfs) (k : flow_key) : list nat := default [] (m_sinks_list <$> m !! k).
Abbreviation len l := (Z.of_nat (length l)).

Lemma total_set g k f m : total g (<[k := f]> m) =
  total g m + if decide (group_of k = Some g) then len (m_sinks_list f) - len (sinks_of m k) else 0.
Proof using.
  unfold sinks_of. destruct (m !! k) as [f0|] eqn:E.
  - rewrite (total_insert g k f f0) by done. unfold weight. simpl. case_decide; lia.
  - rewrite total_insert_new by done. unfold weight. simpl. case_decide; lia.
Qed.

Lemma total_del g k m : total g (delete k m) = total g m - if decide (group_of k = Some g) then len (sinks_of m k) else 0.
Proof using.
  unfold sinks_of. destruct (m !! k) as [f0|] eqn:E.
  - rewrite (total_delete g k f0) by done. unfold weight. simpl. case_decide; lia.
  - rewrite delete_id by done. simpl. case_decide; lia.
Qed.

Lemma rfs_ok_handle r r' k f : handle r' (owner k) = handle r (owner k) -> rfs_ok r k f -> rfs_ok r' k f.
Proof using. intros E. unfold rfs_ok. by rewrite E. Qed.

(** A flow on the map has a rule, its own or its filter's. *)
Lemma flow_handle r k f : inv r -> flows r !! k = Some f -> exists h, handle r (owner k) = Some h.
Proof using. intros H E. destruct (inv_flow r H k f E) as (_ & _ & _ & a & x & h & _ & _ & Eh & _). by exists h. Qed.

(** The sinks of a flow change and the rules do not. *)
Lemma set_flow_inv r k f r' : inv r -> valid k -> flows r' = <[k := f]> (flows r) -> hw r' = hw r -> next_flow r' = next_flow r ->
  (forall o, handle r' o = handle r o) -> rfs_ok r' k f ->
  (forall g n l, filters r' !! g = Some (n, l) -> 0 < n /\ (exists h, l = [Some h]) /\
     n = total g (flows r) + if decide (group_of k = Some g) then len (m_sinks_list f) - len (sinks_of (flows r) k) else 0) ->
  inv r'.
Proof using.
  intros H Hv Ef Ew En Eh Hf Hg. split.
  - intros k' f' E. rewrite Ef in E. apply lookup_insert_Some in E as [[-> ->]|[Hn E]]; [done|].
    apply (rfs_ok_handle r); [by rewrite Eh|]. by apply inv_flow.
  - intros g n l E. destruct (Hg g n l E) as (H1 & H2 & ->). by rewrite Ef, total_set.
  - apply (ledger_same r); [by apply inv_ledger|done..|]. intros k' f' E _. destruct (decide (k' = k)) as [->|Hn].
    + exists k, f. by rewrite Ef, lookup_insert_eq.
    + exists k', f'. by rewrite Ef, lookup_insert_ne.
Qed.

Lemma handle_set_flow k f r o : (owner k = inl k -> flows r !! k ≫= kept = kept f) -> handle (set_flow k f r) o = handle r o.
Proof using.
  intros Hk. destruct o as [k'|g]; [|done]. simpl. case_decide as E; [|done].
  destruct (decide (k = k')) as [<-|Hn]; [|by rewrite lookup_insert_ne].
  rewrite lookup_insert_eq. simpl. symmetry. apply Hk. unfold owner. by rewrite E.
Qed.

Lemma handle_count r g n n' l o : filters r !! g = Some (n, l) -> handle (set_filter g (n', l) r) o = handle r o.
Proof using.
  intros E. destruct o as [k'|g']; [done|]. simpl. destruct (decide (g = g')) as [<-|Hn]; [|by rewrite lookup_insert_ne].
  by rewrite lookup_insert_eq, E.
Qed.

(** Counting a user of a filter that exists. *)
Lemma count_up_filter r k g n l : inv r -> group_of k = Some g -> filters r !! g = Some (n, l) -> count_up k r = set_filter g (n + 1, l) r.
Proof using. intros _ E1 E2. unfold count_up. by rewrite E1, E2. Qed.

Lemma count_up_flows k r : flows (count_up k r) = flows r.
Proof using. unfold count_up. destruct (group_of k) as [g|]; [|done]. by destruct (filters r !! g) as [[n l]|]. Qed.

Lemma count_up_hw k r : hw (count_up k r) = hw r /\ next_flow (count_up k r) = next_flow r.
Proof using. unfold count_up. destruct (group_of k) as [g|]; [|done]. by destruct (filters r !! g) as [[n l]|]. Qed.

Lemma add_sink_spec s f : s ∉ m_sinks_list f -> m_sinks_list (add_sink s f) = m_sinks_list f ++ [s] /\
  m_p_rule_filter (add_sink s f) = m_p_rule_filter f /\ m_attach_flow_data_vector (add_sink s f) = m_attach_flow_data_vector f.
Proof using. intros Hs. unfold add_sink. by rewrite decide_False. Qed.

(** Counted filters: a flow that shares a rule gets one more sink. *)
Lemma share_inv r k f b s : inv r -> valid k -> s ∉ sinks_of (flows r) k -> m_p_rule_filter f = group_of k ->
  m_sinks_list f = sinks_of (flows r) k -> (exists a x h, m_attach_flow_data_vector f = [(a, x)] /\ rule_ok k a /\ handle r (owner k) = Some h /\ (x = None \/ x = Some h)) ->
  (owner k = inl k -> flows r !! k ≫= kept = kept f) ->
  inv (set_flow k (add_sink s (set_attached b f)) (count_up k r)).
Proof using.
  intros H Hv Hs Hp Ef Hr Hk. set (f' := add_sink s (set_attached b f)).
  destruct (add_sink_spec s (set_attached b f)) as (F1 & F2 & F3); [simpl; by rewrite Ef|]. fold f' in F1, F2, F3.
  simpl in F1, F2, F3. rewrite Ef in F1.
  assert (forall o, handle (set_flow k f' (count_up k r)) o = handle r o) as Eh.
  { intros o. rewrite handle_set_flow.
    - unfold count_up. destruct (group_of k) as [g|] eqn:Eg; [|done]. destruct (filters r !! g) as [[n l]|] eqn:En; [by apply (handle_count _ _ n)|].
      destruct Hr as (a & x & h & _ & _ & Ho & _). unfold owner in Ho. rewrite Eg in Ho. simpl in Ho. by rewrite En in Ho.
    - intros Ho. rewrite count_up_flows, (Hk Ho). unfold kept. by rewrite F3. }
  apply (set_flow_inv r k f'); try done.
  - simpl. by rewrite count_up_flows.
  - apply count_up_hw.
  - apply count_up_hw.
  - split; [done|]. split; [by rewrite F2|]. split; [rewrite F1; by destruct (sinks_of _ _)|].
    destruct Hr as (a & x & h & R1 & R2 & R3 & R4). exists a, x, h. by rewrite F3, Eh.
  - intros g n l. simpl. rewrite F1, length_app. simpl. unfold count_up. destruct (group_of k) as [g0|] eqn:Eg; simpl.
    + destruct (filters r !! g0) as [[n0 l0]|] eqn:En; simpl.
      * intros E. destruct (decide (g0 = g)) as [<-|Hn].
        { rewrite lookup_insert_eq in E. simplify_eq. destruct (inv_filter r H g0 n0 l En) as (-> & ? & ?).
          rewrite decide_True by done. split; [lia|]. split; [done|lia]. }
        rewrite lookup_insert_ne in E by done. destruct (inv_filter r H g n l E) as (-> & ? & ?).
        rewrite decide_False by congruence. split; [lia|]. split; [done|lia].
      * destruct Hr as (a & x & h & _ & _ & Ho & _). unfold owner in Ho. rewrite Eg in Ho. simpl in Ho. by rewrite En in Ho.
    + intros E. destruct (inv_filter r H g n l E) as (-> & ? & ?). split; [lia|]. split; [done|lia].
Qed.

(** A flow gets a rule of its own, or a filter its first. *)
Lemma create_inv r k f a s r' : inv r -> valid k -> flows r !! k = None -> handle r (owner k) = None -> rule_ok k a ->
  m_p_rule_filter f = group_of k -> m_attach_flow_data_vector f = [(a, Some (next_flow r))] -> m_sinks_list f = [s] ->
  flows r' = <[k := f]> (flows r) ->
  filters r' = match group_of k with Some g => <[g := (1, [Some (next_flow r)])]> (filters r) | None => filters r end ->
  hw r' = <[next_flow r := a]> (hw r) -> next_flow r' = S (next_flow r) -> inv r'.
Proof using.
  intros H Hv Hn Ho Ha Fp Fv Fs Ef Eg Ew En. set (h := next_flow r) in *.
  assert (forall o, handle r' o = if decide (o = owner k) then Some h else handle r o) as Eh.
  { intros [k'|g]; simpl; unfold owner; [rewrite Ef|rewrite Eg].
    - destruct (decide (group_of k' = None)) as [E|E].
      + destruct (decide (k' = k)) as [->|Hk].
        * rewrite E, decide_True, lookup_insert_eq by done. simpl. unfold kept. by rewrite Fv.
        * rewrite lookup_insert_ne, decide_False by (repeat case_match; congruence). done.
      + rewrite decide_False; [done|]. repeat case_match; congruence.
    - destruct (group_of k) as [g'|]; [|by rewrite decide_False]. destruct (decide (g = g')) as [->|Hg].
      + by rewrite lookup_insert_eq, decide_True.
      + by rewrite lookup_insert_ne, decide_False by congruence. }
  split.
  - intros k' f' E. rewrite Ef in E. apply lookup_insert_Some in E as [[-> ->]|[Hk E]].
    + split; [done|]. split; [done|]. split; [by rewrite Fs|]. exists a, (Some h), h. rewrite Eh, decide_True by done. auto.
    + apply (rfs_ok_handle r); [|by apply inv_flow]. rewrite Eh. case_decide as Eo; [|done].
      destruct (flow_handle r k' f' H E) as [h' Hh]. congruence.
  - intros g n l E. rewrite Eg in E. rewrite Ef, total_set, Fs. unfold sinks_of. rewrite Hn. simpl.
    destruct (group_of k) as [g'|] eqn:Ek.
    + apply lookup_insert_Some in E as [[-> E]|[Hg E]].
      * simplify_eq. rewrite decide_True by done. split; [|split; [lia|by exists h]].
        assert (total g (flows r) = 0); [|lia]. apply (map_fold_weak_ind (fun n m => m ⊆ flows r -> n = 0)); [done| |done].
        intros k' f' m n Hm IH Hsub. rewrite IH by (etrans; [by apply insert_subseteq|done]). unfold weight.
        destruct (decide (group_of k' = Some g)) as [E|]; [|lia]. exfalso.
        destruct (flow_handle r k' f' H) as [h' Hh]; [by eapply lookup_weaken; [apply lookup_insert_eq|]|].
        unfold owner in Ho, Hh. rewrite Ek in Ho. rewrite E in Hh. congruence.
      * rewrite decide_False by congruence. rewrite Z.add_0_r. by apply (inv_filter r H).
    + rewrite Z.add_0_r. by apply (inv_filter r H).
  - by apply (ledger_create r r' k f a); [apply inv_ledger|..].
Qed.

Lemma build_rfs_ok k id : config_ok -> valid k -> exists a, rule_ok k a /\ build_rfs k (tuple_of k) id = Some (rfs_new (group_of k) [(a, None)] id).
Proof using.
  intros [Hs _] (_ & _ & _ & Ha). pose proof (attr_of_pat k id) as E. unfold pattern_of in E. destruct Ha as [a0 Ha0]. rewrite Ha0 in E.
  destruct (attr_of k id) as [a|] eqn:Ea; [|done]. exists a. split.
  { unfold rule_ok, pattern_of. rewrite Ha0. simpl in E |- *. congruence. }
  unfold build_rfs. rewrite Hs. unfold attr_of in Ea. destruct k; by rewrite Ea.
Qed.

(** [s] joins the sinks of [k]. *)
Definition sink_joined (r : ring) (k : flow_key) (s : nat) (m : gmap flow_key rfs) : Prop :=
  exists f, m = <[k := f]> (flows r) /\ m_sinks_list f = sinks_of (flows r) k ++ [s].

Lemma sink_joined_spec r k s m : sink_joined r k s m ->
  forall k', sinks_of m k' = if decide (k' = k) then sinks_of (flows r) k ++ [s] else sinks_of (flows r) k'.
Proof using.
  intros (f & -> & E) k'. rewrite <- E. unfold sinks_of. case_decide; subst; [by rewrite lookup_insert_eq|by rewrite lookup_insert_ne].
Qed.

Section attach.
Context (r : ring) (k : flow_key) (s : nat) (H : inv r) (Hv : valid k) (Hs : s ∉ sinks_of (flows r) k).

(** The flow is on the map. *)
Lemma attach_found f : flows r !! k = Some f -> exists f' r', rfs_attach_flow s f (count_up k r) = (true, f', r') /\
  inv (set_flow k f' r') /\ sink_joined r k s (flows (set_flow k f' r')).
Proof using create_ok destroy_ok H Hv Hs.
  intros Ef. destruct (inv_flow r H k f Ef) as (_ & F1 & F2 & F3). unfold rfs_attach_flow. destruct (prepare_filter_attach f (count_up k r)) as [n b].
  rewrite decide_False by (simpl; naive_solver). eexists _, _. split; [done|].
  assert (m_sinks_list f = sinks_of (flows r) k) as Es by (unfold sinks_of; by rewrite Ef). split.
  - apply share_inv; try done. intros _. by rewrite Ef.
  - eexists. split; [simpl; by rewrite count_up_flows|]. rewrite <- Es. apply (add_sink_spec s (set_attached b f)). simpl. by rewrite Es.
Qed.

Section new.
Context (a : flow_attr) (tag_id : Z) (Ha : rule_ok k a) (Ef : flows r !! k = None).
#[local] Abbreviation f := (rfs_new (group_of k) [(a, None)] tag_id).

Lemma no_sinks : sinks_of (flows r) k = [].
Proof using Ef. unfold sinks_of. by rewrite Ef. Qed.

(** Its filter has a rule. *)
Lemma attach_shared h : handle r (owner k) = Some h -> exists f' r', rfs_attach_flow s f (count_up k r) = (true, f', r') /\
  inv (set_flow k f' r') /\ sink_joined r k s (flows (set_flow k f' r')).
Proof using create_ok destroy_ok H Hv Hs Ha Ef.
  intros Eh. pose proof no_sinks as Es.
  assert (exists n l g, group_of k = Some g /\ filters r !! g = Some (n, l)) as (n & l & g & Eg & El).
  { unfold owner in Eh. destruct (group_of k) as [g|] eqn:Eg; simpl in Eh; [|by rewrite decide_True, Ef in Eh].
    destruct (filters r !! g) as [[n l]|] eqn:El; [|done]. by exists n, l, g. }
  destruct (inv_filter r H g n l El) as (_ & Hn & _).
  assert (prepare_filter_attach f (count_up k r) = (n + 1, true)) as E.
  { unfold prepare_filter_attach. simpl. rewrite Eg. simpl. rewrite (count_up_filter r k g n l) by done. simpl. rewrite lookup_insert_eq.
    by rewrite bool_decide_eq_true_2 by lia. }
  unfold rfs_attach_flow. rewrite E. rewrite decide_False by naive_solver. eexists _, _. split; [done|]. split.
  - apply share_inv; [done|done|done|done|by rewrite Es|exists a, None, h; auto|unfold owner; by rewrite Eg].
  - eexists. split; [simpl; by rewrite count_up_flows|]. rewrite Es. apply (add_sink_spec s (set_attached true f)). set_solver.
Qed.

(** It needs a rule. *)
Lemma attach_first : is_simple c = true -> (forall h, create_ok h = true) -> handle r (owner k) = None -> exists f' r', rfs_attach_flow s f (count_up k r) = (true, f', r') /\
  inv (set_flow k f' r') /\ sink_joined r k s (flows (set_flow k f' r')).
Proof using create_ok destroy_ok H Hv Hs Ha Ef.
  intros Hc Hok Eh. pose proof no_sinks as Es.
  assert (prepare_filter_attach f (count_up k r) = (1, false) /\ filter_keep_attached (Rfs (group_of k) [(a, Some (next_flow (count_up k r)))] [] 32 tag_id true)
    (Ring (flows (count_up k r)) (filters (count_up k r)) (<[next_flow (count_up k r) := a]> (hw (count_up k r))) (S (next_flow (count_up k r)))) =
    Ring (flows r) (match group_of k with Some g => <[g := (1, [Some (next_flow r)])]> (filters r) | None => filters r end)
      (<[next_flow r := a]> (hw r)) (S (next_flow r))) as [E1 E2].
  { unfold prepare_filter_attach, filter_keep_attached, count_up, owner in *. simpl. destruct (group_of k) as [g|] eqn:Eg; simpl; [|done].
    destruct (filters r !! g) as [[n l]|] eqn:El; simpl in *.
    - destruct (inv_filter r H g n l El) as (_ & _ & h & ->). rewrite El in Eh. done.
    - rewrite !lookup_insert_eq. simpl. unfold set_filter. simpl. by rewrite insert_insert_eq. }
  unfold rfs_attach_flow. rewrite E1. rewrite decide_True by done. rewrite Hc. unfold create_ibv_flow. cbn [set_attached rfs_new m_attach_flow_data_vector create_loop].
  rewrite Hok. unfold rfs_new, set_attached, set_vector, RFS_SINKS_LIST_DEFAULT_LEN. simpl. rewrite E2, (proj2 (count_up_hw k r)).
  eexists _, _. split; [done|]. match goal with |- context [add_sink ?s ?f] => destruct (add_sink_spec s f) as (F1 & F2 & F3); [set_solver|] end.
  split; [by eapply (create_inv r k _ a s)|]. eexists. split; [done|]. by rewrite Es.
Qed.
End new.
End attach.

(** A flow gets one more sink, and a rule if it has none. *)
Lemma attach_spec r k si : config_ok -> (forall h, create_ok h = true) -> inv r -> valid k -> si_id si ∉ sinks_of (flows r) k ->
  exists t b r', attach_flow true (tuple_of k) si r = Some (true, t, b, r') /\ inv r' /\
    forall k', sinks_of (flows r') k' = if decide (k' = k) then sinks_of (flows r) k ++ [si_id si] else sinks_of (flows r) k'.
Proof using create_ok destroy_ok.
  intros Hc Hok H Hv Hs. unfold attach_flow, attach_begin. rewrite (proj1 Hv). cbn [mbind option_bind]. rewrite count_up_flows.
  destruct (flows r !! k) as [f|] eqn:Ef.
  - rewrite bool_decide_eq_false_2 by done. unfold attach_end. rewrite count_up_flows, Ef. cbn [mbind option_bind].
    destruct (attach_found r k (si_id si) H Hv Hs f Ef) as (f' & r' & -> & E1 & E2). eexists _, _, _. split; [done|]. split; [done|]. by apply sink_joined_spec.
  - rewrite bool_decide_eq_true_2 by done. destruct (build_rfs_ok k (flow_tag si (tuple_of k) true) Hc Hv) as (a & Ha & ->).
    unfold attach_end. rewrite count_up_flows, Ef. cbn [mbind option_bind].
    assert (exists f' r', rfs_attach_flow (si_id si) (rfs_new (group_of k) [(a, None)] (flow_tag si (tuple_of k) true)) (count_up k r) = (true, f', r') /\
      inv (set_flow k f' r') /\ sink_joined r k (si_id si) (flows (set_flow k f' r'))) as (f' & r' & -> & E1 & E2).
    { destruct (handle r (owner k)) as [h|] eqn:Eh; [by apply (attach_shared r k _ H Hv Hs a _ Ha Ef h)|by apply attach_first; [..|apply Hc| |]]. }
    eexists _, _, _. split; [done|]. split; [done|]. by apply sink_joined_spec.
Qed.

(** *** Detaching *)

(** Every filter has a flow, and so there are only filters of the configuration. *)
Lemma filter_member r g n l : inv r -> filters r !! g = Some (n, l) -> exists k f, flows r !! k = Some f /\ group_of k = Some g.
Proof using.
  intros H E. destruct (inv_filter r H g n l E) as (_ & _ & h & ->).
  destruct (ledger_handle r (inv_ledger r H) (inr g) h) as (_ & a & k & f & _ & Ef & Eo & _); [simpl; by rewrite E|].
  exists k, f. split; [done|]. unfold owner in Eo. destruct (group_of k); by simplify_eq.
Qed.

Lemma count_down_spec r k : inv r -> count_down k r = match group_of k with
  | None => (true, r)
  | Some g => match filters r !! g with
    | None => (true, r)
    | Some (n, l) => let n := Z.max 0 (n - 1) in (negb (bool_decide (n = 0)), set_filter g (n, l) r) end end.
Proof using.
  intros H. unfold count_down. destruct k as [|ip p|ip sip p sp]; simpl; [done| |by destruct (tcp_3t_rules c)].
  destruct mc_filtered eqn:E1, mc_filtered_detach eqn:E2; try done.
  - unfold mc_filtered, mc_filtered_detach in *. destruct (bool_decide (m_transport_type c = VMA_TRANSPORT_IB)); simpl in *; congruence.
  - destruct (filters r !! L2_mc_ip ip) as [[n l]|] eqn:E; [|done]. destruct (filter_member r _ n l H E) as (k & f & _ & Eg).
    unfold group_of in Eg. rewrite E1 in Eg. by destruct k; repeat case_match.
Qed.

Lemma erase_filter_spec k g r : group_of k = Some g -> erase_filter k r = del_filter g r.
Proof using. unfold group_of, erase_filter. intros E. destruct k; repeat case_match; by simplify_eq. Qed.

Lemma total_pos g m : 0 < total g m -> exists k f, m !! k = Some f /\ group_of k = Some g.
Proof using.
  unfold total. apply (map_fold_weak_ind (fun n m => 0 < n -> exists k f, m !! k = Some f /\ group_of k = Some g)); [lia|].
  intros k f m' n Hm IH Hn. unfold weight in Hn. destruct (decide (group_of k = Some g)).
  - exists k, f. by rewrite lookup_insert_eq.
  - destruct IH as (k' & f' & E & Eg); [lia|]. exists k', f'. rewrite lookup_insert_ne by (intros <-; congruence). done.
Qed.

(** The last sink of a flow goes, the rule is still needed by others. *)
Lemma del_flow_inv r k g n l : config_ok -> inv r -> valid k -> group_of k = Some g -> filters r !! g = Some (n, l) -> len (sinks_of (flows r) k) = 1 -> 1 < n ->
  inv (Ring (delete k (flows r)) (<[g := (n - 1, l)]> (filters r)) (hw r) (next_flow r)).
Proof using.
  intros Hc H Hv Eg El Hl Hn. destruct (inv_filter r H g n l El) as (En & _ & h & ->). set (r' := Ring _ _ _ _).
  assert (forall o, handle r' o = handle r o) as Eh.
  { intros [k'|g']; simpl.
    - case_decide; [|done]. rewrite lookup_delete_ne; [done|]. intros <-. congruence.
    - destruct (decide (g = g')) as [<-|Hg]; [by rewrite lookup_insert_eq, El|by rewrite lookup_insert_ne]. }
  split.
  - intros k' f' E. simpl in E. apply lookup_delete_Some in E as [_ E]. apply (rfs_ok_handle r); [by rewrite Eh|by apply inv_flow].
  - intros g' n' l' E. simpl in *. rewrite total_del. apply lookup_insert_Some in E as [[<- E]|[Hg E]].
    + simplify_eq. rewrite decide_True by done. split; [lia|]. split; [lia|by exists h].
    + rewrite decide_False by congruence. rewrite Z.sub_0_r. by apply (inv_filter r H).
  - apply (ledger_same r); [by apply inv_ledger|done..|]. intros k' f' E _. destruct (decide (k' = k)) as [->|Hk].
    + destruct (total_pos g (delete k (flows r))) as (k2 & f2 & E2 & Eg2). { rewrite total_del, decide_True by done. lia. }
      exists k2, f2. split; [done|]. unfold owner. rewrite Eg, Eg2. split; [done|].
      apply (group_pattern k2 k g); try done. apply lookup_delete_Some in E2 as [_ E2]. apply (inv_flow r H k2 f2 E2).
    + exists k', f'. simpl. by rewrite lookup_delete_ne.
Qed.

(** The last sink of a rule goes. *)
Lemma destroy_inv r k h r' : inv r -> handle r (owner k) = Some h -> flows r' = delete k (flows r) ->
  (forall k' f', flows r !! k' = Some f' -> owner k' = owner k -> k' = k) ->
  filters r' = match group_of k with Some g => delete g (filters r) | None => filters r end ->
  hw r' = delete h (hw r) -> next_flow r' = next_flow r -> inv r'.
Proof using.
  intros H Ho Ef Hu Eg Ew En.
  assert (forall o, handle r' o = if decide (o = owner k) then None else handle r o) as Eh.
  { intros [k'|g]; simpl; unfold owner; [rewrite Ef|rewrite Eg].
    - destruct (decide (group_of k' = None)) as [E|E].
      + destruct (decide (k' = k)) as [->|Hk].
        * by rewrite E, decide_True, lookup_delete_eq by done.
        * rewrite lookup_delete_ne, decide_False by (repeat case_match; congruence). done.
      + rewrite decide_False; [done|]. repeat case_match; congruence.
    - destruct (group_of k) as [g'|]; [|by rewrite decide_False]. destruct (decide (g = g')) as [->|Hg].
      + by rewrite lookup_delete_eq, decide_True.
      + by rewrite lookup_delete_ne, decide_False by congruence. }
  split.
  - intros k' f' E. rewrite Ef in E. apply lookup_delete_Some in E as [Hk E]. apply (rfs_ok_handle r); [|by apply inv_flow].
    rewrite Eh, decide_False; [done|]. intros Eo. by destruct Hk; rewrite (Hu k' f').
  - intros g n l E. rewrite Eg in E. rewrite Ef, total_del. destruct (group_of k) as [g'|].
    + apply lookup_delete_Some in E as [Hg E]. rewrite decide_False by congruence. rewrite Z.sub_0_r. by apply (inv_filter r H).
    + simpl. rewrite Z.sub_0_r. by apply (inv_filter r H).
  - by apply (ledger_destroy r r' k h); [apply inv_ledger|..].
Qed.

(** A flow without a filter. *)
Lemma detach_alone r k f s : config_ok -> (forall h, destroy_ok h = true) -> inv r -> flows r !! k = Some f -> group_of k = None -> s ∈ m_sinks_list f ->
  exists f' r', rfs_detach_flow s f r = Some (true, f', r') /\ m_sinks_list f' = remove_first s (m_sinks_list f) /\ m_b_tmp_is_attached f' = (if decide (m_sinks_list f' = []) then false else m_b_tmp_is_attached f) /\
    m_p_rule_filter f' = None /\ m_attach_flow_data_vector f' = m_attach_flow_data_vector f /\
    r' = if decide (m_sinks_list f' = []) then Ring (flows r) (filters r) (default (hw r) ((fun h => delete h (hw r)) <$> handle r (owner k))) (next_flow r) else r.
Proof using.
  intros [Hs _] Hd H Ef Eg Hin. destruct (inv_flow r H k f Ef) as (_ & F1 & _ & a & x & h & F2 & _ & Ho & Hx).
  assert (x = Some h) as ->.
  { unfold owner in Ho. rewrite Eg in Ho. simpl in Ho. rewrite decide_True, Ef in Ho by done. simpl in Ho. unfold kept in Ho. by rewrite F2 in Ho. }
  unfold rfs_detach_flow, del_sink, prepare_filter_detach. simpl. rewrite F1, Eg. simpl. rewrite Hs, (bool_decide_eq_true_2 (s ∈ m_sinks_list f)) by done. simpl.
  rewrite andb_true_r. unfold destroy_ibv_flow. simpl.
  case_bool_decide as Ee; simpl; eexists _, _; (split; [done|]); simpl.
  - rewrite !decide_True by done. rewrite F2, Ho, Eg in *. simpl. by rewrite Hd.
  - rewrite !decide_False by done. by rewrite Eg in F1.
Qed.

Lemma set_filter_id g c0 r : filters r !! g = Some c0 -> set_filter g c0 r = r.
Proof using. intros E. unfold set_filter. rewrite insert_id by done. by destruct r. Qed.

(** A flow of a filter, whose counter [n] has been taken down. *)
Lemma detach_shared r f s g n h a x : config_ok -> (forall h, destroy_ok h = true) -> m_p_rule_filter f = Some g -> filters r !! g = Some (n, [Some h]) ->
  m_attach_flow_data_vector f = [(a, x)] -> x = None \/ x = Some h -> s ∈ m_sinks_list f -> (n = 0 -> remove_first s (m_sinks_list f) = []) ->
  exists f', rfs_detach_flow s f r = Some (true, f', if decide (n = 0) then Ring (flows r) (filters r) (delete h (hw r)) (next_flow r) else r) /\
    m_sinks_list f' = remove_first s (m_sinks_list f) /\ m_b_tmp_is_attached f' = false /\ m_p_rule_filter f' = Some g /\
    (n <> 0 -> m_attach_flow_data_vector f' = [(a, x)]).
Proof using create_ok destroy_ok.
  intros [Hs _] Hd F1 Ef F2 Hx Hin Hn. unfold rfs_detach_flow, del_sink, prepare_filter_detach. simpl. rewrite F1, Ef.
  rewrite set_filter_id by done. rewrite (bool_decide_eq_true_2 (s ∈ m_sinks_list f)) by done. rewrite Hs.
  destruct (decide (n = 0)) as [->|H0].
  - rewrite decide_False by naive_solver. rewrite F2. simpl. rewrite Hn by done. simpl. unfold destroy_ibv_flow. simpl.
    assert (match x with Some h0 => Some h0 | None => Some h end = Some h) as -> by (by destruct Hx as [-> | ->]).
    rewrite Hd. eexists. split; [done|]. simpl. by rewrite F1.
  - rewrite decide_True by auto. simpl. rewrite (bool_decide_eq_false_2 (n = 0)) by done. rewrite andb_false_r. eexists. split; [done|].
    simpl. by rewrite F1, F2.
Qed.

(** [s] leaves the sinks of [k]; a flow without sinks leaves the map. *)
Definition sink_left (r : ring) (k : flow_key) (s : nat) (m : gmap flow_key rfs) : Prop :=
  let l := remove_first s (sinks_of (flows r) k) in
  (m = delete k (flows r) /\ l = []) \/ exists f, m = <[k := f]> (flows r) /\ m_sinks_list f = l.

Lemma sink_left_spec r k s m : sink_left r k s m ->
  forall k', sinks_of m k' = if decide (k' = k) then remove_first s (sinks_of (flows r) k) else sinks_of (flows r) k'.
Proof using.
  intros [[-> E] | (f & -> & E)] k'; [rewrite E|rewrite <- E]; unfold sinks_of.
  - case_decide; subst; [by rewrite lookup_delete_eq|by rewrite lookup_delete_ne].
  - case_decide; subst; [by rewrite lookup_insert_eq|by rewrite lookup_insert_ne].
Qed.

Section detach.
Context (r : ring) (k : flow_key) (f : rfs) (s : nat).
Context (Hc : config_ok) (Hd : forall h, destroy_ok h = true) (H : inv r) (Ef : flows r !! k = Some f) (Hs : s ∈ m_sinks_list f).

Lemma sinks_here : sinks_of (flows r) k = m_sinks_list f.
Proof using Ef. unfold sinks_of. by rewrite Ef. Qed.

Lemma left_empty : remove_first s (m_sinks_list f) = [] -> sink_left r k s (delete k (flows r)).
Proof using Ef. intros E. left. by rewrite sinks_here. Qed.

Lemma left_more f' : m_sinks_list f' = remove_first s (m_sinks_list f) -> sink_left r k s (<[k := f']> (flows r)).
Proof using Ef. intros E. right. exists f'. by rewrite sinks_here. Qed.

Lemma detach_filtered g : group_of k = Some g ->
  exists r', detach_flow (tuple_of k) s r = Some (true, r') /\ inv r' /\ sink_left r k s (flows r').
Proof using create_ok destroy_ok Hc Hd H Ef Hs.
  intros Eg. destruct (inv_flow r H k f Ef) as (Hv & F1 & _ & a & x & h & F2 & Ha & Ho & Hx). pose proof (remove_first_length s _ Hs) as Hl.
  pose proof sinks_here as Es. unfold detach_flow. rewrite (proj1 Hv), count_down_spec, Eg by done. rewrite Eg in F1.
  assert (exists n, filters r !! g = Some (n, [Some h])) as [n En].
  { unfold owner in Ho. rewrite Eg in Ho. simpl in Ho. destruct (filters r !! g) as [[n l]|] eqn:E; [|done].
    destruct (inv_filter r H g n l E) as (_ & _ & h' & ->). exists n. simpl in Ho. by simplify_eq. }
  rewrite En. simpl. destruct (inv_filter r H g _ _ En) as (Et & Hn & _). rewrite Z.max_r by lia. rewrite Ef.
  pose proof (total_member g k f (flows r) Ef) as Hm. unfold weight in Hm. rewrite decide_True in Hm by done.
  destruct (detach_shared (set_filter g (n - 1, [Some h]) r) f s g (n - 1) h a x Hc Hd F1) as (f' & -> & S1 & S2 & S3 & S4);
    [apply lookup_insert_eq|done|done|done|intros; apply nil_length_inv; lia|]. cbn [mbind option_bind].
  destruct (decide (n - 1 = 0)) as [E0|E0].
  - rewrite bool_decide_eq_true_2 by done. simpl. assert (remove_first s (m_sinks_list f) = []) as Er by (apply nil_length_inv; lia).
    rewrite decide_True by congruence. unfold rfs_delete. rewrite S2. eexists. split; [done|].
    rewrite (erase_filter_spec k g) by done. unfold del_filter, del_flow. simpl. rewrite !delete_insert_eq. split; [|by apply left_empty].
    apply (destroy_inv r k h); try done.
    + intros k' f2 E Eo. destruct (decide (k' = k)) as [|Hk]; [done|exfalso]. unfold owner in Eo. rewrite Eg in Eo.
      assert (group_of k' = Some g) as Eg' by (destruct (group_of k'); by simplify_eq).
      pose proof (total_member g k' f2 (delete k (flows r)) ltac:(by rewrite lookup_delete_ne)) as Hm'.
      rewrite total_del, decide_True, Es in Hm' by done. unfold weight in Hm'. rewrite decide_True in Hm' by done.
      destruct (inv_flow r H k' f2 E) as (_ & _ & Hne & _). destruct (m_sinks_list f2); [done|]. simpl in Hm'. lia.
    + by rewrite Eg.
  - rewrite bool_decide_eq_false_2 by done. simpl. destruct (decide (m_sinks_list f' = [])) as [Er|Er].
    + unfold rfs_delete. rewrite S2. eexists. split; [done|]. unfold del_flow. simpl. rewrite delete_insert_eq.
      split; [|apply left_empty; congruence]. apply del_flow_inv; [done|done|done|done|done| |lia]. rewrite Es, Hl, <- S1, Er. done.
    + eexists. split; [done|]. split; [|by apply left_more].
      assert (forall o, handle (set_flow k f' (set_filter g (n - 1, [Some h]) r)) o = handle r o) as Eh.
      { intros o. rewrite handle_set_flow; [by apply (handle_count _ _ n)|]. unfold owner. by rewrite Eg. }
      apply (set_flow_inv r k f'); try done.
      { split; [done|]. split; [by rewrite S3, Eg|]. split; [done|]. exists a, x, h. rewrite Eh, S4 by done. done. }
      intros g' n' l'. simpl. rewrite S1, Es. intros E. apply lookup_insert_Some in E as [[<- E]|[Hg E]].
      { simplify_eq. rewrite decide_True by done. split; [lia|]. split; [by exists h|lia]. }
      destruct (inv_filter r H g' n' l' E) as (-> & ? & ?). rewrite decide_False by congruence. split; [lia|]. split; [done|lia].
Qed.

Lemma detach_unfiltered : group_of k = None ->
  exists r', detach_flow (tuple_of k) s r = Some (true, r') /\ inv r' /\ sink_left r k s (flows r').
Proof using create_ok destroy_ok Hc Hd H Ef Hs.
  intros Eg. destruct (inv_flow r H k f Ef) as (Hv & F1 & _ & a & x & h & F2 & Ha & Ho & Hx).
  unfold detach_flow. rewrite (proj1 Hv), count_down_spec, Eg by done.
  destruct (detach_alone r k f s Hc Hd H Ef Eg Hs) as (f' & r1 & E1 & S1 & S2 & S3 & S4 & ->). rewrite Ef, E1. cbn [mbind option_bind].
  destruct (decide (m_sinks_list f' = [])) as [Er|Er].
  - unfold rfs_delete. rewrite S2. eexists. split; [done|]. unfold del_flow. simpl. rewrite delete_insert_eq. split; [|apply left_empty; congruence].
    apply (destroy_inv r k h); try done.
    + intros k' f2 E Eo. unfold owner in Eo. rewrite Eg in Eo. destruct (group_of k'); by simplify_eq.
    + by rewrite Eg.
    + simpl. by rewrite Ho.
  - eexists. split; [done|]. split; [|by apply left_more].
    assert (forall o, handle (set_flow k f' r) o = handle r o) as Eh.
    { intros o. apply handle_set_flow. rewrite Ef. intros _. simpl. unfold kept. by rewrite S4. }
    apply (set_flow_inv r k f'); try done.
    + split; [done|]. split; [by rewrite S3, Eg|]. split; [done|]. exists a, x, h. by rewrite Eh, S4.
    + intros g n l E. destruct (inv_filter r H g n l E) as (-> & ? & ?). rewrite decide_False by congruence. split; [lia|]. split; [done|lia].
Qed.
End detach.

Lemma detach_spec r k s : config_ok -> (forall h, destroy_ok h = true) -> inv r -> s ∈ sinks_of (flows r) k ->
  exists r', detach_flow (tuple_of k) s r = Some (true, r') /\ inv r' /\
    forall k', sinks_of (flows r') k' = if decide (k' = k) then remove_first s (sinks_of (flows r) k) else sinks_of (flows r) k'.
Proof using create_ok destroy_ok.
  intros Hc Hd H Hs. destruct (flows r !! k) as [f|] eqn:Ef; [|unfold sinks_of in Hs; rewrite Ef in Hs; set_solver].
  rewrite (sinks_here r k f Ef) in Hs.
  assert (exists r', detach_flow (tuple_of k) s r = Some (true, r') /\ inv r' /\ sink_left r k s (flows r')) as (r' & E1 & E2 & E3).
  { destruct (group_of k) as [g|] eqn:Eg; [by apply (detach_filtered r k f s Hc Hd H Ef Hs g)|by apply (detach_unfiltered r k f s)]. }
  exists r'. split; [done|]. split; [done|]. by apply sink_left_spec.
Qed.
End steering.

(** ** Theorems *)

(** Sockets attach and detach, one call after the other. *)
Inductive op := Attach (k : flow_key) (si : sockinfo) | Detach (k : flow_key) (s : nat).

Fixpoint run (c : config) (create_ok destroy_ok : nat -> bool) (l : list op) (r : ring) : option ring :=
  match l with
  | [] => Some r
  | Attach k si :: l =>
    '(ret, _, _, r) ← attach_flow c create_ok true (tuple_of k) si r;
    if (ret : bool) then run c create_ok destroy_ok l r else None
  | Detach k s :: l =>
    '(ret, r) ← detach_flow c destroy_ok (tuple_of k) s r;
    if (ret : bool) then run c create_ok destroy_ok l r else None
  end.

(** The sinks of the flows, as the sockets see them. *)
Definition update (k : flow_key) (x : list nat) (m : flow_key -> list nat) : flow_key -> list nat :=
  fun k' => if decide (k' = k) then x else m k'.

Fixpoint attached (l : list op) (m : flow_key -> list nat) : flow_key -> list nat :=
  match l with
  | [] => m
  | Attach k si :: l => attached l (update k (m k ++ [si_id si]) m)
  | Detach k s :: l => attached l (update k (remove_first s (m k)) m)
  end.

(** A socket attaches to a flow once and detaches from what it is attached to
    ([m_rx_flow_map] of the socket sees to it). *)
Fixpoint allowed (c : config) (l : list op) (m : flow_key -> list nat) : Prop :=
  match l with
  | [] => True
  | Attach k si :: l => valid c k /\ (si_id si ∉ m k) /\ allowed c l (update k (m k ++ [si_id si]) m)
  | Detach k s :: l => s ∈ m k /\ allowed c l (update k (remove_first s (m k)) m)
  end.

Lemma steering_run_inv c co de l r m : config_ok c -> (forall h, co h = true) -> (forall h, de h = true) -> inv c r ->
  (forall k, sinks_of (flows r) k = m k) -> allowed c l m ->
  exists r', run c co de l r = Some r' /\ inv c r' /\ forall k, sinks_of (flows r') k = attached l m k.
Proof.
  intros Hc Hco Hde. revert r m. induction l as [|[k si|k s] l IH]; intros r m H Hm Hl; simpl.
  - by exists r.
  - destruct Hl as (Hv & Hs & Hl). destruct (attach_spec c co de r k si Hc Hco H Hv) as (t & b & r1 & -> & H1 & E1); [by rewrite Hm|].
    simpl. apply IH; [done| |done]. intros k'. rewrite E1. unfold update. case_decide; [by rewrite Hm|done].
  - destruct Hl as (Hs & Hl). destruct (detach_spec c co de r k s Hc Hde H) as (r1 & -> & H1 & E1); [by rewrite Hm|].
    simpl. apply IH; [done| |done]. intros k'. rewrite E1. unfold update. case_decide; [by rewrite Hm|done].
Qed.

(** The rule of a flow: the adapter sends its packets to the ring. *)
Definition has_rule (c : config) (r : ring) (k : flow_key) : Prop :=
  exists h a, hw r !! h = Some a /\ Some (pat a) = pattern_of c k.

Lemma inv_rules c r : config_ok c -> inv c r -> (forall k, sinks_of (flows r) k <> [] -> has_rule c r k) /\
  (forall h a, hw r !! h = Some a -> exists k, sinks_of (flows r) k <> [] /\ Some (pat a) = pattern_of c k).
Proof.
  intros Hc H. split.
  - intros k Hk. unfold sinks_of in Hk. destruct (flows r !! k) as [f|] eqn:Ef; [|done].
    destruct (flow_handle c r k f H Ef) as [h Eh]. destruct (ledger_handle c r (inv_ledger c r H) _ h Eh) as (_ & a & k' & f' & E1 & E2 & E3 & E4).
    exists h, a. split; [done|]. unfold rule_ok in E4. rewrite E4.
    unfold owner in E3. destruct (group_of c k') as [g|] eqn:Eg, (group_of c k) as [g'|] eqn:Eg'; simplify_eq; [|done].
    destruct (inv_flow c r H k f Ef) as (V1 & _). destruct (inv_flow c r H k' f' E2) as (V2 & _). by eapply group_pattern.
  - intros h a E. destruct (ledger_hw c r (inv_ledger c r H) h a E) as [o Ho].
    destruct (ledger_handle c r (inv_ledger c r H) o h Ho) as (_ & b & k & f & E1 & E2 & _ & E4). rewrite E in E1. simplify_eq.
    exists k. split; [|done]. unfold sinks_of. rewrite E2. apply (inv_flow c r H k f E2).
Qed.

(** C15: On a simple ring (one with a queue pair), whatever sockets attach and
    detach, in any order, every call succeeds; the
    flows have the sinks that are attached to them, in the order of attaching; a
    flow with a sink has a rule with the adapter that matches it, and the adapter
    holds no rule that no flow needs - also when flows share rules.  Assumed: the
    adapter accepts and destroys rules; one call at a time runs; a socket attaches
    to a flow once and detaches from what it is attached to; the flows are valid
    (32-bit addresses, 16-bit ports, datagrams of any source, and the adapter
    knows the kind of rule); and the configuration is not that of an InfiniBand
    ring with an underlay queue pair and [eth_mc_l2_only_rules], where flows share
    a rule that has the port of the first. *)
Theorem steering_follows_sinks c create_ok destroy_ok l :
  config_ok c -> (forall h, create_ok h = true) -> (forall h, destroy_ok h = true) -> allowed c l (fun _ => []) ->
  exists r, run c create_ok destroy_ok l ring_init = Some r /\
    (forall k, sinks_of (flows r) k = attached l (fun _ => []) k) /\
    (forall k, attached l (fun _ => []) k <> [] -> has_rule c r k) /\
    (forall h a, hw r !! h = Some a -> exists k, attached l (fun _ => []) k <> [] /\ Some (pat a) = pattern_of c k).
Proof.
  intros Hc Hco Hde Hl. destruct (steering_run_inv c create_ok destroy_ok l ring_init (fun _ => []) Hc Hco Hde (ring_init_inv c)) as (r & Er & H & Es); [done|done|].
  destruct (inv_rules c r Hc H) as [R1 R2]. exists r. split; [done|]. split; [done|]. split.
  - intros k Hk. apply R1. by rewrite Es.
  - intros h a E. destruct (R2 h a E) as (k & Hk & Ep). exists k. by rewrite <- Es.
Qed.

Definition ex_config : config := Config true VMA_TRANSPORT_ETH 0 false false false true false true.
Definition ex_socket (n : nat) : sockinfo := Sockinfo n (Z.of_nat n + 1) false.
Definition ex_ip : Z := htonl 0x0a000001.
Definition ex_flow (peer : Z) : flow_key := Tcp ex_ip peer (htons 80) (htons 4000).
Definition ex_listen : flow_key := Tcp ex_ip 0 (htons 80) 0.

(** A listening socket with two connections; then it is closed. *)
Definition ex_ops : list op :=
  [Attach ex_listen (ex_socket 3); Attach (ex_flow 1) (ex_socket 4); Attach (ex_flow 2) (ex_socket 5); Detach ex_listen 3].

Lemma steering_follows_sinks_witness :
  allowed ex_config ex_ops (fun _ => []) /\
  exists r, run ex_config (fun _ => true) (fun _ => true) ex_ops ring_init = Some r /\
    sinks_of (flows r) (ex_flow 2) = [5%nat] /\ sinks_of (flows r) ex_listen = [] /\ has_rule ex_config r (ex_flow 2).
Proof.
  assert (forall p, valid ex_config (ex_flow p)) as V1 by (intros p; split; [reflexivity|]; split; [by split|]; split; [by split|by eexists]).
  assert (valid ex_config ex_listen) as V2 by (split; [reflexivity|]; split; [by split|]; split; [by split|by eexists]).
  assert (allowed ex_config ex_ops (fun _ => [])) as Ha.
  { split; [exact V2|]. split; [apply not_elem_of_nil|]. split; [apply V1|]. split; [vm_compute; inversion 1|].
    split; [apply V1|]. split; [vm_compute; inversion 1|]. split; [vm_compute; left|exact I]. }
  split; [exact Ha|].
  destruct (steering_follows_sinks ex_config (fun _ => true) (fun _ => true) ex_ops) as (r & E & E1 & E2 & _); [by split|done|done|exact Ha|].
  exists r. split; [exact E|]. rewrite !E1. split; [vm_compute; reflexivity|]. split; [vm_compute; reflexivity|].
  apply E2. vm_compute. discriminate.
Defined.

(** ** Where this fails *)

Section unruled.
Context (c : config) (create_ok : nat -> bool) (r : ring) (g : rule_key) (k1 k2 : flow_key) (s1 s2 : sockinfo).
Context (K1 : key_of (tuple_of k1) = Some k1) (K2 : key_of (tuple_of k2) = Some k2) (Hne : k1 <> k2)
  (G1 : group_of c k1 = Some g) (G2 : group_of c k2 = Some g)
  (Hg : filters r !! g = None) (F1 : flows r !! k1 = None) (F2 : flows r !! k2 = None).

Lemma build_rfs_new k t id f : build_rfs c k t id = Some f ->
  m_p_rule_filter f = group_of c k /\ m_sinks_list f = [] /\ m_b_tmp_is_attached f = false.
Proof using.
  unfold build_rfs. destruct (is_simple c); [|by intros [= <-]].
  destruct (match k with Udp_mc _ _ => _ | _ => _ end); simpl; [by intros [= <-]|done].
Qed.

(** The second user of a filter finds the rule attached. *)
Lemma attach_uncreated s f n l r0 : m_p_rule_filter f = Some g -> m_sinks_list f = [] ->
  filters r0 !! g = Some (n, l) -> n > 1 ->
  exists f', rfs_attach_flow c create_ok s f r0 = (true, f', r0) /\ m_sinks_list f' = [s].
Proof using.
  intros Ef Es Eg Hn. unfold rfs_attach_flow, prepare_filter_attach. rewrite Ef. cbn [mbind option_bind]. rewrite Eg.
  rewrite (bool_decide_true (n > 1)) by done. cbn [orb]. rewrite decide_False by (intros (_ & ? & _); done).
  eexists. split; [done|]. unfold add_sink. simpl. rewrite Es. rewrite decide_False by apply not_elem_of_nil.
  case_decide; done.
Qed.

Lemma two_counted : filters (count_up c k2 (count_up c k1 r)) !! g = Some (2, []).
Proof using G1 G2 Hg.
  unfold count_up. rewrite G1, G2, Hg. simpl. rewrite lookup_insert_eq. simpl. by rewrite lookup_insert_eq.
Qed.

Lemma count_up_rest k r0 : flows (count_up c k r0) = flows r0 /\ hw (count_up c k r0) = hw r0 /\
  next_flow (count_up c k r0) = next_flow r0.
Proof using. unfold count_up. destruct (group_of c k); [|done]. by destruct (filters r0 !! r1) as [[? ?]|]. Qed.

(** C25: A race for a shared rule leaves it uncreated.  For every
    configuration, every ring, and any two different flows that share a rule no
    flow uses yet: when two sockets attach at the same time, so that both have
    counted the rule before either of them looks at the counter, both calls
    succeed, both flows have their socket, and no rule has been created with the
    adapter; and when the adapter refuses the rule of the first socket, the
    second attaches successfully after it, again without a rule. *)
Theorem attached_without_rule f1 f2 :
  build_rfs c k1 (tuple_of k1) (flow_tag c s1 (tuple_of k1) true) = Some f1 ->
  build_rfs c k2 (tuple_of k2) (flow_tag c s2 (tuple_of k2) true) = Some f2 ->
  (exists r1 r2 r3 r4 t1 t2 x1 x2,
     attach_begin c (tuple_of k1) r = Some (k1, true, r1) /\
     attach_begin c (tuple_of k2) r1 = Some (k2, true, r2) /\
     attach_end c create_ok k1 (tuple_of k1) s1 (Some f1) true r2 = Some (true, t1, x1, r3) /\
     attach_end c create_ok k2 (tuple_of k2) s2 (Some f2) true r3 = Some (true, t2, x2, r4) /\
     sinks_of (flows r4) k1 = [si_id s1] /\ sinks_of (flows r4) k2 = [si_id s2] /\ hw r4 = hw r) /\
  (is_simple c = true -> exists r1 r2 t x,
     attach_flow c (fun _ => false) true (tuple_of k1) s1 r = Some (false, None, false, r1) /\
     attach_flow c create_ok true (tuple_of k2) s2 r1 = Some (true, t, x, r2) /\
     sinks_of (flows r2) k2 = [si_id s2] /\ hw r2 = hw r).
Proof using All.
  intros B1 B2. destruct (build_rfs_new _ _ _ _ B1) as (P1 & N1 & A1), (build_rfs_new _ _ _ _ B2) as (P2 & N2 & A2).
  rewrite G1 in P1. rewrite G2 in P2.
  destruct (count_up_rest k1 r) as (E1 & E2 & E3), (count_up_rest k2 (count_up c k1 r)) as (E4 & E5 & E6).
  split.
  - set (r2 := count_up c k2 (count_up c k1 r)) in *.
    destruct (attach_uncreated (si_id s1) f1 2 [] r2 P1 N1 two_counted) as (f1' & Q1 & S1); [lia|].
    destruct (attach_uncreated (si_id s2) f2 2 [] (set_flow k1 f1' r2) P2 N2 two_counted) as (f2' & Q2 & S2); [lia|].
    exists (count_up c k1 r), r2, (set_flow k1 f1' r2), (set_flow k2 f2' (set_flow k1 f1' r2)).
    unfold attach_begin, attach_end. rewrite K1, K2. cbn [mbind option_bind]. fold r2. rewrite E4, E1, F1, F2. simpl.
    rewrite lookup_insert_ne, E4, E1, F2 by done. cbn [mbind option_bind]. rewrite Q1, Q2.
    do 4 eexists. split_and!; [done..| | |].
    + unfold sinks_of. simpl. by rewrite lookup_insert_ne, lookup_insert_eq.
    + unfold sinks_of. simpl. by rewrite lookup_insert_eq.
    + simpl. congruence.
  - intros Hs. unfold attach_flow at 1, attach_begin at 1. rewrite K1. cbn [mbind option_bind]. rewrite E1, F1. simpl.
    rewrite B1. unfold attach_end at 1. rewrite E1, F1. cbn [mbind option_bind].
    assert (exists f1' r1, rfs_attach_flow c (fun _ => false) (si_id s1) f1 (count_up c k1 r) = (false, f1', r1) /\
      filters r1 !! g = Some (1, []) /\ flows r1 = flows r /\ hw r1 = hw r) as (f1' & r1 & -> & H1 & H2 & H3).
    { assert (filters (count_up c k1 r) !! g = Some (1, [])) as Ec.
      { unfold count_up. rewrite G1, Hg. apply lookup_insert_eq. }
      unfold rfs_attach_flow, prepare_filter_attach. rewrite P1. cbn [mbind option_bind]. rewrite Ec. rewrite A1.
      rewrite decide_True by done. rewrite Hs. unfold create_ibv_flow. simpl.
      unfold build_rfs in B1. rewrite Hs in B1. apply bind_Some in B1 as (a & _ & [= <-]). simpl.
      eexists _, _. split; [done|]. simpl. done. }
    set (r2 := set_flow k1 f1' r1). exists r2.
    assert (filters (count_up c k2 r2) !! g = Some (2, [])) as Ec.
    { unfold count_up. rewrite G2. simpl. rewrite H1. apply lookup_insert_eq. }
    destruct (count_up_rest k2 r2) as (E7 & E8 & _).
    destruct (attach_uncreated (si_id s2) f2 2 [] (count_up c k2 r2) P2 N2 Ec) as (f2' & Q2 & S2); [lia|].
    assert (flows r2 !! k2 = None) as F2' by (unfold r2; simpl; by rewrite lookup_insert_ne, H2).
    do 3 eexists. split; [done|]. unfold attach_flow, attach_begin. rewrite K2. cbn [mbind option_bind]. rewrite E7, F2'. simpl.
    rewrite B2. unfold attach_end. rewrite E7, F2'. cbn [mbind option_bind]. rewrite Q2. split_and!; [done| |].
    + unfold sinks_of. simpl. by rewrite lookup_insert_eq.
    + simpl. rewrite E8. by unfold r2.
Qed.
End unruled.

Lemma attached_without_rule_witness :
  exists r1 r2 t x,
    attach_flow ex_config (fun _ => false) true (tuple_of (ex_flow 1)) (ex_socket 4) ring_init = Some (false, None, false, r1) /\
    attach_flow ex_config (fun _ => true) true (tuple_of (ex_flow 2)) (ex_socket 5) r1 = Some (true, t, x, r2) /\
    sinks_of (flows r2) (ex_flow 2) = [5%nat] /\ hw r2 = ∅.
Proof.
  refine (proj2 (attached_without_rule ex_config (fun _ => true) ring_init (Tcp_dst_port (rule_key_t ex_ip (htons 80)))
    (ex_flow 1) (ex_flow 2) (ex_socket 4) (ex_socket 5) _ _ _ _ _ _ _ _ _ _ _ _) _);
    try (vm_compute; reflexivity). intros H. vm_compute in H. discriminate.
Defined.

(** A datagram socket that attaches to the flow of a connected one gets the rule
    of that one, for one source only: the flow is found by the local address, its
    rule has the first socket's peer. *)
Theorem second_socket_gets_first_rule c create_ok r ip port src sport s1 s2 :
  is_simple c = true -> create_ok (next_flow r) = true -> IN_MULTICAST_N ip = false ->
  flows r !! Udp_uc ip port = None -> si_id s1 <> si_id s2 ->
  exists r1 r2 t1 t2 x1 x2 a,
    attach_flow c create_ok true (FlowTuple ip src port sport Match.PROTO_UDP) s1 r = Some (true, t1, x1, r1) /\
    attach_flow c create_ok true (FlowTuple ip 0 port 0 Match.PROTO_UDP) s2 r1 = Some (true, t2, x2, r2) /\
    sinks_of (flows r2) (Udp_uc ip port) = [si_id s1; si_id s2] /\
    hw r2 = <[next_flow r := a]> (hw r) /\ spec_src_ip (pat a) = src /\ spec_src_port (pat a) = sport.
Proof.
  intros Hs Hc Hm Hf Hne. unfold attach_flow, attach_begin.
  assert (forall a b, key_of (FlowTuple ip a port b Match.PROTO_UDP) = Some (Udp_uc ip port)) as Hk.
  { intros a b. unfold key_of, is_udp_uc. simpl. by rewrite Hm. }
  rewrite !Hk. cbn [mbind option_bind count_up group_of]. rewrite Hf, bool_decide_true by done.
  unfold build_rfs. rewrite Hs. cbn [mbind option_bind prepare_flow_spec_uc rule_tuple group_of].
  unfold attach_end. rewrite Hf. cbn [mbind option_bind].
  unfold rfs_attach_flow at 1, prepare_filter_attach. simpl. rewrite Hs. unfold create_ibv_flow. simpl. rewrite Hc. simpl.
  do 7 eexists. split; [reflexivity|]. cbn [flows set_flow filter_keep_attached m_p_rule_filter set_attached set_vector rfs_new].
  unfold filter_keep_attached. simpl. rewrite lookup_insert_eq, bool_decide_false by done. simpl.
  split; [reflexivity|]. unfold sinks_of. simpl. rewrite lookup_insert_eq. split_and!; [|reflexivity|reflexivity|reflexivity].
  unfold add_sink. simpl. rewrite decide_False by set_solver. simpl. reflexivity.
Qed.

End Steering.
