(* ===== verification/RingRx.v ===== *)
(** * The receive path of a ring: src/src/vma/dev/ring_slave.cpp

    [rx_process_buffer] takes every buffer the adapter has filled: it checks the
    headers, reassembles fragments (IpFrag), verifies checksums where the adapter
    has not (Checksum), finds the flow (Steering) and hands the packet to the
    flow's sinks; a packet with a flow tag goes to the socket of the tag at once.

    A buffer is the list of its bytes; length and chaining of buffers are those
    of the reassembly's store.  [UB] is a read outside of a buffer. *)

From S2P Require Import Prelude IpFrag Match Checksum Steering.

Local Open Scope Z_scope.

Module RingRx.

Import Checksum(res, Ret, UB, Loops, res_bind, res_ret).
#[local] Existing Instance Steering.transport_eq_dec.

Definition ETH_HDR_LEN : Z := 14.
Definition ETH_VLAN_HDR_LEN : Z := 18.
Definition GRH_HDR_LEN : Z := 40.
Definition IPOIB_HDR_LEN : Z := 4.
Definition IPOIB_HEADER : Z := 0x08000000.
Definition ETH_P_IP : Z := 0x0800.
Definition ETH_P_8021Q : Z := 0x8100.
Definition VLAN_VID_MASK : Z := 0xfff.
Definition IPV4_VERSION : Z := 4.
Definition IPPROTO_IGMP : Z := 2.
Definition sizeof_iphdr : Z := 20.
Definition sizeof_udphdr : Z := 8.
Definition sizeof_tcphdr : Z := 20.

(** ** Memory *)

Definition rd8 (m : list Z) (i : Z) : res Z := match m !! Z.to_nat i with Some b => Ret b | None => UB end.
Definition rd16 (m : list Z) (i : Z) : res Z := b0 ← rd8 m i; b1 ← rd8 m (i + 1); Ret (b0 + Z.shiftl b1 8).
Definition rd32 (m : list Z) (i : Z) : res Z := w0 ← rd16 m i; w1 ← rd16 m (i + 2); Ret (w0 + Z.shiftl w1 16).

(** The part of [mem_buf_desc_t] that is not in the reassembly's store;
    [iov_base] is an offset. *)
Record rx_desc := Desc {
  mem : list Z;
  flow_tag_id : Z;
  is_sw_csum_need : bool;
  iov_base : Z;
  iov_len : Z;
  n_frags : Z
}.

Definition set_iov (base len : Z) (d : rx_desc) : rx_desc :=
  Desc (mem d) (flow_tag_id d) (is_sw_csum_need d) base len (n_frags d).
Definition set_n_frags (n : Z) (d : rx_desc) : rx_desc :=
  Desc (mem d) (flow_tag_id d) (is_sw_csum_need d) (iov_base d) (iov_len d) n.

Record state := State { mgr : Frag.ip_frag_manager; descs : gmap nat rx_desc }.

Definition set_desc (p : nat) (d : rx_desc) (s : state) : state := State (mgr s) (<[p := d]> (descs s)).

(** [sz_data] of the descriptor. *)
Definition set_sz_data (p : nat) (n : Z) (s : state) : state :=
  State (Frag.set_bufs (alter (Frag.set_sz n) p (Frag.bufs (mgr s))) (mgr s)) (descs s).

(** What is known of a packet that is handed up. *)
Record info := Info {
  src_ip : Z; src_port : Z; dst_ip : Z; dst_port : Z;
  data_off : Z; data_len : Z;          (* [rx.frag] *)
  sz_payload : Z
}.

(** A packet is dropped, kept for reassembly, given to the IGMP manager, handed to
    the socket of its flow tag or to the [rfs] of its flow. *)
Inductive verdict := Drop | Held | Igmp | Bypass (fd : Z) (i : info) | Dispatch (k : Steering.flow_key) (f : Steering.rfs) (i : info).

(** A socket as [check_rx_packet] sees it. *)
Record socket := Socket { flow_tag_enabled : bool; tcp_flow_is_5t : bool }.

Section rx.
Context (c : Steering.config) (m_partition : Z).
Context (get_sockfd : Z -> option socket) (have_frag_mgr : bool) (fuel : nat).

(** ** The fast path *)

Definition fast_tcp (m : list Z) (thl tot : Z) : res info :=
  let l4 := thl + 20 in
  sport ← rd16 m l4; dport ← rd16 m (l4 + 2);
  saddr ← rd32 m (thl + 12); daddr ← rd32 m (thl + 16);
  b ← rd8 m (l4 + 12); let doff := Z.shiftr b 4 in
  Ret (Info saddr sport daddr dport (l4 + sizeof_tcphdr) (u64 (tot - 20 - sizeof_tcphdr)) (u64 (tot - 20 - doff * 4))).

Definition fast_udp (m : list Z) (thl tot : Z) : res info :=
  let l4 := thl + 20 in
  sport ← rd16 m l4; dport ← rd16 m (l4 + 2);
  saddr ← rd32 m (thl + 12); daddr ← rd32 m (thl + 16);
  len ← rd16 m (l4 + 4);
  Ret (Info saddr sport daddr dport (l4 + sizeof_udphdr) (u64 (tot - 20 - sizeof_udphdr)) (u64 (ntohs len - sizeof_udphdr))).

(** The header is taken for one without options. *)
Definition fast_path (d : rx_desc) : res (option verdict) :=
  if Steering.m_flow_tag_enabled c && negb (bool_decide (flow_tag_id d = 0)) &&
     negb (bool_decide (flow_tag_id d = Steering.FLOW_TAG_MASK)) && negb (is_sw_csum_need d)
  then
    let fd := flow_tag_id d - 1 in
    match get_sockfd fd with
    | Some si =>
      if flow_tag_enabled si then
        h_proto ← rd16 (mem d) 12;
        let thl := if decide (h_proto = htons ETH_P_8021Q) then ETH_VLAN_HDR_LEN else ETH_HDR_LEN in
        tot ← rd16 (mem d) (thl + 2); let tot := ntohs tot in
        if tcp_flow_is_5t si then i ← fast_tcp (mem d) thl tot; Ret (Some (Bypass fd i))
        else
          proto ← rd8 (mem d) (thl + 9);
          if decide (proto = Checksum.IPPROTO_UDP) then i ← fast_udp (mem d) thl tot; Ret (Some (Bypass fd i))
          else Ret None
      else Ret None
    | None => Ret None
    end
  else Ret None.

(** ** The headers of the second layer *)

(** The length of the transport header; [None]: the packet is dropped. *)
Definition transport_header (m : list Z) : res (option Z) :=
  match Steering.m_transport_type c with
  | Steering.VMA_TRANSPORT_IB =>
    h ← rd32 m GRH_HDR_LEN;
    Ret (if decide (h = htonl IPOIB_HEADER) then Some (GRH_HDR_LEN + IPOIB_HDR_LEN) else None)
  | Steering.VMA_TRANSPORT_ETH =>
    h_proto ← rd16 m 12;
    '(thl, h_proto, vlan) ← (if decide (h_proto = htons ETH_P_8021Q) then
        tci ← rd16 m ETH_HDR_LEN; h ← rd16 m (ETH_HDR_LEN + 2);
        Ret (ETH_VLAN_HDR_LEN, h, Z.land (htons tci) VLAN_VID_MASK)
      else Ret (ETH_HDR_LEN, h_proto, 0));
    Ret (if decide (Z.land m_partition VLAN_VID_MASK <> vlan) then None
         else if decide (h_proto <> htons ETH_P_IP) then None else Some thl)
  end.

(** ** Fragments *)

(** The header as [add_frag] reads it. *)
Definition frag_header (m : list Z) (ip : Z) : res Frag.iphdr :=
  id ← rd16 m (ip + 4); sa ← rd32 m (ip + 12); da ← rd32 m (ip + 16); pr ← rd8 m (ip + 9);
  fo ← rd16 m (ip + 6); tl ← rd16 m (ip + 2); b ← rd8 m ip;
  Ret (Frag.IpHdr id sa da pr fo tl (Z.land b 15)).

(** The buffers behind [p]. *)
Fixpoint chain (n : nat) (p : nat) (s : state) : res (list nat) :=
  match n with
  | O => Loops
  | S n => match Frag.bufs (mgr s) !! p with
    | None => UB
    | Some b => match Frag.p_next_desc b with None => Ret [] | Some q => l ← chain n q s; Ret (q :: l) end
    end
  end.

Fixpoint frag_data (l : list nat) (s : state) : res (list (list Z * Z)) :=
  match l with
  | [] => Ret []
  | q :: l => match descs s !! q with
    | None => UB
    | Some d => fs ← frag_data l s; Ret ((drop (Z.to_nat (iov_base d)) (mem d), iov_len d) :: fs)
    end
  end.

(** To go on with a buffer, or to stop. *)
Inductive step := Go (p : nat) (s : state) | Stop (v : verdict) (s : state).

Definition s8 (x : Z) : Z := let x := u8 x in if decide (x < 128) then x else x - 256.

(** A datagram that is complete goes on with its first fragment. *)
Definition reassemble (p : nat) (d : rx_desc) (thl tot hl : Z) (s : state) : res step :=
  let s := set_desc p (set_iov (thl + hl) (u64 (tot - hl)) d) s in
  if have_frag_mgr then
    h ← frag_header (mem d) thl;
    match Frag.add_frag h p (mgr s) with
    | None => UB
    | Some (Frag.AddError, m) => Ret (Stop Drop (State m (descs s)))
    | Some (Frag.AddOk None, m) => Ret (Stop Held (State m (descs s)))
    | Some (Frag.AddOk (Some q), m) =>
      let s := State m (descs s) in
      match descs s !! q with
      | None => UB
      | Some e => l ← chain fuel q s; Ret (Go q (set_desc q (set_n_frags (s8 (n_frags e + 1 + Z.of_nat (length l))) e) s))
      end
    end
  else Ret (Stop Drop s).

(** ** The upper layers *)

Definition udp_key (ip port : Z) : Steering.flow_key :=
  if Steering.IN_MULTICAST_N ip then Steering.Udp_mc ip port else Steering.Udp_uc ip port.

Definition dispatch (o : option (Steering.flow_key * Steering.rfs)) (i : info) : verdict :=
  match o with Some (k, f) => Dispatch k f i | None => Drop end.

Definition rx_udp (r : Steering.ring) (p : nat) (d : rx_desc) (thl tot hl : Z) (s : state) : res (verdict * state) :=
  let l4 := thl + hl in
  let d := set_iov (l4 + sizeof_udphdr) (u64 (tot - hl - sizeof_udphdr)) d in
  let s := set_desc p d s in
  saddr ← rd32 (mem d) (thl + 12); daddr ← rd32 (mem d) (thl + 16);
  check ← rd16 (mem d) (l4 + 6); len ← rd16 (mem d) (l4 + 4);
  csum ← (if is_sw_csum_need d && negb (bool_decide (check = 0)) then
      l ← chain fuel p s; fs ← frag_data l s;
      Checksum.compute_udp_checksum_rx fuel (Checksum.ip_header (drop (Z.to_nat thl) (mem d))) len
        (drop (Z.to_nat l4) (mem d)) (iov_len d) fs
    else Ret 0);
  if decide (csum <> 0) then Ret (Drop, s)
  else
    sport ← rd16 (mem d) l4; dport ← rd16 (mem d) (l4 + 2);
    let i := Info saddr sport daddr dport (iov_base d) (iov_len d) (u64 (ntohs len - sizeof_udphdr)) in
    let k := udp_key daddr dport in
    Ret (dispatch ((k,.) <$> Steering.flows r !! k) i, s).

(** A flow of five elements, or one of the local address only. *)
Definition find_tcp (r : Steering.ring) (dip sip dport sport : Z) : option (Steering.flow_key * Steering.rfs) :=
  let k := Steering.Tcp dip sip dport sport in
  match Steering.flows r !! k with
  | Some f => Some (k, f)
  | None => let k := Steering.Tcp dip 0 dport 0 in (k,.) <$> Steering.flows r !! k
  end.

Definition rx_tcp (r : Steering.ring) (p : nat) (d : rx_desc) (thl tot hl : Z) (s : state) : res (verdict * state) :=
  let l4 := thl + hl in
  csum ← (if is_sw_csum_need d then
      Checksum.compute_tcp_checksum (Checksum.ip_header (drop (Z.to_nat thl) (mem d))) (drop (Z.to_nat l4) (mem d))
    else Ret 0);
  if decide (csum <> 0) then Ret (Drop, s)
  else
    b ← rd8 (mem d) (l4 + 12); let doff := Z.shiftr b 4 in
    let d := set_iov (l4 + sizeof_tcphdr) (u64 (tot - hl - sizeof_tcphdr)) d in
    saddr ← rd32 (mem d) (thl + 12); daddr ← rd32 (mem d) (thl + 16);
    sport ← rd16 (mem d) l4; dport ← rd16 (mem d) (l4 + 2);
    let i := Info saddr sport daddr dport (iov_base d) (iov_len d) (u64 (tot - hl - doff * 4)) in
    Ret (dispatch (find_tcp r daddr saddr dport sport) i, set_desc p d s).

(** From the reassembled packet on. *)
Definition rx_upper (r : Steering.ring) (p : nat) (thl : Z) (s : state) : res (verdict * state) :=
  match descs s !! p with
  | None => UB
  | Some d =>
    b ← rd8 (mem d) thl; let ihl := Z.land b 15 in
    tot ← rd16 (mem d) (thl + 2);
    csum ← (if is_sw_csum_need d then Checksum.compute_ip_checksum (drop (Z.to_nat thl) (mem d)) (ihl * 2) else Ret 0);
    if decide (csum <> 0) then Ret (Drop, s)
    else
      proto ← rd8 (mem d) (thl + 9);
      if decide (proto = Checksum.IPPROTO_UDP) then rx_udp r p d thl (ntohs tot) (ihl * 4) s
      else if decide (proto = Checksum.IPPROTO_TCP) then rx_tcp r p d thl (ntohs tot) (ihl * 4) s
      else if decide (proto = IPPROTO_IGMP) then
        Ret (if bool_decide (Steering.m_transport_type c = Steering.VMA_TRANSPORT_IB) || Steering.eth_mc_l2_only_rules c
             then Igmp else Drop, s)
      else Ret (Drop, s)
  end.

(** The checks of the IP header; [sz_data] has the type [size_t]. *)
Definition rx_ip (r : Steering.ring) (p : nat) (d : rx_desc) (sz thl : Z) (s : state) : res (verdict * state) :=
  let sz_data := u64 (sz - thl) in
  if decide (sz_data < sizeof_iphdr) then Ret (Drop, s)
  else
    b ← rd8 (mem d) thl;
    if decide (Z.shiftr b 4 <> IPV4_VERSION) then Ret (Drop, s)
    else
      tot ← rd16 (mem d) (thl + 2); let tot := ntohs tot in
      if decide (sz_data < tot) then Ret (Drop, s)
      else
        let s := if decide (sz_data > tot) then set_sz_data p (u64 (sz - (sz_data - tot))) s else s in
        fo ← rd16 (mem d) (thl + 6); let fo := ntohs fo in
        let off := u16 (Z.land fo Frag.FRAGMENT_OFFSET * 8) in
        let hl := Z.land b 15 * 4 in
        if decide (off = 0 /\ tot < hl + sizeof_udphdr) then Ret (Drop, s)
        else
          let d := set_n_frags 1 d in
          let s := set_desc p d s in
          if decide (Z.land fo Frag.MORE_FRAGMENTS_FLAG <> 0 \/ off <> 0) then
            st ← reassemble p d thl tot hl s;
            match st with
            | Stop v s => Ret (v, s)
            | Go q s => rx_upper r q thl s
            end
          else rx_upper r p thl s.

Definition rx_process_buffer (r : Steering.ring) (p : nat) (s : state) : res (verdict * state) :=
  match descs s !! p, Frag.bufs (mgr s) !! p with
  | Some d, Some b =>
    let sz := Frag.sz_data b in
    if decide (sz > Z.of_nat (length (mem d))) then Ret (Drop, s)
    else
      v ← fast_path d;
      match v with
      | Some v => Ret (v, s)
      | None =>
        t ← transport_header (mem d);
        match t with
        | None => Ret (Drop, s)
        | Some thl => rx_ip r p d sz thl s
        end
      end
  | _, _ => UB
  end.
End rx.

(** ** Handing up *)

(** [keeps]: the sinks that take a reference to the buffer.  The results are the
    sinks that are called, the references to the buffer and whether it is kept. *)
Fixpoint uc_loop (keeps : nat -> bool) (l : list nat) : list nat * Z * bool :=
  match l with
  | [] => ([], 0, false)
  | s :: l =>
    if keeps s then ([s], 1, true)
    else let '(called, n, b) := uc_loop keeps l in (s :: called, n, b)
  end.

Definition uc_dispatch (keeps : nat -> bool) (enable_socketxtreme : bool) (f : Steering.rfs) : list nat * Z * bool :=
  uc_loop keeps (if enable_socketxtreme then take 1 (Steering.m_sinks_list f) else Steering.m_sinks_list f).

Definition mc_dispatch (keeps : nat -> bool) (f : Steering.rfs) : list nat * Z * bool :=
  let n := Z.of_nat (length (filter (fun s => keeps s = true) (Steering.m_sinks_list f))) in
  (Steering.m_sinks_list f, n, bool_decide (1 + n > 1)).

(** ** Reading a packet behind its Ethernet header *)

Section frame.
Context (e m : list Z) (He : length e = 14%nat).

Lemma rd8_in x : 14 <= x < 14 + Z.of_nat (length m) -> rd8 (e ++ m) x = Ret (m !!! Z.to_nat (x - 14)).
Proof using He.
  intros Hx. unfold rd8. rewrite lookup_app_r by lia. rewrite He. replace (Z.to_nat x - 14)%nat with (Z.to_nat (x - 14)) by lia.
  destruct (lookup_lt_is_Some_2 m (Z.to_nat (x - 14))) as [b Hb]; [lia|]. rewrite Hb. by rewrite (list_lookup_total_correct _ _ _ Hb).
Qed.

Lemma rd16_in x : 14 <= x < 13 + Z.of_nat (length m) -> rd16 (e ++ m) x = Ret (Checksum.u16_at m (Z.to_nat (x - 14))).
Proof using He.
  intros Hx. unfold rd16. rewrite !rd8_in by lia. cbn [mbind res_bind]. unfold Checksum.u16_at. do 4 f_equal. lia.
Qed.

Lemma rd32_in x : 14 <= x < 11 + Z.of_nat (length m) -> rd32 (e ++ m) x = Ret (Checksum.u32_at m (Z.to_nat (x - 14))).
Proof using He.
  intros Hx. unfold rd32. rewrite !rd16_in by lia. cbn [mbind res_bind]. unfold Checksum.u32_at. do 4 f_equal. lia.
Qed.
End frame.

(** A frame with an unfragmented IP packet, in a buffer without a flow tag: the
    buffer may be longer than the packet. *)
Record plain (c : Steering.config) (m_partition : Z) (s : state) (p : nat) (d : rx_desc) (m : list Z) : Prop := {
  pl_eth : Steering.m_transport_type c = Steering.VMA_TRANSPORT_ETH;
  pl_vlan : Z.land m_partition VLAN_VID_MASK = 0;
  pl_desc : descs s !! p = Some d;
  pl_tag : flow_tag_id d = 0;
  pl_frame : exists e, length e = 12%nat /\ mem d = e ++ [8; 0] ++ m;
  pl_bytes : Checksum.bytes_ok m;
  pl_version : Z.shiftr (m !!! 0%nat) 4 = IPV4_VERSION;
  pl_unfragmented : Z.land (ntohs (Checksum.u16_at m 6)) 0x3fff = 0;
  pl_ihl : 5 <= Checksum.ihl (Checksum.ip_header m);
  pl_tot : Checksum.ihl (Checksum.ip_header m) * 4 + 8 <= ntohs (Checksum.tot_len (Checksum.ip_header m)) <= Z.of_nat (length m);
  pl_sz : exists b, Frag.bufs (mgr s) !! p = Some b /\
    14 + ntohs (Checksum.tot_len (Checksum.ip_header m)) <= Frag.sz_data b <= Z.of_nat (length (mem d));
  pl_size : Z.of_nat (length (mem d)) < 2 ^ 32;
}.

Lemma plain_frame c v s p d m : plain c v s p d m -> exists e, length e = 14%nat /\ mem d = e ++ m /\ rd16 (mem d) 12 = Ret 8.
Proof.
  intros H. destruct (pl_frame _ _ _ _ _ _ H) as (e & He & Em). exists (e ++ [8; 0]). rewrite length_app, He. split; [done|].
  rewrite <- app_assoc. split; [done|]. rewrite Em. unfold rd16, rd8. rewrite (lookup_app_r e _ (Z.to_nat 12)), (lookup_app_r e _ (Z.to_nat (12 + 1))) by lia. rewrite He. reflexivity.
Qed.

Lemma not_fragment x : Z.land x 0x3fff = 0 -> Z.land x Frag.FRAGMENT_OFFSET = 0 /\ Z.land x Frag.MORE_FRAGMENTS_FLAG = 0.
Proof.
  intros E. change 0x3fff with (Z.lor Frag.FRAGMENT_OFFSET Frag.MORE_FRAGMENTS_FLAG) in E. rewrite Z.land_lor_distr_r in E.
  by apply Z.lor_eq_0_iff in E.
Qed.

(** The checks up to the upper layers pass. *)
Lemma rx_plain c v socks fm fuel r p s d m : plain c v s p d m -> exists s1, rx_process_buffer c v socks fm fuel r p s = rx_upper c fuel r p 14 s1 /\
  descs s1 = <[p := set_n_frags 1 d]> (descs s).
Proof.
  intros H. destruct (plain_frame _ _ _ _ _ _ H) as (e & He & Em & E12). destruct (pl_sz _ _ _ _ _ _ H) as (b & Eb & Hsz).
  pose proof (pl_size _ _ _ _ _ _ H). pose proof (pl_tot _ _ _ _ _ _ H) as Ht. pose proof (pl_ihl _ _ _ _ _ _ H) as Hi.
  unfold rx_process_buffer. rewrite (pl_desc _ _ _ _ _ _ H), Eb. rewrite decide_False by lia.
  unfold fast_path. rewrite (pl_tag _ _ _ _ _ _ H). rewrite (bool_decide_eq_true_2 (0 = 0)) by done. rewrite andb_false_r. cbn [andb mbind res_bind].
  unfold transport_header. rewrite (pl_eth _ _ _ _ _ _ H), E12. cbn [mbind res_bind]. rewrite decide_False by done. cbn [mbind res_bind].
  rewrite (pl_vlan _ _ _ _ _ _ H). rewrite decide_False by naive_solver. rewrite decide_False by naive_solver.
  unfold rx_ip. rewrite Em, rd8_in, !rd16_in by (done || unfold ETH_HDR_LEN; lia). cbn [mbind res_bind].
  change (Z.to_nat (ETH_HDR_LEN - 14)) with 0%nat. change (Z.to_nat (ETH_HDR_LEN + 2 - 14)) with 2%nat. change (Z.to_nat (ETH_HDR_LEN + 6 - 14)) with 6%nat.
  rewrite (pl_version _ _ _ _ _ _ H). unfold sizeof_iphdr, ETH_HDR_LEN.
  change (Checksum.tot_len (Checksum.ip_header m)) with (Checksum.u16_at m 2) in *. change (Checksum.ihl (Checksum.ip_header m)) with (Z.land (m !!! 0%nat) 15) in *.
  rewrite (wrap_small 64 (Frag.sz_data b - 14)) by lia. rewrite (decide_False (P := Frag.sz_data b - 14 < 20)) by lia.
  rewrite decide_False by naive_solver. rewrite decide_False by lia.
  destruct (not_fragment _ (pl_unfragmented _ _ _ _ _ _ H)) as [-> ->]. change (u16 (0 * 8)) with 0.
  rewrite decide_False by (unfold sizeof_udphdr; lia). rewrite decide_False by naive_solver. eexists. split; [reflexivity|].
  by destruct (decide _).
Qed.

(** ** TCP segments *)

Definition daddr (m : list Z) : Z := Checksum.daddr (Checksum.ip_header m).
Definition saddr (m : list Z) : Z := Checksum.saddr (Checksum.ip_header m).
Definition header_len (m : list Z) : Z := Checksum.ihl (Checksum.ip_header m) * 4.
Definition total_len (m : list Z) : Z := ntohs (Checksum.tot_len (Checksum.ip_header m)).
(** The data offset, in bytes. *)
Definition data_offset (m : list Z) : Z := Z.shiftr (m !!! (Z.to_nat (header_len m) + 12)%nat) 4 * 4.
Definition sport (m : list Z) : Z := Checksum.u16_at m (Z.to_nat (header_len m)).
Definition dport (m : list Z) : Z := Checksum.u16_at m (Z.to_nat (header_len m) + 2).

(** What is handed up with a segment. *)
Definition tcp_info (m : list Z) : info :=
  Info (saddr m) (sport m) (daddr m) (dport m) (14 + header_len m + 20) (u64 (total_len m - header_len m - 20))
    (u64 (total_len m - header_len m - data_offset m)).

Lemma rx_tcp_plain c v socks fm fuel r p s d m : plain c v s p d m ->
  Checksum.protocol (Checksum.ip_header m) = Checksum.IPPROTO_TCP -> header_len m + 20 <= Z.of_nat (length m) ->
  (is_sw_csum_need d = true -> Checksum.compute_ip_checksum m (Checksum.ihl (Checksum.ip_header m) * 2) = Ret 0 /\
     Checksum.compute_tcp_checksum (Checksum.ip_header m) (drop (Z.to_nat (header_len m)) m) = Ret 0) ->
  exists s', rx_process_buffer c v socks fm fuel r p s = Ret (dispatch (find_tcp r (daddr m) (saddr m) (dport m) (sport m)) (tcp_info m), s').
Proof.
  intros H Hp Hl Hc. destruct (rx_plain c v socks fm fuel r p s d m H) as (s1 & -> & Es). destruct (plain_frame _ _ _ _ _ _ H) as (e & He & Em & _).
  pose proof (pl_tot _ _ _ _ _ _ H) as Ht. pose proof (pl_ihl _ _ _ _ _ _ H) as Hi. fold (header_len m) (total_len m) in Ht.
  assert (20 <= header_len m) by (unfold header_len; lia).
  unfold rx_upper. rewrite Es, lookup_insert_eq. simpl mem. simpl is_sw_csum_need. rewrite Em, (rd8_in e m He 14), (rd16_in e m He (14 + 2)) by lia. cbn [mbind res_bind].
  assert (drop (Z.to_nat 14) (e ++ m) = m) as Ed by (change (Z.to_nat 14) with 14%nat; rewrite <- He; apply drop_app_length).
  change (Z.to_nat (14 - 14)) with 0%nat. change (Z.to_nat (14 + 2 - 14)) with 2%nat. rewrite Ed. change (Z.land (m !!! 0%nat) 15) with (Checksum.ihl (Checksum.ip_header m)).
  assert ((if is_sw_csum_need d then Checksum.compute_ip_checksum m (Checksum.ihl (Checksum.ip_header m) * 2) else Ret 0) = Ret 0) as ->.
  { destruct (is_sw_csum_need d); [|done]. by apply Hc. }
  cbn [mbind res_bind]. rewrite decide_False by naive_solver. rewrite rd8_in by lia. cbn [mbind res_bind].
  change (m !!! Z.to_nat (14 + 9 - 14)) with (Checksum.protocol (Checksum.ip_header m)). rewrite Hp.
  rewrite decide_False by done. rewrite decide_True by done. fold (header_len m). change (ntohs (Checksum.u16_at m 2)) with (total_len m).
  unfold rx_tcp. simpl mem. simpl is_sw_csum_need. rewrite Em.
  assert (drop (Z.to_nat (14 + header_len m)) (e ++ m) = drop (Z.to_nat (header_len m)) m) as ->.
  { rewrite drop_app_ge by lia. f_equal. lia. }
  rewrite Ed.
  assert ((if is_sw_csum_need d then Checksum.compute_tcp_checksum (Checksum.ip_header m) (drop (Z.to_nat (header_len m)) m) else Ret 0) = Ret 0) as ->.
  { destruct (is_sw_csum_need d); [|done]. by apply Hc. }
  cbn [mbind res_bind]. rewrite decide_False by naive_solver. rewrite rd8_in, !rd32_in, !rd16_in by lia. cbn [mbind res_bind].
  replace (Z.to_nat (14 + header_len m - 14)) with (Z.to_nat (header_len m)) by lia.
  replace (Z.to_nat (14 + header_len m + 2 - 14)) with (Z.to_nat (header_len m) + 2)%nat by lia.
  replace (Z.to_nat (14 + header_len m + 12 - 14)) with (Z.to_nat (header_len m) + 12)%nat by lia.
  by eexists.
Qed.

(** The header of a packet that is only changed in its checksums. *)
Lemma unchanged_header l4 m m' : Checksum.tcp_packet l4 m -> Checksum.ip_header m' = Checksum.ip_header m ->
  (forall i, (i ∉ [10; 11; l4 + 16; l4 + 17])%nat -> m' !!! i = m !!! i) ->
  data_offset m' = data_offset m /\ sport m' = sport m /\ dport m' = dport m.
Proof.
  intros H Eh Hm. pose proof (Checksum.tp_header _ _ H) as Hl. destruct (Checksum.ihl_range l4 m H) as (R1 & R2 & R3).
  assert (Z.to_nat (header_len m) = l4) as El by (unfold header_len; lia).
  unfold data_offset, sport, dport, Checksum.u16_at, header_len in *. rewrite Eh, El. rewrite !Hm; [done|..].
  all: rewrite !not_elem_of_cons; split_and!; try lia; apply not_elem_of_nil.
Qed.

(** ** Theorems *)

(** C16: What is sent is received.  A TCP packet, not fragmented, whose
    checksums the sender has filled in, in an Ethernet frame without VLAN tag that
    may be padded, passes every check of a receiving ring without VLAN when the
    adapter has given the frame no flow tag, with checksums verified in software
    or not, and is handed to the flow of its four addresses (or the listening flow
    of its local ones) with the bounds of its data.  (With a flow tag the packet
    goes to the socket of the tag instead; a packet of odd length is followed by a
    byte in the buffer, which the checksum reads.) *)
Theorem sent_segment_is_received c v socks fm fuel r p s d l4 m m' k f :
  Checksum.tcp_packet l4 m -> Checksum.compute_tx_checksum l4 m true true = Ret m' -> plain c v s p d m' ->
  20 <= data_offset m <= total_len m - header_len m ->
  find_tcp r (daddr m) (saddr m) (dport m) (sport m) = Some (k, f) ->
  exists s', rx_process_buffer c v socks fm fuel r p s =
    Ret (Dispatch k f (Info (saddr m) (sport m) (daddr m) (dport m) (14 + header_len m + 20)
      (total_len m - header_len m - 20) (total_len m - header_len m - data_offset m)), s').
Proof.
  intros Hp Ht Hpl Hd Hf. destruct (Checksum.fill_checksums l4 m Hp) as (m2 & E1 & E2 & E3 & E4 & E5 & E6).
  rewrite Ht in E1. injection E1 as <-. destruct (unchanged_header l4 m m' Hp E4 E6) as (D1 & D2 & D3).
  pose proof (Checksum.tp_header _ _ Hp) as Hl. destruct (Checksum.ihl_range l4 m Hp) as (R1 & R2 & R3).
  assert (header_len m = Z.of_nat l4) as Ehl by (unfold header_len; lia). assert (Z.to_nat (header_len m) = l4) as El by lia.
  destruct (plain_frame _ _ _ _ _ _ Hpl) as (e & He & Em & _). pose proof (pl_size _ _ _ _ _ _ Hpl) as Hsz. rewrite Em, length_app, E5 in Hsz.
  assert (daddr m' = daddr m /\ saddr m' = saddr m /\ header_len m' = header_len m /\ total_len m' = total_len m) as (F1 & F2 & F3 & F4).
  { unfold daddr, saddr, header_len, total_len. by rewrite E4. }
  pose proof (pl_tot _ _ _ _ _ _ Hpl) as Htot. fold (header_len m') (total_len m') in Htot. rewrite F3, F4, E5 in Htot.
  destruct (rx_tcp_plain c v socks fm fuel r p s d m' Hpl) as (s' & ->).
  - rewrite E4. apply (Checksum.tp_protocol _ _ Hp).
  - rewrite F3, E5. pose proof (Checksum.tp_memory _ _ Hp). lia.
  - intros _. rewrite F3, El. done.
  - exists s'. rewrite F1, F2, D2, D3, Hf. unfold tcp_info. rewrite F1, F2, F3, F4, D1, D2, D3. simpl dispatch.
    rewrite !wrap_small by lia. done.
Qed.

Definition ex_ring : option Steering.ring :=
  Steering.run Steering.ex_config (fun _ => true) (fun _ => true)
    [Steering.Attach (Steering.ex_flow (htonl 0x0a000002)) (Steering.ex_socket 4); Steering.Attach (Steering.ex_flow (htonl 0x0a000003)) (Steering.ex_socket 5)]
    Steering.ring_init.

(** A segment of 3 bytes from 10.0.0.3. *)
Definition ex_segment : list Z :=
  [69; 0; 0; 43; 0; 1; 0; 0; 64; 6; 0; 0; 10; 0; 0; 3; 10; 0; 0; 1;
   15; 160; 0; 80; 0; 0; 0; 1; 0; 0; 0; 2; 80; 16; 4; 0; 0; 0; 0; 0; 65; 66; 67] ++ replicate 10 0.

Definition ex_frame (tag_id : Z) (csum : bool) (m : list Z) : state :=
  State (Frag.Mgr 0 ∅ ∅ [] 0 [] 0 {[0%nat := Frag.Buf 60 None 0]})
    {[0%nat := Desc (replicate 12 0 ++ [8; 0] ++ m) tag_id csum 0 0 0]}.

Definition ex_filled : list Z := match Checksum.compute_tx_checksum 20 ex_segment true true with Ret m => m | _ => [] end.

Lemma sent_segment_is_received_witness :
  Checksum.tcp_packet 20 ex_segment /\ plain Steering.ex_config 0 (ex_frame 0 true ex_filled) 0 (Desc (replicate 12 0 ++ [8; 0] ++ ex_filled) 0 true 0 0 0) ex_filled /\
  exists r f i s', ex_ring = Some r /\ Steering.m_sinks_list f = [5%nat] /\ sz_payload i = 3 /\
    rx_process_buffer Steering.ex_config 0 (fun _ => None) true 1 r 0 (ex_frame 0 true ex_filled) =
    Ret (Dispatch (Steering.ex_flow (htonl 0x0a000003)) f i, s').
Proof.
  assert (Checksum.tcp_packet 20 ex_segment) as H.
  { split; [apply (bool_decide_unpack _); vm_compute; exact I|reflexivity|vm_compute; discriminate|reflexivity|vm_compute; discriminate|].
    vm_compute. lia. }
  assert (plain Steering.ex_config 0 (ex_frame 0 true ex_filled) 0 (Desc (replicate 12 0 ++ [8; 0] ++ ex_filled) 0 true 0 0 0) ex_filled) as Hpl.
  { split; try (vm_compute; reflexivity); try (vm_compute; discriminate).
    - eexists. split; [|reflexivity]. reflexivity.
    - apply (bool_decide_unpack _). vm_compute. exact I.
    - vm_compute. split; discriminate.
    - eexists. split; [reflexivity|]. vm_compute. split; discriminate. }
  split; [exact H|]. split; [exact Hpl|].
  assert (exists r f, ex_ring = Some r /\ find_tcp r (daddr ex_segment) (saddr ex_segment) (dport ex_segment) (sport ex_segment) =
    Some (Steering.ex_flow (htonl 0x0a000003), f) /\ Steering.m_sinks_list f = [5%nat]) as (r & f & E1 & E2 & E3)
    by (do 2 eexists; repeat split; vm_compute; reflexivity).
  destruct (sent_segment_is_received Steering.ex_config 0 (fun _ => None) true 1 r 0 (ex_frame 0 true ex_filled) _ 20 ex_segment ex_filled _ f
    H eq_refl Hpl ltac:(vm_compute; split; discriminate) E2) as [s' Hs].
  exists r, f. eexists _, s'. split; [exact E1|]. split; [exact E3|]. split; [|exact Hs]. reflexivity.
Defined.

(** the length of a TCP header is not checked: a segment that is shorter than
    the data offset in its header says is handed up with a payload of almost
    [2 ^ 64] bytes. *)
Theorem short_segment_length_wraps c v socks fm fuel r p s d m k f : plain c v s p d m ->
  Checksum.protocol (Checksum.ip_header m) = Checksum.IPPROTO_TCP -> header_len m + 20 <= Z.of_nat (length m) -> is_sw_csum_need d = false ->
  total_len m - header_len m < data_offset m -> find_tcp r (daddr m) (saddr m) (dport m) (sport m) = Some (k, f) ->
  exists i s', rx_process_buffer c v socks fm fuel r p s = Ret (Dispatch k f i, s') /\ sz_payload i >= 2 ^ 64 - 60.
Proof.
  intros H Hp Hl Hc Hd Hf. destruct (rx_tcp_plain c v socks fm fuel r p s d m H Hp Hl) as (s' & ->); [by rewrite Hc|].
  rewrite Hf. eexists _, s'. split; [done|]. unfold tcp_info. simpl sz_payload. pose proof (pl_tot _ _ _ _ _ _ H) as Ht. fold (header_len m) (total_len m) in Ht.
  assert (data_offset m <= 60).
  { unfold data_offset. assert (0 <= header_len m) by (pose proof (pl_ihl _ _ _ _ _ _ H); unfold header_len; lia).
    destruct (lookup_lt_is_Some_2 m (Z.to_nat (header_len m) + 12)) as [b Hb]; [lia|]. rewrite (list_lookup_total_correct _ _ _ Hb).
    pose proof (proj1 (list.Forall_lookup _ _) (pl_bytes _ _ _ _ _ _ H) _ _ Hb) as Hr. simpl in Hr.
    rewrite Z.shiftr_div_pow2 by lia. pose proof (Z.div_lt_upper_bound b (2 ^ 4) 16). lia. }
  unfold wrap. replace (total_len m - header_len m - data_offset m) with (2 ^ 64 + (total_len m - header_len m - data_offset m) + (-1) * 2 ^ 64) by lia.
  rewrite Z.mod_add, Z.mod_small by lia. lia.
Qed.

(** Eight bytes behind the IP header. *)
Definition ex_short : list Z :=
  [69; 0; 0; 28; 0; 1; 0; 0; 64; 6; 0; 0; 10; 0; 0; 3; 10; 0; 0; 1;
   15; 160; 0; 80; 0; 0; 0; 1; 0; 0; 0; 2; 80; 16; 4; 0; 0; 0; 0; 0] ++ replicate 13 0.

Lemma short_segment_length_wraps_witness :
  plain Steering.ex_config 0 (ex_frame 0 false ex_short) 0 (Desc (replicate 12 0 ++ [8; 0] ++ ex_short) 0 false 0 0 0) ex_short /\
  exists r f i s', ex_ring = Some r /\ sz_payload i >= 2 ^ 64 - 60 /\
    rx_process_buffer Steering.ex_config 0 (fun _ => None) true 1 r 0 (ex_frame 0 false ex_short) =
    Ret (Dispatch (Steering.ex_flow (htonl 0x0a000003)) f i, s').
Proof.
  assert (plain Steering.ex_config 0 (ex_frame 0 false ex_short) 0 (Desc (replicate 12 0 ++ [8; 0] ++ ex_short) 0 false 0 0 0) ex_short) as Hpl.
  { split; try (vm_compute; reflexivity); try (vm_compute; discriminate).
    - eexists. split; [|reflexivity]. reflexivity.
    - apply (bool_decide_unpack _). vm_compute. exact I.
    - vm_compute. split; discriminate.
    - eexists. split; [reflexivity|]. vm_compute. split; discriminate. }
  split; [exact Hpl|].
  assert (exists r f, ex_ring = Some r /\ find_tcp r (daddr ex_short) (saddr ex_short) (dport ex_short) (sport ex_short) =
    Some (Steering.ex_flow (htonl 0x0a000003), f)) as (r & f & E1 & E2) by (do 2 eexists; repeat split; vm_compute; reflexivity).
  destruct (short_segment_length_wraps Steering.ex_config 0 (fun _ => None) true 1 r 0 (ex_frame 0 false ex_short) _ ex_short _ f
    Hpl eq_refl ltac:(vm_compute; discriminate) eq_refl ltac:(vm_compute; reflexivity) E2) as (i & s' & H1 & H2).
  exists r, f, i, s'. split; [exact E1|]. split; [exact H2|exact H1].
Defined.

(** Whether the adapter's rule takes a packet of the tuple. *)
Definition matches (q : Steering.pattern) (t : Steering.flow_tuple) : bool :=
  let field a b := bool_decide (a = 0) || bool_decide (a = b) in
  field (Steering.spec_dst_ip q) (Steering.m_dst_ip t) && field (Steering.spec_src_ip q) (Steering.m_src_ip t) &&
  field (Steering.spec_dst_port q) (Steering.m_dst_port t) && field (Steering.spec_src_port q) (Steering.m_src_port t) &&
  bool_decide (Steering.is_tcp_spec q = Some (Steering.is_tcp t)).

(** An Ethernet frame with the packet [m] (no VLAN tag, no IP options) that the
    adapter has tagged and whose checksums it has verified. *)
Record tagged (s : state) (p : nat) (d : rx_desc) (id : Z) (m : list Z) : Prop := {
  tg_desc : descs s !! p = Some d;
  tg_buf : exists b, Frag.bufs (mgr s) !! p = Some b /\ Frag.sz_data b <= Z.of_nat (length (mem d));
  tg_id : flow_tag_id d = id;
  tg_csum : is_sw_csum_need d = false;
  tg_frame : exists e, length e = 14%nat /\ mem d = e ++ m /\ rd16 (mem d) 12 = Ret (htons ETH_P_IP);
  tg_header : header_len m = 20;
  tg_length : 40 <= Z.of_nat (length m)
}.

(** The fast path asks nobody but the tag. *)
Lemma tagged_bypass c v socks fm fuel r p s d id m : tagged s p d id m ->
  Steering.m_flow_tag_enabled c = true -> 0 < id < Steering.FLOW_TAG_MASK -> socks (id - 1) = Some (Socket true true) ->
  exists i, rx_process_buffer c v socks fm fuel r p s = Ret (Bypass (id - 1) i, s) /\
    src_ip i = saddr m /\ src_port i = sport m /\ dst_ip i = daddr m /\ dst_port i = dport m.
Proof.
  intros H Hc Hid Hs. destruct (tg_buf _ _ _ _ _ H) as (b & Eb & Hsz). destruct (tg_frame _ _ _ _ _ H) as (e & He & Em & E12).
  pose proof (tg_length _ _ _ _ _ H) as Hl. pose proof (tg_header _ _ _ _ _ H) as Hh.
  unfold rx_process_buffer. rewrite (tg_desc _ _ _ _ _ H), Eb, decide_False by lia.
  unfold fast_path. rewrite Hc, (tg_id _ _ _ _ _ H), (tg_csum _ _ _ _ _ H), !bool_decide_false by lia. cbn [negb andb]. rewrite Hs.
  cbn [flow_tag_enabled tcp_flow_is_5t]. rewrite E12. cbn [mbind res_bind]. rewrite decide_False by done. unfold ETH_HDR_LEN, fast_tcp.
  rewrite Em, !rd16_in, !rd32_in, rd8_in by lia. cbn [mbind res_bind]. eexists. split; [reflexivity|]. simpl.
  unfold sport, dport, saddr, daddr. rewrite Hh. split_and!; reflexivity.
Qed.

Section shared_rule.
Context (c : Steering.config) (create_ok : nat -> bool) (r : Steering.ring).
Context (ip port peer1 sport1 peer2 sport2 : Z) (s1 s2 : Steering.sockinfo).
Let k1 := Steering.Tcp ip peer1 port sport1.
Let k2 := Steering.Tcp ip peer2 port sport2.
Context (C1 : Steering.is_simple c = true) (C2 : Steering.m_transport_type c = Steering.VMA_TRANSPORT_ETH)
  (C3 : Steering.tcp_3t_rules c = true) (C4 : Steering.m_flow_tag_enabled c = true) (C5 : Steering.gro_streams_max c = false).
Context (Hco : create_ok (Steering.next_flow r) = true) (Hne : k1 <> k2)
  (F0 : Steering.filters r !! Steering.Tcp_dst_port (Steering.rule_key_t ip port) = None)
  (F1 : Steering.flows r !! k1 = None) (F2 : Steering.flows r !! k2 = None)
  (Htag : 0 < Steering.flow_tag_val s1 < Steering.FLOW_TAG_MASK).

(** Both connections attach: one rule, with the first one's tag. *)
Lemma shared_attach : exists r1 r2 x1 t2 x2 a f2,
  Steering.attach_flow c create_ok true (Steering.tuple_of k1) s1 r = Some (true, Some (Steering.flow_tag_val s1), x1, r1) /\
  Steering.attach_flow c create_ok true (Steering.tuple_of k2) s2 r1 = Some (true, t2, x2, r2) /\
  Steering.hw r2 = <[Steering.next_flow r := a]> (Steering.hw r) /\ Steering.tag a = Steering.flow_tag_val s1 /\
  Steering.pat a = Steering.Pattern None ip 0 (Some true) port 0 /\
  Steering.flows r2 !! k2 = Some f2 /\ Steering.m_sinks_list f2 = [Steering.si_id s2].
Proof using C1 C2 C3 C4 C5 Hco Hne F0 F1 F2 Htag.
  assert (forall t b, Steering.is_tcp t = true -> Steering.flow_tag c s1 t b = Steering.flow_tag_val s1) as Ht.
  { intros t b E. unfold Steering.flow_tag. rewrite C4, C5, decide_False by lia. unfold Steering.is_udp_uc, Steering.is_udp_mc.
    unfold Steering.is_tcp in E. apply bool_decide_eq_true in E. rewrite E. simpl. by rewrite andb_false_r. }
  set (gr := Steering.Tcp_dst_port (Steering.rule_key_t ip port)) in *.
  assert (forall k, k = k1 \/ k = k2 -> Steering.key_of (Steering.tuple_of k) = Some k /\ Steering.group_of c k = Some gr) as Hk.
  { intros k [-> | ->]; (split; [done|]); simpl; by rewrite C3. }
  assert (forall k id, k = k1 \/ k = k2 -> Steering.build_rfs c k (Steering.tuple_of k) id =
    Some (Steering.rfs_new (Some gr) [(Steering.FlowAttr (Steering.Pattern None ip 0 (Some true) port 0) 1 id, None)] id)) as Hb.
  { intros k id [-> | ->]; unfold Steering.build_rfs, Steering.prepare_flow_spec_uc; rewrite C1; simpl;
      rewrite C2, C3; reflexivity. }
  destruct (Hk k1 ltac:(auto)) as [K1 G1], (Hk k2 ltac:(auto)) as [K2 G2].
  set (a := Steering.FlowAttr (Steering.Pattern None ip 0 (Some true) port 0) 1 (Steering.flow_tag_val s1)).
  set (h := Steering.next_flow r).
  set (r0 := Steering.Ring (Steering.flows r) (<[gr := (1, [Some h])]> (Steering.filters r)) (<[h := a]> (Steering.hw r)) (S h)).
  assert (exists f1, Steering.rfs_attach_flow c create_ok (Steering.si_id s1)
    (Steering.rfs_new (Some gr) [(a, None)] (Steering.flow_tag_val s1)) (Steering.set_filter gr (1, []) r) = (true, f1, r0)) as (f1 & Ef1).
  { unfold Steering.rfs_attach_flow, Steering.prepare_filter_attach. simpl. rewrite lookup_insert_eq. simpl. rewrite C1.
    unfold Steering.create_ibv_flow. simpl. rewrite Hco. simpl. eexists. f_equal. unfold Steering.filter_keep_attached. simpl.
    rewrite lookup_insert_eq. unfold Steering.set_filter. simpl. by rewrite insert_insert_eq. }
  set (r1 := Steering.set_flow k1 f1 r0). set (r2 := Steering.set_filter gr (2, [Some h]) r1).
  assert (exists f2, forall id, Steering.rfs_attach_flow c create_ok (Steering.si_id s2)
    (Steering.rfs_new (Some gr) [(Steering.FlowAttr (Steering.pat a) 1 id, None)] id) r2 = (true, f2 id, r2) /\
    Steering.m_sinks_list (f2 id) = [Steering.si_id s2]) as (f2 & Ef2).
  { eexists (fun id => _). intros id. unfold Steering.rfs_attach_flow, Steering.prepare_filter_attach. simpl. rewrite lookup_insert_eq. simpl.
    split; reflexivity. }
  set (id2 := Steering.flow_tag c s2 (Steering.tuple_of k2) true). destruct (Ef2 id2) as [E2 S2].
  exists r1, (Steering.set_flow k2 (f2 id2) r2). do 3 eexists. exists a, (f2 id2). split; [|split; [|split_and!]]; try done.
  - unfold Steering.attach_flow, Steering.attach_begin. rewrite K1. cbn [mbind option_bind].
    assert (Steering.count_up c k1 r = Steering.set_filter gr (1, []) r) as -> by (unfold Steering.count_up; by rewrite G1, F0).
    assert (Steering.flows (Steering.set_filter gr (1, []) r) !! k1 = None) as Fk by done.
    rewrite Fk, bool_decide_true, Ht, Hb by auto.
    unfold Steering.attach_end. rewrite Fk. cbn [mbind option_bind]. fold a. rewrite Ef1, Ht by done.
    rewrite !bool_decide_false by lia. reflexivity.
  - unfold Steering.attach_flow, Steering.attach_begin. rewrite K2. cbn [mbind option_bind].
    assert (Steering.count_up c k2 r1 = r2) as ->.
    { unfold Steering.count_up. rewrite G2. simpl. by rewrite lookup_insert_eq. }
    assert (Steering.flows r2 !! k2 = None) as Fk by (simpl; by rewrite lookup_insert_ne).
    rewrite Fk, bool_decide_true, Hb by auto. unfold Steering.attach_end. rewrite Fk. cbn [mbind option_bind].
    fold id2. change (Steering.Pattern None ip 0 (Some true) port 0) with (Steering.pat a). rewrite E2. reflexivity.
  - simpl. apply lookup_insert_eq.
Qed.

End shared_rule.


(** ** Handing up *)

(** A unicast packet goes to the sinks in their order until one keeps it, a
    multicast packet to all.  The buffer is reported as kept exactly when a sink
    that was given it took a reference, and its references are those. *)
Lemma uc_loop_spec keeps l : let '(called, n, b) := uc_loop keeps l in
  n = Z.of_nat (length (filter (fun s => keeps s = true) called)) /\ n = (if b then 1 else 0) /\
  (b = true <-> exists s, s ∈ l /\ keeps s = true) /\ (b = false -> called = l).
Proof.
  induction l as [|x l IH]; simpl; [split; [done|]; split; [done|]; split; [|done]; split; [done|]; by intros (? & ?%elem_of_nil & _)|].
  destruct (keeps x) eqn:Ex.
  - rewrite filter_cons_True by done. split; [done|]. split; [done|]. split; [|done]. split; [|done]. intros _. exists x. split; [by left|done].
  - destruct (uc_loop keeps l) as [[called n] b]. destruct IH as (I1 & I2 & I3 & I4). rewrite filter_cons_False by congruence.
    split; [done|]. split; [done|]. split; [|intros Hb; by rewrite I4].
    rewrite I3. split; intros (y & Hy & E); [exists y; split; [by right|done]|].
    apply elem_of_cons in Hy as [->|Hy]; [congruence|by exists y].
Qed.

Lemma dispatch_counts_references keeps f : 
  (let '(called, n, b) := uc_dispatch keeps false f in
   n = Z.of_nat (length (filter (fun s => keeps s = true) called)) /\ (b = true <-> n > 0) /\ n <= 1 /\ (b = false -> called = Steering.m_sinks_list f)) /\
  (let '(called, n, b) := mc_dispatch keeps f in
   n = Z.of_nat (length (filter (fun s => keeps s = true) called)) /\ (b = true <-> n > 0) /\ called = Steering.m_sinks_list f).
Proof.
  split.
  - unfold uc_dispatch. pose proof (uc_loop_spec keeps (Steering.m_sinks_list f)) as H. destruct (uc_loop _ _) as [[called n] b].
    destruct H as (H1 & H2 & _ & H4). split; [done|]. split; [|split; [|done]]; rewrite H2; by destruct b.
  - unfold mc_dispatch. split; [done|]. split; [|done]. rewrite bool_decide_eq_true. lia.
Qed.
End RingRx.
