(* ===== verification/RingAlloc.v ===== *)
(** * Ring allocation: src/src/vma/dev/ring_allocation_logic.cpp and .h

    [ring_allocation_logic] computes the key of the ring a socket uses (per
    interface, address, socket, thread or core) and decides, call by call of
    [should_migrate_ring], when a thread that now runs elsewhere should move to
    another ring.  [cpu_manager] attaches threads to the least loaded core.

    What the code asks of the system at each call (the thread, the core, the
    affinity) is an argument. *)

From S2P Require Import Prelude.

Local Open Scope Z_scope.

Module RingAlloc.

Definition CANDIDATE_STABILITY_ROUNDS : Z := 20.
Definition MAX_CPU : Z := 1024.
Definition NO_CPU : Z := -1.
Definition START_RING_INDEX : Z := 1.

Inductive ring_logic_t :=
  | RING_LOGIC_PER_INTERFACE | RING_LOGIC_PER_IP | RING_LOGIC_PER_SOCKET | RING_LOGIC_PER_USER_ID
  | RING_LOGIC_PER_THREAD | RING_LOGIC_PER_CORE | RING_LOGIC_PER_CORE_ATTACH_THREADS.

#[export] Instance ring_logic_eq_dec : EqDecision ring_logic_t.
Proof. solve_decision. Defined.

(** The enumerators' values. *)
Definition logic_num (l : ring_logic_t) : Z :=
  match l with
  | RING_LOGIC_PER_INTERFACE => 0 | RING_LOGIC_PER_IP => 1 | RING_LOGIC_PER_SOCKET => 10
  | RING_LOGIC_PER_USER_ID => 11 | RING_LOGIC_PER_THREAD => 20 | RING_LOGIC_PER_CORE => 30
  | RING_LOGIC_PER_CORE_ATTACH_THREADS => 31
  end.

Record resource_allocation_key := ResKey {
  ring_alloc_logic : ring_logic_t;
  ring_profile_key : Z;
  user_id_key : Z;
}.

Record source_t := Source { m_fd : Z; m_ip : Z }.

Record ring_allocation_logic := RAL {
  m_ring_migration_ratio : Z;
  m_source : source_t;
  m_migration_try_count : Z;
  m_migration_candidate : Z;
  m_active : bool;
  m_res_key : resource_allocation_key;
}.

(** What a call observes. *)
Record env := Env { pthread_self : Z; sched_getcpu : Z; tcp_ctl_thread : Z }.

Definition set_user_id_key (k : Z) (r : resource_allocation_key) : resource_allocation_key :=
  ResKey (ring_alloc_logic r) (ring_profile_key r) k.

Definition calc_res_key_by_logic (e : env) (s : ring_allocation_logic) : Z :=
  match ring_alloc_logic (m_res_key s) with
  | RING_LOGIC_PER_INTERFACE => if decide (tcp_ctl_thread e > 0) then 1 else 0
  | RING_LOGIC_PER_IP => m_ip (m_source s)
  | RING_LOGIC_PER_SOCKET => u64 (m_fd (m_source s))
  | RING_LOGIC_PER_USER_ID => user_id_key (m_res_key s)
  | RING_LOGIC_PER_THREAD => pthread_self e
  | RING_LOGIC_PER_CORE | RING_LOGIC_PER_CORE_ATTACH_THREADS => u64 (sched_getcpu e)
  end.

Definition set_key (k : Z) (s : ring_allocation_logic) : ring_allocation_logic :=
  RAL (m_ring_migration_ratio s) (m_source s) (m_migration_try_count s) (m_migration_candidate s)
    (m_active s) (set_user_id_key k (m_res_key s)).
Definition set_migration (cnt cand : Z) (s : ring_allocation_logic) : ring_allocation_logic :=
  RAL (m_ring_migration_ratio s) (m_source s) cnt cand (m_active s) (m_res_key s).

(** The constructor; the second result is the caller's profile, which it may
    update. *)
Definition ctor (allocation_logic : ring_logic_t) (ratio : Z) (source : source_t)
    (profile : resource_allocation_key) (e : env) : ring_allocation_logic * resource_allocation_key :=
  let profile :=
    if decide (ring_alloc_logic profile = RING_LOGIC_PER_INTERFACE /\
               ring_profile_key profile < START_RING_INDEX)
    then ResKey allocation_logic (ring_profile_key profile) (user_id_key profile) else profile in
  let s := RAL ratio source ratio 0 true profile in
  (set_key (calc_res_key_by_logic e s) s, profile).

Definition is_logic_support_migration (s : ring_allocation_logic) : bool :=
  bool_decide (logic_num (ring_alloc_logic (m_res_key s)) >= 20 /\ m_ring_migration_ratio s > 0).

Definition enable_migration (active : bool) (s : ring_allocation_logic) : ring_allocation_logic :=
  RAL (m_ring_migration_ratio s) (m_source s) (m_migration_try_count s) (m_migration_candidate s)
    active (m_res_key s).

(** [internal] is [g_n_internal_thread_id]. *)
Definition should_migrate_ring (internal : Z) (e : env) (s : ring_allocation_logic)
  : bool * ring_allocation_logic :=
  if negb (m_active s) then (false, s)
  else
    let new_id := calc_res_key_by_logic e s in
    let cand := m_migration_candidate s in
    if ctrue cand && bool_decide (cand <> new_id) then (false, set_migration 0 0 s)
    else
      let count_max := if ctrue cand then CANDIDATE_STABILITY_ROUNDS else m_ring_migration_ratio s in
      if decide (m_migration_try_count s < count_max) then
        (false, set_migration (m_migration_try_count s + 1) cand s)
      else if negb (ctrue cand) then
        let curr_id := user_id_key (m_res_key s) in
        if decide (new_id = curr_id \/ internal = curr_id) then (false, set_migration 0 cand s)
        else (false, set_migration 0 new_id s)
      else (true, set_migration 0 0 s).

(** ** cpu_manager *)

Record cpu_manager := CpuMgr {
  m_cpu_thread_count : list Z;
  (** [g_n_thread_cpu_core] of each thread, [NO_CPU] where absent. *)
  g_n_thread_cpu_core : gmap Z Z;
}.

Definition reset (m : cpu_manager) : cpu_manager :=
  CpuMgr (replicate (Z.to_nat MAX_CPU) 0) (g_n_thread_cpu_core m).

Definition CPU_ISSET (i : Z) (set : list bool) : bool :=
  if decide (0 <= i < MAX_CPU) then default false (set !! Z.to_nat i) else false.

Definition CPU_COUNT (set : list bool) : Z := Z.of_nat (length (filter (.= true) set)).

(** The first core of the set, [MAX_CPU] if there is none. *)
Fixpoint first_set (i : Z) (set : list bool) : Z :=
  match set with
  | [] => i
  | b :: r => if b then i else first_set (i + 1) r
  end.

(** The loop that looks for the least loaded core of the set; it also stops
    when [avail] members were seen. *)
Fixpoint least_loaded (i j avail : Z) (set : list bool) (counts : list Z) (min_cpu_count cpu : Z)
  : Z * Z :=
  match set, counts with
  | b :: set, c :: counts =>
    if decide (j < avail) then
      if negb b then least_loaded (i + 1) j avail set counts min_cpu_count cpu
      else if decide (min_cpu_count < 0 \/ c < min_cpu_count)
      then least_loaded (i + 1) (j + 1) avail set counts c i
      else least_loaded (i + 1) (j + 1) avail set counts min_cpu_count cpu
    else (min_cpu_count, cpu)
  | _, _ => (min_cpu_count, cpu)
  end.

Definition count_at (m : cpu_manager) (cpu : Z) : Z :=
  default 0 (m_cpu_thread_count m !! Z.to_nat cpu).

(** [getaffinity]: the set of [tid], [None] on failure; [setaffinity]: whether
    attaching to the core succeeds.  -1 is the error result. *)
Definition reserve_cpu_for_thread (getaffinity : option (list bool)) (setaffinity : Z -> bool)
    (tid suggested_cpu : Z) (m : cpu_manager) : Z * cpu_manager :=
  let cpu := default NO_CPU (g_n_thread_cpu_core m !! tid) in
  if decide (cpu <> NO_CPU) then (cpu, m)
  else
    match getaffinity with
    | None => (-1, m)
    | Some set =>
      let avail_cpus := CPU_COUNT set in
      if decide (avail_cpus = 0) then (-1, m)
      else
        let '(ok, cpu) :=
          if decide (avail_cpus = 1) then (true, first_set 0 set)
          else
            let '(min_cpu_count, cpu) :=
              least_loaded 0 0 avail_cpus set (m_cpu_thread_count m) (-1) cpu in
            let cpu :=
              if decide (suggested_cpu >= 0 /\ CPU_ISSET suggested_cpu set = true /\
                         count_at m suggested_cpu <= min_cpu_count + 1)
              then suggested_cpu else cpu in
            (setaffinity cpu, cpu) in
        if negb ok then (-1, m)
        else
          let counts :=
            if decide (cpu > NO_CPU /\ cpu < MAX_CPU)
            then <[Z.to_nat cpu := count_at m cpu + 1]> (m_cpu_thread_count m)
            else m_cpu_thread_count m in
          (cpu, CpuMgr counts (<[tid := cpu]> (g_n_thread_cpu_core m)))
    end.

(** [create_new_key]. *)
Definition create_new_key (getaffinity : option (list bool)) (setaffinity : Z -> bool)
    (addr suggested_cpu : Z) (e : env) (m : cpu_manager) (s : ring_allocation_logic)
  : ring_allocation_logic * cpu_manager :=
  let logic := ring_alloc_logic (m_res_key s) in
  let '(cpu, m) :=
    if decide (logic = RING_LOGIC_PER_CORE_ATTACH_THREADS)
    then reserve_cpu_for_thread getaffinity setaffinity (pthread_self e) suggested_cpu m
    else (-1, m) in
  if decide (cpu >= 0) then (set_key cpu s, m)
  else
    let s := if decide (logic = RING_LOGIC_PER_IP)
             then RAL (m_ring_migration_ratio s) (Source (m_fd (m_source s)) addr)
                    (m_migration_try_count s) (m_migration_candidate s) (m_active s) (m_res_key s)
             else s in
    (set_key (calc_res_key_by_logic e s) s, m).

(** ** Migration *)

Section migration.
Context (internal : Z).

(** The state after the calls [es]. *)
Definition run (es : list env) (s : ring_allocation_logic) : ring_allocation_logic :=
  foldl (fun s e => (should_migrate_ring internal e s).2) s es.

(** The calls only count and keep a candidate. *)
Definition same (s s' : ring_allocation_logic) : Prop :=
  m_ring_migration_ratio s' = m_ring_migration_ratio s /\ m_source s' = m_source s /\
  m_active s' = m_active s /\ m_res_key s' = m_res_key s.

Lemma same_key s s' e : same s s' -> calc_res_key_by_logic e s' = calc_res_key_by_logic e s.
Proof using.
  intros (_ & E1 & _ & E2). unfold calc_res_key_by_logic. by rewrite E1, E2.
Qed.

Lemma should_migrate_same e s : same s (should_migrate_ring internal e s).2.
Proof using. unfold should_migrate_ring. repeat case_match; done. Qed.

Lemma run_app es1 es2 s : run (es1 ++ es2) s = run es2 (run es1 s).
Proof using. unfold run. by rewrite foldl_app. Qed.

Lemma run_same es s : same s (run es s).
Proof using.
  induction es as [|e es IH] using rev_ind; [done|]. rewrite run_app. simpl.
  destruct IH as (?&?&?&?), (should_migrate_same e (run es s)) as (?&?&?&?). split_and!; congruence.
Qed.

(** A candidate is backed by the calls since it was chosen. *)
Definition backed (s0 s : ring_allocation_logic) (es : list env) : Prop :=
  let k := m_migration_candidate s in
  k <> 0 ->
  k <> user_id_key (m_res_key s0) /\ internal <> user_id_key (m_res_key s0) /\
  0 <= m_migration_try_count s <= CANDIDATE_STABILITY_ROUNDS /\
  exists es1 es2, es = es1 ++ es2 /\ Z.of_nat (length es2) = m_migration_try_count s + 1 /\
    Forall (fun e => calc_res_key_by_logic e s0 = k) es2.

Lemma run_backed s0 es :
  m_active s0 = true -> m_migration_candidate s0 = 0 -> backed s0 (run es s0) es.
Proof using.
  intros Ha H0. induction es as [|e es IH] using rev_ind; [by intros ?|].
  rewrite run_app. simpl. set (s := run es s0) in *.
  pose proof (run_same es s0) as Hs. fold s in Hs. pose proof Hs as (_ & _ & Ea & Ek).
  unfold should_migrate_ring, backed, CANDIDATE_STABILITY_ROUNDS in *.
  rewrite Ea, Ha, (same_key _ _ e Hs), Ek. simpl.
  destruct (decide (m_migration_candidate s = 0)) as [Ec|Ec].
  - rewrite Ec. simpl. repeat case_decide; simpl; try done. intros Hk.
    split_and!; try tauto; try lia. exists es, [e]. split_and!; try done. by repeat constructor.
  - rewrite (ctrue_ne _ Ec). simpl. case_bool_decide as Hne; simpl; [done|].
    case_decide; simpl; [|done]. intros _.
    destruct (IH Ec) as (? & ? & ? & es1 & es2 & -> & El & Hf).
    split_and!; try done; try lia. exists es1, (es2 ++ [e]).
    rewrite app_assoc, length_app. split_and!; [done|simpl; lia|].
    apply Forall_app. split; [done|]. by repeat constructor.
Qed.

(** With the same key at every call, the calls first use up the ratio, then
    pick the candidate, then count its rounds. *)
Lemma steady s e k :
  m_active s = true -> calc_res_key_by_logic e s = k -> k <> 0 ->
  k <> user_id_key (m_res_key s) -> internal <> user_id_key (m_res_key s) ->
  m_migration_candidate s = 0 \/ m_migration_candidate s = k ->
  should_migrate_ring internal e s =
    let c := m_migration_try_count s in
    if decide (m_migration_candidate s = 0) then
      (false, if decide (c < m_ring_migration_ratio s) then set_migration (c + 1) 0 s
              else set_migration 0 k s)
    else if decide (c < CANDIDATE_STABILITY_ROUNDS) then (false, set_migration (c + 1) k s)
    else (true, set_migration 0 0 s).
Proof using.
  intros Ha Hk H0 H1 H2 Hc. unfold should_migrate_ring. rewrite Ha, Hk. simpl.
  destruct Hc as [Hc|Hc]; rewrite Hc.
  - simpl. case_decide; [done|].
    rewrite decide_False by tauto. done.
  - rewrite (ctrue_ne _ H0), bool_decide_false by tauto. simpl.
    rewrite (decide_False (P := k = 0)) by done. done.
Qed.

(** Calls left until the migration, when every call sees the same key. *)
Definition calls_left (s : ring_allocation_logic) : Z :=
  if decide (m_migration_candidate s = 0)
  then Z.max 0 (m_ring_migration_ratio s - m_migration_try_count s) + 1 + CANDIDATE_STABILITY_ROUNDS
  else CANDIDATE_STABILITY_ROUNDS - m_migration_try_count s.

Lemma steady_run k es e s :
  m_active s = true -> k <> 0 -> k <> user_id_key (m_res_key s) ->
  internal <> user_id_key (m_res_key s) ->
  m_migration_candidate s = 0 \/ m_migration_candidate s = k /\ m_migration_try_count s <= 20 ->
  Forall (fun e => calc_res_key_by_logic e s = k) (es ++ [e]) ->
  Z.of_nat (length es) = calls_left s ->
  (should_migrate_ring internal e (run es s)).1 = true.
Proof using.
  intros Ha H0 H1 H2. revert s Ha H1 H2. induction es as [|e' es IH]; intros s Ha H1 H2 Hc Hf El.
  - simpl in *. apply list.Forall_cons in Hf as [He _].
    rewrite (steady s e k) by naive_solver. unfold calls_left, CANDIDATE_STABILITY_ROUNDS in *.
    simpl. repeat case_decide; simpl; try done; lia.
  - change (run (e' :: es) s) with (run es (should_migrate_ring internal e' s).2).
    simpl in Hf. apply list.Forall_cons in Hf as [He Hf].
    rewrite (steady s e' k) by naive_solver. unfold calls_left, CANDIDATE_STABILITY_ROUNDS in *.
    simpl length in El. simpl.
    repeat case_decide; simpl; try lia;
      (apply IH; simpl; try done; [naive_solver lia|repeat case_decide; simpl; lia]).
Qed.
End migration.

(** A ring migrates exactly for a stable reason.  A call recommends the
    migration only if it and the 21 calls before it all saw one and the same
    key, different from the ring's key (and the ring is not the internal
    thread's); and if from some point on every call sees such a key, the
    recommendation comes after the ratio, the choice of the candidate and its
    twenty rounds. *)
Theorem should_migrate_ring_stable internal s es e :
  m_active s = true -> m_migration_candidate s = 0 ->
  ((should_migrate_ring internal e (run internal es s)).1 = true ->
   exists k es1 es2, es = es1 ++ es2 /\ length es2 = 21%nat /\
     Forall (fun e => calc_res_key_by_logic e s = k) (es2 ++ [e]) /\
     k <> 0 /\ k <> user_id_key (m_res_key s) /\ internal <> user_id_key (m_res_key s)) /\
  (forall k, k <> 0 -> k <> user_id_key (m_res_key s) -> internal <> user_id_key (m_res_key s) ->
   Forall (fun e => calc_res_key_by_logic e s = k) (es ++ [e]) ->
   Z.of_nat (length es) =
     Z.max 0 (m_ring_migration_ratio s - m_migration_try_count s) + 1 + CANDIDATE_STABILITY_ROUNDS ->
   (should_migrate_ring internal e (run internal es s)).1 = true).
Proof.
  intros Ha H0. split.
  - pose proof (run_backed internal s es Ha H0) as Hb. pose proof (run_same internal es s) as Hs.
    set (s' := run internal es s) in *. unfold should_migrate_ring, backed, CANDIDATE_STABILITY_ROUNDS in *.
    destruct (negb (m_active s')); [done|]. rewrite (same_key _ _ e Hs).
    destruct (decide (m_migration_candidate s' = 0)) as [Ec|Ec].
    { rewrite Ec. simpl. repeat case_decide; done. }
    rewrite (ctrue_ne _ Ec). simpl. case_bool_decide as Hne; [done|]. case_decide; [done|].
    intros _. destruct (Hb Ec) as (? & ? & ? & es1 & es2 & -> & El & Hf).
    exists (m_migration_candidate s'), es1, es2. split_and!; try done; [lia|].
    apply Forall_app. split; [done|]. repeat constructor. done.
  - intros k Hk H1 H2 Hf El. eapply steady_run; [done|exact Hk|done|done|by left|done|].
    unfold calls_left. by rewrite decide_True.
Qed.

Definition core_logic (cpu : Z) : ring_allocation_logic :=
  RAL 2 (Source 5 0) 2 0 true (ResKey RING_LOGIC_PER_CORE 0 cpu).

Lemma should_migrate_ring_stable_witness :
  (should_migrate_ring 77 (Env 1 3 0) (run 77 (replicate 21 (Env 1 3 0)) (core_logic 1))).1 = true.
Proof.
  apply (should_migrate_ring_stable 77 (core_logic 1) (replicate 21 (Env 1 3 0)) (Env 1 3 0))
    with (k := 3); try done; try lia.
  repeat constructor.
Defined.

(** Core 0 is never migrated to.  The key 0 (the ring of core 0) also means
    "no candidate": a socket whose thread stays on core 0 is never told to
    migrate, whatever ring it uses and however long it waits. *)
Theorem no_migration_to_key_zero internal s es e :
  m_migration_candidate s = 0 ->
  Forall (fun e => calc_res_key_by_logic e s = 0) (es ++ [e]) ->
  (should_migrate_ring internal e (run internal es s)).1 = false.
Proof.
  intros H0 Hf.
  assert (forall e' s', same s s' -> m_migration_candidate s' = 0 -> calc_res_key_by_logic e' s = 0 ->
    (should_migrate_ring internal e' s').1 = false /\
    m_migration_candidate (should_migrate_ring internal e' s').2 = 0) as Hstep.
  { intros e' s' Hs Hc Hk. unfold should_migrate_ring. rewrite (same_key _ _ e' Hs), Hk, Hc. simpl.
    repeat case_match; done. }
  apply Forall_app in Hf as [Hf He]. apply list.Forall_cons in He as [He _].
  apply Hstep; [apply run_same| |done]. clear He. induction es as [|e' es IH] using rev_ind; [done|].
  apply Forall_app in Hf as [Hf He']. apply list.Forall_cons in He' as [He' _].
  rewrite run_app. apply Hstep; [apply run_same|by apply IH|done].
Qed.

Lemma no_migration_to_key_zero_witness :
  (should_migrate_ring 77 (Env 1 0 0) (run 77 (replicate 100 (Env 1 0 0)) (core_logic 1))).1 = false.
Proof.
  apply (no_migration_to_key_zero 77 (core_logic 1) (replicate 100 (Env 1 0 0)) (Env 1 0 0)); [done|].
  repeat constructor.
Defined.

(** ** The choice of a core *)

Lemma CPU_COUNT_cons b set : CPU_COUNT (b :: set) = (if b then 1 else 0) + CPU_COUNT set.
Proof. unfold CPU_COUNT. rewrite filter_cons. destruct b; simpl; lia. Qed.

Lemma CPU_COUNT_0 set n : CPU_COUNT set = 0 -> set !! n <> Some true.
Proof.
  revert n. induction set as [|b set IH]; intros n; [done|]. rewrite CPU_COUNT_cons.
  assert (0 <= CPU_COUNT set) by (unfold CPU_COUNT; lia).
  destruct b; [lia|]. destruct n as [|n]; simpl; [done|]. intros ?. apply IH. lia.
Qed.

Lemma least_loaded_spec i j avail set counts mn cpu :
  length set = length counts -> Forall (fun c => 0 <= c) counts -> avail - j = CPU_COUNT set ->
  let '(mn', cpu') := least_loaded i j avail set counts mn cpu in
  (forall n c, set !! n = Some true -> counts !! n = Some c -> mn' <= c) /\
  (0 <= mn -> mn' <= mn) /\
  ((0 <= mn /\ mn' = mn /\ cpu' = cpu) \/ (mn < 0 /\ CPU_COUNT set = 0) \/
   exists n, cpu' = i + Z.of_nat n /\ set !! n = Some true /\ counts !! n = Some mn').
Proof.
  revert i j counts mn cpu. induction set as [|b set IH]; intros i j [|c counts] mn cpu Hl Hf Ha; try done.
  { simpl. split_and!; try done. destruct (decide (0 <= mn)); [by left|right; left]. split; [lia|done]. }
  simpl in Hl. injection Hl as Hl. apply list.Forall_cons in Hf as [Hc Hf]. rewrite CPU_COUNT_cons in *.
  assert (0 <= CPU_COUNT set) by (unfold CPU_COUNT; lia). simpl. destruct (decide (j < avail)) as [Hj|Hj].
  2: { assert (b = false /\ CPU_COUNT set = 0) as [-> E] by (destruct b; lia).
    split_and!; try done.
    - intros [|n] c' Hs; simpl in *; [done|]. by apply CPU_COUNT_0 in Hs.
    - destruct (decide (0 <= mn)); [by left|right; left; lia]. }
  assert (forall mn0 cpu0 j0, avail - j0 = CPU_COUNT set -> (b = true -> 0 <= mn0 <= c) ->
      (0 <= mn -> mn0 <= mn) ->
      ((mn0 = mn /\ cpu0 = cpu /\ (b = true -> 0 <= mn)) \/ (b = true /\ mn0 = c /\ cpu0 = i)) ->
    let '(mn', cpu') := least_loaded (i + 1) j0 avail set counts mn0 cpu0 in
    (forall n c', (b :: set) !! n = Some true -> (c :: counts) !! n = Some c' -> mn' <= c') /\
    (0 <= mn -> mn' <= mn) /\
    ((0 <= mn /\ mn' = mn /\ cpu' = cpu) \/ (mn < 0 /\ (if b then 1 else 0) + CPU_COUNT set = 0) \/
     exists n, cpu' = i + Z.of_nat n /\ (b :: set) !! n = Some true /\ (c :: counts) !! n = Some mn')) as Hgo.
  { intros mn0 cpu0 j0 Hj0 Hb Hle Hcase. specialize (IH (i + 1) j0 counts mn0 cpu0 Hl Hf Hj0).
    destruct (least_loaded _ _ _ _ _ _ _) as [mn' cpu']. destruct IH as (I1 & I2 & I3). split_and!.
    - intros [|n] c' Hs Hcc; simpl in *; [|by eapply I1]. simplify_eq. specialize (Hb eq_refl). lia.
    - intros Hmn. destruct (decide (0 <= mn0)); [lia|]. destruct Hcase as [[-> _]|[? [-> _]]]; lia.
    - destruct I3 as [(? & -> & ->)|[[? ?]|(n & -> & Hn1 & Hn2)]].
      + destruct Hcase as [(-> & -> & _)|(-> & -> & ->)]; [by left|]. right; right. exists 0%nat. simpl.
        split_and!; try done. lia.
      + destruct Hcase as [(-> & -> & Hm)|(-> & -> & ->)]; [|lia]. right; left. destruct b; [|lia].
        specialize (Hm eq_refl). lia.
      + right; right. exists (S n). simpl. split_and!; try done. lia. }
  destruct b; simpl negb; cbn iota.
  - case_decide; apply Hgo; try lia; try tauto; intros; lia || (left; split_and!; done || lia).
  - apply Hgo; lia || done.
Qed.

Lemma first_set_spec i set :
  CPU_COUNT set = 1 ->
  exists n, first_set i set = i + Z.of_nat n /\ set !! n = Some true /\
    forall m, set !! m = Some true -> m = n.
Proof.
  revert i. induction set as [|b set IH]; intros i Hc; [done|]. rewrite CPU_COUNT_cons in Hc. simpl.
  destruct b.
  - exists 0%nat. split_and!; [lia|done|]. intros [|m]; [done|]. simpl. intros Hm.
    exfalso. eapply CPU_COUNT_0; [|done]. lia.
  - destruct (IH (i + 1)) as (n & -> & Hn & Hu); [lia|]. exists (S n). split_and!; [lia|done|].
    intros [|m]; [done|]. simpl. intros Hm. f_equal. by apply Hu.
Qed.

Lemma CPU_ISSET_spec set c :
  Z.of_nat (length set) = MAX_CPU ->
  CPU_ISSET c set = true <-> 0 <= c /\ set !! Z.to_nat c = Some true.
Proof.
  intros Hl. unfold CPU_ISSET, MAX_CPU in *. case_decide as Hd.
  - destruct (set !! Z.to_nat c) as [[]|]; simpl; naive_solver lia.
  - split; [done|]. intros [H0 Hs]. apply lookup_lt_Some in Hs. lia.
Qed.

(** The state of [cpu_manager]: one nonnegative count per core. *)
Definition cpu_ok (m : cpu_manager) : Prop :=
  Z.of_nat (length (m_cpu_thread_count m)) = MAX_CPU /\ Forall (fun c => 0 <= c) (m_cpu_thread_count m).

(** The core that is chosen before the attempt to attach. *)
Lemma choice_spec m set suggested :
  cpu_ok m -> Z.of_nat (length set) = MAX_CPU -> CPU_COUNT set <> 0 -> CPU_COUNT set <> 1 ->
  let '(mn, cpu) := least_loaded 0 0 (CPU_COUNT set) set (m_cpu_thread_count m) (-1) NO_CPU in
  let cpu' := if decide (suggested >= 0 /\ CPU_ISSET suggested set = true /\
                         count_at m suggested <= mn + 1) then suggested else cpu in
  CPU_ISSET cpu' set = true /\
  (forall c, CPU_ISSET c set = true -> count_at m cpu' <= count_at m c + 1) /\
  (cpu' <> suggested -> forall c, CPU_ISSET c set = true -> count_at m cpu' <= count_at m c).
Proof.
  intros [Hl Hf] Hs H0 H1.
  pose proof (least_loaded_spec 0 0 (CPU_COUNT set) set (m_cpu_thread_count m) (-1) NO_CPU
    ltac:(lia) Hf ltac:(lia)) as Hll.
  destruct (least_loaded _ _ _ _ _ _ _) as [mn cpu]. destruct Hll as (I1 & _ & I3).
  assert (forall c, CPU_ISSET c set = true -> mn <= count_at m c) as Hmin.
  { intros c [Hc1 Hc2]%CPU_ISSET_spec; [|done]. unfold count_at.
    destruct (lookup_lt_is_Some_2 (m_cpu_thread_count m) (Z.to_nat c)) as [x Hx].
    { apply lookup_lt_Some in Hc2. lia. }
    rewrite Hx. simpl. by eapply I1. }
  destruct I3 as [[? _]|[[_ ?]|(n & -> & Hn1 & Hn2)]]; [lia|lia|].
  assert (CPU_ISSET (0 + Z.of_nat n) set = true) as Hset.
  { apply CPU_ISSET_spec; [done|]. rewrite Z.add_0_l, Nat2Z.id. split; [lia|done]. }
  assert (count_at m (0 + Z.of_nat n) = mn) as Hcnt.
  { unfold count_at. rewrite Z.add_0_l, Nat2Z.id, Hn2. done. }
  cbv zeta. case_decide as Hd.
  - destruct Hd as (_ & Hd & Hle). split_and!; [done| |done]. intros c Hc. specialize (Hmin c Hc). lia.
  - rewrite Hcnt. split_and!; [done| |].
    + intros c Hc. specialize (Hmin c Hc). lia.
    + intros _ c Hc. by apply Hmin.
Qed.

(** Attaching threads to cores is balanced.  A thread not yet attached that
    may run somewhere gets a core it may run on, whose load is at most one above
    the least loaded such core (and least if the suggestion was not taken); that
    core's count goes up by one and no other count changes, and the same thread
    asking again gets the same core. *)
Theorem reserve_cpu_balanced m set tid suggested setaffinity :
  cpu_ok m -> Z.of_nat (length set) = MAX_CPU -> CPU_COUNT set <> 0 ->
  default NO_CPU (g_n_thread_cpu_core m !! tid) = NO_CPU -> (forall c, setaffinity c = true) ->
  exists cpu m', reserve_cpu_for_thread (Some set) setaffinity tid suggested m = (cpu, m') /\
    cpu_ok m' /\ CPU_ISSET cpu set = true /\
    (forall c, CPU_ISSET c set = true -> count_at m cpu <= count_at m c + 1) /\
    (cpu <> suggested -> forall c, CPU_ISSET c set = true -> count_at m cpu <= count_at m c) /\
    m_cpu_thread_count m' = <[Z.to_nat cpu := count_at m cpu + 1]> (m_cpu_thread_count m) /\
    forall aff sa sug, reserve_cpu_for_thread aff sa tid sug m' = (cpu, m').
Proof.
  intros Hok Hs H0 Ht Hsa. unfold reserve_cpu_for_thread at 1. rewrite Ht.
  rewrite decide_False by tauto. rewrite (decide_False (P := CPU_COUNT set = 0)) by done.
  (* it remains to finish with a good choice *)
  assert (forall cpu, CPU_ISSET cpu set = true ->
    (forall c, CPU_ISSET c set = true -> count_at m cpu <= count_at m c + 1) ->
    (cpu <> suggested -> forall c, CPU_ISSET c set = true -> count_at m cpu <= count_at m c) ->
    exists cpu0 m', (if negb true then (-1, m) else
        (cpu, CpuMgr (if decide (cpu > NO_CPU /\ cpu < MAX_CPU)
                then <[Z.to_nat cpu := count_at m cpu + 1]> (m_cpu_thread_count m)
                else m_cpu_thread_count m) (<[tid := cpu]> (g_n_thread_cpu_core m)))) = (cpu0, m') /\
      cpu_ok m' /\ CPU_ISSET cpu0 set = true /\
      (forall c, CPU_ISSET c set = true -> count_at m cpu0 <= count_at m c + 1) /\
      (cpu0 <> suggested -> forall c, CPU_ISSET c set = true -> count_at m cpu0 <= count_at m c) /\
      m_cpu_thread_count m' = <[Z.to_nat cpu0 := count_at m cpu0 + 1]> (m_cpu_thread_count m) /\
      forall aff sa sug, reserve_cpu_for_thread aff sa tid sug m' = (cpu0, m')) as Hend.
  { intros cpu Hset Hb Hm. pose proof Hset as [Hc1 Hc2]%CPU_ISSET_spec; [|done].
    apply lookup_lt_Some in Hc2. unfold NO_CPU, MAX_CPU in *. rewrite decide_True by lia.
    eexists _, _. split; [done|]. destruct Hok as [Hl Hf]. split; [|split_and!; try done].
    - split; cbn [m_cpu_thread_count]; [by rewrite length_insert|].
      apply Forall_insert; [done|]. unfold count_at.
      destruct (m_cpu_thread_count m !! Z.to_nat cpu) as [x|] eqn:Ex; simpl; [|lia].
      assert (0 <= x) by (by eapply Forall_lookup_1 in Ex). lia.
    - intros aff sa sug. unfold reserve_cpu_for_thread. simpl. rewrite lookup_insert_eq. simpl.
      rewrite decide_True by (unfold NO_CPU; lia). done. }
  destruct (decide (CPU_COUNT set = 1)) as [E1|E1].
  - destruct (first_set_spec 0 set E1) as (n & -> & Hn & Hu). apply Hend.
    + apply CPU_ISSET_spec; [done|]. rewrite Z.add_0_l, Nat2Z.id. split; [lia|done].
    + intros c [Hc1 Hc2]%CPU_ISSET_spec; [|done]. apply Hu in Hc2.
      assert (c = 0 + Z.of_nat n) as -> by lia. lia.
    + intros _ c [Hc1 Hc2]%CPU_ISSET_spec; [|done]. apply Hu in Hc2.
      assert (c = 0 + Z.of_nat n) as -> by lia. lia.
  - pose proof (choice_spec m set suggested Hok Hs H0 E1) as Hch.
    destruct (least_loaded _ _ _ _ _ _ _) as [mn cpu]. cbv zeta in Hch. rewrite Hsa.
    destruct Hch as (C1 & C2 & C3). by apply Hend.
Qed.

Definition ex_rc_set := true :: true :: replicate 1022 false.
Definition ex_rc_m := CpuMgr (3 :: 1 :: replicate 1022 0) ∅.

Lemma reserve_cpu_balanced_witness :
  exists cpu m', reserve_cpu_for_thread (Some ex_rc_set) (fun _ => true) 9 (-1) ex_rc_m = (cpu, m') /\
    CPU_ISSET cpu ex_rc_set = true /\ count_at ex_rc_m cpu <= 1.
Proof.
  destruct (reserve_cpu_balanced ex_rc_m ex_rc_set 9 (-1) (fun _ => true))
    as (cpu & m' & E & _ & Hs & _ & Hm & _).
  - split; [by vm_compute|]. repeat constructor; lia.
  - by vm_compute.
  - by vm_compute.
  - done.
  - done.
  - exists cpu, m'. split_and!; try done. apply (Hm ltac:(intros ->; by vm_compute in Hs) 1). done.
Defined.

End RingAlloc.
