(* ===== verification/TcpBase.v ===== *)
(** * What the TCP files share: sequence numbers and header flags

    The sequence-number comparisons and header macros of
    src/src/vma/lwip/tcp_impl.h.  A sequence number is 32 bits; the comparisons
    look at the sign of the difference.  A header is its
    [_hdrlen_rsvd_flags] field in network byte order. *)

From S2P Require Import Prelude.

Local Open Scope Z_scope.

(** ** Comparison of sequence numbers *)

Definition TCP_SEQ_LT (a b : Z) : bool := bool_decide (s32 (u32 a - u32 b) < 0).
Definition TCP_SEQ_LEQ (a b : Z) : bool := bool_decide (s32 (u32 a - u32 b) <= 0).
Definition TCP_SEQ_GT (a b : Z) : bool := bool_decide (s32 (u32 a - u32 b) > 0).
Definition TCP_SEQ_GEQ (a b : Z) : bool := bool_decide (s32 (u32 a - u32 b) >= 0).
(** is b<=a<=c? *)
Definition TCP_SEQ_BETWEEN (a b c : Z) : bool := TCP_SEQ_GEQ a b && TCP_SEQ_LEQ a c.

(** ** Header flags *)

Definition TCP_FIN : Z := 0x01.
Definition TCP_SYN : Z := 0x02.
Definition TCP_RST : Z := 0x04.
Definition TCP_PSH : Z := 0x08.
Definition TCP_ACK : Z := 0x10.
Definition TCP_URG : Z := 0x20.
Definition TCP_ECE : Z := 0x40.
Definition TCP_CWR : Z := 0x80.
Definition TCP_FLAGS : Z := 0xff.

Definition TCPH_HDRLEN (hrf : Z) : Z := Z.shiftr (ntohs hrf) 12.
Definition TCPH_FLAGS (hrf : Z) : Z := Z.land (ntohs hrf) TCP_FLAGS.
Definition TCPH_HDRLEN_FLAGS_SET (len flags : Z) : Z := htons (Z.lor (Z.shiftl len 12) flags).
Definition TCPH_SET_FLAG (hrf flags : Z) : Z := Z.lor hrf (htons flags).
Definition TCPH_FLAGS_SET (hrf flags : Z) : Z :=
  Z.lor (Z.land hrf (htons (u16 (Z.lnot TCP_FLAGS)))) (htons flags).
Definition TCPH_UNSET_FLAG (hrf flags : Z) : Z :=
  htons (Z.lor (ntohs hrf) (Z.land (TCPH_FLAGS hrf) (Z.lnot flags))).

#[global] Arguments TCPH_HDRLEN : simpl never.
#[global] Arguments TCPH_FLAGS : simpl never.
#[global] Arguments TCPH_HDRLEN_FLAGS_SET : simpl never.
#[global] Arguments TCPH_SET_FLAG : simpl never.
#[global] Arguments TCPH_FLAGS_SET : simpl never.
#[global] Arguments TCPH_UNSET_FLAG : simpl never.
#[global] Arguments TCP_SEQ_LT : simpl never.
#[global] Arguments TCP_SEQ_LEQ : simpl never.
#[global] Arguments TCP_SEQ_GT : simpl never.
#[global] Arguments TCP_SEQ_GEQ : simpl never.
#[global] Arguments TCP_SEQ_BETWEEN : simpl never.

(** ** Lemmas *)

(** The sign of the 32-bit difference is the sign of the difference of two
    positions less than half the number space apart. *)
Lemma s32_diff a b : - 2 ^ 31 <= a - b < 2 ^ 31 -> s32 (u32 a - u32 b) = a - b.
Proof.
  intros H. unfold s32. rewrite wrap_sub_l, wrap_sub_r.
  destruct (decide (0 <= a - b)).
  - rewrite (wrap_small 32 (a - b)) by lia. case_decide; lia.
  - assert (u32 (a - b) = a - b + 2 ^ 32) as ->; [|case_decide; lia].
    unfold wrap. rewrite <- (Z.mod_add _ 1) by lia. rewrite Z.mod_small; lia.
Qed.

Section comparisons.
Context (a b : Z) (Hab : - 2 ^ 31 <= a - b < 2 ^ 31).

Lemma seq_lt : TCP_SEQ_LT a b = bool_decide (a < b).
Proof using Hab. apply bool_decide_ext. rewrite s32_diff by done. lia. Qed.
Lemma seq_leq : TCP_SEQ_LEQ a b = bool_decide (a <= b).
Proof using Hab. apply bool_decide_ext. rewrite s32_diff by done. lia. Qed.
Lemma seq_gt : TCP_SEQ_GT a b = bool_decide (b < a).
Proof using Hab. apply bool_decide_ext. rewrite s32_diff by done. lia. Qed.
Lemma seq_geq : TCP_SEQ_GEQ a b = bool_decide (b <= a).
Proof using Hab. apply bool_decide_ext. rewrite s32_diff by done. lia. Qed.
End comparisons.

Lemma seq_between a b c : - 2 ^ 31 <= a - b < 2 ^ 31 -> - 2 ^ 31 <= a - c < 2 ^ 31 ->
  TCP_SEQ_BETWEEN a b c = bool_decide (b <= a <= c).
Proof.
  intros ??. unfold TCP_SEQ_BETWEEN. rewrite seq_geq, seq_leq by done.
  repeat case_bool_decide; done || lia.
Qed.

(** Within a window of less than half the number space. *)
Lemma seq_between_offset x b w : 0 <= w < 2 ^ 31 -> TCP_SEQ_BETWEEN x b (b + w) = bool_decide (u32 (x - b) <= w).
Proof.
  intros Hw. unfold TCP_SEQ_BETWEEN, TCP_SEQ_GEQ, TCP_SEQ_LEQ, s32. rewrite !wrap_sub_l, !wrap_sub_r.
  pose proof (wrap_range 32 ltac:(lia) (x - b)) as Hr.
  replace (x - (b + w)) with (x - b - w) by lia. rewrite <- (wrap_sub_l 32 (x - b)).
  set (k := u32 (x - b)) in *. destruct (decide (w <= k)).
  - rewrite (wrap_small 32 (k - w)) by lia. repeat case_decide; repeat case_bool_decide; done || lia.
  - assert (u32 (k - w) = k - w + 2 ^ 32) as ->.
    { unfold wrap. rewrite <- (Z.mod_add _ 1) by lia. rewrite Z.mod_small; lia. }
    repeat case_decide; repeat case_bool_decide; done || lia.
Qed.

(** Between two equal numbers there is one. *)
Lemma seq_between_one x b c : 0 <= x < 2 ^ 32 -> u32 b = c -> TCP_SEQ_BETWEEN x b c = bool_decide (x = c).
Proof.
  intros Hx <-. replace (TCP_SEQ_BETWEEN x b (u32 b)) with (TCP_SEQ_BETWEEN x b (b + 0)).
  2: { unfold TCP_SEQ_BETWEEN, TCP_SEQ_LEQ. rewrite Z.add_0_r. by rewrite wrap_wrap by lia. }
  rewrite seq_between_offset by lia. apply bool_decide_ext. unfold wrap.
  pose proof (Z.mod_pos_bound (x - b) (2 ^ 32) ltac:(lia)). split.
  - intros H0. assert ((x - b) mod 2 ^ 32 = 0) as E by lia. apply Z.mod_divide in E as [q E]; [|lia].
    replace b with (x + (- q) * 2 ^ 32) by lia. rewrite Z.mod_add, Z.mod_small; lia.
  - intros ->. rewrite Zminus_mod_idemp_l. by rewrite Z.sub_diag.
Qed.

(** The comparisons only see their arguments modulo [2 ^ 32]. *)
Lemma seq_leq_l a b : TCP_SEQ_LEQ (u32 a) b = TCP_SEQ_LEQ a b.
Proof. unfold TCP_SEQ_LEQ. by rewrite wrap_wrap by lia. Qed.
Lemma seq_leq_r a b : TCP_SEQ_LEQ a (u32 b) = TCP_SEQ_LEQ a b.
Proof. unfold TCP_SEQ_LEQ. by rewrite wrap_wrap by lia. Qed.

(** Reading the flags back after setting some of them. *)
Lemma flags_set_flag hrf f : 0 <= f < 256 -> 0 <= hrf < 2 ^ 16 ->
  TCPH_FLAGS (TCPH_SET_FLAG hrf f) = Z.lor (TCPH_FLAGS hrf) f.
Proof.
  intros Hf Hh. unfold TCPH_FLAGS, TCPH_SET_FLAG. apply Z.bits_inj'. intros i Hi.
  rewrite Z.lor_spec, !Z.land_spec, !ntohs_testbit by done. change TCP_FLAGS with (Z.ones 8).
  rewrite Z.testbit_ones_nonneg by lia.
  destruct (decide (i < 8)).
  - rewrite Z.lor_spec, ntohs_testbit by lia. rewrite decide_False, decide_True by lia.
    replace (i + 8 - 8) with i by lia. case (Z.ltb_spec i 8); [|lia]. by rewrite !andb_true_r.
  - case (Z.ltb_spec i 8); [lia|]. rewrite !andb_false_r. simpl. symmetry.
    destruct (decide (f = 0)) as [->|]; [apply Z.bits_0|].
    apply Z.bits_above_log2; [lia|]. apply Z.log2_lt_pow2; [lia|].
    apply Z.lt_le_trans with (2 ^ 8); [lia|]. apply Z.pow_le_mono_r; lia.
Qed.

(** [TCPH_UNSET_FLAG] ORs the remaining flags into the field: nothing is
    removed. *)
Lemma unset_flag_id hrf f : 0 <= hrf < 2 ^ 16 -> TCPH_UNSET_FLAG hrf f = hrf.
Proof.
  intros Hh. unfold TCPH_UNSET_FLAG.
  assert (Z.lor (ntohs hrf) (Z.land (TCPH_FLAGS hrf) (Z.lnot f)) = ntohs hrf) as ->;
    [|by apply ntohs_invol].
  apply Z.bits_inj'. intros i Hi. unfold TCPH_FLAGS. rewrite Z.lor_spec, !Z.land_spec.
  by destruct (Z.testbit (ntohs hrf) i).
Qed.

Lemma set_flag_range hrf f : 0 <= hrf < 2 ^ 16 -> 0 <= TCPH_SET_FLAG hrf f < 2 ^ 16.
Proof.
  intros Hh. unfold TCPH_SET_FLAG.
  assert (forall x, 0 <= x < 2 ^ 16 <-> Z.land x (Z.ones 16) = x) as Hl.
  { intros x. rewrite Z.land_ones by lia. split; [by apply Z.mod_small|].
    intros <-. by apply Z.mod_pos_bound. }
  apply Hl. apply Hl in Hh. rewrite Z.land_lor_distr_l, Hh. f_equal.
  apply Z.bits_inj'. intros i Hi. rewrite Z.land_spec, Z.testbit_ones_nonneg by lia.
  case (Z.ltb_spec i 16); [by rewrite andb_true_r|]. intros. rewrite andb_false_r.
  rewrite ntohs_testbit by lia. by rewrite !decide_False by lia.
Qed.
