(* ===== verification/Tlt.v ===== *)
(** * TLT: src/src/vma/lwip/tlt.c and tlt.h

    TLT marks one packet per round trip of a TCP connection as important (the
    network does not drop it) and keeps the queue of the unimportant ranges
    sent since, to be retransmitted when they are found lost.

    The queue is an array of [MAX_UIMP_QUEUE_ELEM] slots linked into a list
    from slot 0 ([next] is an index); a free slot has length 0.  Sequence
    numbers are relative to the connection's [iss] and wrap at 32 bits.  The
    checks of [tlt_segment_verify] are assertions that are compiled out.
    [None] is an access outside the array or a list that does not end within
    [fuel] steps. *)

From S2P Require Import Prelude TcpBase.

Local Open Scope Z_scope.

Module Tlt.

Definition MAX_UIMP_QUEUE_ELEM : Z := 256.

Definition TLT_TOS_IMP : Z := 40.     (* 0x0A << 2 *)
Definition TLT_TOS_IMPE : Z := 48.    (* 0x0C << 2 *)
Definition TLT_TOS_IMPF : Z := 72.    (* 0x12 << 2 *)
Definition TLT_TOS_IMPEF : Z := 80.   (* 0x14 << 2 *)
Definition TLT_TOS_IMPC : Z := 104.   (* 0x1A << 2 *)
Definition TLT_TOS_UIMP : Z := 32.    (* 0x08 << 2 *)

Definition TCP_SYN : Z := 2.
Definition TCP_RST : Z := 4.
Definition TCP_ACK : Z := 16.

Inductive tlt_state_t := Idle | Pending | PendingForce.

#[global] Instance tlt_state_eq_dec : EqDecision tlt_state_t.
Proof. solve_decision. Defined.

Record tlt_transmit_segment := TSeg { seq : Z; len : Z; round : Z; next : option nat }.

Definition free_slot : tlt_transmit_segment := TSeg 0 0 0 None.

(** [uimp_queue] and [uimp_queue_len]. *)
Record queue := Queue { slots : list tlt_transmit_segment; qlen : Z }.

Definition set_next (n : option nat) (x : tlt_transmit_segment) : tlt_transmit_segment :=
  TSeg (seq x) (len x) (round x) n.
Definition set_len (l : Z) (x : tlt_transmit_segment) : tlt_transmit_segment :=
  TSeg (seq x) l (round x) (next x).

(** [pSegment[i] = x], and an update of a field. *)
Definition put (i : nat) (x : tlt_transmit_segment) (q : queue) : option queue :=
  _ ← slots q !! i; Some (Queue (<[i := x]> (slots q)) (qlen q)).
Definition modify (i : nat) (g : tlt_transmit_segment -> tlt_transmit_segment) (q : queue) : option queue :=
  x ← slots q !! i; put i (g x) q.
Definition add_len (d : Z) (q : queue) : queue := Queue (slots q) (u16 (qlen q + d)).

(** [for (; i < *pLen; i++) if (!pSegment[i].len) break;] *)
Fixpoint find_free (fuel : nat) (i : nat) (q : queue) : option nat :=
  if decide (Z.of_nat i < qlen q) then
    x ← slots q !! i;
    if decide (len x = 0) then Some i
    else match fuel with O => None | S fuel => find_free fuel (S i) q end
  else Some i.

Definition next_free (i : nat) (q : queue) : option nat := find_free (Z.to_nat (qlen q)) i q.

(** ** tlt_segment_merge *)

Fixpoint merge_loop (fuel : nat) (pps : nat) (ps : option nat) (q : queue) : option queue :=
  match ps with
  | None => Some q
  | Some p =>
    match fuel with
    | O => None
    | S fuel =>
      x ← slots q !! pps;
      y ← slots q !! p;
      '(q, p) ←
        (if decide (u32 (len x + seq x) = seq y /\ round x = round y) then
           q ← modify pps (fun x => TSeg (seq x) (u32 (len x + len y)) (round x) (next y)) q;
           q ← modify p (fun y => TSeg 0 0 (round y) None) q;
           Some (add_len (-1) q, pps)
         else Some (q, p));
      x ← slots q !! pps;
      y ← slots q !! p;
      '(q, p) ←
        (if decide (pps <> p /\ seq x = seq y /\ len x = len y) then
           let rnd := if decide (round x >= round y) then round x else round y in
           q ← modify pps (fun x => TSeg (seq x) (len x) rnd (next y)) q;
           q ← put p free_slot q;
           Some (add_len (-1) q, pps)
         else Some (q, p));
      y ← slots q !! p;
      merge_loop fuel p (next y) q
    end
  end.

Definition tlt_segment_merge (fuel : nat) (q : queue) : option queue :=
  h ← slots q !! 0%nat;
  if decide (len h <> 0 /\ next h <> None) then merge_loop fuel 0 (next h) q else Some q.

(** ** tlt_segment_rearrange_last_block *)

(** The last block and the one before it. *)
Fixpoint find_last (fuel : nat) (prev_last : option nat) (last : nat) (q : queue)
  : option (option nat * nat) :=
  x ← slots q !! last;
  match next x with
  | None => Some (prev_last, last)
  | Some n => match fuel with O => None | S fuel => find_last fuel (Some last) n q end
  end.

(** The loop over [cur]: the first block of the last one's round that the last
    one extends. *)
Fixpoint rearrange_loop (fuel : nat) (l : tlt_transmit_segment) (cur : option nat) (q : queue)
  : option (bool * queue) :=
  match cur with
  | None => Some (false, q)
  | Some c =>
    match fuel with
    | O => None
    | S fuel =>
      x ← slots q !! c;
      if decide (round x <> round l) then rearrange_loop fuel l (next x) q
      else if decide (u32 (seq l + len l) = seq x) then
        q ← put c (TSeg (seq l) (u32 (len l + len x)) (round x) (next x)) q; Some (true, q)
      else if decide (u32 (seq x + len x) = seq l) then
        q ← put c (TSeg (seq x) (u32 (len x + len l)) (round x) (next x)) q; Some (true, q)
      else rearrange_loop fuel l (next x) q
    end
  end.

Fixpoint rearrange_last_block (fuel : nat) (q : queue) : option queue :=
  match fuel with
  | O => None
  | S fuel =>
    h ← slots q !! 0%nat;
    match next h with
    | None => Some q
    | Some _ =>
      '(prev, last) ← find_last fuel None 0 q;
      l ← slots q !! last;
      '(merged, q) ← rearrange_loop fuel l (Some 0%nat) q;
      if (merged : bool) then
        q ← put last free_slot q;
        p ← prev;
        q ← modify p (set_next None) q;
        rearrange_last_block fuel (add_len (-1) q)
      else Some q
    end
  end.

(** ** tlt_segment_add *)

(** The state of the loop: the queue, the free slot [i], what is left of the
    new range and the current block. *)
Record add_st := AddSt { a_q : queue; a_i : nat; a_seq : Z; a_len : Z }.

(** A new block in slot [i] after [p], then the next free slot. *)
Definition insert_after (p i : nat) (s l r : Z) (q : queue) : option (queue * nat) :=
  x ← slots q !! p;
  q ← put i (TSeg s l r (next x)) q;
  q ← modify p (set_next (Some i)) q;
  let q := add_len 1 q in
  i ← next_free i q;
  Some (q, i).

(** One iteration at block [p]; the flag is [break]. *)
Definition add_step (rnd : Z) (p : nat) (st : add_st) : option (bool * add_st) :=
  let q := a_q st in
  let i := a_i st in
  let sq := a_seq st in
  let ln := a_len st in
  ps ← slots q !! p;
  let e := u32 (sq + ln) in
  let pe := u32 (seq ps + len ps) in
  if TCP_SEQ_LEQ (seq ps) sq && TCP_SEQ_LEQ e pe then
    if decide (round ps <> rnd) then
      let a_len := u32 (sq - seq ps) in
      let b_seq := sq in
      let b_len := u32 (e - b_seq) in
      let c_seq := e in
      let c_len := u32 (pe - c_seq) in
      if decide (a_len > 0) then
        if decide (c_len > 0) then
          '(q, b) ← (q ← put i (TSeg b_seq b_len rnd (next ps)) q;
                     q ← modify p (set_next (Some i)) q; Some (add_len 1 q, i));
          i ← next_free i q;
          q ← put i (TSeg b_seq b_len (round ps) (next ps)) q;
          q ← modify b (set_next (Some i)) q;
          let q := add_len 1 q in
          i ← next_free i q;
          Some (false, AddSt q i sq ln)
        else
          '(q, i) ← insert_after p i b_seq b_len rnd q;
          Some (false, AddSt q i sq ln)
      else if decide (c_len <> 0) then
        '(q, i) ← insert_after p i c_seq c_len (round ps) q;
        Some (false, AddSt q i sq ln)
      else
        q ← modify p (fun x => TSeg (seq x) (len x) rnd (next x)) q;
        Some (false, AddSt q i sq ln)
    else Some (true, AddSt q i sq 0)
  else if TCP_SEQ_LEQ sq (seq ps) && TCP_SEQ_LEQ pe e then
    '(q, i) ←
      (if decide (seq ps > sq) then
         q ← modify p (fun x => TSeg (seq x) (len x) rnd (next x)) q;
         insert_after p i sq (u32 (seq ps - sq)) rnd q
       else Some (q, i));
    let ln := u32 (e - pe) in
    Some (bool_decide (ln = 0), AddSt q i pe ln)
  else if TCP_SEQ_LEQ sq (seq ps) && TCP_SEQ_LEQ e (seq ps) then Some (false, st)
  else if TCP_SEQ_LEQ pe sq && TCP_SEQ_LEQ pe e then Some (false, st)
  else if TCP_SEQ_LEQ sq (seq ps) && TCP_SEQ_LEQ e pe then
    '(q, i) ←
      (if decide (round ps <> rnd) then
         q ← put i (TSeg e (u32 (pe - e)) (round ps) (next ps)) q;
         q ← modify p (fun x => TSeg (seq x) (u32 (e - seq x)) rnd (Some i)) q;
         let q := add_len 1 q in
         i ← next_free i q;
         Some (q, i)
       else Some (q, i));
    Some (false, AddSt q i sq (u32 (seq ps - sq)))
  else if TCP_SEQ_LEQ (seq ps) sq && TCP_SEQ_LEQ pe e then
    '(q, i) ←
      (if decide (round ps <> rnd) then
         q ← put i (TSeg sq (u32 (pe - sq)) rnd (next ps)) q;
         q ← modify p (fun x => TSeg (seq x) (u32 (sq - seq x)) (round x) (Some i)) q;
         let q := add_len 1 q in
         i ← next_free i q;
         Some (q, i)
       else Some (q, i));
    (* ps->len is read again: the block may just have been cut *)
    ps ← slots q !! p;
    let pe := u32 (seq ps + len ps) in
    Some (false, AddSt q i pe (u32 (e - pe)))
  else Some (false, st).

Fixpoint add_loop (fuel : nat) (rnd : Z) (ps : option nat) (st : add_st) : option add_st :=
  match ps with
  | None => Some st
  | Some p =>
    match fuel with
    | O => None
    | S fuel =>
      '(brk, st) ← add_step rnd p st;
      if (brk : bool) then Some st
      else x ← slots (a_q st) !! p; add_loop fuel rnd (next x) st
    end
  end.

(** What is left is inserted before the first block (after the head) that
    begins at its end or later, or at the tail. *)
Fixpoint place (fuel : nat) (e : Z) (pps : nat) (ps : option nat) (q : queue) : option nat :=
  match ps with
  | None => Some pps
  | Some p =>
    match fuel with
    | O => None
    | S fuel =>
      y ← slots q !! p;
      if TCP_SEQ_LEQ e (seq y) then Some pps else place fuel e p (next y) q
    end
  end.

Definition tlt_segment_add (fuel : nat) (seq_ len_ rnd : Z) (q : queue) : option queue :=
  i ← (if decide (qlen q <= MAX_UIMP_QUEUE_ELEM) then next_free 0 q
       else find_free (Z.to_nat MAX_UIMP_QUEUE_ELEM) 0 (Queue (slots q) MAX_UIMP_QUEUE_ELEM));
  q ←
    (if decide (i = 0%nat) then
       q ← put 0 (TSeg seq_ len_ rnd None) q; Some (add_len 1 q)
     else
       st ← add_loop fuel rnd (Some 0%nat) (AddSt q i seq_ len_);
       let q := a_q st in
       if decide (a_len st <> 0) then
         h ← slots q !! 0%nat;
         pps ← place fuel (u32 (a_seq st + a_len st)) 0 (next h) q;
         x ← slots q !! pps;
         q ← put (a_i st) (TSeg (a_seq st) (a_len st) rnd (next x)) q;
         q ← modify pps (set_next (Some (a_i st))) q;
         Some (add_len 1 q)
       else Some q);
  q ← tlt_segment_merge fuel q;
  rearrange_last_block fuel q.

(** ** tlt_segment_remove_round *)

(** The whole block goes: at the head the next block is moved into slot 0. *)
Definition remove_head (p : nat) (q : queue) : option queue :=
  x ← slots q !! p;
  match next x with
  | Some n =>
    y ← slots q !! n;
    q ← put p (TSeg (seq y) (len y) (round y) (next y)) q;
    q ← put n (TSeg 0 0 (round y) None) q;
    Some (add_len (-1) q)
  | None => q ← put p free_slot q; Some (add_len (-1) q)
  end.

Definition unlink (pp p : nat) (q : queue) : option queue :=
  x ← slots q !! p;
  q ← modify pp (set_next (next x)) q;
  q ← put p (TSeg 0 0 (round x) None) q;
  Some (add_len (-1) q).

(** The target lies inside block [p]. *)
Definition cut_inside (sq ln : Z) (pps : option nat) (p : nat) (q : queue) : option queue :=
  ps ← slots q !! p;
  let e := u32 (sq + ln) in
  let pe := u32 (seq ps + len ps) in
  if decide (seq ps = sq /\ e = pe) then
    match pps with None => remove_head p q | Some pp => unlink pp p q end
  else if decide (seq ps = sq) then
    put p (TSeg e (u32 (len ps - ln)) (round ps) (next ps)) q
  else if decide (pe = e) then
    put p (TSeg (seq ps) (u32 (sq - seq ps)) (round ps) (next ps)) q
  else
    i ← next_free 0 q;
    old ← slots q !! i;
    q ← put i (TSeg e (u32 (len ps + seq ps - e)) (round old) (next ps)) q;
    q ← modify p (fun x => TSeg (seq x) (u32 (sq - seq x)) (round x) (Some i)) q;
    Some (add_len 1 q).

Fixpoint remove_loop (fuel : nat) (check_round : bool) (rnd sq ln : Z) (pps ps : option nat)
    (preserve_loc : bool) (q : queue) : option queue :=
  match ps with
  | None => Some q
  | Some p =>
    match fuel with
    | O => None
    | S fuel =>
      x ← slots q !! p;
      let go := remove_loop fuel check_round rnd sq ln in
      let e := u32 (sq + ln) in
      let pe := u32 (seq x + len x) in
      if preserve_loc && bool_decide (len x = 0) then Some q
      else if check_round && bool_decide (rnd > round x) then go (Some p) (next x) false q
      else if TCP_SEQ_LEQ (seq x) sq && TCP_SEQ_LEQ e pe then cut_inside sq ln pps p q
      else if TCP_SEQ_LEQ sq (seq x) && TCP_SEQ_LEQ pe e then
        match pps with
        | None => q ← remove_head p q; go None (Some p) true q
        | Some pp => q ← unlink pp p q; y ← slots q !! pp; go (Some pp) (next y) false q
        end
      else if TCP_SEQ_LEQ sq (seq x) && TCP_SEQ_LEQ e (seq x) then go (Some p) (next x) false q
      else if TCP_SEQ_LEQ pe sq && TCP_SEQ_LEQ pe e then go (Some p) (next x) false q
      else if TCP_SEQ_LEQ sq (seq x) && TCP_SEQ_LEQ e pe then
        q ← put p (TSeg e (u32 (seq x + len x - e)) (round x) (next x)) q;
        go (Some p) (next x) false q
      else if TCP_SEQ_LEQ (seq x) sq && TCP_SEQ_LEQ pe e then
        q ← put p (TSeg (seq x) (u32 (sq - seq x)) (round x) (next x)) q;
        go (Some p) (next x) false q
      else go (Some p) (next x) false q
    end
  end.

Definition tlt_segment_remove_round (fuel : nat) (sq ln rnd : Z) (q : queue) : option queue :=
  h ← slots q !! 0%nat;
  if decide (len h <> 0)
  then remove_loop fuel (bool_decide (rnd <> 2 ^ 32 - 1)) rnd sq ln None (Some 0%nat) false q
  else Some q.

Definition tlt_segment_remove (fuel : nat) (sq ln : Z) (q : queue) : option queue :=
  tlt_segment_remove_round fuel sq ln (2 ^ 32 - 1) q.

(** A list of [MAX_UIMP_QUEUE_ELEM] slots is walked, each block visited at most
    twice. *)
Definition FUEL : nat := 1024.

(** ** The connection *)

Record tlt_param := TltParam {
  recv_state : tlt_state_t;
  send_state : tlt_state_t;
  uimp : queue;
  cur_round : Z;
  dirty_map : Z;
}.

(** The fields of [tcp_pcb] and [tcp_seg] that are used here. *)
Record tcp_pcb := Pcb { tlt : tlt_param; iss : Z; pcb_tos : Z }.
Record tcp_seg := Seg { seqno : Z; seg_len : Z; flags : Z; ackno : Z; seg_tos : Z }.

Definition set_tlt (t : tlt_param) (p : tcp_pcb) : tcp_pcb := Pcb t (iss p) (pcb_tos p).
Definition set_recv (s : tlt_state_t) (t : tlt_param) : tlt_param :=
  TltParam s (send_state t) (uimp t) (cur_round t) (dirty_map t).
Definition set_send (s : tlt_state_t) (t : tlt_param) : tlt_param :=
  TltParam (recv_state t) s (uimp t) (cur_round t) (dirty_map t).
Definition set_uimp (q : queue) (t : tlt_param) : tlt_param :=
  TltParam (recv_state t) (send_state t) q (cur_round t) (dirty_map t).
Definition mark (m : Z) (seg : tcp_seg) : tcp_seg :=
  Seg (seqno seg) (seg_len seg) (flags seg) (ackno seg) (u8 (Z.lor (seg_tos seg) m)).

Definition tlt_init (p : tcp_pcb) : tcp_pcb :=
  set_tlt (TltParam Idle Idle
             (Queue (replicate (Z.to_nat MAX_UIMP_QUEUE_ELEM) free_slot) 0) 0 0) p.

Definition tlt_send_syn (p : tcp_pcb) (seg : tcp_seg) : tcp_pcb * tcp_seg :=
  (set_tlt (set_send Pending (tlt p)) p, mark TLT_TOS_IMP seg).

Definition tlt_send_ack (p : tcp_pcb) (seg : tcp_seg) : tcp_pcb * tcp_seg :=
  match recv_state (tlt p) with
  | Pending => (set_tlt (set_recv Idle (tlt p)) p, mark TLT_TOS_IMPE seg)
  | PendingForce => (set_tlt (set_recv Idle (tlt p)) p, mark TLT_TOS_IMPEF seg)
  | Idle => (p, mark TLT_TOS_IMPC seg)
  end.

Definition tlt_send_payload (p : tcp_pcb) (seg : tcp_seg) : option (tcp_pcb * tcp_seg) :=
  match send_state (tlt p) with
  | Pending => Some (set_tlt (set_send Idle (tlt p)) p, mark TLT_TOS_IMP seg)
  | PendingForce => Some (set_tlt (set_send Idle (tlt p)) p, mark TLT_TOS_IMPF seg)
  | Idle =>
    q ← tlt_segment_add FUEL (u32 (seqno seg - iss p)) (seg_len seg) (cur_round (tlt p)) (uimp (tlt p));
    let t := TltParam (recv_state (tlt p)) (send_state (tlt p)) q (cur_round (tlt p))
               (Z.lor (dirty_map (tlt p)) 1) in
    Some (set_tlt t p, mark TLT_TOS_UIMP seg)
  end.

(** [tlt_uimpq_peek]: position and length; [None] when it returns 0. *)
Definition tlt_uimpq_peek (p : tcp_pcb) (maxLen : Z) : option (Z * Z) :=
  h ← slots (uimp (tlt p)) !! 0%nat;
  if decide (len h <> 0) then
    Some (seq h, if decide (len h > maxLen) then maxLen else len h)
  else None.

Definition tlt_uimpq_pop (p : tcp_pcb) (maxLen rnd : Z) : option (option (Z * Z) * tcp_pcb) :=
  match tlt_uimpq_peek p maxLen with
  | None => Some (None, p)
  | Some (s, l) =>
    q ← tlt_segment_remove_round FUEL s l rnd (uimp (tlt p));
    Some (Some (s, l), set_tlt (set_uimp q (tlt p)) p)
  end.

(** The loop of [tlt_is_lost]. *)
Fixpoint lost_loop (fuel : nat) (cur : Z) (ps : option nat) (q : queue) : option bool :=
  match ps with
  | None => Some false
  | Some i =>
    match fuel with
    | O => None
    | S fuel =>
      x ← slots q !! i;
      if decide (len x = 0) then None
      else if decide (round x < u32 (cur - 2)) then Some true
      else lost_loop fuel cur (next x) q
    end
  end.

Definition tlt_is_lost (p : tcp_pcb) (check_dirty : bool) : option bool :=
  let t := tlt p in
  h ← slots (uimp t) !! 0%nat;
  old ← (if decide (len h <> 0) then lost_loop FUEL (cur_round t) (Some 0%nat) (uimp t)
         else Some false);
  Some (old || check_dirty && negb (ctrue (Z.land (dirty_map t) 4))).

(** [tlt_in] (it always accepts the packet). *)
Definition tlt_in (seg : tcp_seg) (tos : Z) (p : tcp_pcb) : option tcp_pcb :=
  q ← (if ctrue (Z.land (flags seg) TCP_ACK)
       then tlt_segment_remove FUEL 0 (u32 (ackno seg - iss p)) (uimp (tlt p))
       else Some (uimp (tlt p)));
  let t := set_uimp q (tlt p) in
  let tos := Z.land tos 252 in
  let echo t := TltParam (recv_state t) Pending (uimp t) (u32 (cur_round t + 1))
                  (u8 (Z.shiftl (dirty_map t) 1)) in
  Some (set_tlt (if decide (tos = TLT_TOS_IMP) then set_recv Pending t
                 else if decide (tos = TLT_TOS_IMPE) then echo t
                 else if decide (tos = TLT_TOS_IMPF) then set_recv PendingForce t
                 else if decide (tos = TLT_TOS_IMPEF) then echo t
                 else t) p).

Definition tlt_out_empty_ack (p : tcp_pcb) : tcp_pcb * Z :=
  match recv_state (tlt p) with
  | Pending => (set_tlt (set_recv Idle (tlt p)) p, u8 (Z.lor (pcb_tos p) TLT_TOS_IMPE))
  | PendingForce => (set_tlt (set_recv Idle (tlt p)) p, u8 (Z.lor (pcb_tos p) TLT_TOS_IMPEF))
  | Idle => (p, u8 (Z.lor (pcb_tos p) TLT_TOS_IMPC))
  end.

Definition tlt_out (p : tcp_pcb) (seg : tcp_seg) : option (tcp_pcb * tcp_seg) :=
  if decide (seg_len seg <> 0) then tlt_send_payload p seg
  else if ctrue (Z.land (flags seg) TCP_SYN) then Some (tlt_send_syn p seg)
  else if ctrue (Z.land (flags seg) TCP_ACK) then Some (tlt_send_ack p seg)
  else Some (p, seg).

(** The trigger of a forced retransmission in [tcp_output] (tcp_out.c): the
    token is kept, marked as forced. *)
Definition force_pending (p : tcp_pcb) : tcp_pcb :=
  if decide (send_state (tlt p) <> Idle) then set_tlt (set_send PendingForce (tlt p)) p else p.

(** ** The token

    Two endpoints of an established connection; [ab] and [ba] are the marks of
    the packets in flight. *)

Record net := Net { na : tcp_pcb; nb : tcp_pcb; ab : list Z; ba : list Z }.

Definition b2n (b : bool) : nat := if b then 1 else 0.

Definition is_imp (t : Z) : bool :=
  bool_decide (Z.land t 252 = TLT_TOS_IMP) || bool_decide (Z.land t 252 = TLT_TOS_IMPF).
Definition is_echo (t : Z) : bool :=
  bool_decide (Z.land t 252 = TLT_TOS_IMPE) || bool_decide (Z.land t 252 = TLT_TOS_IMPEF).
Definition busy (s : tlt_state_t) : bool := bool_decide (s <> Idle).

Definition count (f : Z -> bool) (l : list Z) : nat := length (filter (fun t => f t = true) l).

(** Where the token of the direction from [p] to [p'] is: with the sender, on
    an important packet, with the receiver, or on an echo. *)
Definition tokens (p p' : tcp_pcb) (fwd bwd : list Z) : nat :=
  (b2n (busy (send_state (tlt p))) + count is_imp fwd +
   b2n (busy (recv_state (tlt p'))) + count is_echo bwd)%nat.

(** What one endpoint does: [lstep p out inp p' out' inp'], where [out] are the
    packets it sent and [inp] those on their way to it. *)
Inductive lstep : tcp_pcb -> list Z -> list Z -> tcp_pcb -> list Z -> list Z -> Prop :=
  | LOut p seg p' seg' out inp :
      seg_tos seg = pcb_tos p -> Z.land (flags seg) TCP_SYN = 0 ->
      tlt_out p seg = Some (p', seg') -> lstep p out inp p' (out ++ [seg_tos seg']) inp
  | LAck p p' t out inp :
      tlt_out_empty_ack p = (p', t) -> lstep p out inp p' (out ++ [t]) inp
  | LForce p out inp : lstep p out inp (force_pending p) out inp
  | LIn p seg t p' out inp1 inp2 :
      tlt_in seg t p = Some p' -> lstep p out (inp1 ++ t :: inp2) p' out (inp1 ++ inp2)
  | LLose p t out inp1 inp2 : lstep p out (inp1 ++ t :: inp2) p out (inp1 ++ inp2).

Inductive step : net -> net -> Prop :=
  | StepA n p o i : lstep (na n) (ab n) (ba n) p o i -> step n (Net p (nb n) o i)
  | StepB n p o i : lstep (nb n) (ba n) (ab n) p o i -> step n (Net (na n) p i o).

Inductive steps : net -> net -> Prop :=
  | steps_refl n : steps n n
  | steps_step n1 n2 n3 : steps n1 n2 -> step n2 n3 -> steps n1 n3.

Lemma count_app f l1 l2 : count f (l1 ++ l2) = (count f l1 + count f l2)%nat.
Proof. unfold count. rewrite list.filter_app, length_app. done. Qed.
Lemma count_nil f : count f [] = 0%nat.
Proof. done. Qed.
Lemma count_cons f t l : count f (t :: l) = (b2n (f t) + count f l)%nat.
Proof. unfold count. rewrite filter_cons. by destruct (f t). Qed.

(** A packet's mark: only the two low bits (ECN) of the type of service are
    the connection's. *)
Definition ecn_only (p : tcp_pcb) : Prop := 0 <= pcb_tos p < 4.

Lemma mark_class p m :
  ecn_only p -> m = TLT_TOS_IMP \/ m = TLT_TOS_IMPE \/ m = TLT_TOS_IMPF \/ m = TLT_TOS_IMPEF \/
    m = TLT_TOS_IMPC \/ m = TLT_TOS_UIMP ->
  Z.land (u8 (Z.lor (pcb_tos p) m)) 252 = m.
Proof.
  unfold ecn_only. intros Hp Hm.
  assert (pcb_tos p = 0 \/ pcb_tos p = 1 \/ pcb_tos p = 2 \/ pcb_tos p = 3) as Ht by lia.
  destruct Ht as [-> | [-> | [-> | ->]]]; destruct Hm as [-> | [-> | [-> | [-> | [-> | ->]]]]]; done.
Qed.

(** What an endpoint emits, it had: a token on the packet was the sender's or
    the receiver's before. *)
Definition emits (p p' : tcp_pcb) (t : Z) : Prop :=
  (b2n (busy (send_state (tlt p'))) + b2n (is_imp t) <= b2n (busy (send_state (tlt p))))%nat /\
  (b2n (busy (recv_state (tlt p'))) + b2n (is_echo t) <= b2n (busy (recv_state (tlt p))))%nat /\
  pcb_tos p' = pcb_tos p.

Ltac emit_mark p He m :=
  let E := fresh in
  assert (Z.land (u8 (Z.lor (pcb_tos p) m)) 252 = m) as E by (apply mark_class; [exact He|tauto]);
  unfold is_imp, is_echo; simpl; rewrite ?E; split_and!; simpl; first [done | lia].

Lemma tlt_out_emits p seg p' seg' :
  ecn_only p -> seg_tos seg = pcb_tos p -> Z.land (flags seg) TCP_SYN = 0 ->
  tlt_out p seg = Some (p', seg') -> emits p p' (seg_tos seg').
Proof.
  intros He Et Hsyn. unfold tlt_out, emits. case_decide.
  - unfold tlt_send_payload. destruct (send_state (tlt p)) eqn:Es.
    + destruct (tlt_segment_add _ _ _ _ _); simpl; [|done]. intros [= <- <-]. simpl. rewrite Et, ?Es.
      emit_mark p He TLT_TOS_UIMP.
    + intros [= <- <-]. simpl. rewrite Et. emit_mark p He TLT_TOS_IMP.
    + intros [= <- <-]. simpl. rewrite Et. emit_mark p He TLT_TOS_IMPF.
  - rewrite Hsyn. simpl. case_match.
    + unfold tlt_send_ack. destruct (recv_state (tlt p)) eqn:Er; intros [= <- <-]; simpl; rewrite Et, ?Er.
      * emit_mark p He TLT_TOS_IMPC.
      * emit_mark p He TLT_TOS_IMPE.
      * emit_mark p He TLT_TOS_IMPEF.
    + intros [= <- <-]. rewrite Et. unfold ecn_only, is_imp, is_echo in *.
      assert (pcb_tos p = 0 \/ pcb_tos p = 1 \/ pcb_tos p = 2 \/ pcb_tos p = 3) as Ht by lia.
      destruct Ht as [-> | [-> | [-> | ->]]]; simpl; split_and!; lia.
Qed.

Lemma tlt_out_empty_ack_emits p p' t :
  ecn_only p -> tlt_out_empty_ack p = (p', t) -> emits p p' t.
Proof.
  intros He. unfold tlt_out_empty_ack, emits.
  destruct (recv_state (tlt p)) eqn:Er; intros [= <- <-]; simpl; rewrite ?Er.
  - emit_mark p He TLT_TOS_IMPC.
  - emit_mark p He TLT_TOS_IMPE.
  - emit_mark p He TLT_TOS_IMPEF.
Qed.

(** What an endpoint receives becomes its state. *)
Lemma tlt_in_absorbs seg t p p' :
  tlt_in seg t p = Some p' ->
  (b2n (busy (send_state (tlt p'))) <= b2n (busy (send_state (tlt p))) + b2n (is_echo t))%nat /\
  (b2n (busy (recv_state (tlt p'))) <= b2n (busy (recv_state (tlt p))) + b2n (is_imp t))%nat /\
  pcb_tos p' = pcb_tos p.
Proof.
  unfold tlt_in. destruct (if ctrue _ then _ else _) as [q|]; simpl; [|done]. intros [= <-]. simpl.
  unfold is_echo, is_imp.
  repeat case_decide; simpl; repeat case_bool_decide; simpl; split_and!; done || lia.
Qed.

(** An endpoint's step does not create tokens in either direction. *)
Lemma lstep_tokens p out inp p' out' inp' q :
  lstep p out inp p' out' inp' -> ecn_only p ->
  (tokens p' q out' inp' <= tokens p q out inp)%nat /\
  (tokens q p' inp' out' <= tokens q p inp out)%nat /\ ecn_only p'.
Proof.
  unfold tokens, ecn_only.
  destruct 1 as [p seg p' seg' out inp Et Hsyn Ho|p p' t out inp Ho|p out inp|p seg t p' out inp1 inp2 Hin|
    p t out inp1 inp2]; intros He; rewrite ?count_app, ?count_cons, ?count_nil.
  - destruct (tlt_out_emits _ _ _ _ He Et Hsyn Ho) as (? & ? & E). rewrite E. simpl. lia.
  - destruct (tlt_out_empty_ack_emits _ _ _ He Ho) as (? & ? & E). rewrite E. simpl. lia.
  - unfold force_pending. case_decide as Hd; simpl; [|lia].
    unfold busy at 2. rewrite (bool_decide_true (send_state (tlt p) <> Idle)) by done. simpl. lia.
  - destruct (tlt_in_absorbs _ _ _ _ Hin) as (? & ? & E). rewrite E. lia.
  - lia.
Qed.


(** With the type of service 8 every data packet is important: the mark of an
    unimportant one and the bit the application has set are the mark of an
    important one, and the endpoint does not take notice. *)
Theorem tos_makes_all_important p seg p' seg' :
  Z.land (pcb_tos p) 252 = 8 -> seg_tos seg = pcb_tos p -> seg_len seg > 0 -> send_state (tlt p) = Idle ->
  tlt_out p seg = Some (p', seg') ->
  is_imp (seg_tos seg') = true /\ send_state (tlt p') = Idle /\ pcb_tos p' = pcb_tos p.
Proof.
  intros Ht Es Hl Hi. unfold tlt_out. rewrite decide_True by lia. unfold tlt_send_payload. rewrite Hi.
  destruct (tlt_segment_add _ _ _ _ _); simpl; [|done]. intros [= <- <-]. simpl. split_and!; try done.
  unfold is_imp. apply orb_true_iff. left. apply bool_decide_eq_true. rewrite Es. unfold wrap.
  rewrite <- Z.land_ones by lia. rewrite <- Z.land_assoc. change (Z.land (Z.ones 8) 252) with 252.
  by rewrite Z.land_lor_distr_l, Ht.
Qed.

Definition ready_pcb : tcp_pcb :=
  set_tlt (set_send Pending (tlt (tlt_init (Pcb (TltParam Idle Idle (Queue [] 0) 0 0) 1000 2))))
    (Pcb (TltParam Idle Idle (Queue [] 0) 0 0) 1000 2).

Definition ex_oi_n := Net ready_pcb (tlt_init ready_pcb) [] [].


(** ** The queue as a list of ranges *)

Definition nx (sl : list tlt_transmit_segment) (i : nat) : option (option nat) := next <$> sl !! i.

(** Following the links from [o] visits the slots [L] and arrives at [o']. *)
Fixpoint lseg (sl : list tlt_transmit_segment) (o : option nat) (L : list nat) (o' : option nat) : Prop :=
  match L with
  | [] => o = o'
  | i :: L => o = Some i /\ exists n, nx sl i = Some n /\ lseg sl n L o'
  end.

Definition blk (sl : list tlt_transmit_segment) (i : nat) : Z * Z :=
  match sl !! i with Some x => (seq x, len x) | None => (0, 0) end.

Definition in_range (b : Z * Z) (z : Z) : Prop := b.1 <= z < b.1 + b.2.

(** The sequence numbers a list of ranges covers. *)
Definition covered (bs : list (Z * Z)) (z : Z) : Prop := exists b, b ∈ bs /\ in_range b z.

Definition valid_blk (b : Z * Z) : Prop := 0 <= b.1 /\ 0 < b.2 /\ b.1 + b.2 < 2 ^ 31.

Definition sep (b c : Z * Z) : Prop := b.1 + b.2 <= c.1 \/ c.1 + c.2 <= b.1.

Fixpoint disj (bs : list (Z * Z)) : Prop :=
  match bs with [] => True | b :: bs => Forall (sep b) bs /\ disj bs end.

(** A well-formed queue whose list is [L]: it starts at slot 0, its ranges are
    nonempty and disjoint, the other slots are free. *)
Definition queue_ok (q : queue) (L : list nat) : Prop :=
  Z.of_nat (length (slots q)) = MAX_UIMP_QUEUE_ELEM /\ qlen q = Z.of_nat (length L) /\
  NoDup L /\ (L = [] \/ head L = Some 0%nat) /\ lseg (slots q) (head L) L None /\
  Forall valid_blk (blk (slots q) <$> L) /\ disj (blk (slots q) <$> L) /\
  (forall i x, slots q !! i = Some x -> i ∉ L -> len x = 0 /\ next x = None).

Lemma lseg_app sl o L1 L2 o' :
  lseg sl o (L1 ++ L2) o' <-> exists m, lseg sl o L1 m /\ lseg sl m L2 o'.
Proof.
  revert o. induction L1 as [|i L1 IH]; intros o; simpl.
  - split; [by exists o|]. by intros (m & -> & ?).
  - split.
    + intros (-> & n & Hn & (m & H1 & H2)%IH). exists m. split; [|done]. split; [done|]. by exists n.
    + intros (m & (-> & n & Hn & H1) & H2). split; [done|]. exists n. split; [done|]. apply IH. by exists m.
Qed.

Lemma lseg_ext sl sl' o L o' :
  (forall i, i ∈ L -> nx sl' i = nx sl i) -> lseg sl o L o' -> lseg sl' o L o'.
Proof.
  revert o. induction L as [|i L IH]; intros o Hx; simpl; [done|].
  intros (-> & n & Hn & Hl). split; [done|]. exists n. rewrite Hx by left. split; [done|].
  apply IH; [|done]. intros j ?. apply Hx. by right.
Qed.

Lemma lseg_head sl L o' : lseg sl (head L) L o' -> forall o, lseg sl o L o' -> L <> [] -> o = head L.
Proof. destruct L; simpl; [done|]. by intros _ o (-> & _) _. Qed.

Lemma sep_sym b c : sep b c -> sep c b.
Proof. unfold sep. tauto. Qed.

Lemma disj_perm bs bs' : bs ≡ₚ bs' -> disj bs -> disj bs'.
Proof.
  induction 1 as [|b l l' Hp IH|b c l|l1 l2 l3 _ IH1 _ IH2]; simpl; try done.
  - intros [Hf Hd]. split; [by rewrite <- Hp|by apply IH].
  - intros (H1 & H2 & H3). apply list.Forall_cons in H1 as [H1 H1'].
    split_and!; [|done|done]. apply list.Forall_cons. split; [by apply sep_sym|done].
  - intros H. by apply IH2, IH1.
Qed.

(** Replacing a range by a smaller one keeps the ranges disjoint. *)
Lemma disj_shrink bs1 b b' bs2 :
  b.1 <= b'.1 -> b'.1 + b'.2 <= b.1 + b.2 -> disj (bs1 ++ b :: bs2) -> disj (bs1 ++ b' :: bs2).
Proof.
  intros H1 H2 Hd. eapply disj_perm; [apply Permutation_middle|].
  eapply disj_perm in Hd; [|symmetry; apply Permutation_middle]. simpl in *.
  destruct Hd as [Hf Hd]. split; [|done]. eapply list.Forall_impl; [exact Hf|].
  unfold sep. intros c Hc. lia.
Qed.

Lemma disj_drop bs1 b bs2 : disj (bs1 ++ b :: bs2) -> disj (bs1 ++ bs2).
Proof.
  intros Hd. eapply disj_perm in Hd; [|symmetry; apply Permutation_middle]. by destruct Hd.
Qed.

(** Splitting one too. *)
Lemma disj_split bs1 b b' c' bs2 :
  b.1 <= b'.1 -> b'.1 + b'.2 <= c'.1 -> c'.1 + c'.2 <= b.1 + b.2 -> 0 <= b'.2 -> 0 <= c'.2 ->
  disj (bs1 ++ b :: bs2) -> disj (bs1 ++ b' :: c' :: bs2).
Proof.
  intros H1 H2 H3 P1 P2 Hd. eapply disj_perm; [apply Permutation_middle|].
  eapply disj_perm; [apply perm_skip, Permutation_middle|].
  eapply disj_perm in Hd; [|symmetry; apply Permutation_middle]. simpl in *.
  destruct Hd as [Hf Hd]. split_and!; [|eapply list.Forall_impl; [exact Hf|]; unfold sep; intros c Hc; lia|done].
  apply list.Forall_cons. split; [unfold sep; lia|].
  eapply list.Forall_impl; [exact Hf|]. unfold sep. intros c Hc. lia.
Qed.

Lemma blk_ext sl sl' (L : list nat) :
  (forall i, i ∈ L -> sl' !! i = sl !! i) -> blk sl' <$> L = blk sl <$> L.
Proof.
  intros H. apply list_fmap_ext. intros k i Hi. unfold blk. rewrite H; [done|].
  by eapply list_elem_of_lookup_2.
Qed.

Lemma TCP_SEQ_LEQ_small a b :
  0 <= a < 2 ^ 31 -> 0 <= b < 2 ^ 31 -> TCP_SEQ_LEQ a b = bool_decide (a <= b).
Proof. intros. apply seq_leq. lia. Qed.

(** *** The operations on the array *)

Lemma put_Some i x y q :
  slots q !! i = Some y -> put i x q = Some (Queue (<[i := x]> (slots q)) (qlen q)).
Proof. intros H. unfold put. by rewrite H. Qed.

Lemma nx_insert_ne (sl : list tlt_transmit_segment) i j x : i <> j -> nx (<[i := x]> sl) j = nx sl j.
Proof. intros. unfold nx. by rewrite list_lookup_insert_ne. Qed.

Lemma nx_insert_eq (sl : list tlt_transmit_segment) i x y :
  sl !! i = Some y -> nx (<[i := x]> sl) i = Some (next x).
Proof. intros H. unfold nx. rewrite list_lookup_insert_eq; [done|by eapply lookup_lt_Some]. Qed.

Lemma blk_insert_eq (sl : list tlt_transmit_segment) i x y :
  sl !! i = Some y -> blk (<[i := x]> sl) i = (seq x, len x).
Proof. intros H. unfold blk. rewrite list_lookup_insert_eq; [done|by eapply lookup_lt_Some]. Qed.

(** What is known about the slot [i] of a queue at [L1 ++ i :: L2]. *)
Lemma queue_at q L1 i L2 :
  queue_ok q (L1 ++ i :: L2) ->
  exists x, slots q !! i = Some x /\ valid_blk (seq x, len x) /\ (i ∉ L1) /\ (i ∉ L2) /\
    lseg (slots q) (head (L1 ++ [i])) L1 (Some i) /\ lseg (slots q) (next x) L2 None /\
    next x = head L2.
Proof.
  intros (_ & _ & Hn & _ & Hl & Hv & _ & _).
  apply lseg_app in Hl as (m & Hl1 & Hl2). simpl in Hl2. destruct Hl2 as (-> & n & Hx & Hl2).
  unfold nx in Hx. destruct (slots q !! i) as [x|] eqn:E; simplify_eq/=.
  apply list.NoDup_app in Hn as (_ & N1 & N2). apply list.NoDup_cons in N2 as [N2 _].
  rewrite fmap_app in Hv. apply Forall_app in Hv as [_ Hv]. apply list.Forall_cons in Hv as [Hv _].
  unfold blk in Hv. rewrite E in Hv. exists x. split_and!; try done.
  - set_solver.
  - by destruct L1.
  - destruct L2 as [|j L2]; simpl in *; [done|]. by destruct Hl2.
Qed.

(** Changing the range of a block. *)
Lemma set_blk_ok q L1 i L2 x s l rd :
  queue_ok q (L1 ++ i :: L2) -> slots q !! i = Some x ->
  seq x <= s -> 0 < l -> s + l <= seq x + len x ->
  let q' := Queue (<[i := TSeg s l rd (next x)]> (slots q)) (qlen q) in
  queue_ok q' (L1 ++ i :: L2) /\
  blk (slots q') <$> (L1 ++ i :: L2) =
    (blk (slots q) <$> L1) ++ (s, l) :: (blk (slots q) <$> L2).
Proof.
  intros Hq Hx H1 H2 H3 q'. destruct (queue_at _ _ _ _ Hq) as (x' & Hx' & Hvx & N1 & N2 & _).
  rewrite Hx in Hx'. injection Hx' as <-. destruct Hq as (Q1 & Q2 & Q3 & Q4 & Q5 & Q6 & Q7 & Q8).
  assert (blk (slots q') <$> (L1 ++ i :: L2) =
    (blk (slots q) <$> L1) ++ (s, l) :: (blk (slots q) <$> L2)) as Eb.
  { rewrite fmap_app, fmap_cons. unfold q'; simpl. rewrite (blk_insert_eq _ _ _ x) by done. simpl.
    f_equal; [|f_equal]; apply blk_ext; intros j Hj; apply list_lookup_insert_ne; set_solver. }
  split; [|done]. rewrite fmap_app, fmap_cons in Q6, Q7.
  assert (blk (slots q) i = (seq x, len x)) as Ex by (unfold blk; by rewrite Hx).
  rewrite Ex in Q6, Q7. unfold queue_ok. rewrite Eb. split_and!; try done.
  - simpl. by rewrite length_insert.
  - eapply lseg_ext; [|done]. intros j _. simpl. destruct (decide (i = j)) as [<-|].
    + rewrite (nx_insert_eq _ _ _ x) by done. unfold nx. by rewrite Hx.
    + by apply nx_insert_ne.
  - apply Forall_app in Q6 as [V1 V2]. apply list.Forall_cons in V2 as [V2 V3]. unfold valid_blk in *.
    apply Forall_app. split; [done|]. apply list.Forall_cons. split; [simpl in *; lia|done].
  - eapply disj_shrink; [| |exact Q7]; simpl; lia.
  - intros j y Hy Hj. simpl in Hy. rewrite list_lookup_insert_ne in Hy; [by eapply Q8|]. set_solver.
Qed.

Lemma lseg_lookup sl o L o' i : lseg sl o L o' -> i ∈ L -> (i < length sl)%nat.
Proof.
  revert o. induction L as [|j L IH]; intros o Hl Hi; [by apply elem_of_nil in Hi|].
  destruct Hl as (_ & n & Hn & Hl). apply elem_of_cons in Hi as [->|Hi]; [|by eapply IH].
  unfold nx in Hn. destruct (sl !! j) eqn:E; [by eapply lookup_lt_Some|done].
Qed.

(** The list is no longer than the array. *)
Lemma queue_len q L : queue_ok q L -> Z.of_nat (length L) <= MAX_UIMP_QUEUE_ELEM.
Proof.
  intros (Q1 & _ & Q3 & _ & Q5 & _). rewrite <- Q1. apply Nat2Z.inj_le.
  rewrite <- (length_seq (length (slots q)) 0). apply submseteq_length, NoDup_submseteq; [done|].
  intros j Hj. apply elem_of_seq. pose proof (lseg_lookup _ _ _ _ _ Q5 Hj). lia.
Qed.

(** Unlinking a block that has a predecessor. *)
Lemma unlink_ok q L1 pp p L2 :
  queue_ok q (L1 ++ pp :: p :: L2) ->
  exists q', unlink pp p q = Some q' /\ queue_ok q' (L1 ++ pp :: L2) /\
    blk (slots q') <$> (L1 ++ pp :: L2) = blk (slots q) <$> (L1 ++ pp :: L2) /\
    nx (slots q') pp = Some (head L2).
Proof.
  intros Hq. assert (queue_ok q ((L1 ++ [pp]) ++ p :: L2)) as Hq2 by (by rewrite <- app_assoc).
  destruct (queue_at _ _ _ _ Hq2) as (x & Hx & Hvx & N1 & N2 & _ & Hl2 & En).
  destruct (queue_at _ _ _ _ Hq) as (y & Hy & Hvy & M1 & M2 & Hl1 & _ & _).
  assert (pp <> p) as Hne by set_solver. pose proof (queue_len _ _ Hq) as Hlen.
  destruct Hq as (Q1 & Q2 & Q3 & Q4 & Q5 & Q6 & Q7 & Q8).
  unfold unlink, modify. rewrite Hx. simpl. rewrite Hy. simpl. rewrite (put_Some _ _ y) by done. simpl.
  rewrite (put_Some _ _ x) by (simpl; by rewrite list_lookup_insert_ne). simpl.
  eexists. split; [done|]. set (sl := <[p := _]> (<[pp := _]> (slots q))).
  assert (sl !! pp = Some (set_next (next x) y)) as Epp.
  { unfold sl. rewrite list_lookup_insert_ne by done. apply list_lookup_insert_eq. by eapply lookup_lt_Some. }
  assert (forall j, j <> p -> j <> pp -> sl !! j = slots q !! j) as Hsl.
  { intros j H1 H2. unfold sl. by rewrite !list_lookup_insert_ne. }
  assert (forall j, j <> p -> blk sl j = blk (slots q) j) as Hblk.
  { intros j H1. unfold blk. destruct (decide (j = pp)) as [->|]; [by rewrite Epp, Hy|by rewrite Hsl]. }
  assert (blk sl <$> (L1 ++ pp :: L2) = blk (slots q) <$> (L1 ++ pp :: L2)) as Eb.
  { apply list_fmap_ext. intros k j Hj%list_elem_of_lookup_2. apply Hblk. set_solver. }
  assert (nx sl pp = Some (head L2)) as Enx by (unfold nx; rewrite Epp; simpl; by rewrite En).
  simpl. split_and!; try done. unfold queue_ok; simpl. rewrite Eb. split_and!.
  - unfold sl. by rewrite !length_insert.
  - rewrite Q2. rewrite !length_app in *. simpl in *. unfold MAX_UIMP_QUEUE_ELEM in *. wsimpl. lia.
  - apply list.NoDup_app in Q3 as (A1 & A2 & A3). apply list.NoDup_cons in A3 as [A3 A4].
    apply list.NoDup_cons in A4 as [A4 A5]. apply list.NoDup_app. split_and!; [done|set_solver|].
    apply list.NoDup_cons. split; [set_solver|done].
  - right. destruct Q4 as [Q4|Q4]; [by destruct L1|]. by destruct L1.
  - apply lseg_app. exists (Some pp). split.
    + assert (head (L1 ++ pp :: L2) = head (L1 ++ [pp])) as -> by (by destruct L1).
      eapply lseg_ext; [|exact Hl1].
      intros j Hj. unfold nx. rewrite Hsl; set_solver.
    + split; [done|]. exists (head L2). split; [done|]. rewrite <- En. eapply lseg_ext; [|exact Hl2].
      intros j Hj. unfold nx. rewrite Hsl; set_solver.
  - rewrite !fmap_app, !fmap_cons in *. apply Forall_app in Q6 as [V1 V2]. apply Forall_app. split; [done|].
    apply list.Forall_cons in V2 as [V2 V3]. apply list.Forall_cons in V3 as [V3 V4]. by constructor.
  - rewrite !fmap_app, !fmap_cons in *.
    replace (_ ++ _) with (((blk (slots q) <$> L1) ++ [blk (slots q) pp]) ++ (blk (slots q) <$> L2))
      by (by rewrite <- app_assoc).
    eapply disj_drop. rewrite <- app_assoc. exact Q7.
  - intros j z Hz Hj. destruct (decide (j = p)) as [->|Hjp].
    + unfold sl in Hz. rewrite list_lookup_insert_eq in Hz
        by (rewrite length_insert; by eapply lookup_lt_Some). by simplify_eq.
    + assert (j <> pp) by set_solver. rewrite Hsl in Hz by done. eapply Q8; [done|]. set_solver.
Qed.

(** Removing the block in slot 0: the next one moves there. *)
Lemma remove_head_ok q L :
  queue_ok q (0%nat :: L) ->
  exists q', remove_head 0 q = Some q' /\
    match L with
    | [] => queue_ok q' [] /\ exists x, slots q' !! 0%nat = Some x /\ len x = 0
    | n :: L' => queue_ok q' (0%nat :: L') /\
        blk (slots q') <$> (0%nat :: L') = blk (slots q) <$> (n :: L')
    end.
Proof.
  intros Hq. destruct (queue_at q [] 0 L Hq) as (x & Hx & Hvx & _ & N2 & _ & Hl2 & En).
  pose proof (queue_len _ _ Hq) as Hlen. unfold remove_head. rewrite Hx. simpl.
  destruct Hq as (Q1 & Q2 & Q3 & Q4 & Q5 & Q6 & Q7 & Q8).
  assert (u16 (qlen q + -1) = Z.of_nat (length L)) as Elen.
  { rewrite Q2. simpl length in *. unfold MAX_UIMP_QUEUE_ELEM in *. wsimpl. lia. }
  destruct L as [|n L].
  - rewrite En. simpl. rewrite (put_Some _ _ x) by done. simpl. eexists. split; [done|].
    assert (<[0%nat := free_slot]> (slots q) !! 0%nat = Some free_slot) as E0.
    { apply list_lookup_insert_eq. by eapply lookup_lt_Some. }
    split; [|eexists; split; [exact E0|done]].
    unfold add_len; cbn [slots qlen]. unfold queue_ok; cbn [slots qlen].
    split; [by rewrite length_insert|]. split; [done|]. split; [constructor|].
    split; [by left|]. split; [done|]. split; [constructor|]. split; [done|].
    intros i y Hy _. destruct (decide (i = 0%nat)) as [->|].
    + rewrite E0 in Hy. by simplify_eq.
    + rewrite list_lookup_insert_ne in Hy by done. eapply Q8; [done|set_solver].
  - rewrite En. simpl. destruct (queue_at q [0%nat] n L) as (y & Hy & Hvy & M1 & M2 & _ & Hl3 & En3); [done|].
    rewrite Hy. simpl. assert (0%nat <> n) as Hne by set_solver.
    rewrite (put_Some _ _ x) by done. simpl.
    rewrite (put_Some _ _ y) by (simpl; by rewrite list_lookup_insert_ne). simpl.
    eexists. split; [done|]. set (sl := <[n := _]> (<[0%nat := _]> (slots q))). simpl.
    assert (sl !! 0%nat = Some (TSeg (seq y) (len y) (round y) (next y))) as E0.
    { unfold sl. rewrite list_lookup_insert_ne by done. apply list_lookup_insert_eq. by eapply lookup_lt_Some. }
    assert (forall j, j <> 0%nat -> j <> n -> sl !! j = slots q !! j) as Hsl.
    { intros j H1 H2. unfold sl. by rewrite !list_lookup_insert_ne. }
    assert (blk sl <$> (0%nat :: L) = blk (slots q) <$> (n :: L)) as Eb.
    { rewrite !fmap_cons. f_equal; [unfold blk; by rewrite E0, Hy|].
      apply blk_ext. intros j Hj. apply Hsl; set_solver. }
    split; [|done]. unfold queue_ok; simpl slots. rewrite Eb.
    apply list.NoDup_cons in Q3 as [A1 A2]. apply list.NoDup_cons in A2 as [A2 A3].
    rewrite !fmap_cons in *. apply list.Forall_cons in Q6 as [_ V]. destruct Q7 as [_ D].
    split_and!; try done.
    + unfold sl. by rewrite !length_insert.
    + apply list.NoDup_cons. split; [set_solver|done].
    + by right.
    + simpl. split; [done|]. exists (next y). split; [unfold nx; by rewrite E0|].
      eapply lseg_ext; [|exact Hl3]. intros j Hj. unfold nx. rewrite Hsl; set_solver.
    + intros j z Hz Hj. destruct (decide (j = n)) as [->|].
      * unfold sl in Hz. rewrite list_lookup_insert_eq in Hz
          by (rewrite length_insert; by eapply lookup_lt_Some). by simplify_eq.
      * assert (j <> 0%nat) by set_solver. rewrite Hsl in Hz by done. eapply Q8; [done|set_solver].
Qed.

(** A list cannot have more numbers than its length. *)
Lemma full_prefix (L : list nat) : (forall j, (j < length L)%nat -> j ∈ L) -> length L ∉ L.
Proof.
  intros Hi Hin. assert (length (List.seq 0 (S (length L))) <= length L)%nat as Hbad.
  { apply submseteq_length, NoDup_submseteq; [apply NoDup_seq|]. intros j Hj%elem_of_seq.
    destruct (decide (j = length L)) as [->|]; [done|]. apply Hi. lia. }
  rewrite length_seq in Hbad. lia.
Qed.

(** While the array has room, the search for a free slot finds one. *)
Lemma find_free_ok q L fuel i :
  queue_ok q L -> Z.of_nat (length L) < MAX_UIMP_QUEUE_ELEM ->
  (forall j, (j < i)%nat -> j ∈ L) -> (length L <= i + fuel)%nat -> (i <= length L)%nat ->
  exists k x, find_free fuel i q = Some k /\ slots q !! k = Some x /\ k ∉ L.
Proof.
  intros Hq Hr. pose proof Hq as (Q1 & Q2 & Q3 & Q4 & Q5 & Q6 & Q7 & Q8).
  unfold MAX_UIMP_QUEUE_ELEM in *. revert i. induction fuel as [|fuel IH]; intros i Hi Hf Hle; simpl; rewrite Q2.
  all: destruct (lookup_lt_is_Some_2 (slots q) i) as [x Hx]; [lia|]; rewrite Hx.
  all: assert (i = length L -> i ∉ L) as Hfull by (intros ->; by apply full_prefix).
  - rewrite decide_False by lia. exists i, x. split_and!; try done. apply Hfull. lia.
  - case_decide as Hlt; simpl.
    + case_decide as Hz; [|apply IH; [|lia|lia]].
      * exists i, x. split_and!; try done. intros Hin.
        rewrite list.Forall_forall in Q6. assert (valid_blk (blk (slots q) i)) as [_ [Hp _]].
        { apply Q6, list_elem_of_fmap. by exists i. }
        unfold blk in Hp. rewrite Hx in Hp. simpl in Hp. lia.
      * intros j Hj. destruct (decide (j = i)) as [->|]; [|apply Hi; lia].
        destruct (decide (i ∈ L)) as [|Hn]; [done|]. by destruct (Q8 _ _ Hx Hn).
    + exists i, x. split_and!; try done. apply Hfull. lia.
Qed.

(** Splitting a block in two. *)
Lemma split_ok q L1 p L2 x i old a e :
  queue_ok q (L1 ++ p :: L2) -> Z.of_nat (length (L1 ++ p :: L2)) < MAX_UIMP_QUEUE_ELEM ->
  slots q !! p = Some x -> slots q !! i = Some old -> i ∉ L1 ++ p :: L2 ->
  seq x < a -> a <= e -> e < seq x + len x ->
  let q' := add_len 1 (Queue (<[p := TSeg (seq x) (a - seq x) (round x) (Some i)]>
              (<[i := TSeg e (len x + seq x - e) (round old) (next x)]> (slots q))) (qlen q)) in
  queue_ok q' (L1 ++ p :: i :: L2) /\
  blk (slots q') <$> (L1 ++ p :: i :: L2) =
    (blk (slots q) <$> L1) ++ (seq x, a - seq x) :: (e, len x + seq x - e) :: (blk (slots q) <$> L2).
Proof.
  intros Hq Hroom Hx Hi Hni H1 H2 H3 q'.
  destruct (queue_at _ _ _ _ Hq) as (x' & Hx' & Hvx & N1 & N2 & Hl1 & Hl2 & En).
  rewrite Hx in Hx'. injection Hx' as <-. destruct Hq as (Q1 & Q2 & Q3 & Q4 & Q5 & Q6 & Q7 & Q8).
  assert (i <> p) as Hne by set_solver.
  assert (slots q' !! p = Some (TSeg (seq x) (a - seq x) (round x) (Some i))) as Ep.
  { unfold q', add_len; cbn [slots]. apply list_lookup_insert_eq. rewrite length_insert. by eapply lookup_lt_Some. }
  assert (slots q' !! i = Some (TSeg e (len x + seq x - e) (round old) (next x))) as Ei.
  { unfold q', add_len; cbn [slots]. rewrite list_lookup_insert_ne by done. apply list_lookup_insert_eq.
    by eapply lookup_lt_Some. }
  assert (forall j, j <> p -> j <> i -> slots q' !! j = slots q !! j) as Hsl.
  { intros j J1 J2. unfold q', add_len; cbn [slots]. by rewrite !list_lookup_insert_ne. }
  assert (blk (slots q') <$> (L1 ++ p :: i :: L2) =
    (blk (slots q) <$> L1) ++ (seq x, a - seq x) :: (e, len x + seq x - e) :: (blk (slots q) <$> L2)) as Eb.
  { rewrite fmap_app, !fmap_cons. f_equal; [|f_equal; [|f_equal]].
    - apply blk_ext. intros j Hj. apply Hsl; set_solver.
    - unfold blk. by rewrite Ep.
    - unfold blk. by rewrite Ei.
    - apply blk_ext. intros j Hj. apply Hsl; set_solver. }
  split; [|done]. rewrite fmap_app, fmap_cons in Q6, Q7.
  assert (blk (slots q) p = (seq x, len x)) as Ex by (unfold blk; by rewrite Hx). rewrite Ex in Q6, Q7.
  unfold queue_ok. rewrite Eb. split_and!.
  - unfold q', add_len; cbn [slots]. by rewrite !length_insert.
  - unfold q', add_len; cbn [qlen]. rewrite Q2. rewrite !length_app in *. simpl length in *.
    unfold MAX_UIMP_QUEUE_ELEM in *. wsimpl. lia.
  - apply list.NoDup_app in Q3 as (A1 & A2 & A3). apply list.NoDup_cons in A3 as [A3 A4].
    apply list.NoDup_app. split_and!; [done|set_solver|]. apply list.NoDup_cons. split; [set_solver|].
    apply list.NoDup_cons. split; [set_solver|done].
  - right. destruct Q4 as [Q4|Q4]; [by destruct L1|]. by destruct L1.
  - apply lseg_app. exists (Some p). split.
    + assert (head (L1 ++ p :: i :: L2) = head (L1 ++ [p])) as -> by (by destruct L1).
      eapply lseg_ext; [|exact Hl1]. intros j Hj. unfold nx. rewrite Hsl; set_solver.
    + split; [done|]. exists (Some i). split; [unfold nx; by rewrite Ep|]. split; [done|].
      exists (next x). split; [unfold nx; by rewrite Ei|]. eapply lseg_ext; [|exact Hl2].
      intros j Hj. unfold nx. rewrite Hsl; set_solver.
  - apply Forall_app in Q6 as [V1 V2]. apply list.Forall_cons in V2 as [V2 V3]. unfold valid_blk in *.
    simpl in V2. apply Forall_app. split; [done|]. repeat (apply list.Forall_cons; split); simpl; lia || done.
  - eapply disj_split; [| | | | |exact Q7]; simpl; lia.
  - intros j z Hz Hj. assert (j <> p /\ j <> i) as [J1 J2] by set_solver. rewrite Hsl in Hz by done.
    eapply Q8; [done|set_solver].
Qed.

Lemma covered_app bs1 b bs2 z :
  covered (bs1 ++ b :: bs2) z <-> covered bs1 z \/ in_range b z \/ covered bs2 z.
Proof. unfold covered. set_solver. Qed.

(** The other ranges do not meet the range [b]. *)
Lemma disj_others bs1 b bs2 z :
  disj (bs1 ++ b :: bs2) -> in_range b z -> ~ covered bs1 z /\ ~ covered bs2 z.
Proof.
  intros Hd Hz. eapply disj_perm in Hd; [|symmetry; apply Permutation_middle].
  destruct Hd as [Hf _]. rewrite list.Forall_forall in Hf.
  split; intros (c & Hc & Hcz); assert (c ∈ bs1 ++ bs2) as Hin by set_solver;
    specialize (Hf c Hin); unfold sep, in_range in *; lia.
Qed.

(** The ranges of [L] without the target. *)
Definition cut (sq ln : Z) (q : queue) (L : list nat) (q' : queue) (L' : list nat) : Prop :=
  queue_ok q' L' /\
  forall z, covered (blk (slots q') <$> L') z <->
    covered (blk (slots q) <$> L) z /\ ~ in_range (sq, ln) z.

Lemma covered_app3 l1 m l2 z :
  covered (l1 ++ m ++ l2) z <-> covered l1 z \/ covered m z \/ covered l2 z.
Proof. unfold covered. set_solver. Qed.

(** Replacing the range that contains the target by what is left of it. *)
Lemma covered_inside l1 b m l2 sq ln :
  disj (l1 ++ b :: l2) -> b.1 <= sq -> sq + ln <= b.1 + b.2 ->
  (forall z, covered m z <-> in_range b z /\ ~ in_range (sq, ln) z) ->
  forall z, covered (l1 ++ m ++ l2) z <-> covered (l1 ++ b :: l2) z /\ ~ in_range (sq, ln) z.
Proof.
  intros Hd H1 H2 Hm z. rewrite covered_app3, covered_app, Hm.
  assert (in_range (sq, ln) z -> in_range b z) as Hin by (unfold in_range; simpl; lia).
  pose proof (disj_others _ _ _ z Hd). tauto.
Qed.

Lemma covered_nil z : ~ covered [] z.
Proof. intros (b & Hb & _). by apply elem_of_nil in Hb. Qed.
Lemma covered_1 b z : covered [b] z <-> in_range b z.
Proof. unfold covered. set_solver. Qed.
Lemma covered_2 b c z : covered [b; c] z <-> in_range b z \/ in_range c z.
Proof. unfold covered. set_solver. Qed.

(** The whole block at [p] goes. *)
Lemma drop_ok q L1 p L2 :
  queue_ok q (L1 ++ p :: L2) ->
  exists q' L2', queue_ok q' (L1 ++ L2') /\ length L2' = length L2 /\
    blk (slots q') <$> (L1 ++ L2') = (blk (slots q) <$> L1) ++ (blk (slots q) <$> L2) /\
    match list.last L1 with
    | None => remove_head p q = Some q' /\ L1 = [] /\ p = 0%nat /\
        (L2' = [] /\ (exists x, slots q' !! p = Some x /\ len x = 0) \/ exists L3, L2' = p :: L3)
    | Some pp => unlink pp p q = Some q' /\ nx (slots q') pp = Some (head L2')
    end.
Proof.
  intros Hq. destruct (list.last L1) as [pp|] eqn:El.
  - apply last_Some in El as [L0 ->]. rewrite <- app_assoc in Hq.
    destruct (unlink_ok _ _ _ _ _ Hq) as (q' & E & Hq' & Eb & Enx). exists q', L2.
    rewrite <- app_assoc, !fmap_app, !fmap_cons in *. simpl. split_and!; try done.
    rewrite <- app_assoc. done.
  - apply last_None in El. subst L1. simpl in *.
    assert (p = 0%nat) as ->. { destruct Hq as (_ & _ & _ & [?|[= ->]] & _); done. }
    destruct (remove_head_ok _ _ Hq) as (q' & E & H). destruct L2 as [|n L2].
    + destruct H as [Hq' Hx]. exists q', []. split_and!; try done. by left.
    + destruct H as [Hq' Eb]. exists q', (0%nat :: L2). split_and!; try done. right. by exists L2.
Qed.

Lemma cut_inside_ok q L1 p L2 x sq ln :
  queue_ok q (L1 ++ p :: L2) -> Z.of_nat (length (L1 ++ p :: L2)) < MAX_UIMP_QUEUE_ELEM ->
  slots q !! p = Some x -> 0 <= ln -> seq x <= sq -> sq + ln <= seq x + len x ->
  exists q' L', cut_inside sq ln (list.last L1) p q = Some q' /\ cut sq ln q (L1 ++ p :: L2) q' L'.
Proof.
  intros Hq Hroom Hx Hln Ha Hb.
  destruct (queue_at _ _ _ _ Hq) as (x' & Hx' & Hvx & N1 & N2 & _). rewrite Hx in Hx'. injection Hx' as <-.
  unfold valid_blk in Hvx. simpl in Hvx.
  assert (blk (slots q) <$> (L1 ++ p :: L2) =
    (blk (slots q) <$> L1) ++ (seq x, len x) :: (blk (slots q) <$> L2)) as Eq.
  { rewrite fmap_app, fmap_cons. do 2 f_equal. unfold blk. by rewrite Hx. }
  assert (disj (blk (slots q) <$> (L1 ++ p :: L2))) as Hd by apply Hq. rewrite Eq in Hd.
  unfold cut, cut_inside. rewrite Hx. simpl mbind. rewrite Eq.
  rewrite (wrap_small 32 (sq + ln)), (wrap_small 32 (seq x + len x)) by lia.
  case_decide as H1; [|case_decide as H2; [|case_decide as H3]].
  - destruct (drop_ok _ _ _ _ Hq) as (q' & L2' & Hq' & _ & Eb & H). exists q', (L1 ++ L2').
    split; [destruct (list.last L1); by destruct H|]. split; [done|]. rewrite Eb.
    apply (covered_inside _ (seq x, len x) [] _ sq ln Hd); simpl; [lia|lia|].
    intros z. unfold in_range; simpl. split; [by intros ?%covered_nil|lia].
  - rewrite (put_Some _ _ x) by done. rewrite wrap_small by lia.
    destruct (set_blk_ok q L1 p L2 x (sq + ln) (len x - ln) (round x) Hq Hx) as [Hq' Eb]; [lia..|].
    eexists _, _. split; [done|]. split; [exact Hq'|]. rewrite Eb.
    apply (covered_inside _ (seq x, len x) [(sq + ln, len x - ln)] _ sq ln Hd); simpl; [lia|lia|].
    intros z. rewrite covered_1. unfold in_range; simpl. lia.
  - rewrite (put_Some _ _ x) by done. rewrite wrap_small by lia.
    destruct (set_blk_ok q L1 p L2 x (seq x) (sq - seq x) (round x) Hq Hx) as [Hq' Eb]; [lia..|].
    eexists _, _. split; [done|]. split; [exact Hq'|]. rewrite Eb.
    apply (covered_inside _ (seq x, len x) [(seq x, sq - seq x)] _ sq ln Hd); simpl; [lia|lia|].
    intros z. rewrite covered_1. unfold in_range; simpl. lia.
  - assert (qlen q = Z.of_nat (length (L1 ++ p :: L2))) as Eql by apply Hq.
    destruct (find_free_ok q (L1 ++ p :: L2) (Z.to_nat (qlen q)) 0 Hq Hroom) as (i & old & Ei & Hi & Hni);
      [lia|lia|lia|]. unfold next_free. rewrite Ei. simpl mbind. rewrite Hi. simpl mbind.
    rewrite (put_Some _ _ old) by done. simpl mbind. unfold modify; cbn [slots].
    rewrite list_lookup_insert_ne, Hx by set_solver. simpl mbind.
    rewrite (put_Some _ _ x) by (cbn [slots]; rewrite list_lookup_insert_ne by set_solver; done).
    simpl mbind. rewrite (wrap_small 32 (len x + seq x - (sq + ln))), (wrap_small 32 (sq - seq x)) by lia.
    destruct (split_ok q L1 p L2 x i old sq (sq + ln)) as [Hq' Eb]; try done; [lia..|].
    eexists _, _. split; [done|]. split; [exact Hq'|]. rewrite Eb.
    apply (covered_inside _ (seq x, len x) [(seq x, sq - seq x); (sq + ln, len x + seq x - (sq + ln))]
      _ sq ln Hd); simpl; [lia|lia|].
    intros z. rewrite covered_2. unfold in_range; simpl. lia.
Qed.

Lemma cut_trans sq ln q L q1 L1 q' L' :
  (forall z, ~ in_range (sq, ln) z ->
     covered (blk (slots q1) <$> L1) z <-> covered (blk (slots q) <$> L) z) ->
  cut sq ln q1 L1 q' L' -> cut sq ln q L q' L'.
Proof.
  intros H [Hq Hc]. split; [done|]. intros z. rewrite Hc. specialize (H z). tauto.
Qed.

(** The loop of [tlt_segment_remove] from the block at the head of [L2], the
    blocks [L1] before it being clear of the target. *)
Lemma remove_loop_ok sq ln rnd fuel L1 L2 pres q :
  queue_ok q (L1 ++ L2) -> Z.of_nat (length (L1 ++ L2)) < MAX_UIMP_QUEUE_ELEM ->
  0 <= sq -> 0 <= ln -> sq + ln < 2 ^ 31 ->
  (forall z, covered (blk (slots q) <$> L1) z -> ~ in_range (sq, ln) z) -> (length L2 < fuel)%nat ->
  exists q' L', remove_loop fuel false rnd sq ln (list.last L1) (head L2) pres q = Some q' /\
    cut sq ln q (L1 ++ L2) q' L'.
Proof.
  intros Hq Hroom Hs Hln Hm HL1 Hf. revert L1 L2 pres q Hq Hroom HL1 Hf.
  induction fuel as [|fuel IH]; intros L1 L2 pres q Hq Hroom HL1 Hf; [lia|].
  destruct L2 as [|p L2].
  { exists q, L1. rewrite app_nil_r in *. split; [done|]. split; [done|]. intros z.
    specialize (HL1 z). tauto. }
  destruct (queue_at _ _ _ _ Hq) as (x & Hx & Hvx & N1 & N2 & _ & _ & En).
  unfold valid_blk in Hvx. simpl in Hvx. simpl length in Hf.
  assert (forall q', blk (slots q') <$> L1 = blk (slots q) <$> L1 ->
    (forall z, covered (blk (slots q') <$> L1) z -> ~ in_range (sq, ln) z)) as HL1' by (by intros ? ->).
  (* going on after a block with the range [b], clear of the target *)
  assert (forall b q', queue_ok q' (L1 ++ p :: L2) ->
    blk (slots q') <$> (L1 ++ p :: L2) = (blk (slots q) <$> L1) ++ b :: (blk (slots q) <$> L2) ->
    (forall z, in_range b z <-> in_range (seq x, len x) z /\ ~ in_range (sq, ln) z) ->
    exists q'' L', remove_loop fuel false rnd sq ln (Some p) (next x) false q' = Some q'' /\
      cut sq ln q (L1 ++ p :: L2) q'' L') as Hgo.
  { intros b q' Hq' Eb Hb. rewrite En.
    assert (blk (slots q') <$> (L1 ++ [p]) = (blk (slots q) <$> L1) ++ [b]) as Eb1.
    { rewrite !fmap_app, !fmap_cons in *. apply app_inj_1 in Eb as [-> [= -> _]]; [done|].
      by rewrite !length_fmap. }
    destruct (IH (L1 ++ [p]) L2 false q') as (q'' & L' & E & Hc).
    - by rewrite <- app_assoc.
    - by rewrite <- app_assoc.
    - rewrite Eb1. intros z Hz. rewrite covered_app in Hz. rewrite Hb in Hz.
      destruct Hz as [Hz|[[_ Hz]|Hz]]; [by apply HL1|done|by apply covered_nil in Hz].
    - lia.
    - rewrite last_snoc in E. exists q'', L'. split; [done|]. rewrite <- app_assoc in Hc.
      eapply cut_trans; [|exact Hc]. intros z Hz. cbn [app]. rewrite Eb, !fmap_app, !fmap_cons.
      rewrite !covered_app, Hb. assert (blk (slots q) p = (seq x, len x)) as -> by (unfold blk; by rewrite Hx).
      tauto. }
  assert (blk (slots q) <$> (L1 ++ p :: L2) =
    (blk (slots q) <$> L1) ++ (seq x, len x) :: (blk (slots q) <$> L2)) as Eq.
  { rewrite fmap_app, fmap_cons. do 2 f_equal. unfold blk. by rewrite Hx. }
  cbn [remove_loop]. change (head (p :: L2)) with (Some p). cbn iota. rewrite Hx. cbn [mbind option_bind].
  rewrite (wrap_small 32 (sq + ln)), (wrap_small 32 (seq x + len x)) by lia.
  rewrite !TCP_SEQ_LEQ_small by lia. rewrite (bool_decide_false (len x = 0)) by lia.
  rewrite andb_false_r, andb_false_l, <- !bool_decide_and.
  case_bool_decide as C1; [|case_bool_decide as C2; [|case_bool_decide as C3;
    [|case_bool_decide as C4; [|case_bool_decide as C5; [|case_bool_decide as C6; [|lia]]]]]].
  - apply (cut_inside_ok q L1 p L2 x); done || lia.
  - destruct (drop_ok _ _ _ _ Hq) as (q1 & L2' & Hq1 & El & Eb & Hd).
    assert (forall z, ~ in_range (sq, ln) z ->
      covered (blk (slots q1) <$> (L1 ++ L2')) z <-> covered (blk (slots q) <$> (L1 ++ p :: L2)) z) as Hcov.
    { intros z Hz. rewrite Eb, Eq, covered_app. rewrite <- (app_nil_l (blk (slots q) <$> L2)) at 1.
      rewrite covered_app3. unfold in_range in *; simpl in *. pose proof (covered_nil z). intuition lia. }
    assert (blk (slots q1) <$> L1 = blk (slots q) <$> L1) as Eb1.
    { rewrite fmap_app in Eb. apply app_inj_1 in Eb as [? _]; [done|]. by rewrite !length_fmap. }
    assert (Z.of_nat (length (L1 ++ L2')) < MAX_UIMP_QUEUE_ELEM) as Hroom1.
    { rewrite length_app in *. simpl length in Hroom. lia. }
    destruct (list.last L1) as [pp|] eqn:Elast.
    + destruct Hd as [-> Hnx]. cbn [mbind option_bind]. unfold nx in Hnx.
      destruct (slots q1 !! pp) as [y|]; simplify_eq/=. rewrite Hnx, <- Elast.
      destruct (IH L1 L2' false q1 Hq1 Hroom1 (HL1' _ Eb1) ltac:(lia)) as (q' & L' & E & Hc).
      exists q', L'. split; [done|]. by eapply cut_trans.
    + destruct Hd as (-> & -> & -> & Hd). cbn [mbind option_bind]. simpl app in *.
      destruct Hd as [[-> (y & Hy & Hy0)]|[L3 ->]].
      * exists q1, []. destruct fuel as [|fuel]; [lia|]. split.
        { cbn [remove_loop]. rewrite Hy. cbn [mbind option_bind]. by rewrite Hy0. }
        eapply cut_trans; [exact Hcov|]. split; [done|]. intros z. pose proof (covered_nil z). simpl. tauto.
      * destruct (IH [] (0%nat :: L3) true q1 Hq1 Hroom1 (HL1' _ Eb1)) as (q' & L' & E & Hc); [simpl in *; lia|].
        exists q', L'. split; [done|]. by eapply cut_trans.
  - apply (Hgo (seq x, len x)); [done|done|]. unfold in_range; simpl. intros z. lia.
  - apply (Hgo (seq x, len x)); [done|done|]. unfold in_range; simpl. intros z. lia.
  - rewrite (put_Some _ _ x) by done. cbn [mbind option_bind]. rewrite wrap_small by lia.
    destruct (set_blk_ok q L1 p L2 x (sq + ln) (seq x + len x - (sq + ln)) (round x) Hq Hx) as [Hq' Eb]; [lia..|].
    eapply Hgo; [exact Hq'|exact Eb|]. unfold in_range; simpl. intros z. lia.
  - rewrite (put_Some _ _ x) by done. cbn [mbind option_bind]. rewrite wrap_small by lia.
    destruct (set_blk_ok q L1 p L2 x (seq x) (sq - seq x) (round x) Hq Hx) as [Hq' Eb]; [lia..|].
    eapply Hgo; [exact Hq'|exact Eb|]. unfold in_range; simpl. intros z. lia.
Qed.

Lemma remove_ok fuel q L sq ln :
  queue_ok q L -> Z.of_nat (length L) < MAX_UIMP_QUEUE_ELEM -> (length L < fuel)%nat ->
  0 <= sq -> 0 <= ln -> sq + ln < 2 ^ 31 ->
  exists q' L', tlt_segment_remove fuel sq ln q = Some q' /\ cut sq ln q L q' L'.
Proof.
  intros Hq Hroom Hf Hs Hln Hm. unfold tlt_segment_remove, tlt_segment_remove_round.
  rewrite (bool_decide_false (2 ^ 32 - 1 <> 2 ^ 32 - 1)) by tauto.
  pose proof Hq as (Q1 & _ & _ & Q4 & _ & _ & _ & Q8). unfold MAX_UIMP_QUEUE_ELEM in *.
  destruct (lookup_lt_is_Some_2 (slots q) 0) as [h Hh]; [lia|]. rewrite Hh. cbn [mbind option_bind].
  destruct L as [|p L].
  - destruct (Q8 0%nat h Hh) as [-> _]; [set_solver|]. simpl. exists q, []. split; [done|].
    split; [done|]. intros z. pose proof (covered_nil z). simpl. tauto.
  - destruct Q4 as [?|[= ->]]; [done|].
    destruct (queue_at q [] 0 L Hq) as (x & Hx & (_ & Hl & _) & _). simplify_eq. simpl in Hl.
    rewrite decide_True by lia.
    apply (remove_loop_ok sq ln (2 ^ 32 - 1) fuel [] (0%nat :: L) false q); try done.
    intros z Hz. by apply covered_nil in Hz.
Qed.

(** C31: An acknowledgment clears exactly the acknowledged bytes.  On a
    well-formed queue with a free slot, whose ranges lie below 2^31, an ACK for
    [a] bytes since the initial sequence number, [a < 2^31], leaves a
    well-formed queue in which no byte below [a] is left and every byte from
    [a] on that was there still is, whatever way the ranges are cut. *)
Theorem tlt_in_ack_correct p L seg tos :
  queue_ok (uimp (tlt p)) L -> Z.of_nat (length L) < MAX_UIMP_QUEUE_ELEM ->
  ctrue (Z.land (flags seg) TCP_ACK) = true -> u32 (ackno seg - iss p) < 2 ^ 31 ->
  exists p' L', tlt_in seg tos p = Some p' /\ queue_ok (uimp (tlt p')) L' /\
    forall z, covered (blk (slots (uimp (tlt p'))) <$> L') z <->
      covered (blk (slots (uimp (tlt p))) <$> L) z /\ u32 (ackno seg - iss p) <= z.
Proof.
  intros Hq Hroom Hack Ha. pose proof (wrap_range 32 ltac:(lia) (ackno seg - iss p)) as Hr.
  unfold tlt_in. rewrite Hack. set (a := u32 _) in *.
  destruct (remove_ok FUEL (uimp (tlt p)) L 0 a Hq Hroom) as (q & L' & -> & Hq' & Hc);
    [unfold FUEL, MAX_UIMP_QUEUE_ELEM in *; lia|lia|lia|lia|].
  cbn [mbind option_bind]. eexists _, L'. split; [done|].
  assert (forall t0, uimp (if decide (Z.land tos 252 = TLT_TOS_IMP) then set_recv Pending t0
    else if decide (Z.land tos 252 = TLT_TOS_IMPE)
         then TltParam (recv_state t0) Pending (uimp t0) (u32 (cur_round t0 + 1)) (u8 (Z.shiftl (dirty_map t0) 1))
    else if decide (Z.land tos 252 = TLT_TOS_IMPF) then set_recv PendingForce t0
    else if decide (Z.land tos 252 = TLT_TOS_IMPEF)
         then TltParam (recv_state t0) Pending (uimp t0) (u32 (cur_round t0 + 1)) (u8 (Z.shiftl (dirty_map t0) 1))
    else t0) = uimp t0) as Hu by (intros t0; repeat case_decide; done).
  cbn [tlt set_tlt]. rewrite Hu. cbn [uimp set_uimp]. split; [done|]. intros z. rewrite Hc.
  assert (covered (blk (slots (uimp (tlt p))) <$> L) z -> 0 <= z) as Hpos.
  { intros (b & Hb & Hz). assert (Forall valid_blk (blk (slots (uimp (tlt p))) <$> L)) as Hv by apply Hq.
    rewrite list.Forall_forall in Hv. specialize (Hv b Hb). unfold valid_blk, in_range in *. lia. }
  unfold in_range; simpl. intuition lia.
Qed.

(** The walk over ranges in the second half of the number space. *)
Lemma remove_loop_beyond q a L o fuel pps :
  lseg (slots q) o L None -> Forall (fun b => 2 ^ 31 < b.1 /\ 0 < b.2 /\ b.1 + b.2 < a) (blk (slots q) <$> L) ->
  a < 2 ^ 32 -> (length L < fuel)%nat -> remove_loop fuel false (2 ^ 32 - 1) 0 a pps o false q = Some q.
Proof.
  revert o fuel pps. induction L as [|i L IH]; intros o fuel pps Hl Hb Ha Hf.
  { simpl in Hl. subst o. by destruct fuel. }
  destruct Hl as (-> & n & Hn & Hl). destruct fuel as [|fuel]; simpl in Hf; [lia|].
  unfold nx in Hn. apply fmap_Some in Hn as (x & Hx & ->).
  rewrite fmap_cons in Hb. apply list.Forall_cons in Hb as [Hi Hb].
  unfold blk at 1 2 3 4 in Hi. rewrite Hx in Hi. simpl in Hi. destruct Hi as (H1 & H2 & H3).
  cbn [remove_loop]. rewrite Hx. cbn [mbind option_bind andb]. rewrite Z.add_0_l.
  rewrite (wrap_small 32 a), (wrap_small 32 (seq x + len x)) by lia.
  assert (forall y, 2 ^ 31 < y < 2 ^ 32 -> TCP_SEQ_LEQ y 0 = true /\ TCP_SEQ_LEQ 0 y = false) as Hz.
  { intros y Hy. unfold TCP_SEQ_LEQ, s32. rewrite (wrap_small 32 y), (wrap_small 32 0) by lia.
    rewrite Z.sub_0_r, Z.sub_0_l, (wrap_small 32 y) by lia.
    assert (u32 (- y) = 2 ^ 32 - y) as ->.
    { unfold wrap. rewrite <- (Z.mod_add _ 1) by lia. rewrite Z.mod_small; lia. }
    split; [apply bool_decide_true|apply bool_decide_false]; case_decide; lia. }
  assert (forall y z, 2 ^ 31 < y < z -> z < 2 ^ 32 -> TCP_SEQ_LEQ z y = false /\ TCP_SEQ_LEQ y z = true) as Hle.
  { intros y z Hy Hz'. split; rewrite seq_leq by lia; [apply bool_decide_false|apply bool_decide_true]; lia. }
  destruct (Hz (seq x)) as [-> ->]; [lia|]. destruct (Hz (seq x + len x)) as [-> _]; [lia|].
  destruct (Hle (seq x + len x) a) as [-> ->]; [lia..|]. cbn [andb]. apply IH; [done..|lia].
Qed.

(** Beyond 2 GB acknowledgments clear nothing.  Positions are counted from the
    initial sequence number and compared by the sign of their difference, also
    with 0: when the ranges of the queue, however many, lie above 2^31 and below
    the position [a] that is acknowledged, the queue stays as it was, and the
    acknowledged ranges are taken for lost. *)
Theorem ack_beyond_2gb_clears_nothing p L seg tos :
  lseg (slots (uimp (tlt p))) (Some 0%nat) L None -> (length L <= 256)%nat ->
  Forall (fun b => 2 ^ 31 < b.1 /\ 0 < b.2 /\ b.1 + b.2 < u32 (ackno seg - iss p)) (blk (slots (uimp (tlt p))) <$> L) ->
  ctrue (Z.land (flags seg) TCP_ACK) = true ->
  exists p', tlt_in seg tos p = Some p' /\ uimp (tlt p') = uimp (tlt p).
Proof.
  intros Hl HL Hb Hack. pose proof (wrap_range 32 ltac:(lia) (ackno seg - iss p)) as Hr.
  unfold tlt_in. rewrite Hack. unfold tlt_segment_remove, tlt_segment_remove_round.
  rewrite (bool_decide_false (2 ^ 32 - 1 <> 2 ^ 32 - 1)) by tauto.
  destruct L as [|i L]; [done|]. pose proof Hl as ([= <-] & n & Hn & _).
  unfold nx in Hn. apply fmap_Some in Hn as (x & Hx & _). rewrite Hx. cbn [mbind option_bind].
  rewrite (remove_loop_beyond _ _ (0%nat :: L)) by (done || lia || (unfold FUEL; lia)).
  assert ((if decide (len x <> 0) then Some (uimp (tlt p)) else Some (uimp (tlt p))) = Some (uimp (tlt p))) as ->
    by by case_decide.
  cbn [mbind option_bind]. eexists. split; [done|]. simpl. repeat case_decide; done.
Qed.

(** 5000 unimportant bytes behind the third GB, all acknowledged. *)
Definition ex_beyond : tcp_pcb :=
  Pcb (TltParam Idle Idle (Queue (TSeg 3000000000 5000 7 None :: replicate 255 free_slot) 1) 9 0) 1000 0.

Lemma ack_beyond_2gb_clears_nothing_witness :
  exists p', tlt_in (Seg 0 0 TCP_ACK (1000 + 3000006000) 0) 0 ex_beyond = Some p' /\
    tlt_uimpq_peek p' 100000 = Some (3000000000, 5000).
Proof.
  destruct (ack_beyond_2gb_clears_nothing ex_beyond [0%nat] (Seg 0 0 TCP_ACK (1000 + 3000006000) 0) 0) as (p' & E & U).
  - split; [done|]. by exists None.
  - simpl. lia.
  - apply list.Forall_cons. split; [vm_compute; repeat split; congruence|constructor].
  - reflexivity.
  - exists p'. split; [exact E|]. unfold tlt_uimpq_peek. rewrite U. vm_compute. reflexivity.
Defined.

(** Two ranges, bytes 1-99 and 150-199 after the initial sequence number. *)
Definition two_ranges : queue :=
  Queue (TSeg 1 99 0 (Some 1%nat) :: TSeg 150 50 1 None :: replicate 254 free_slot) 2.

Lemma two_ranges_ok : queue_ok two_ranges [0; 1]%nat.
Proof.
  split; [by vm_compute|]. split; [done|]. split; [apply (bool_decide_unpack _); by vm_compute|].
  split; [by right|]. split.
  - simpl. split; [done|]. exists (Some 1%nat). split; [done|]. split; [done|]. by exists None.
  - split; [repeat constructor; vm_compute; done|]. split.
    + split; [|by repeat constructor]. apply list.Forall_cons. split; [|done]. left. vm_compute. done.
    + intros i x Hx Hi. destruct i as [|[|i]]; [set_solver|set_solver|].
      cbn [slots two_ranges lookup list_lookup] in Hx. apply lookup_replicate in Hx as [-> _]. done.
Qed.

Definition ex_tia_p := Pcb (TltParam Idle Idle two_ranges 1 1) 1000 0.

Lemma tlt_in_ack_correct_witness :
  exists p' L', tlt_in (Seg 0 0 16 1160 0) 48 ex_tia_p = Some p' /\ queue_ok (uimp (tlt p')) L' /\
    ~ covered (blk (slots (uimp (tlt p'))) <$> L') 99 /\
    covered (blk (slots (uimp (tlt p'))) <$> L') 160.
Proof.
  destruct (tlt_in_ack_correct ex_tia_p [0; 1]%nat (Seg 0 0 16 1160 0) 48) as (p' & L' & E & Hq & Hc).
  - exact two_ranges_ok.
  - by vm_compute.
  - done.
  - by vm_compute.
  - exists p', L'. split; [done|]. split; [done|]. rewrite !Hc.
    assert (u32 (1160 - 1000) = 160) as Eu by reflexivity. simpl ackno; simpl iss. rewrite Eu. split; [lia|].
    split; [|lia]. exists (150, 50).
    split; [apply list_elem_of_fmap; exists 1%nat; split; [reflexivity|right; left]|]. unfold in_range; simpl. lia.
Defined.

(** The ranges of a queue with their rounds, in order. *)
Fixpoint ranges (fuel : nat) (o : option nat) (q : queue) : list (Z * Z * Z) :=
  match fuel, o with
  | S fuel, Some i =>
    match slots q !! i with
    | Some x => (seq x, len x, round x) :: ranges fuel (next x) q
    | None => []
    end
  | _, _ => []
  end.

Definition empty_queue : queue := Queue (replicate (Z.to_nat MAX_UIMP_QUEUE_ELEM) free_slot) 0.
Definition sent_once : queue := default empty_queue (tlt_segment_add FUEL 0 100 0 empty_queue).
Definition sent_twice : queue := default empty_queue (tlt_segment_add FUEL 20 40 1 sent_once).
Definition acked : queue := default empty_queue (tlt_segment_remove FUEL 0 50 sent_twice).

(** Resending part of a range in a later round leaves overlapping ranges,
    and acknowledged bytes in the queue.  Bytes 0-99 are sent in round 0 and
    bytes 20-59 again in round 1: the new range is added but the old one is not
    cut ([tlt_segment_add] splits it in three without trimming it).  After an
    acknowledgment of the first 50 bytes the queue still holds bytes 20-59. *)
Theorem resend_leaves_acknowledged_bytes :
  exists q1 q2 q3,
    tlt_segment_add FUEL 0 100 0 empty_queue = Some q1 /\ tlt_segment_add FUEL 20 40 1 q1 = Some q2 /\
    tlt_segment_remove FUEL 0 50 q2 = Some q3 /\
    ranges FUEL (Some 0%nat) q2 = [(0, 100, 0); (20, 40, 1)] /\
    ranges FUEL (Some 0%nat) q3 = [(50, 50, 0); (20, 40, 1)].
Proof. exists sent_once, sent_twice, acked. split_and!; vm_compute; reflexivity. Qed.

Lemma lost_loop_hit fuel cur i x q :
  slots q !! i = Some x -> 0 < len x -> round x < u32 (cur - 2) ->
  lost_loop (S fuel) cur (Some i) q = Some true.
Proof.
  intros Hx Hl Hr. simpl. rewrite Hx. cbn [mbind option_bind].
  rewrite decide_False, decide_True by lia. done.
Qed.

(** In the first two rounds everything counts as lost.  The comparison with
    [cur_round - 2] is unsigned: while [cur_round] is 0 or 1, any range in the
    queue is reported lost, even one sent in the current round. *)
Theorem tlt_is_lost_in_first_rounds p L check_dirty :
  queue_ok (uimp (tlt p)) L -> L <> [] -> 0 <= cur_round (tlt p) < 2 ->
  (forall x, slots (uimp (tlt p)) !! 0%nat = Some x -> round x <= cur_round (tlt p)) ->
  tlt_is_lost p check_dirty = Some true.
Proof.
  intros Hq HL Hc Hr. destruct L as [|i L]; [done|].
  assert (i = 0%nat) as ->. { destruct Hq as (_ & _ & _ & [?|[= ->]] & _); done. }
  destruct (queue_at _ [] 0 L Hq) as (x & Hx & (_ & Hl & _) & _). simpl in Hl. unfold tlt_is_lost.
  rewrite Hx. cbn [mbind option_bind]. rewrite decide_True by lia.
  assert (u32 (cur_round (tlt p) - 2) = cur_round (tlt p) - 2 + 2 ^ 32) as Eu.
  { unfold wrap. symmetry. apply (Z.mod_unique_pos _ _ (-1)); lia. }
  unfold FUEL. rewrite (lost_loop_hit _ _ 0 x) by (try done; rewrite Eu; specialize (Hr x Hx); lia).
  done.
Qed.

Lemma tlt_is_lost_in_first_rounds_witness :
  tlt_is_lost (Pcb (TltParam Idle Idle two_ranges 0 1) 1000 0) false = Some true.
Proof.
  apply (tlt_is_lost_in_first_rounds (Pcb (TltParam Idle Idle two_ranges 0 1) 1000 0) [0; 1]%nat false).
  - exact two_ranges_ok.
  - done.
  - simpl. lia.
  - intros x [= <-]. simpl. lia.
Defined.

End Tlt.
