(* ===== verification/Dctcp.v ===== *)
(** * DCTCP

    src/src/vma/lwip/dctcp.c: the fraction of acknowledged bytes whose
    acknowledgement carried ECE is averaged into [Alpha] (scaled by
    [DCTCP_SCF]) once per window; a mark halves the congestion window in
    proportion to [Alpha]; the receiver is to echo one ECE per CE-marked packet.
    The debugging switches of dctcp.h are off, as in the source.  Of the
    connection the file reads and writes [lastack], [snd_nxt] and [cwnd]. *)

From S2P Require Import Prelude TcpBase.

Local Open Scope Z_scope.

Module Dctcp.

Definition TOS_ECT_1 : Z := 1.
Definition TOS_ECT_CE : Z := 3.
Definition DCTCP_SCF : Z := 65536.
Definition DCTCP_SHF : Z := 4.

Record dctcp_param := Dctcp {
  enabled : Z;
  ce : Z;            (* int: counter of ECE flags to send *)
  pending_ece : Z;
  pending_cwr : Z;
  next_ece : Z;
  WindowEnd : Z;
  BytesAcked : Z;
  BytesMarked : Z;
  Alpha : Z
}.

Record tcp_pcb := Pcb { dctcp : dctcp_param; lastack : Z; snd_nxt : Z; cwnd : Z }.

(** A segment: its TOS byte, its payload length and its header's flags field. *)
Record tcp_seg := Seg { tos : Z; len : Z; hrf : Z }.

Definition set_dctcp (d : dctcp_param) (p : tcp_pcb) : tcp_pcb :=
  Pcb d (lastack p) (snd_nxt p) (cwnd p).

Definition dctcp_init (p : tcp_pcb) : tcp_pcb :=
  set_dctcp (Dctcp 1 0 0 0 0 (lastack p) 0 0 1) p.

(** The non-SYN half of [dctcp_send_empty]: CWR when one is pending, ECE when
    the counter is not exhausted. *)
Definition mark_hdr (d : dctcp_param) (h : Z) : dctcp_param * Z :=
  let '(cwr, h) :=
    if ctrue (pending_cwr d) then (0, TCPH_SET_FLAG h TCP_CWR) else (pending_cwr d, h) in
  let '(c, h) :=
    if decide (ce d > 0) then (s32 (ce d - 1), TCPH_SET_FLAG h TCP_ECE) else (ce d, h) in
  (Dctcp (enabled d) c (pending_ece d) cwr (next_ece d) (WindowEnd d)
     (BytesAcked d) (BytesMarked d) (Alpha d), h).

Definition dctcp_send_empty (h : Z) (p : tcp_pcb) : Z * tcp_pcb :=
  let h := TCPH_UNSET_FLAG h TCP_ECE in
  let h := TCPH_UNSET_FLAG h TCP_CWR in
  if ctrue (Z.land (TCPH_FLAGS h) TCP_SYN) then
    let d := dctcp p in
    let d := Dctcp 1 (ce d) (pending_ece d) (pending_cwr d) (next_ece d) (WindowEnd d)
               (BytesAcked d) (BytesMarked d) (Alpha d) in
    let h := if ctrue (Z.land (TCPH_FLAGS h) TCP_ACK) then h else TCPH_SET_FLAG h TCP_CWR in
    (TCPH_SET_FLAG h TCP_ECE, set_dctcp d p)
  else
    let '(d, h) := mark_hdr (dctcp p) h in (h, set_dctcp d p).

Definition dctcp_send (seg : tcp_seg) (p : tcp_pcb) : tcp_seg * tcp_pcb :=
  let '(h, p) := dctcp_send_empty (hrf seg) p in
  let t := Z.land (tos seg) (Z.lnot TOS_ECT_CE) in
  if ctrue (Z.land (TCPH_FLAGS h) TCP_SYN) then (Seg t (len seg) h, p)
  else (Seg (if ctrue (len seg) then Z.lor t TOS_ECT_1 else t) (len seg) h, p).

(** The new [Alpha] when the window has been acknowledged: [bm] of [ba] bytes
    were marked. *)
Definition new_alpha (ba bm alpha : Z) : Z :=
  let ScaledM := u32 (DCTCP_SCF * bm) in
  let ScaledM := ScaledM / ba in
  let alpha := if decide (Z.shiftr alpha DCTCP_SHF = 0) then 0 else alpha in
  let alpha := u32 (alpha + u32 (Z.shiftr ScaledM DCTCP_SHF - Z.shiftr alpha DCTCP_SHF)) in
  if decide (alpha > DCTCP_SCF) then DCTCP_SCF else alpha.

(** The acknowledgement half of [dctcp_recv]: count the bytes this
    acknowledgement covers and close the window. *)
Definition recv_ack (flags ackno : Z) (p : tcp_pcb) : dctcp_param :=
  let d := dctcp p in
  if ctrue (Z.land flags TCP_ACK) && negb (ctrue (Z.land flags TCP_SYN)) then
    let acked := u32 (ackno - lastack p) in
    let ba := u32 (BytesAcked d + acked) in
    let bm := if ctrue (Z.land flags TCP_ECE) then u32 (BytesMarked d + acked)
              else BytesMarked d in
    if TCP_SEQ_LEQ ackno (WindowEnd d) then
      Dctcp (enabled d) (ce d) (pending_ece d) (pending_cwr d) (next_ece d) (WindowEnd d) ba bm (Alpha d)
    else if decide (ba > 0) then
      Dctcp (enabled d) (ce d) (pending_ece d) (pending_cwr d) (next_ece d) (snd_nxt p) 0 0
        (new_alpha ba bm (Alpha d))
    else
      Dctcp (enabled d) (ce d) (pending_ece d) (pending_cwr d) (next_ece d) (WindowEnd d) ba bm (Alpha d)
  else d.

Definition dctcp_recv (ecn flags ackno : Z) (p : tcp_pcb) : tcp_pcb :=
  let d := dctcp p in
  let c := if decide (Z.land ecn 3 = TOS_ECT_CE) then s32 (ce d + 1) else ce d in
  let p := set_dctcp (Dctcp (enabled d) c (pending_ece d) (pending_cwr d) (next_ece d)
                        (WindowEnd d) (BytesAcked d) (BytesMarked d) (Alpha d)) p in
  let d := recv_ack flags ackno p in
  if ctrue (Z.land flags TCP_ECE) && negb (ctrue (Z.land flags TCP_SYN)) then
    if decide (snd_nxt p >= next_ece d) then
      set_dctcp (Dctcp (enabled d) (ce d) 1 (pending_cwr d) (u32 (snd_nxt p + cwnd p))
                   (WindowEnd d) (BytesAcked d) (BytesMarked d) (Alpha d)) p
    else set_dctcp d p
  else set_dctcp d p.

Definition dctcp_reduce_cwnd (p : tcp_pcb) : bool * tcp_pcb :=
  let d := dctcp p in
  if ctrue (pending_ece d) then
    let w := u64 (cwnd p * u32 (DCTCP_SCF - Alpha d / 2)) in
    let w := w / DCTCP_SCF in
    (true, Pcb (Dctcp (enabled d) (ce d) 0 1 (next_ece d) (WindowEnd d)
                  (BytesAcked d) (BytesMarked d) (Alpha d))
             (lastack p) (snd_nxt p) (u32 w))
  else (false, p).

Definition dctcp_reduce_cwnd_rto (p : tcp_pcb) : tcp_pcb :=
  let d := dctcp p in
  set_dctcp (Dctcp (enabled d) (ce d) (pending_ece d) 1 (next_ece d) (WindowEnd d)
               (BytesAcked d) (BytesMarked d) (Alpha d)) p.

#[local] Arguments dctcp_send_empty : simpl never.
#[local] Arguments dctcp_send : simpl never.
#[local] Arguments dctcp_recv : simpl never.
#[local] Arguments dctcp_reduce_cwnd : simpl never.
#[local] Arguments mark_hdr : simpl never.

(** ** The average *)

Lemma shr4 x : Z.shiftr x DCTCP_SHF = x / 16.
Proof. apply Z.shiftr_div_pow2. done. Qed.

(** Without overflow the update is the exponentially weighted average with
    weight 1/16, and stays in range. *)
Lemma new_alpha_eq ba bm a :
  0 < ba < 2 ^ 32 -> 0 <= bm <= ba -> bm < 2 ^ 16 -> 0 <= a <= DCTCP_SCF ->
  new_alpha ba bm a =
    (if decide (a < 16) then 0 else a) - a / 16 + (DCTCP_SCF * bm / ba) / 16.
Proof.
  unfold DCTCP_SCF. intros Hba Hbm Hm Ha.
  assert (0 <= 65536 * bm / ba <= 65536).
  { split; [apply Z.div_pos; lia|]. apply Z.div_le_upper_bound; nia. }
  unfold new_alpha, DCTCP_SCF. rewrite !shr4, (wrap_small 32 (65536 * bm)) by lia.
  set (s := 65536 * bm / ba) in *.
  assert (0 <= s / 16 <= 4096) by (Z.div_mod_to_equations; lia).
  rewrite !wrap_add_r.
  destruct (decide (a < 16)) as [Hs|Hs].
  - rewrite (Z.div_small a 16) by lia. rewrite (decide_True (P := 0 = 0)) by done.
    rewrite (Z.div_small 0 16) by lia.
    rewrite wrap_small by lia. case_decide; lia.
  - rewrite (decide_False (P := a / 16 = 0)) by (Z.div_mod_to_equations; lia).
    assert (0 <= a / 16 <= a) by (Z.div_mod_to_equations; lia).
    assert (a - a / 16 <= 61440) by (Z.div_mod_to_equations; lia).
    rewrite wrap_small by lia. case_decide; lia.
Qed.

(** A window of which a multiple of 64 KiB was marked counts as unmarked. *)
Lemma new_alpha_overflow ba k a :
  new_alpha ba (65536 * k) a = new_alpha ba 0 a.
Proof.
  unfold new_alpha, DCTCP_SCF. do 3 f_equal.
  assert (u32 (65536 * (65536 * k)) = u32 (65536 * 0)) as ->; [|done].
  unfold wrap. replace (65536 * (65536 * k)) with (0 + k * 2 ^ 32) by lia.
  by rewrite Z.mod_add.
Qed.

Lemma new_alpha_range ba bm a : 0 <= new_alpha ba bm a <= DCTCP_SCF.
Proof.
  unfold new_alpha, DCTCP_SCF. case_decide; [lia|].
  match goal with |- context [u32 (_ + ?x)] => 
    pose proof (wrap_range 32 ltac:(lia) ((if decide (Z.shiftr a DCTCP_SHF = 0) then 0 else a) + x)) end. lia.
Qed.

(** ** Runs of a connection

    What the rest of the stack does to the DCTCP state: acknowledge and send
    segments ([dctcp_recv], [dctcp_send], [dctcp_send_empty]), react to a mark
    ([dctcp_reduce_cwnd]) and to a time-out; in between it moves [lastack],
    [snd_nxt] and [cwnd]. *)

Inductive event :=
  | Recv (ecn flags ackno : Z)
  | Send (seg : tcp_seg)
  | SendEmpty (h : Z)
  | Reduce
  | Rto
  | Progress (lastack snd_nxt cwnd : Z).

(** The state after the event and the header it sends. *)
Definition handle (e : event) (p : tcp_pcb) : tcp_pcb * option Z :=
  match e with
  | Recv ecn flags ackno => (dctcp_recv ecn flags ackno p, None)
  | Send seg => let '(s, p) := dctcp_send seg p in (p, Some (hrf s))
  | SendEmpty h => let '(h, p) := dctcp_send_empty h p in (p, Some h)
  | Reduce => ((dctcp_reduce_cwnd p).2, None)
  | Rto => (dctcp_reduce_cwnd_rto p, None)
  | Progress la sn cw => (Pcb (dctcp p) la sn cw, None)
  end.

Fixpoint run (es : list event) (p : tcp_pcb) : tcp_pcb * list Z :=
  match es with
  | [] => (p, [])
  | e :: es =>
    let '(p, h) := handle e p in
    let '(p, hs) := run es p in (p, option_list h ++ hs)
  end.

Definition has_ece (h : Z) : Prop := Z.land (TCPH_FLAGS h) TCP_ECE <> 0.
#[global] Instance has_ece_dec h : Decision (has_ece h) := _.

#[local] Arguments has_ece : simpl never.

(** The header of a segment after the handshake: 16 bits, no SYN. *)
Definition header_ok (h : Z) : Prop := 0 <= h < 2 ^ 16 /\ Z.land (TCPH_FLAGS h) TCP_SYN = 0.

Definition event_ok (e : event) : Prop :=
  match e with
  | Send seg => header_ok (hrf seg)
  | SendEmpty h => header_ok h
  | Progress _ _ cw => 0 <= cw < 2 ^ 32
  | _ => True
  end.

Definition is_ce (e : event) : Prop :=
  match e with Recv ecn _ _ => Z.land ecn 3 = TOS_ECT_CE | _ => False end.
#[global] Instance is_ce_dec e : Decision (is_ce e).
Proof. destruct e; apply _. Defined.

(** A header that is handed over with ECE set: one that has been sent before. *)
Definition stale (e : event) : Prop :=
  match e with Send seg => has_ece (hrf seg) | SendEmpty h => has_ece h | _ => False end.
#[global] Instance stale_dec e : Decision (stale e).
Proof. destruct e; apply _. Defined.

Definition count {A} (P : A -> Prop) `{!∀ x, Decision (P x)} (l : list A) : Z :=
  Z.of_nat (length (filter P l)).

#[local] Arguments count : simpl never.
#[local] Arguments has_ece_dec : simpl never.

Lemma ece_count_cons {A} (P : A -> Prop) `{!∀ x, Decision (P x)} x l :
  count P (x :: l) = (if decide (P x) then 1 else 0) + count P l.
Proof. unfold count. rewrite filter_cons. case_decide; simpl; lia. Qed.

(** [mark_hdr] sets ECE exactly when the counter was positive, and takes one off it
    then; an ECE that is there stays. *)
Lemma mark_hdr_ece d h : 0 <= h < 2 ^ 16 -> 0 <= ce d < 2 ^ 31 ->
  let '(d', h') := mark_hdr d h in
  Alpha d' = Alpha d /\ ce d' = (if decide (ce d > 0) then ce d - 1 else ce d) /\
  (has_ece h' <-> ce d > 0 \/ has_ece h) /\ 0 <= h' < 2 ^ 16 /\
  (Z.land (TCPH_FLAGS h) TCP_SYN = 0 -> Z.land (TCPH_FLAGS h') TCP_SYN = 0).
Proof.
  intros Hr Hc. unfold mark_hdr.
  set (h1 := if ctrue (pending_cwr d) then TCPH_SET_FLAG h TCP_CWR else h).
  assert (0 <= h1 < 2 ^ 16 /\ (has_ece h1 <-> has_ece h) /\ Z.land (TCPH_FLAGS h1) TCP_SYN = Z.land (TCPH_FLAGS h) TCP_SYN) as (Hr1 & He1 & Hs1).
  { unfold h1. destruct (ctrue _); [|done]. split; [by apply set_flag_range|].
    unfold has_ece. rewrite flags_set_flag, !Z.land_lor_distr_l by done.
    change (Z.land TCP_CWR TCP_ECE) with 0. change (Z.land TCP_CWR TCP_SYN) with 0. by rewrite !Z.lor_0_r. }
  replace (if ctrue (pending_cwr d) then (0, TCPH_SET_FLAG h TCP_CWR) else (pending_cwr d, h))
    with (if ctrue (pending_cwr d) then 0 else pending_cwr d, h1)
    by (unfold h1; by destruct (ctrue _)).
  destruct (decide (ce d > 0)); simpl; [|clearbody h1; split_and!; try done; try lia; rewrite He1; split; [by right|by intros [?|?]]].
  rewrite s32_small by lia. split_and!; try done; try (by apply set_flag_range).
  - split; [by left|intros _]. unfold has_ece. rewrite flags_set_flag, Z.land_lor_distr_l by done.
    change (Z.land TCP_ECE TCP_ECE) with 64. intros E. by apply Z.lor_eq_0_iff in E as [_ ?].
  - change 2 with TCP_SYN. intros Hs. rewrite flags_set_flag, Z.land_lor_distr_l, Hs1 by done. by rewrite Hs.
Qed.

Lemma send_empty_marks h p : header_ok h ->
  dctcp_send_empty h p =
  ((mark_hdr (dctcp p) h).2, set_dctcp (mark_hdr (dctcp p) h).1 p).
Proof.
  intros (Hr & Hs). unfold dctcp_send_empty. rewrite !unset_flag_id by (try rewrite unset_flag_id; done).
  rewrite ctrue_eq by done. by destruct (mark_hdr _ _).
Qed.

(** What sending a header does: [n] is 1 when it carries ECE. *)
Lemma send_empty_counts h p : header_ok h -> 0 <= ce (dctcp p) < 2 ^ 31 ->
  let '(h', q) := dctcp_send_empty h p in let n := if decide (has_ece h') then 1 else 0 in
  Alpha (dctcp q) = Alpha (dctcp p) /\ cwnd q = cwnd p /\ 0 <= ce (dctcp q) <= ce (dctcp p) /\
  ce (dctcp p) <= ce (dctcp q) + n <= ce (dctcp p) + (if decide (has_ece h) then 1 else 0).
Proof.
  intros Hh Hc. rewrite send_empty_marks by done. pose proof (mark_hdr_ece (dctcp p) h (proj1 Hh) Hc) as Hm.
  destruct (mark_hdr _ _) as [d' h']; cbn [fst snd set_dctcp dctcp cwnd] in *. destruct Hm as (-> & -> & He & _).
  repeat case_decide; split_and!; done || lia || tauto.
Qed.

Lemma send_hdr seg p :
  hrf (dctcp_send seg p).1 = (dctcp_send_empty (hrf seg) p).1 /\
  (dctcp_send seg p).2 = (dctcp_send_empty (hrf seg) p).2.
Proof. unfold dctcp_send. destruct (dctcp_send_empty _ _) as [h q]. by destruct (ctrue _). Qed.

Lemma recv_ack_alpha flags ackno p :
  0 <= Alpha (dctcp p) <= DCTCP_SCF -> 0 <= Alpha (recv_ack flags ackno p) <= DCTCP_SCF.
Proof. intros. unfold recv_ack. repeat case_match; simpl; done || apply new_alpha_range. Qed.

Lemma recv_ack_ce flags ackno p : ce (recv_ack flags ackno p) = ce (dctcp p).
Proof. unfold recv_ack. by repeat case_match. Qed.

(** The reduction keeps at least half of the window. *)
Lemma reduce_bounds p :
  0 <= Alpha (dctcp p) <= DCTCP_SCF -> 0 <= cwnd p < 2 ^ 32 ->
  cwnd p / 2 <= cwnd (dctcp_reduce_cwnd p).2 <= cwnd p.
Proof.
  unfold dctcp_reduce_cwnd, DCTCP_SCF. intros Ha Hw.
  case_match; simpl; [|Z.div_mod_to_equations; lia].
  set (a := Alpha (dctcp p) / 2). assert (0 <= a <= 32768) by (unfold a; Z.div_mod_to_equations; lia).
  rewrite (wrap_small 32 (65536 - a)), (wrap_small 64) by nia.
  assert (cwnd p / 2 <= cwnd p * (65536 - a) / 65536 <= cwnd p) as Hb.
  { split; [|apply Z.div_le_upper_bound; nia].
    apply Z.div_le_lower_bound; [lia|]. pose proof (Z.mul_div_le (cwnd p) 2 ltac:(lia)). nia. }
  assert (0 <= cwnd p / 2) by (apply Z.div_pos; lia).
  by rewrite wrap_small by lia.
Qed.

(** The state of a connection that is past its handshake. *)
Definition inv (p : tcp_pcb) : Prop :=
  0 <= Alpha (dctcp p) <= DCTCP_SCF /\ 0 <= ce (dctcp p) /\ 0 <= cwnd p < 2 ^ 32.

(** 1 when the proposition holds. *)
Abbreviation one P := (if decide P then 1 else 0).

Lemma handle_inv e p : event_ok e -> inv p -> ce (dctcp p) + one (is_ce e) < 2 ^ 31 ->
  let '(q, h) := handle e p in
  inv q /\ ce (dctcp q) <= ce (dctcp p) + one (is_ce e) <= ce (dctcp q) + count has_ece (option_list h) /\
  ce (dctcp q) + count has_ece (option_list h) <= ce (dctcp p) + one (is_ce e) + one (stale e).
Proof.
  intros He (Ha & Hc & Hw) Hb. unfold inv. destruct e as [ecn flags ackno|seg|h| | |la sn cw]; cbn [handle event_ok] in *;
    try rewrite (decide_False (P := is_ce _)) in * by (intros []); try rewrite (decide_False (P := stale _)) by (intros []).
  - change (count has_ece (option_list None)) with 0. unfold dctcp_recv.
    set (p1 := set_dctcp _ p). set (d := recv_ack flags ackno p1).
    assert (ce d = ce (dctcp p) + one (is_ce (Recv ecn flags ackno))) as Hd.
    { unfold d. rewrite recv_ack_ce. simpl. rewrite (decide_ext (is_ce (Recv ecn flags ackno)) (Z.land ecn 3 = TOS_ECT_CE)) in * by done.
      case_decide; [rewrite s32_small|]; lia. }
    assert (0 <= Alpha d <= DCTCP_SCF) by by apply recv_ack_alpha.
    assert (0 <= one (is_ce (Recv ecn flags ackno))) by (case_decide; lia).
    repeat case_match; simpl; split_and!; lia.
  - destruct (send_hdr seg p) as [E1 E2]. destruct (dctcp_send seg p) as [s q]. cbn [fst snd] in *.
    pose proof (send_empty_counts (hrf seg) p He ltac:(lia)) as Hs. destruct (dctcp_send_empty _ _) as [h' q']. cbn [fst snd] in *. subst q h'.
    cbn [option_list option_rect]. rewrite ece_count_cons. change (count has_ece []) with 0. change (stale (Send seg)) with (has_ece (hrf seg)) in *.
    rewrite (decide_ext (stale (Send seg)) (has_ece (hrf seg))) by done. destruct Hs as (-> & -> & ? & ?). split_and!; lia.
  - pose proof (send_empty_counts h p He ltac:(lia)) as Hs. destruct (dctcp_send_empty _ _) as [h' q].
    cbn [option_list option_rect]. rewrite ece_count_cons. change (count has_ece []) with 0.
    rewrite (decide_ext (stale (SendEmpty h)) (has_ece h)) by done. destruct Hs as (-> & -> & ? & ?). split_and!; lia.
  - pose proof (reduce_bounds p Ha Hw). assert (0 <= cwnd p / 2) by (apply Z.div_pos; lia).
    change (count has_ece (option_list None)) with 0.
    assert (dctcp (dctcp_reduce_cwnd p).2 = dctcp p \/
            Alpha (dctcp (dctcp_reduce_cwnd p).2) = Alpha (dctcp p) /\
            ce (dctcp (dctcp_reduce_cwnd p).2) = ce (dctcp p)) as [->|[-> ->]];
      [unfold dctcp_reduce_cwnd; case_match; simpl; auto|split_and!; lia..].
  - change (count has_ece (option_list None)) with 0. unfold dctcp_reduce_cwnd_rto. simpl. split_and!; lia.
  - simpl. change (count has_ece []) with 0. split_and!; lia.
Qed.

Lemma run_inv es p : Forall event_ok es -> inv p -> ce (dctcp p) + count is_ce es < 2 ^ 31 ->
  let '(q, hs) := run es p in
  inv q /\ ce (dctcp p) + count is_ce es <= ce (dctcp q) + count has_ece hs <= ce (dctcp p) + count is_ce es + count stale es.
Proof.
  revert p. induction es as [|e es IH]; intros p Hes Hp Hb; cbn [run].
  { change (count is_ce []) with 0. change (count has_ece []) with 0. change (count stale []) with 0. split; [done|lia]. }
  apply list.Forall_cons in Hes as [He Hes]. rewrite ece_count_cons in Hb.
  assert (0 <= count is_ce es) by (unfold count; lia).
  pose proof (handle_inv e p He Hp ltac:(lia)) as H1. destruct (handle e p) as [q h]. destruct H1 as (Hq & ? & ?).
  pose proof (IH q Hes Hq ltac:(lia)) as H2. destruct (run es q) as [r hs]. destruct H2 as (Hr & ?).
  split; [done|]. rewrite !ece_count_cons. unfold count at 2 3. rewrite list.filter_app, length_app. unfold count in *. lia.
Qed.

(** C40: On every run of a DCTCP connection after its handshake the average
    [Alpha] stays between 0 and [DCTCP_SCF] and a reaction to a mark never cuts
    the congestion window to less than half.  Every CE-marked packet that was
    received is echoed: the ECE flags sent and the counter of those still owed are
    at least as many as the marks, and exceed them at most by the number of headers
    that were handed over with ECE set already, as a retransmitted one is; without
    such headers they add up exactly, one ECE for each mark.  (That a retransmitted
    header does carry its ECE again is [resent_header_echoes_again].)  Assumes that
    fewer than 2^31 marked packets are received, since the counter is an [int]. *)
Theorem dctcp_run_correct es p0 :
  Forall event_ok es -> 0 <= cwnd p0 < 2 ^ 32 -> count is_ce es < 2 ^ 31 ->
  let '(p, hs) := run es (dctcp_init p0) in
  0 <= Alpha (dctcp p) <= DCTCP_SCF /\
  cwnd p / 2 <= cwnd (dctcp_reduce_cwnd p).2 <= cwnd p /\ 0 <= ce (dctcp p) /\
  count is_ce es <= ce (dctcp p) + count has_ece hs <= count is_ce es + count stale es.
Proof.
  intros Hes Hw Hb. pose proof (run_inv es (dctcp_init p0) Hes) as R.
  destruct (run es (dctcp_init p0)) as [p hs]. destruct R as [(Ha & Hc & Hp) E]; [unfold inv, DCTCP_SCF; simpl; lia|simpl; lia|].
  simpl in E. split_and!; try done; try apply reduce_bounds; try done; lia.
Qed.

(** Two marks; a header is sent, and sent again after a time-out. *)
Definition ex_hdr : Z := TCPH_HDRLEN_FLAGS_SET 5 TCP_ACK.
Definition ex_events : list event :=
  [Recv 3 TCP_ACK 100; Recv 0 TCP_ACK 200; Recv 3 TCP_ACK 300;
   SendEmpty ex_hdr; Reduce; SendEmpty ex_hdr; Rto; SendEmpty (TCPH_SET_FLAG ex_hdr TCP_ECE)].

Lemma dctcp_run_correct_witness :
  Forall event_ok ex_events /\ count is_ce ex_events = 2 /\ count stale ex_events = 1 /\
  match run ex_events (dctcp_init (Pcb (Dctcp 0 0 0 0 0 0 0 0 0) 0 1000 3000)) with
  | (p, hs) => 2 <= ce (dctcp p) + count has_ece hs <= 2 + 1
  end.
Proof.
  assert (Forall event_ok ex_events) as H by (repeat constructor; vm_compute; done).
  split; [exact H|]. split; [reflexivity|]. split; [reflexivity|].
  pose proof (dctcp_run_correct ex_events (Pcb (Dctcp 0 0 0 0 0 0 0 0 0) 0 1000 3000) H) as R.
  specialize (R ltac:(simpl; lia) ltac:(vm_compute; reflexivity)). destruct (run _ _) as [p hs]. apply R.
Defined.

(** A segment that is sent again carries the ECE it was given the first time, whatever
    the counter is by then: [dctcp_send] is to clear it first and [TCPH_UNSET_FLAG]
    does not.  So one marked packet is echoed by two ECE flags. *)
Theorem resent_header_echoes_again seg p : header_ok (hrf seg) -> ce (dctcp p) = 1 ->
  let '(s1, p1) := dctcp_send seg p in let '(s2, p2) := dctcp_send s1 p1 in
  has_ece (hrf s1) /\ ce (dctcp p1) = 0 /\ has_ece (hrf s2) /\ ce (dctcp p2) = 0.
Proof.
  intros Hh Hc. destruct (send_hdr seg p) as [E1 E2]. destruct (dctcp_send seg p) as [s1 p1]. cbn [fst snd] in *.
  rewrite send_empty_marks in E1, E2 by done. pose proof (mark_hdr_ece (dctcp p) (hrf seg) (proj1 Hh) ltac:(lia)) as M1.
  destruct (mark_hdr _ _) as [d1 h1]; cbn [fst snd] in *. destruct M1 as (_ & C1 & F1 & R1 & S1). rewrite Hc in *.
  assert (header_ok (hrf s1)) as Hh1 by (subst; split; [done|by apply S1, Hh]).
  destruct (send_hdr s1 p1) as [E3 E4]. destruct (dctcp_send s1 p1) as [s2 p2]. cbn [fst snd] in *.
  rewrite send_empty_marks in E3, E4 by done. pose proof (mark_hdr_ece (dctcp p1) (hrf s1) (proj1 Hh1)) as M2.
  assert (ce (dctcp p1) = 0) as C0 by (subst; simpl; rewrite C1; done). rewrite C0 in M2.
  destruct (mark_hdr _ _) as [d2 h2]; cbn [fst snd] in *. destruct M2 as (_ & C2 & F2 & _); [lia|]. subst. cbn [set_dctcp dctcp] in *.
  split_and!; try done; [apply F1; lia|apply F2; right; apply F1; lia].
Qed.

Lemma resent_header_echoes_again_witness :
  has_ece (hrf (dctcp_send (dctcp_send (Seg 0 100 ex_hdr) (Pcb (Dctcp 1 1 0 0 0 0 0 0 0) 0 0 3000)).1
    (dctcp_send (Seg 0 100 ex_hdr) (Pcb (Dctcp 1 1 0 0 0 0 0 0 0) 0 0 3000)).2).1).
Proof.
  pose proof (resent_header_echoes_again (Seg 0 100 ex_hdr) (Pcb (Dctcp 1 1 0 0 0 0 0 0 0) 0 0 3000)) as H.
  destruct (dctcp_send (Seg 0 100 ex_hdr) _) as [s1 p1]. cbn [fst snd]. destruct (dctcp_send s1 p1) as [s2 p2]. cbn [fst snd].
  apply H; [by vm_compute|reflexivity].
Defined.

(** When an acknowledgement closes the window and fewer than 64 KiB of
    it were marked, [Alpha] becomes the exponentially weighted average of the
    marked fraction with weight 1/16; it falls strictly while nothing is
    marked until it is 0, and rises strictly to [DCTCP_SCF] while everything
    is marked; the counters restart for the next window. *)
Theorem dctcp_alpha_average ecn flags ackno p ba bm :
  0 <= Alpha (dctcp p) <= DCTCP_SCF ->
  Z.land flags TCP_ACK <> 0 -> Z.land flags TCP_SYN = 0 ->
  TCP_SEQ_LEQ ackno (WindowEnd (dctcp p)) = false ->
  ba = BytesAcked (dctcp p) + u32 (ackno - lastack p) ->
  bm = BytesMarked (dctcp p)
       + (if decide (Z.land flags TCP_ECE = 0) then 0 else u32 (ackno - lastack p)) ->
  0 < ba < 2 ^ 32 -> 0 <= BytesMarked (dctcp p) -> bm <= ba -> bm < 2 ^ 16 ->
  let a := Alpha (dctcp p) in
  let d := dctcp (dctcp_recv ecn flags ackno p) in
  Alpha d = (if decide (a < 16) then 0 else a) - a / 16 + (DCTCP_SCF * bm / ba) / 16 /\
  0 <= Alpha d <= DCTCP_SCF /\
  (bm = 0 -> 0 < a -> Alpha d < a) /\ (bm = ba -> a < DCTCP_SCF -> a < Alpha d) /\
  BytesAcked d = 0 /\ BytesMarked d = 0 /\ WindowEnd d = snd_nxt p.
Proof.
  intros Ha Hack Hsyn Hend Eba Ebm Hba Hm0 Hbm Hbm16 a d.
  pose proof (wrap_range 32 ltac:(lia) (ackno - lastack p)) as Hu.
  assert (Alpha d = new_alpha ba bm a /\ BytesAcked d = 0 /\ BytesMarked d = 0 /\ WindowEnd d = snd_nxt p)
    as (-> & H1 & H2 & H3).
  { unfold d, dctcp_recv. set (p1 := set_dctcp _ p).
    assert (recv_ack flags ackno p1 =
      Dctcp (enabled (dctcp p)) (ce (dctcp p1)) (pending_ece (dctcp p)) (pending_cwr (dctcp p))
        (next_ece (dctcp p)) (snd_nxt p) 0 0 (new_alpha ba bm a)) as ->.
    { unfold recv_ack. rewrite (ctrue_ne (Z.land flags TCP_ACK)), (ctrue_eq (Z.land flags TCP_SYN)) by done.
      cbn [andb negb]. simpl lastack. simpl WindowEnd. rewrite Hend. simpl BytesAcked. simpl BytesMarked.
      rewrite (wrap_small 32 (BytesAcked (dctcp p) + _)) by lia.
      rewrite decide_True by lia. f_equal. rewrite <- Eba. f_equal. rewrite Ebm. unfold ctrue.
      destruct (decide (Z.land flags TCP_ECE = 0)).
      - rewrite bool_decide_false by auto. lia.
      - rewrite bool_decide_true by auto. apply wrap_small. lia. }
    repeat case_match; done. }
  assert (0 <= bm) by (rewrite Ebm; case_decide; lia).
  split; [by apply new_alpha_eq|]. split; [apply new_alpha_range|].
  rewrite new_alpha_eq by done. fold a in Ha. clearbody a. clear Ebm. unfold DCTCP_SCF in *. split_and!; try done.
  - intros -> Hpos. rewrite Z.mul_0_r, Z.div_0_l by lia. change (0 / 16) with 0.
    case_decide; Z.div_mod_to_equations; lia.
  - intros -> Hlt. rewrite Z.div_mul by lia. change (65536 / 16) with 4096.
    case_decide; Z.div_mod_to_equations; lia.
Qed.

Lemma dctcp_alpha_average_witness :
  Alpha (dctcp (dctcp_recv 0 (Z.lor TCP_ACK TCP_ECE) 2000
    (Pcb (Dctcp 1 0 0 0 0 1000 1000 0 160) 1000 5000 8000))) = 160 - 10 + (65536 * 1000 / 2000) / 16.
Proof.
  refine (proj1 (dctcp_alpha_average 0 (Z.lor TCP_ACK TCP_ECE) 2000
    (Pcb (Dctcp 1 0 0 0 0 1000 1000 0 160) 1000 5000 8000) 2000 1000 _ _ _ _ _ _ _ _ _ _));
    by vm_compute.
Defined.

(** The marked bytes are scaled in 32 bits: a window whose marked bytes
    are a multiple of 64 KiB, all of its bytes included, is averaged as if
    nothing had been marked, so that under full marking [Alpha] falls. *)
Theorem dctcp_scaled_overflow ecn ackno p k :
  0 < k < 65536 -> 0 < Alpha (dctcp p) <= DCTCP_SCF ->
  TCP_SEQ_LEQ ackno (WindowEnd (dctcp p)) = false ->
  BytesAcked (dctcp p) = 0 -> BytesMarked (dctcp p) = 0 ->
  u32 (ackno - lastack p) = 65536 * k ->
  Alpha (dctcp (dctcp_recv ecn (Z.lor TCP_ACK TCP_ECE) ackno p)) =
  Alpha (dctcp (dctcp_recv ecn TCP_ACK ackno p)) /\
  Alpha (dctcp (dctcp_recv ecn (Z.lor TCP_ACK TCP_ECE) ackno p)) < Alpha (dctcp p).
Proof.
  intros Hk Ha Hend H0 H1 Hacked.
  assert (forall f, Z.land f TCP_ACK <> 0 -> Z.land f TCP_SYN = 0 ->
    Alpha (dctcp (dctcp_recv ecn f ackno p)) = new_alpha (65536 * k) 0 (Alpha (dctcp p))) as E.
  { intros f Hf Hs. unfold dctcp_recv. set (p1 := set_dctcp _ p).
    assert (Alpha (recv_ack f ackno p1) = new_alpha (65536 * k) 0 (Alpha (dctcp p))) as <-;
      [|by repeat case_match].
    unfold recv_ack. rewrite (ctrue_ne (Z.land f TCP_ACK)), (ctrue_eq (Z.land f TCP_SYN)) by done.
    cbn [andb negb]. simpl lastack. simpl WindowEnd. simpl BytesAcked. simpl BytesMarked.
    rewrite Hend, Hacked, H0, H1. rewrite (wrap_small 32) by lia.
    rewrite decide_True by lia. simpl. destruct (ctrue _); [|done]. apply new_alpha_overflow. }
  rewrite !E by done. split; [done|].
  rewrite new_alpha_eq by (unfold DCTCP_SCF in *; lia).
  rewrite Z.mul_0_r, Z.div_0_l by lia. change (0 / 16) with 0.
  case_decide; Z.div_mod_to_equations; lia.
Qed.

Lemma dctcp_scaled_overflow_witness :
  Alpha (dctcp (dctcp_recv 0 (Z.lor TCP_ACK TCP_ECE) 65536
    (Pcb (Dctcp 1 0 0 0 0 0 0 0 65536) 0 200000 100000))) < 65536.
Proof.
  refine (proj2 (dctcp_scaled_overflow 0 65536 (Pcb (Dctcp 1 0 0 0 0 0 0 0 65536) 0 200000 100000) 1
    _ _ _ _ _ _)); by vm_compute.
Defined.

End Dctcp.
