(* ===== verification/TcpOpt.v ===== *)
(** * TCP options

    [tcp_parseopt] of src/src/vma/lwip/tcp_in.c reads the options of a received
    header; [tcp_output_segment], [tcp_send_empty_ack] and the functions they
    call in src/src/vma/lwip/tcp_out.c write them.  The options of a received
    packet are the bytes [opts] behind the fixed header; [max_c] of them belong
    to the header.  [UB] is an access outside of an object: a read behind the
    bytes of the packet, or a fifth SACK block.  The loop of the parser has
    [fuel] iterations, [Timeout] when they do not suffice.  LWIP_TCP_TIMESTAMPS
    and LWIP_TCP_SACK are 1, as in lwip/opt.h. *)

From S2P Require Import Prelude TcpBase.

Local Open Scope Z_scope.

Module Opt.

Inductive res (A : Type) := Ok (a : A) | UB | Timeout.
Arguments Ok {A}.
Arguments UB {A}.
Arguments Timeout {A}.

Definition TF_TIMESTAMP : Z := 0x0008.
Definition TF_WND_SCALE : Z := 0x0100.

Definition tcp_sack_block : Type := Z * Z.

Record tcp_pcb := Pcb {
  advtsd_mss : Z;
  mss : Z;
  max_snd_buff : Z;
  max_tcp_snd_queuelen : Z;
  max_unsent_len : Z;
  tcp_oversize_val : Z;
  snd_scale : Z;
  rcv_scale : Z;
  flags : Z;
  enable_ts_opt : bool;
  ts_recent : Z;
  ts_lastacksent : Z;
  sack_permitted : bool;
  rcv_nxt : Z;
  rcv_sack_block : list tcp_sack_block  (* the first rcv_sack_block_cnt *)
}.

Record tcp_in_data := In {
  in_flags : Z;
  seqno : Z;
  tcplen : Z;
  sack_block : list tcp_sack_block     (* the first sack_block_cnt of 4 *)
}.

(** The configuration: [enable_wnd_scale] and [rcv_wnd_scale]. *)
Record config := Config { enable_wnd_scale : bool; rcv_wnd_scale : Z }.

Definition state : Type := tcp_pcb * tcp_in_data.

Definition UPDATE_PCB_BY_MSS (snd_mss : Z) (p : tcp_pcb) : tcp_pcb :=
  Pcb (advtsd_mss p) snd_mss (max_snd_buff p)
    (u32 (16 * max_snd_buff p) / snd_mss) (u16 (u32 (16 * max_snd_buff p) / snd_mss)) snd_mss
    (snd_scale p) (rcv_scale p) (flags p) (enable_ts_opt p) (ts_recent p) (ts_lastacksent p)
    (sack_permitted p) (rcv_nxt p) (rcv_sack_block p).

Definition set_scale (snd rcv fl : Z) (p : tcp_pcb) : tcp_pcb :=
  Pcb (advtsd_mss p) (mss p) (max_snd_buff p) (max_tcp_snd_queuelen p) (max_unsent_len p)
    (tcp_oversize_val p) snd rcv fl (enable_ts_opt p) (ts_recent p) (ts_lastacksent p)
    (sack_permitted p) (rcv_nxt p) (rcv_sack_block p).

Definition set_ts (recent fl : Z) (p : tcp_pcb) : tcp_pcb :=
  Pcb (advtsd_mss p) (mss p) (max_snd_buff p) (max_tcp_snd_queuelen p) (max_unsent_len p)
    (tcp_oversize_val p) (snd_scale p) (rcv_scale p) fl (enable_ts_opt p) recent (ts_lastacksent p)
    (sack_permitted p) (rcv_nxt p) (rcv_sack_block p).

Definition set_sack_permitted (p : tcp_pcb) : tcp_pcb :=
  Pcb (advtsd_mss p) (mss p) (max_snd_buff p) (max_tcp_snd_queuelen p) (max_unsent_len p)
    (tcp_oversize_val p) (snd_scale p) (rcv_scale p) (flags p) (enable_ts_opt p) (ts_recent p)
    (ts_lastacksent p) true (rcv_nxt p) (rcv_sack_block p).

Definition set_blocks (l : list tcp_sack_block) (i : tcp_in_data) : tcp_in_data :=
  In (in_flags i) (seqno i) (tcplen i) l.

(** ** What an option does to the connection *)

Definition syn (i : tcp_in_data) : bool := ctrue (Z.land (in_flags i) TCP_SYN).

Definition on_mss (m : Z) (s : state) : state :=
  let '(p, i) := s in
  if syn i then
    (UPDATE_PCB_BY_MSS (if decide (m > advtsd_mss p \/ m = 0) then advtsd_mss p else m) p, i)
  else s.

Definition on_scale (g : config) (x : Z) (s : state) : state :=
  let '(p, i) := s in
  if enable_wnd_scale g && syn i && negb (ctrue (Z.land (flags p) TF_WND_SCALE)) then
    (set_scale (if decide (x > 14) then 14 else x) (u8 (rcv_wnd_scale g))
       (Z.lor (flags p) TF_WND_SCALE) p, i)
  else s.

Definition on_ts (v : Z) (s : state) : state :=
  let '(p, i) := s in
  if syn i then
    if enable_ts_opt p then (set_ts v (Z.lor (flags p) TF_TIMESTAMP) p, i) else s
  else if TCP_SEQ_BETWEEN (ts_lastacksent p) (seqno i) (seqno i + tcplen i) then
    (set_ts v (flags p) p, i)
  else s.

Definition on_sack_perm (s : state) : state :=
  let '(p, i) := s in if syn i then (set_sack_permitted p, i) else s.

(** ** tcp_parseopt *)

(** [opts[c]] as an unsigned byte. *)
Definition rd (opts : list Z) (c : Z) : option Z := opts !! Z.to_nat c.

(** The 32-bit word at [c] as the source puts it together, low byte first. *)
Definition rd_word (opts : list Z) (c : Z) : option Z :=
  b0 ← rd opts c; b1 ← rd opts (c + 1); b2 ← rd opts (c + 2); b3 ← rd opts (c + 3);
  Some (Z.lor b0 (Z.lor (Z.shiftl b1 8) (Z.lor (Z.shiftl b2 16) (Z.shiftl b3 24)))).

(** The [while(sack_len)] loop; [bs] are the blocks stored so far. *)
Fixpoint sack_loop (opts : list Z) (n : nat) (c : Z) (bs : list tcp_sack_block)
  : option (Z * list tcp_sack_block) :=
  match n with
  | O => Some (c, bs)
  | S n =>
    le ← rd_word opts c;
    re ← rd_word opts (c + 4);
    if decide (length bs < 4)%nat then
      sack_loop opts n (u16 (c + 8)) (bs ++ [(ntohl le, ntohl re)])
    else None
  end.

(** One iteration: [None] is an access out of bounds, [Some None] a [return],
    [Some (Some (c, s))] goes on at [c]. *)
Definition parse_one (g : config) (opts : list Z) (max_c c : Z) (s : state)
  : option (option (Z * state)) :=
  opt ← rd opts c;
  match opt with
  | 0 => Some None
  | 1 => Some (Some (u16 (c + 1), s))
  | 2 =>
    l ← rd opts (c + 1);
    if decide (l <> 4 \/ c + 4 > max_c) then Some None
    else b2 ← rd opts (c + 2); b3 ← rd opts (c + 3);
         Some (Some (u16 (c + 4), on_mss (Z.lor (Z.shiftl b2 8) b3) s))
  | 3 =>
    l ← rd opts (c + 1);
    if decide (l <> 3 \/ c + 3 > max_c) then Some None
    else x ← rd opts (c + 2); Some (Some (u16 (c + 3), on_scale g x s))
  | 8 =>
    l ← rd opts (c + 1);
    if decide (l <> 10 \/ c + 10 > max_c) then Some None
    else tsval ← rd_word opts (c + 2); Some (Some (u16 (c + 10), on_ts (ntohl tsval) s))
  | 4 => Some (Some (u16 (c + 2), on_sack_perm s))
  | 5 =>
    sack_len ← rd opts (c + 1);
    if decide (sack_len >= 10) then
      '(c, bs) ← sack_loop opts (Z.to_nat (Z.shiftr (sack_len - 2) 3)) (u16 (c + 2)) [];
      Some (Some (c, (s.1, set_blocks bs s.2)))
    else Some (Some (u16 (c + sack_len), s))
  | _ =>
    l ← rd opts (c + 1);
    if decide (l = 0) then Some None else Some (Some (u16 (c + l), s))
  end.

Fixpoint parse_loop (fuel : nat) (g : config) (opts : list Z) (max_c c : Z) (s : state) : res state :=
  if decide (c < max_c) then
    match fuel with
    | O => Timeout
    | S fuel =>
      match parse_one g opts max_c c s with
      | None => UB
      | Some None => Ok s
      | Some (Some (c, s)) => parse_loop fuel g opts max_c c s
      end
    end
  else Ok s.

(** [hdrlen] is [TCPH_HDRLEN] of the header. *)
Definition tcp_parseopt (fuel : nat) (g : config) (hdrlen : Z) (opts : list Z) (s : state) : res state :=
  let s := (s.1, set_blocks [] s.2) in
  if decide (hdrlen > 5) then parse_loop fuel g opts (Z.shiftl (hdrlen - 5) 2) 0 s else Ok s.

(** ** Options as values, and their encoding (RFC 793, 7323, 2018) *)

Inductive option_t :=
  | ONop
  | OMss (m : Z)
  | OScale (x : Z)
  | OTs (val ecr : Z)
  | OSackPerm
  | OSack (bs : list tcp_sack_block)
  | OOther (kind : Z) (data : list Z).

Definition byte_at (v k : Z) : Z := Z.land (Z.shiftr v k) 255.
Definition be32 (v : Z) : list Z := [byte_at v 24; byte_at v 16; byte_at v 8; byte_at v 0].
Definition enc_block (b : tcp_sack_block) : list Z := be32 b.1 ++ be32 b.2.

Definition enc (o : option_t) : list Z :=
  match o with
  | ONop => [1]
  | OMss m => [2; 4; byte_at m 8; byte_at m 0]
  | OScale x => [3; 3; x]
  | OTs v e => [8; 10] ++ be32 v ++ be32 e
  | OSackPerm => [4; 2]
  | OSack bs => [5; 2 + 8 * Z.of_nat (length bs)] ++ concat (enc_block <$> bs)
  | OOther k d => [k; 2 + Z.of_nat (length d)] ++ d
  end.

Definition encode (os : list option_t) : list Z := concat (enc <$> os).

Definition block_ok (b : tcp_sack_block) : Prop := 0 <= b.1 < 2 ^ 32 /\ 0 <= b.2 < 2 ^ 32.

Definition option_ok (o : option_t) : Prop :=
  match o with
  | ONop | OSackPerm => True
  | OMss m => 0 <= m < 2 ^ 16
  | OScale x => 0 <= x < 256
  | OTs v e => 0 <= v < 2 ^ 32 /\ 0 <= e < 2 ^ 32
  | OSack bs => (1 <= length bs <= 4)%nat /\ Forall block_ok bs
  | OOther k d => (k ∉ [0; 1; 2; 3; 4; 5; 8]) /\ 0 <= k < 256 /\ (length d < 254)%nat
  end.

(** What the parser does for an option. *)
Definition apply_option (g : config) (s : state) (o : option_t) : state :=
  match o with
  | ONop | OOther _ _ => s
  | OMss m => on_mss m s
  | OScale x => on_scale g x s
  | OTs v _ => on_ts v s
  | OSackPerm => on_sack_perm s
  | OSack bs => (s.1, set_blocks bs s.2)
  end.

Lemma length_be32 v : length (be32 v) = 4%nat.
Proof. done. Qed.
Lemma length_enc_block b : length (enc_block b) = 8%nat.
Proof. done. Qed.
#[local] Arguments be32 : simpl never.
#[local] Arguments enc_block : simpl never.

Lemma length_blocks bs : length (concat (enc_block <$> bs)) = (8 * length bs)%nat.
Proof.
  induction bs as [|b bs IH]; [done|].
  rewrite fmap_cons. cbn [concat length]. rewrite length_app, length_enc_block. lia.
Qed.

Lemma rd_app pre l k : 0 <= k -> rd (pre ++ l) (Z.of_nat (length pre) + k) = rd l k.
Proof.
  intros Hk. unfold rd. rewrite Z2Nat.inj_add, Nat2Z.id by lia.
  rewrite lookup_app_r by lia. f_equal. lia.
Qed.

Lemma rd_app_0 pre l : rd (pre ++ l) (Z.of_nat (length pre)) = rd l 0.
Proof. rewrite <- (rd_app pre l 0) by lia. f_equal. lia. Qed.

(** The word read from the bytes of [v] is [v] in network order. *)
Lemma rd_word_be32 pre v suf :
  rd_word (pre ++ be32 v ++ suf) (Z.of_nat (length pre)) = Some (ntohl v).
Proof.
  unfold rd_word, be32. rewrite rd_app_0, !rd_app by lia. simpl. f_equal.
  unfold ntohl, byte_at. rewrite Z.shiftr_0_r.
  apply Z.bits_inj'. intros i Hi. rewrite !Z.lor_spec.
  by repeat match goal with |- context [Z.testbit ?x i] => destruct (Z.testbit x i) end.
Qed.

(** [rd_word_be32] where the position is known by an equation. *)
Lemma rd_word_at opts c pre v suf :
  opts = pre ++ be32 v ++ suf -> c = Z.of_nat (length pre) -> 0 <= v < 2 ^ 32 ->
  exists w, rd_word opts c = Some w /\ ntohl w = v.
Proof. intros -> -> Hv. exists (ntohl v). split; [apply rd_word_be32|by apply ntohl_invol]. Qed.

Lemma sack_loop_spec bs pre suf bs0 :
  Forall block_ok bs -> (length bs0 + length bs <= 4)%nat ->
  Z.of_nat (length pre) + 8 * Z.of_nat (length bs) < 2 ^ 16 ->
  sack_loop (pre ++ concat (enc_block <$> bs) ++ suf) (length bs) (Z.of_nat (length pre)) bs0 =
  Some (Z.of_nat (length pre) + 8 * Z.of_nat (length bs), bs0 ++ bs).
Proof.
  revert pre bs0. induction bs as [|[le re] bs IH]; intros pre bs0 Hok Hlen Hc.
  { simpl. rewrite app_nil_r. do 2 f_equal. lia. }
  rewrite fmap_cons. cbn [concat sack_loop length].
  apply list.Forall_cons in Hok as [[Hl Hr] Hok]. simpl in Hl, Hr, Hlen, Hc.
  set (opts := pre ++ _).
  edestruct (rd_word_at opts (Z.of_nat (length pre)) pre le) as (w1 & -> & N1); [|done|done|].
  { unfold opts, enc_block. by rewrite <- !app_assoc. }
  edestruct (rd_word_at opts (Z.of_nat (length pre) + 4) (pre ++ be32 le) re) as (w2 & -> & N2); [| |done|].
  { unfold opts, enc_block. by rewrite <- !app_assoc. }
  { rewrite length_app, length_be32. lia. }
  cbn [mbind option_bind]. rewrite decide_True by lia. rewrite N1, N2, wrap_small by lia.
  specialize (IH (pre ++ enc_block (le, re)) (bs0 ++ [(le, re)]) Hok).
  rewrite <- !app_assoc, !length_app, length_enc_block in IH. cbn [length] in IH.
  unfold opts. rewrite <- app_assoc.
  replace (Z.of_nat (length pre) + 8) with (Z.of_nat (length pre + 8)) by lia.
  rewrite IH by lia. simpl. do 2 f_equal. lia.
Qed.

Lemma byte_at_div v k : 0 <= k -> byte_at v k = v / 2 ^ k mod 256.
Proof.
  intros. unfold byte_at. change 255 with (Z.ones 8).
  by rewrite Z.land_ones, Z.shiftr_div_pow2 by lia.
Qed.

(** One iteration of the parser on an encoded option. *)
Lemma parse_one_spec g o pre suf max_c s :
  option_ok o -> Z.of_nat (length pre + length (enc o)) <= max_c -> max_c <= 40 ->
  parse_one g (pre ++ enc o ++ suf) max_c (Z.of_nat (length pre)) s =
  Some (Some (Z.of_nat (length pre + length (enc o)), apply_option g s o)).
Proof.
  intros Ho Hfit Hmax. unfold parse_one. rewrite rd_app_0.
  destruct o as [|m|x|v e| |bs|k d]; cbn [enc] in *.
  - simpl. rewrite wrap_small by lia. do 3 f_equal. lia.
  - simpl in Hfit. rewrite !rd_app by lia. simpl. rewrite decide_False by lia.
    rewrite wrap_small by lia. do 3 f_equal; [lia|]. unfold apply_option. f_equal.
    simpl in Ho. rewrite !byte_at_div by lia. change (2 ^ 0) with 1. rewrite Z.div_1_r.
    rewrite lor_field by (Z.div_mod_to_equations; lia). Z.div_mod_to_equations; lia.
  - simpl in Hfit. rewrite !rd_app by lia. simpl. rewrite decide_False by lia.
    rewrite wrap_small by lia. do 3 f_equal. lia.
  - destruct Ho as [Hv He]. rewrite !length_app in *. simpl in Hfit. rewrite !rd_app by lia. simpl.
    rewrite decide_False by lia.
    edestruct (rd_word_at (pre ++ ([8; 10] ++ be32 v ++ be32 e) ++ suf)
      (Z.of_nat (length pre) + 2) (pre ++ [8; 10]) v) as (w & E & N); [| |done|].
    { by rewrite <- !app_assoc. }
    { rewrite length_app. simpl. lia. }
    simpl in E. rewrite E. simpl. rewrite N, wrap_small by lia. do 3 f_equal. lia.
  - simpl in *. rewrite wrap_small by lia. do 3 f_equal. lia.
  - destruct Ho as [Hn Hb]. rewrite length_app in *. simpl in Hfit. rewrite !rd_app by lia. simpl.
    rewrite length_blocks in *. rewrite decide_True by lia.
    replace (Z.to_nat _) with (length bs).
    2: { rewrite Z.shiftr_div_pow2 by lia. change (2 ^ 3) with 8.
         replace (2 + 8 * Z.of_nat (length bs) - 2) with (Z.of_nat (length bs) * 8) by lia.
         rewrite Z.div_mul by lia. lia. }
    rewrite wrap_small by lia.
    pose proof (sack_loop_spec bs (pre ++ [5; 2 + 8 * Z.of_nat (length bs)]) suf [] Hb) as E.
    rewrite <- !app_assoc, length_app in E. simpl in E.
    replace (Z.of_nat (length pre) + 2) with (Z.of_nat (length pre + 2)) by lia.
    rewrite E by lia. simpl. do 3 f_equal. lia.
  - destruct Ho as (Hk & Hk0 & Hd). rewrite length_app in *. simpl in Hfit. rewrite !rd_app by lia. simpl.
    rewrite !not_elem_of_cons in Hk. destruct Hk as (?&?&?&?&?&?&?&_).
    assert (forall A (a0 a1 a2 a3 a8 a4 a5 d : A),
      match k with 0 => a0 | 1 => a1 | 2 => a2 | 3 => a3 | 8 => a8 | 4 => a4 | 5 => a5 | _ => d end = d) as Em.
    { intros. repeat case_match; done. }
    rewrite Em. rewrite decide_False by lia. rewrite wrap_small by lia. do 3 f_equal. lia.
Qed.

(** The loop on encoded options that fill the header, or that are followed by
    the end-of-options byte. *)
Lemma parse_loop_spec g os fuel pre suf max_c s :
  Forall option_ok os -> (length os < fuel)%nat ->
  Z.of_nat (length pre + length (encode os)) <= max_c -> max_c <= 40 ->
  (Z.of_nat (length pre + length (encode os)) = max_c \/ rd suf 0 = Some 0) ->
  parse_loop fuel g (pre ++ encode os ++ suf) max_c (Z.of_nat (length pre)) s =
  Ok (foldl (apply_option g) s os).
Proof.
  revert fuel pre s. induction os as [|o os IH]; intros fuel pre s Hok Hf Hfit Hmax Hend.
  - change (encode []) with (@nil Z) in *. simpl in *. rewrite Nat.add_0_r in *.
    destruct fuel as [|fuel]; [lia|]. simpl. case_decide; [|done].
    destruct Hend as [?|E]; [lia|]. unfold parse_one. rewrite rd_app_0, E. done.
  - apply list.Forall_cons in Hok as [Ho Hok]. unfold encode in *. rewrite fmap_cons in *.
    cbn [concat length foldl] in *. rewrite length_app in *.
    assert (1 <= length (enc o))%nat by (destruct o; simpl; lia).
    destruct fuel as [|fuel]; [lia|]. cbn [parse_loop]. rewrite decide_True by lia.
    rewrite <- app_assoc, parse_one_spec by (done || lia).
    specialize (IH fuel (pre ++ enc o) (apply_option g s o) Hok).
    rewrite length_app, <- app_assoc, <- Nat.add_assoc in IH. apply IH; try done; lia.
Qed.

(** ** Writing options

    A 32-bit store on a little-endian host. *)

Definition mem32 (w : Z) : list Z := [byte_at w 0; byte_at w 8; byte_at w 16; byte_at w 24].

Definition TF_SEG_OPTS_MSS : Z := 0x01.
Definition TF_SEG_OPTS_TS : Z := 0x02.
Definition TF_SEG_OPTS_WNDSCALE : Z := 0x08.
Definition TF_SEG_OPTS_SACK_PERM : Z := 0x40.

Definition TCP_BUILD_MSS_OPTION (m : Z) : list Z :=
  mem32 (htonl (Z.lor (Z.shiftl 2 24) (Z.lor (Z.shiftl 4 16) (Z.lor (Z.shiftl (m / 256) 8) (Z.land m 255))))).

Definition TCP_BUILD_WNDSCALE_OPTION (scale : Z) : list Z :=
  mem32 (htonl (Z.lor (Z.shiftl 1 24) (Z.lor (Z.shiftl 3 16) (Z.lor (Z.shiftl 3 8) scale)))).

Definition tcp_build_timestamp_option (now : Z) (p : tcp_pcb) : list Z :=
  mem32 (htonl 0x0101080A) ++ mem32 (htonl now) ++ mem32 (htonl (ts_recent p)).

Definition tcp_build_sack_perm_option : list Z := mem32 (htonl 0x04020101).

Definition LWIP_TCP_OPT_LENGTH_LEGACY (fl : Z) : Z :=
  (if ctrue (Z.land fl TF_SEG_OPTS_MSS) then 4 else 0)
  + (if ctrue (Z.land fl TF_SEG_OPTS_WNDSCALE) then 4 else 0)
  + (if ctrue (Z.land fl TF_SEG_OPTS_TS) then 12 else 0)
  + (if ctrue (Z.land fl TF_SEG_OPTS_SACK_PERM) then 4 else 0).

Definition rcv_sack_block_cnt (p : tcp_pcb) : Z := Z.of_nat (length (rcv_sack_block p)).

Definition LWIP_TCP_OPT_LENGTH (p : tcp_pcb) (fl : Z) : Z :=
  if negb (ctrue (Z.land fl TF_SEG_OPTS_SACK_PERM)) && sack_permitted p
     && ctrue (rcv_sack_block_cnt p) && bool_decide (LWIP_TCP_OPT_LENGTH_LEGACY fl <= 28)
  then Z.min 40 (LWIP_TCP_OPT_LENGTH_LEGACY fl + Z.shiftl (rcv_sack_block_cnt p) 3 + 4)
  else LWIP_TCP_OPT_LENGTH_LEGACY fl.

(** The [for] loop over the first [calculated_elements] blocks. *)
Definition sack_words (bs : list tcp_sack_block) : list Z :=
  concat ((fun b : tcp_sack_block => mem32 (htonl b.1) ++ mem32 (htonl b.2)) <$> bs).

Definition tcp_build_sack_option (p : tcp_pcb) : list Z :=
  let opt_flag := if ctrue (Z.land (flags p) TF_TIMESTAMP) then TF_SEG_OPTS_TS else 0 in
  let optlen := LWIP_TCP_OPT_LENGTH_LEGACY opt_flag in
  let calculated_elements :=
    if bool_decide (optlen <= 28) && ctrue (rcv_sack_block_cnt p)
    then Z.min (Z.shiftr (36 - optlen) 3) (rcv_sack_block_cnt p) else 0 in
  if ctrue calculated_elements then
    mem32 (htonl (Z.lor (Z.shiftl 0x0101 16) (Z.lor (Z.shiftl 5 8) (Z.shiftl calculated_elements 3 + 2))))
    ++ sack_words (take (Z.to_nat calculated_elements) (rcv_sack_block p))
  else [].

(** The options [tcp_output_segment] writes for a segment with the option
    flags [fl]. *)
Definition segment_options (g : config) (now fl : Z) (p : tcp_pcb) : list Z :=
  (if ctrue (Z.land fl TF_SEG_OPTS_MSS) then TCP_BUILD_MSS_OPTION (advtsd_mss p) else [])
  ++ (if ctrue (Z.land fl TF_SEG_OPTS_WNDSCALE) then TCP_BUILD_WNDSCALE_OPTION (rcv_wnd_scale g) else [])
  ++ (if ctrue (Z.land fl TF_SEG_OPTS_TS) then tcp_build_timestamp_option now p else [])
  ++ (if ctrue (Z.land fl TF_SEG_OPTS_SACK_PERM) then tcp_build_sack_perm_option else []).

(** The options of [tcp_send_empty_ack]: the room [optlen] reserved in the
    header, and the bytes written from the end of the fixed header on.  Only
    [optlen] bytes are sent. *)
Definition empty_ack_optlen (p : tcp_pcb) : Z :=
  let optlen := if ctrue (Z.land (flags p) TF_TIMESTAMP)
                then LWIP_TCP_OPT_LENGTH p TF_SEG_OPTS_TS else 0 in
  if sack_permitted p then LWIP_TCP_OPT_LENGTH p 0 else optlen.

Definition empty_ack_written (now : Z) (p : tcp_pcb) : list Z :=
  (if ctrue (Z.land (flags p) TF_TIMESTAMP) then tcp_build_timestamp_option now p else [])
  ++ (if sack_permitted p then tcp_build_sack_option p else []).

Definition empty_ack_options (now : Z) (p : tcp_pcb) : list Z :=
  take (Z.to_nat (empty_ack_optlen p)) (empty_ack_written now p).

(** ** What is written is what the encoding says *)

Lemma mem32_htonl v : 0 <= v < 2 ^ 32 -> mem32 (htonl v) = be32 v.
Proof.
  intros Hv.
  unfold mem32, be32.
  assert (forall k k', 0 <= k <= 24 -> k' = 24 - k -> k mod 8 = 0 -> byte_at (htonl v) k = byte_at v k') as H.
  { intros k k' Hk -> Hm. unfold byte_at. change 255 with (Z.ones 8).
    apply Z.bits_inj'. intros i Hi.
    rewrite !Z.land_spec, !Z.shiftr_spec, Z.testbit_ones_nonneg by lia.
    case (Z.ltb_spec i 8); intros; [|by rewrite !andb_false_r]. rewrite !andb_true_r.
    rewrite ntohl_testbit by lia. f_equal. unfold swap_bit.
    assert (k = 0 \/ k = 8 \/ k = 16 \/ k = 24) as [-> | [-> | [-> | ->]]]
      by (Z.div_mod_to_equations; lia); repeat case_decide; lia. }
  by rewrite (H 0 24), (H 8 16), (H 16 8), (H 24 0).
Qed.

Lemma be32_fields a b c d : 0 <= a < 256 -> 0 <= b < 256 -> 0 <= c < 256 -> 0 <= d < 256 ->
  be32 (a * 2 ^ 24 + (b * 2 ^ 16 + (c * 2 ^ 8 + d))) = [a; b; c; d].
Proof.
  intros. unfold be32. rewrite !byte_at_div by lia. change (2 ^ 0) with 1.
  repeat f_equal; Z.div_mod_to_equations; lia.
Qed.

Lemma build_mss m : 0 <= m < 2 ^ 16 -> TCP_BUILD_MSS_OPTION m = encode [OMss m].
Proof.
  intros Hm. unfold TCP_BUILD_MSS_OPTION. change 255 with (Z.ones 8). rewrite Z.land_ones by lia.
  assert (0 <= m / 256 < 256) by (Z.div_mod_to_equations; lia).
  pose proof (Z.mod_pos_bound m (2 ^ 8) ltac:(lia)).
  rewrite (lor_field (m / 256)), (lor_field 4), (lor_field 2) by lia.
  rewrite mem32_htonl, be32_fields by lia. unfold encode. simpl. rewrite !byte_at_div by lia.
  change (2 ^ 0) with 1. repeat f_equal; Z.div_mod_to_equations; lia.
Qed.

Lemma build_wndscale x : 0 <= x < 256 -> TCP_BUILD_WNDSCALE_OPTION x = encode [ONop; OScale x].
Proof.
  intros Hx. unfold TCP_BUILD_WNDSCALE_OPTION.
  rewrite (lor_field 3 x), (lor_field 3), (lor_field 1) by lia.
  by rewrite mem32_htonl, be32_fields by lia.
Qed.

Lemma build_timestamp now p : 0 <= now < 2 ^ 32 -> 0 <= ts_recent p < 2 ^ 32 ->
  tcp_build_timestamp_option now p = encode [ONop; ONop; OTs now (ts_recent p)].
Proof.
  intros. unfold tcp_build_timestamp_option. rewrite !mem32_htonl by lia.
  done.
Qed.

Lemma build_sack_perm : tcp_build_sack_perm_option = encode [OSackPerm; ONop; ONop].
Proof. by vm_compute. Qed.

Lemma sack_words_enc bs : Forall block_ok bs -> sack_words bs = concat (enc_block <$> bs).
Proof.
  unfold sack_words. induction 1 as [|[l r] bs [Hl Hr] _ IH]; [done|].
  rewrite !fmap_cons. cbn [concat]. rewrite IH. unfold enc_block. cbn [fst snd] in *. by rewrite !mem32_htonl.
Qed.

Lemma encode_app l k : encode (l ++ k) = encode l ++ encode k.
Proof. unfold encode. by rewrite fmap_app, concat_app. Qed.

(** The options a segment with the flags [fl] carries. *)
Definition segment_opts (g : config) (now fl : Z) (p : tcp_pcb) : list option_t :=
  (if ctrue (Z.land fl TF_SEG_OPTS_MSS) then [OMss (advtsd_mss p)] else [])
  ++ (if ctrue (Z.land fl TF_SEG_OPTS_WNDSCALE) then [ONop; OScale (rcv_wnd_scale g)] else [])
  ++ (if ctrue (Z.land fl TF_SEG_OPTS_TS) then [ONop; ONop; OTs now (ts_recent p)] else [])
  ++ (if ctrue (Z.land fl TF_SEG_OPTS_SACK_PERM) then [OSackPerm; ONop; ONop] else []).

(** The fields the options are made of have their width. *)
Definition pcb_ok (p : tcp_pcb) : Prop :=
  0 <= advtsd_mss p < 2 ^ 16 /\ 0 <= ts_recent p < 2 ^ 32 /\ Forall block_ok (rcv_sack_block p).

Lemma segment_options_enc g now fl p :
  pcb_ok p -> 0 <= rcv_wnd_scale g < 256 -> 0 <= now < 2 ^ 32 ->
  segment_options g now fl p = encode (segment_opts g now fl p) /\
  Z.of_nat (length (encode (segment_opts g now fl p))) = LWIP_TCP_OPT_LENGTH_LEGACY fl /\
  Forall option_ok (segment_opts g now fl p) /\ (length (segment_opts g now fl p) <= 9)%nat.
Proof.
  intros (Hm & Ht & _) Hg Hn. unfold segment_options, segment_opts, LWIP_TCP_OPT_LENGTH_LEGACY.
  rewrite !encode_app, !length_app, build_mss, build_wndscale, build_timestamp, build_sack_perm by done.
  repeat rewrite Forall_app.
  destruct (ctrue (Z.land fl TF_SEG_OPTS_MSS)), (ctrue (Z.land fl TF_SEG_OPTS_WNDSCALE)),
    (ctrue (Z.land fl TF_SEG_OPTS_TS)), (ctrue (Z.land fl TF_SEG_OPTS_SACK_PERM));
    simpl; split_and!; try done; try lia; repeat constructor; simpl; done || lia.
Qed.

(** A header filled by encoded options. *)
Lemma tcp_parseopt_encode fuel g os payload s :
  Forall option_ok os -> (length os < fuel)%nat -> (length (encode os) <= 40)%nat ->
  Z.of_nat (length (encode os)) mod 4 = 0 ->
  tcp_parseopt fuel g (5 + Z.of_nat (length (encode os)) / 4) (encode os ++ payload) s =
  Ok (foldl (apply_option g) (s.1, set_blocks [] s.2) os).
Proof.
  intros Hok Hf Hl H4. unfold tcp_parseopt. set (n := Z.of_nat (length (encode os))) in *.
  assert (n = 4 * (n / 4)) as En by (Z.div_mod_to_equations; lia).
  case_decide as Hd.
  - replace (Z.shiftl (5 + n / 4 - 5) 2) with n by (rewrite Z.shiftl_mul_pow2 by lia; lia).
    apply (parse_loop_spec g os fuel [] payload n); try done; unfold n; simpl; lia.
  - destruct os as [|o os]; [done|]. exfalso.
    assert (1 <= length (enc o))%nat by (destruct o; simpl; lia).
    assert (1 <= n) by (unfold n, encode; rewrite fmap_cons; cbn [concat]; rewrite length_app; lia). lia.
Qed.

Lemma length_sack_option bs :
  Z.of_nat (length (encode [ONop; ONop; OSack bs])) = 4 + 8 * Z.of_nat (length bs).
Proof. unfold encode. simpl. rewrite app_nil_r, length_blocks. lia. Qed.

(** The SACK option of a connection without time stamps. *)
Lemma build_sack p :
  Z.land (flags p) TF_TIMESTAMP = 0 -> Forall block_ok (rcv_sack_block p) ->
  (1 <= length (rcv_sack_block p) <= 4)%nat ->
  tcp_build_sack_option p = encode [ONop; ONop; OSack (rcv_sack_block p)].
Proof.
  intros Ht Hb Hl. unfold tcp_build_sack_option, rcv_sack_block_cnt. set (bs := rcv_sack_block p) in *.
  rewrite (ctrue_eq (Z.land (flags p) TF_TIMESTAMP)) by done.
  change (LWIP_TCP_OPT_LENGTH_LEGACY 0) with 0.
  rewrite (bool_decide_true (0 <= 28)), (ctrue_ne (Z.of_nat (length bs))) by lia. cbn [andb].
  change (Z.shiftr (36 - 0) 3) with 4. rewrite (Z.min_r 4), (Z.shiftl_mul_pow2 (Z.of_nat (length bs))) by lia.
  rewrite Nat2Z.id, (take_ge bs), (ctrue_ne (Z.of_nat (length bs))) by lia.
  rewrite (lor_field 5), (lor_field 0x0101) by lia.
  replace (0x0101 * 2 ^ 16 + (5 * 2 ^ 8 + (Z.of_nat (length bs) * 2 ^ 3 + 2)))
    with (1 * 2 ^ 24 + (1 * 2 ^ 16 + (5 * 2 ^ 8 + (2 + 8 * Z.of_nat (length bs))))) by lia.
  rewrite mem32_htonl, be32_fields, sack_words_enc by (done || lia).
  unfold encode. simpl. by rewrite app_nil_r.
Qed.

Lemma empty_ack_optlen_blocks p :
  sack_permitted p = true -> (1 <= length (rcv_sack_block p) <= 4)%nat ->
  empty_ack_optlen p = 4 + 8 * Z.of_nat (length (rcv_sack_block p)).
Proof.
  intros Hs Hl. unfold empty_ack_optlen, LWIP_TCP_OPT_LENGTH, rcv_sack_block_cnt. rewrite Hs.
  change (LWIP_TCP_OPT_LENGTH_LEGACY 0) with 0.
  rewrite (bool_decide_true (0 <= 28)), (ctrue_ne (Z.of_nat _)), (ctrue_eq (Z.land 0 _)) by (done || lia).
  cbn [andb negb]. rewrite Z.shiftl_mul_pow2 by lia. lia.
Qed.

(** A segment's options in a header of their length. *)
Lemma segment_parse g g' now fl p s fuel payload :
  pcb_ok p -> 0 <= rcv_wnd_scale g < 256 -> 0 <= now < 2 ^ 32 -> (16 <= fuel)%nat ->
  tcp_parseopt fuel g' (5 + LWIP_TCP_OPT_LENGTH_LEGACY fl / 4) (segment_options g now fl p ++ payload) s
    = Ok (foldl (apply_option g') (s.1, set_blocks [] s.2) (segment_opts g now fl p)).
Proof.
  intros Hp Hg Hn Hf. destruct (segment_options_enc g now fl p Hp Hg Hn) as (-> & <- & Hok & Hl).
  assert (Z.of_nat (length (encode (segment_opts g now fl p))) = LWIP_TCP_OPT_LENGTH_LEGACY fl) as E
    by apply (segment_options_enc g now fl p Hp Hg Hn).
  unfold LWIP_TCP_OPT_LENGTH_LEGACY in E.
  apply tcp_parseopt_encode; [done|lia|..]; repeat case_match; try lia; rewrite E; done.
Qed.

(** The header of a segment with the flags [fl], created on the connection
    [p0], has room for the options of the flags and for nothing else. *)
Definition room_exact (p0 : tcp_pcb) (fl : Z) : Prop :=
  ctrue (Z.land fl TF_SEG_OPTS_SACK_PERM) = true \/ sack_permitted p0 = false \/ rcv_sack_block p0 = [].

Lemma room_exact_length p0 fl : room_exact p0 fl -> LWIP_TCP_OPT_LENGTH p0 fl = LWIP_TCP_OPT_LENGTH_LEGACY fl.
Proof.
  unfold LWIP_TCP_OPT_LENGTH, rcv_sack_block_cnt.
  intros [-> | [-> | ->]]; [done|by rewrite andb_false_r|].
  change (ctrue (Z.of_nat (length (@nil tcp_sack_block)))) with false. by rewrite !andb_false_r.
Qed.

(** C32: What a VMA endpoint writes its VMA peer reads back.  The options of
    a segment with any option flags, in a header of the length that
    [tcp_create_segment] gave it, are parsed completely, with exactly the MSS,
    window scale, time stamp and SACK-permitted values that were put in, provided
    that the segment was a SYN or was created while there was no SACK block to
    report (otherwise the header also announces room for SACK blocks, which
    [tcp_output_segment] does not write); and the SACK option of an
    acknowledgement without time stamps delivers the (up to four) blocks of the
    receiver, in order. *)
Theorem options_round_trip g g' now fl p0 p s fuel payload :
  pcb_ok p -> 0 <= rcv_wnd_scale g < 256 -> 0 <= now < 2 ^ 32 -> (16 <= fuel)%nat ->
  (room_exact p0 fl ->
   tcp_parseopt fuel g' (5 + LWIP_TCP_OPT_LENGTH p0 fl / 4) (segment_options g now fl p ++ payload) s
     = Ok (foldl (apply_option g') (s.1, set_blocks [] s.2) (segment_opts g now fl p))) /\
  (sack_permitted p = true -> Z.land (flags p) TF_TIMESTAMP = 0 -> (length (rcv_sack_block p) <= 4)%nat ->
   tcp_parseopt fuel g' (5 + empty_ack_optlen p / 4) (empty_ack_options now p ++ payload) s
     = Ok (s.1, set_blocks (rcv_sack_block p) s.2)).
Proof.
  intros Hp Hg Hn Hf. split.
  - intros ->%room_exact_length. by apply segment_parse.
  - intros Hs Ht Hl. destruct Hp as (_ & _ & Hb).
    unfold empty_ack_options, empty_ack_written. rewrite Hs, (ctrue_eq (Z.land (flags p) TF_TIMESTAMP)) by done.
    destruct (decide (length (rcv_sack_block p) = 0%nat)) as [E0%nil_length_inv|Hne].
    { unfold tcp_build_sack_option, empty_ack_optlen, LWIP_TCP_OPT_LENGTH, rcv_sack_block_cnt.
      rewrite Hs, E0. change (ctrue (Z.of_nat (length (@nil tcp_sack_block)))) with false.
      by rewrite !andb_false_r. }
    rewrite build_sack by (done || lia). rewrite empty_ack_optlen_blocks by (done || lia).
    pose proof (length_sack_option (rcv_sack_block p)) as El. rewrite <- El.
    cbn [app]. rewrite take_ge by lia. apply tcp_parseopt_encode; try lia.
    + rewrite !list.Forall_cons. simpl. split_and!; done || lia || constructor.
    + simpl; lia.
    + rewrite El. Z.div_mod_to_equations; lia.
Qed.

Definition ex_pcb : tcp_pcb :=
  Pcb 1460 536 65536 0 0 0 0 0 0 true 7 0 true 1000 [(2000, 3000); (5000, 6000)].
Definition ex_peer : state :=
  (Pcb 1400 536 65536 0 0 0 0 0 0 true 0 1000 false 0 [], In TCP_ACK 900 200 []).

Lemma options_round_trip_witness :
  tcp_parseopt 16 (Config true 7) (5 + LWIP_TCP_OPT_LENGTH ex_pcb 0x4b / 4)
    (segment_options (Config true 9) 42 0x4b ex_pcb ++ [9; 9]) ex_peer
  = Ok (foldl (apply_option (Config true 7)) ex_peer
          [OMss 1460; ONop; OScale 9; ONop; ONop; OTs 42 7; OSackPerm; ONop; ONop]) /\
  tcp_parseopt 16 (Config true 7) (5 + empty_ack_optlen ex_pcb / 4) (empty_ack_options 42 ex_pcb ++ [9; 9]) ex_peer
  = Ok (ex_peer.1, set_blocks [(2000, 3000); (5000, 6000)] ex_peer.2).
Proof.
  assert (pcb_ok ex_pcb) as Hp.
  { split_and!; [done..|]. apply list.Forall_cons. split; [done|]. apply list.Forall_cons. split; [done|constructor]. }
  destruct (options_round_trip (Config true 9) (Config true 7) 42 0x4b ex_pcb ex_pcb ex_peer 16 [9; 9] Hp) as [H1 H2].
  - simpl. lia.
  - lia.
  - lia.
  - split; [apply H1; by left|]. exact (H2 eq_refl eq_refl (le_S _ _ (le_S _ _ (le_n 2)))).
Defined.

(** A data segment created while SACK blocks are to be reported announces more
    options than [tcp_output_segment] writes: the peer reads what is in the
    buffer behind them as options. *)
Theorem announced_options_not_written g now fl p :
  pcb_ok p -> 0 <= rcv_wnd_scale g < 256 -> 0 <= now < 2 ^ 32 ->
  ctrue (Z.land fl TF_SEG_OPTS_SACK_PERM) = false -> sack_permitted p = true -> rcv_sack_block p <> [] ->
  LWIP_TCP_OPT_LENGTH_LEGACY fl <= 28 ->
  Z.of_nat (length (segment_options g now fl p)) + 12 <= LWIP_TCP_OPT_LENGTH p fl.
Proof.
  intros Hp Hg Hn Hf Hs Hb Hl. destruct (segment_options_enc g now fl p Hp Hg Hn) as (-> & -> & _).
  unfold LWIP_TCP_OPT_LENGTH, rcv_sack_block_cnt. rewrite Hf, Hs, (bool_decide_true _ Hl).
  assert (1 <= length (rcv_sack_block p))%nat by (destruct (rcv_sack_block p); simpl; [done|lia]).
  rewrite (ctrue_ne (Z.of_nat _)) by lia. cbn [negb andb]. rewrite Z.shiftl_mul_pow2 by lia. lia.
Qed.

Lemma sack_loop_overflow opts n c bs :
  (length bs <= 4 < length bs + n)%nat -> sack_loop opts n c bs = None.
Proof.
  revert c bs. induction n as [|n IH]; intros c bs H; [lia|]. cbn [sack_loop].
  destruct (rd_word opts c); [|done]. destruct (rd_word opts (c + 4)); [|done]. cbn [mbind option_bind].
  case_decide; [|done]. apply IH. rewrite length_app. simpl. lia.
Qed.

(** Two malformed SACK options a peer can send.  An option of length 0
    does not advance the parser, which then never returns; an option that
    announces five blocks or more is written beyond the four blocks there is
    room for (or read beyond the packet). *)
Theorem malformed_sack_options g hdrlen rest s :
  5 < hdrlen ->
  (forall fuel, tcp_parseopt fuel g hdrlen (5 :: 0 :: rest) s = Timeout) /\
  (forall fuel n, 42 <= n -> tcp_parseopt (S fuel) g hdrlen (5 :: n :: rest) s = UB).
Proof.
  intros Hh. assert (0 < Z.shiftl (hdrlen - 5) 2) by (rewrite Z.shiftl_mul_pow2 by lia; lia).
  unfold tcp_parseopt. split.
  - intros fuel. rewrite decide_True by lia. generalize (s.1, set_blocks [] s.2) as st. clear s.
    intros st. induction fuel as [|fuel IH]; cbn [parse_loop]; rewrite decide_True by lia; [done|].
    unfold parse_one. cbn. exact IH.
  - intros fuel n Hn. rewrite decide_True by lia. cbn [parse_loop]. rewrite decide_True by lia.
    unfold parse_one. change (rd (5 :: n :: rest) 0) with (Some 5). cbn [mbind option_bind].
    change (rd (5 :: n :: rest) (0 + 1)) with (Some n). cbn [mbind option_bind].
    rewrite decide_True by lia. rewrite sack_loop_overflow; [done|].
    rewrite Z.shiftr_div_pow2 by lia. change (2 ^ 3) with 8.
    assert (5 <= (n - 2) / 8) by (apply Z.div_le_lower_bound; lia). simpl length. lia.
Qed.

Lemma malformed_sack_options_witness :
  tcp_parseopt 1000 (Config true 7) 6 [5; 0; 0; 0] ex_peer = Timeout /\
  tcp_parseopt 1000 (Config true 7) 15 (5 :: 42 :: replicate 100 0) ex_peer = UB.
Proof.
  split.
  - apply (malformed_sack_options (Config true 7) 6 [0; 0] ex_peer); lia.
  - apply (malformed_sack_options (Config true 7) 15 (replicate 100 0) ex_peer); lia.
Defined.

(** With time stamps the acknowledgement reserves no room for them: the one
    SACK block of the receiver falls off the end of the header. *)
Theorem sack_lost_with_timestamps now p b s fuel g payload :
  pcb_ok p -> 0 <= now < 2 ^ 32 -> (16 <= fuel)%nat ->
  sack_permitted p = true -> Z.land (flags p) TF_TIMESTAMP <> 0 -> rcv_sack_block p = [b] ->
  tcp_parseopt fuel g (5 + empty_ack_optlen p / 4) (empty_ack_options now p ++ payload) s
    = Ok (on_ts now (s.1, set_blocks [] s.2)).
Proof.
  intros (_ & Ht & _) Hn Hf Hs Hts Hb.
  assert (empty_ack_optlen p = 12) as E.
  { rewrite empty_ack_optlen_blocks; rewrite ?Hb; simpl; done || lia. }
  unfold empty_ack_options, empty_ack_written. rewrite E, (ctrue_ne _ Hts), build_timestamp by done.
  assert (length (encode [ONop; ONop; OTs now (ts_recent p)]) = 12%nat) as El by done.
  change (Z.to_nat 12) with 12%nat. rewrite take_app_le, take_ge by (rewrite El; lia).
  change 12 with (Z.of_nat 12). rewrite <- El.
  apply (tcp_parseopt_encode fuel g [ONop; ONop; OTs now (ts_recent p)]); try done; [|simpl; lia|rewrite El; lia].
  rewrite !list.Forall_cons. simpl. split_and!; done || lia || constructor.
Qed.

End Opt.
