(* ===== verification/Pbuf.v ===== *)
(** * Packet buffer chains

    src/src/vma/lwip/pbuf.c and src/src/vma/lwip/pbuf.h.  A chain is the list of
    its buffers.  A buffer has the bytes [payload .. payload + len), the bytes
    in front of [payload] that [pbuf_header] has hidden ([room]), and the
    length field [tot_len] of this buffer and all that follow.  Reference
    counts are not modelled: a chain has one owner in the code modelled here.
    [None] is an access outside of the buffers. *)

From S2P Require Import Prelude.

Local Open Scope Z_scope.

Module Pbuf.

Record pbuf := Buf { room : list Z; payload : list Z; tot_len : Z }.

Definition len (q : pbuf) : Z := Z.of_nat (length (payload q)).

Definition set_tot (t : Z) (q : pbuf) : pbuf := Buf (room q) (payload q) t.

(** [q->len = n], [n] not above the current length. *)
Definition set_len (n : Z) (q : pbuf) : pbuf := Buf (room q) (take (Z.to_nat n) (payload q)) (tot_len q).

(** The loop of [pbuf_realloc]: the buffers that stay get their [tot_len]
    corrected, the one the new end falls in is cut, the rest is freed. *)
Fixpoint realloc_loop (grow rem_len : Z) (c : list pbuf) : option (list pbuf) :=
  match c with
  | [] => None
  | q :: c =>
    if decide (rem_len > len q) then
      c ← realloc_loop grow (u16 (rem_len - len q)) c;
      Some (set_tot (u32 (tot_len q + grow)) q :: c)
    else Some [set_tot rem_len (set_len rem_len q)]
  end.

Definition pbuf_realloc (new_len : Z) (c : list pbuf) : option (list pbuf) :=
  match c with
  | [] => None
  | p :: _ =>
    if decide (new_len >= tot_len p) then Some c
    else realloc_loop (new_len - tot_len p) new_len c
  end.

(** [pbuf_header] on the first buffer of a chain: [true] is failure. *)
Definition pbuf_header (inc : Z) (q : pbuf) : option (bool * pbuf) :=
  if decide (inc = 0) then Some (false, q)
  else if decide (inc < 0) then
    if decide (- inc <= len q) then
      Some (false, Buf (room q ++ take (Z.to_nat (- inc)) (payload q))
                       (drop (Z.to_nat (- inc)) (payload q)) (u32 (tot_len q + inc)))
    else Some (true, q)
  else
    if decide (inc <= Z.of_nat (length (room q))) then
      let n := (length (room q) - Z.to_nat inc)%nat in
      Some (false, Buf (take n (room q)) (drop n (room q) ++ payload q) (u32 (tot_len q + inc)))
    else None.

(** [pbuf_cat]: the chain [t] behind the chain [h]; a [NULL] argument aborts. *)
Definition pbuf_cat (h t : list pbuf) : option (list pbuf) :=
  match h, t with
  | _ :: _, q :: _ => Some (((fun p => set_tot (u32 (tot_len p + tot_len q)) p) <$> h) ++ t)
  | _, _ => None
  end.

Definition pbuf_clen (c : list pbuf) : Z := u8 (Z.of_nat (length c)).

(** The loop of [pbuf_split_64k] that moves [*rest] behind the front part. *)
Fixpoint split_loop (front : Z) (c : list pbuf) : list pbuf * list pbuf :=
  match c with
  | [] => ([], [])
  | q :: c' =>
    if decide (front + len q <= 0xffff) then
      let '(a, b) := split_loop (front + len q) c' in (q :: a, b)
    else ([], c)
  end.

(** Front part and rest; [None] where [i->next] is written through [NULL]. *)
Definition pbuf_split_64k (c : list pbuf) : option (list pbuf * list pbuf) :=
  match c with
  | [] => Some ([], [])
  | p :: _ =>
    if decide (tot_len p < 0xffff) then Some (c, [])
    else
      let '(a, b) := split_loop 0 c in
      match a, b with
      | [], _ => None
      | _, [] => Some (a, b)
      | _, r :: _ => Some ((fun q => set_tot (u32 (tot_len q - tot_len r)) q) <$> a, b)
      end
  end.

(** ** The contents of a chain *)

Definition data (c : list pbuf) : list Z := concat (payload <$> c).

(** The documented invariant of [tot_len]. *)
Fixpoint chain_ok (c : list pbuf) : Prop :=
  match c with
  | [] => True
  | q :: c => tot_len q = Z.of_nat (length (payload q) + length (data c)) /\ chain_ok c
  end.

Lemma data_cons q c : data (q :: c) = payload q ++ data c.
Proof. done. Qed.

Lemma data_app a b : data (a ++ b) = data a ++ data b.
Proof. unfold data. by rewrite fmap_app, concat_app. Qed.

Lemma data_set_tot (f : pbuf -> Z) c : data ((fun p => set_tot (f p) p) <$> c) = data c.
Proof. unfold data. induction c as [|q c IH]; [done|]. simpl. by f_equal. Qed.

Lemma chain_ok_tot q c : chain_ok (q :: c) -> tot_len q = Z.of_nat (length (data (q :: c))).
Proof. intros [-> _]. rewrite data_cons, length_app. done. Qed.

Lemma realloc_loop_spec grow n c :
  chain_ok c -> 0 <= n < Z.of_nat (length (data c)) -> Z.of_nat (length (data c)) < 2 ^ 32 -> n < 2 ^ 16 ->
  grow = n - Z.of_nat (length (data c)) ->
  exists c', realloc_loop grow n c = Some c' /\ chain_ok c' /\ data c' = take (Z.to_nat n) (data c).
Proof.
  revert n. induction c as [|q c IH]; intros n Hok Hn Hmax Hn16 Hg; simpl in *; [lia|].
  destruct Hok as [Ht Hok]. rewrite data_cons, length_app in *. unfold len in *. case_decide as Hd.
  - rewrite (wrap_small 16) by lia.
    destruct (IH (n - Z.of_nat (length (payload q))) Hok) as (c' & -> & Hok' & Hd'); [lia..|].
    simpl. eexists. split; [done|]. split.
    + simpl. split; [|done]. rewrite Hd', length_take. rewrite wrap_small by lia. lia.
    + rewrite data_cons. simpl. rewrite Hd', take_app_ge by lia. do 2 f_equal. lia.
  - eexists. split; [done|]. unfold data. simpl. rewrite app_nil_r, length_take. split; [lia|].
    by rewrite take_app_le by lia.
Qed.

(** [pbuf_realloc] keeps the first [n] bytes. *)
Lemma pbuf_realloc_spec n c :
  c <> [] -> chain_ok c -> 0 <= n < 2 ^ 16 -> Z.of_nat (length (data c)) < 2 ^ 32 ->
  exists c', pbuf_realloc n c = Some c' /\ chain_ok c' /\ data c' = take (Z.to_nat n) (data c) /\ c' <> [].
Proof.
  intros Hne Hok Hn Hmax. destruct c as [|q c]; [done|]. unfold pbuf_realloc.
  pose proof (chain_ok_tot _ _ Hok) as Ht. case_decide as Hd.
  - exists (q :: c). split_and!; try done. by rewrite take_ge by lia.
  - destruct (realloc_loop_spec (n - tot_len q) n (q :: c)) as (c' & E & Hok' & Hd'); try done; try lia.
    exists c'. split_and!; try done. intros ->. cbn [realloc_loop] in E.
    case_decide; [by destruct (realloc_loop _ _ c)|done].
Qed.

Lemma chain_ok_app a b : chain_ok a -> chain_ok b -> Z.of_nat (length (data (a ++ b))) < 2 ^ 32 ->
  chain_ok (((fun p => set_tot (u32 (tot_len p + Z.of_nat (length (data b)))) p) <$> a) ++ b).
Proof.
  induction a as [|q a IH]; intros Ha Hb Hm; simpl; [done|]. destruct Ha as [Ht Ha].
  simpl in Hm. rewrite data_cons, length_app in Hm. split; [|apply IH; lia || done].
  rewrite Ht, data_app, length_app. rewrite data_app, length_app in Hm.
  rewrite data_set_tot, wrap_small by lia. simpl. lia.
Qed.

Lemma pbuf_cat_spec h t : h <> [] -> t <> [] -> chain_ok h -> chain_ok t ->
  Z.of_nat (length (data h ++ data t)) < 2 ^ 32 ->
  exists c, pbuf_cat h t = Some c /\ chain_ok c /\ data c = data h ++ data t /\ c <> [].
Proof.
  intros Hh Ht Oh Ot Hm. destruct h as [|q h]; [done|]. destruct t as [|r t]; [done|].
  unfold pbuf_cat. eexists. split; [done|]. rewrite (chain_ok_tot r t) by done. split_and!.
  - apply chain_ok_app; try done. by rewrite data_app.
  - by rewrite data_app, data_set_tot.
  - done.
Qed.

Lemma split_loop_spec front c a b : split_loop front c = (a, b) ->
  c = a ++ b /\ (front <= 0xffff -> front + Z.of_nat (length (data a)) <= 0xffff).
Proof.
  revert front a. induction c as [|q c IH]; intros front a E; simpl in E.
  { injection E as <- <-. simpl. split; [done|lia]. }
  case_decide as Hd; [|injection E as <- <-; simpl; split; [done|lia]].
  destruct (split_loop _ c) as [a' b'] eqn:E'. injection E as <- <-.
  apply IH in E' as [-> Hl]. split; [done|]. intros _. rewrite data_cons, length_app.
  specialize (Hl Hd). unfold len in Hl. lia.
Qed.

(** [pbuf_split_64k] cuts a chain into a front part of less than 64 KiB and
    the rest, without losing a byte. *)
Lemma pbuf_split_64k_spec c :
  chain_ok c -> Z.of_nat (length (data c)) < 2 ^ 32 -> Forall (fun q => len q <= 0xffff) c ->
  exists a b, pbuf_split_64k c = Some (a, b) /\ data a ++ data b = data c /\
    chain_ok a /\ chain_ok b /\ Z.of_nat (length (data a)) <= 0xffff.
Proof.
  intros Hok Hm Hl. destruct c as [|p c]; [by exists [], []|]. unfold pbuf_split_64k.
  pose proof (chain_ok_tot _ _ Hok) as Ht. case_decide as Hd.
  { exists (p :: c), []. split_and!; try done; [by rewrite app_nil_r|lia]. }
  destruct (split_loop 0 (p :: c)) as [a b] eqn:E.
  destruct (split_loop_spec _ _ _ _ E) as [Ec Hf]. specialize (Hf ltac:(lia)). rewrite Z.add_0_l in Hf.
  destruct a as [|q a].
  { simpl in E. apply list.Forall_cons in Hl as [Hl _]. rewrite decide_True in E by lia.
    by destruct (split_loop _ c). }
  rewrite Ec in *. destruct b as [|r b].
  { exists (q :: a), []. rewrite app_nil_r in *. split_and!; try done. by rewrite app_nil_r. }
  assert (forall l, chain_ok (l ++ r :: b) -> Z.of_nat (length (data (l ++ r :: b))) < 2 ^ 32 ->
    chain_ok ((fun q => set_tot (u32 (tot_len q - tot_len r)) q) <$> l) /\ chain_ok (r :: b)) as Hs.
  { intros l. induction l as [|x l IH]; intros Hx Hlt; [done|]. simpl in Hx. destruct Hx as [Hx Hr].
    simpl in Hlt. rewrite data_cons, length_app in Hlt.
    destruct (IH Hr ltac:(lia)) as [H1 H2]. split; [|done]. simpl. split; [|done].
    rewrite data_app, length_app in *. rewrite Hx, (chain_ok_tot r b H2), data_set_tot.
    rewrite wrap_small by lia. lia. }
  destruct (Hs (q :: a) Hok Hm) as [H1 H2].
  eexists _, _. split; [done|].
  rewrite data_set_tot. split_and!; try done. by rewrite <- data_app.
Qed.

End Pbuf.
