(* ===== verification/TcpRecv.v ===== *)
(** * Receiving TCP data

    The second half of [tcp_receive] in src/src/vma/lwip/tcp_in.c (from the
    comment "If the incoming segment contains data" on) with
    [tcp_oos_insert_segment], and the functions it calls in
    src/src/vma/lwip/tcp.c and tcp_out.c: trimming a segment to what is new,
    passing in-order data up, the queue [ooseq] of segments that arrived too
    early, the receive window, and the SACK blocks built from the queue.
    The configuration is that of lwip/opt.h: TCP_QUEUE_OOSEQ, LWIP_TCP_SACK,
    LWIP_TCP_TLT and LWIP_TCP_TIMESTAMPS are 1, LWIP_TSO is 0 (tcp_in.c does
    not compile with LWIP_TCP_TLT and LWIP_TSO), LWIP_ASSERT is empty.

    Segments and their buffers are values: a segment on [ooseq] has one owner.
    [None] is an access outside of an object.  Of [tcp_send_empty_ack] the
    effects on the receive variables are here; its options are in TcpOpt, its
    marking in Tlt and Dctcp. *)

From S2P Require Import Prelude TcpBase Pbuf.

Local Open Scope Z_scope.

Module Recv.
Import Pbuf.

Inductive tcp_state :=
  | CLOSED | LISTEN | SYN_SENT | SYN_RCVD | ESTABLISHED | FIN_WAIT_1 | FIN_WAIT_2
  | CLOSE_WAIT | CLOSING | LAST_ACK | TIME_WAIT.
#[global] Instance tcp_state_eq_dec : EqDecision tcp_state.
Proof. solve_decision. Defined.

(** [get_tcp_state(pcb) < CLOSE_WAIT] *)
Definition before_close_wait (s : tcp_state) : bool :=
  match s with CLOSE_WAIT | CLOSING | LAST_ACK | TIME_WAIT => false | _ => true end.

Definition TF_ACK_DELAY : Z := 0x0001.
Definition TF_ACK_NOW : Z := 0x0002.
Definition TF_GOT_FIN : Z := 0x20.
Definition LWIP_TCP_SACK_BLOCK_LEN : nat := 16.

Definition tcp_sack_block : Type := Z * Z.

(** A segment: its buffers, length, and the sequence number and flags of its
    header. *)
Record tcp_seg := Seg { p : list pbuf; seg_len : Z; seg_seqno : Z; seg_flags : Z }.

Record tcp_pcb := Pcb {
  state : tcp_state;
  flags : Z;
  rcv_nxt : Z;
  rcv_wnd : Z;
  rcv_ann_wnd : Z;
  rcv_wnd_max : Z;
  rcv_ann_right_edge : Z;
  mss : Z;
  ooseq : list tcp_seg;
  ts_lastacksent : Z;
  sack_permitted : bool;
  rcv_sack_block : list tcp_sack_block   (* the first rcv_sack_block_cnt *)
}.

(** [in_data]: [inseg], [tcplen], and what is handed up: [recv_data] ([[]] is
    [NULL]) and [recv_flags].  [in_data->seqno] is that of the header of
    [inseg] at every point where it is read here; what is written to it, and to
    [inseg.p], when the data has been handed over is not kept. *)
Record tcp_in_data := In {
  inseg : tcp_seg;
  tcplen : Z;
  recv_data : list pbuf;
  recv_flags : Z
}.

Definition seqno (i : tcp_in_data) : Z := seg_seqno (inseg i).

(** ** Field updates *)

Definition set_flags (f : Z) (c : tcp_pcb) : tcp_pcb :=
  Pcb (state c) f (rcv_nxt c) (rcv_wnd c) (rcv_ann_wnd c) (rcv_wnd_max c) (rcv_ann_right_edge c)
    (mss c) (ooseq c) (ts_lastacksent c) (sack_permitted c) (rcv_sack_block c).
Definition set_state (s : tcp_state) (c : tcp_pcb) : tcp_pcb :=
  Pcb s (flags c) (rcv_nxt c) (rcv_wnd c) (rcv_ann_wnd c) (rcv_wnd_max c) (rcv_ann_right_edge c)
    (mss c) (ooseq c) (ts_lastacksent c) (sack_permitted c) (rcv_sack_block c).
Definition set_nxt_wnd (n w : Z) (c : tcp_pcb) : tcp_pcb :=
  Pcb (state c) (flags c) n w (rcv_ann_wnd c) (rcv_wnd_max c) (rcv_ann_right_edge c)
    (mss c) (ooseq c) (ts_lastacksent c) (sack_permitted c) (rcv_sack_block c).
Definition set_ann_wnd (w : Z) (c : tcp_pcb) : tcp_pcb :=
  Pcb (state c) (flags c) (rcv_nxt c) (rcv_wnd c) w (rcv_wnd_max c) (rcv_ann_right_edge c)
    (mss c) (ooseq c) (ts_lastacksent c) (sack_permitted c) (rcv_sack_block c).
Definition set_ooseq (q : list tcp_seg) (c : tcp_pcb) : tcp_pcb :=
  Pcb (state c) (flags c) (rcv_nxt c) (rcv_wnd c) (rcv_ann_wnd c) (rcv_wnd_max c) (rcv_ann_right_edge c)
    (mss c) q (ts_lastacksent c) (sack_permitted c) (rcv_sack_block c).
Definition set_sack (b : list tcp_sack_block) (c : tcp_pcb) : tcp_pcb :=
  Pcb (state c) (flags c) (rcv_nxt c) (rcv_wnd c) (rcv_ann_wnd c) (rcv_wnd_max c) (rcv_ann_right_edge c)
    (mss c) (ooseq c) (ts_lastacksent c) (sack_permitted c) b.

(** ** Macros and small functions *)

Definition has (f : Z) (s : tcp_seg) : bool := ctrue (Z.land (seg_flags s) f).

Definition TCP_TCPLEN (s : tcp_seg) : Z :=
  seg_len s + (if ctrue (Z.land (seg_flags s) (Z.lor TCP_FIN TCP_SYN)) then 1 else 0).

Definition set_flag (f : Z) (s : tcp_seg) : tcp_seg :=
  Seg (p s) (seg_len s) (seg_seqno s) (Z.lor (seg_flags s) f).
Definition clear_flag (f : Z) (s : tcp_seg) : tcp_seg :=
  Seg (p s) (seg_len s) (seg_seqno s) (Z.land (seg_flags s) (Z.lnot f)).

(** [seg->len = (u16_t)n; pbuf_realloc(seg->p, seg->len)] *)
Definition cut (n : Z) (s : tcp_seg) : option tcp_seg :=
  q ← pbuf_realloc (u16 n) (p s);
  Some (Seg q (u16 n) (seg_seqno s) (seg_flags s)).

Definition tcp_ack_now (c : tcp_pcb) : tcp_pcb := set_flags (Z.lor (flags c) TF_ACK_NOW) c.

Definition tcp_update_rcv_ann_wnd (c : tcp_pcb) : Z * tcp_pcb :=
  let new_right_edge := u32 (rcv_nxt c + rcv_wnd c) in
  if TCP_SEQ_GEQ new_right_edge (rcv_ann_right_edge c + Z.min (rcv_wnd_max c / 2) (mss c)) then
    (u32 (new_right_edge - rcv_ann_right_edge c), set_ann_wnd (rcv_wnd c) c)
  else if TCP_SEQ_GT (rcv_nxt c) (rcv_ann_right_edge c) then (0, set_ann_wnd 0 c)
  else (0, set_ann_wnd (u32 (rcv_ann_right_edge c - rcv_nxt c)) c).

(** [tcp_send_empty_ack]; [ok] when there is a buffer for the header. *)
Definition tcp_send_empty_ack (ok : bool) (c : tcp_pcb) : tcp_pcb :=
  if ok then
    Pcb (state c) (Z.land (flags c) (Z.lnot (Z.lor TF_ACK_DELAY TF_ACK_NOW))) (rcv_nxt c) (rcv_wnd c)
      (rcv_ann_wnd c) (rcv_wnd_max c) (u32 (rcv_nxt c + rcv_ann_wnd c)) (mss c) (ooseq c)
      (rcv_nxt c) (sack_permitted c) (rcv_sack_block c)
  else c.

(** ** Trimming the front of a segment *)

(** [while (p->len < off)]: the buffers before the one where the new data
    starts become empty; [nt] is [new_tot_len]. *)
Fixpoint trim_loop (nt off : Z) (c : list pbuf) : option (list pbuf) :=
  match c with
  | [] => None
  | q :: c =>
    if decide (len q < off) then
      c ← trim_loop nt (off - len q) c;
      Some (set_len 0 (set_tot nt q) :: c)
    else
      '(_, q) ← pbuf_header (s16 (- off)) q; Some (q :: c)
  end.

(** Both branches of the trimming: when the first buffer holds the whole
    prefix the loop has no iteration. *)
Definition trim_front (off : Z) (c : list pbuf) : option (list pbuf) :=
  match c with
  | [] => None
  | q :: _ => trim_loop (u16 (tot_len q - off)) off c
  end.

(** The first step: cut off what was received before, or acknowledge a
    duplicate at once. *)
Definition trim_to_rcv_nxt (c : tcp_pcb) (i : tcp_in_data) : option (tcp_pcb * tcp_in_data) :=
  if TCP_SEQ_BETWEEN (rcv_nxt c) (seqno i + 1) (seqno i + tcplen i - 1) then
    let off := s32 (rcv_nxt c - seqno i) in
    q ← trim_front off (p (inseg i));
    Some (c, In (Seg q (u16 (seg_len (inseg i) - u16 (rcv_nxt c - seqno i))) (rcv_nxt c)
                   (seg_flags (inseg i))) (tcplen i) (recv_data i) (recv_flags i))
  else if TCP_SEQ_LT (seqno i) (rcv_nxt c) then Some (tcp_ack_now c, i)
  else Some (c, i).

(** ** The next segment in sequence *)

(** The end of the segment is cut to the receive window. *)
Definition fit_window (c : tcp_pcb) (i : tcp_in_data) : option tcp_in_data :=
  let i := In (inseg i) (u16 (TCP_TCPLEN (inseg i))) (recv_data i) (recv_flags i) in
  if decide (tcplen i > rcv_wnd c) then
    let s := if has TCP_FIN (inseg i) then clear_flag TCP_FIN (inseg i) else inseg i in
    s ← cut (if has TCP_SYN s then u16 (rcv_wnd c) - 1 else rcv_wnd c) s;
    Some (In s (u16 (TCP_TCPLEN s)) (recv_data i) (recv_flags i))
  else Some i.

(** The segments of [ooseq] the new segment covers are dropped; a FIN of
    theirs moves to the new segment. *)
Fixpoint drop_covered (q : list tcp_seg) (i : tcp_in_data) : list tcp_seg * tcp_in_data :=
  match q with
  | next :: q' =>
    if TCP_SEQ_GEQ (seqno i + tcplen i) (seg_seqno next + seg_len next) then
      let i := if has TCP_FIN next && negb (has TCP_SYN (inseg i)) then
                 let s := set_flag TCP_FIN (inseg i) in
                 In s (u16 (TCP_TCPLEN s)) (recv_data i) (recv_flags i)
               else i in
      drop_covered q' i
    else (q, i)
  | [] => ([], i)
  end.

Definition adjust_ooseq (c : tcp_pcb) (i : tcp_in_data) : option (tcp_pcb * tcp_in_data) :=
  match ooseq c with
  | [] => Some (c, i)
  | _ =>
    if has TCP_FIN (inseg i) then Some (set_ooseq [] c, i)
    else
      let '(q, i) := drop_covered (ooseq c) i in
      i ← match q with
          | next :: _ =>
            if TCP_SEQ_GT (seqno i + tcplen i) (seg_seqno next) then
              s ← cut (if has TCP_SYN (inseg i) then u16 (seg_seqno next - seqno i) - 1
                       else seg_seqno next - seqno i) (inseg i);
              Some (In s (u16 (TCP_TCPLEN s)) (recv_data i) (recv_flags i))
            else Some i
          | [] => Some i
          end;
      Some (set_ooseq q c, i)
  end.

Definition tot (c : list pbuf) : Z := match c with q :: _ => tot_len q | [] => 0 end.

(** [rcv_nxt] and [rcv_wnd] move over [n] sequence numbers. *)
Definition advance (n : Z) (c : tcp_pcb) : tcp_pcb :=
  (tcp_update_rcv_ann_wnd (set_nxt_wnd (u32 (rcv_nxt c + n)) (u32 (rcv_wnd c - n)) c)).2.

(** The segments of [ooseq] that are now in sequence. *)
Fixpoint dequeue (q : list tcp_seg) (c : tcp_pcb) (i : tcp_in_data) : option (tcp_pcb * tcp_in_data) :=
  match q with
  | cseg :: q' =>
    if decide (seg_seqno cseg = rcv_nxt c) then
      let c := advance (TCP_TCPLEN cseg) c in
      r ← (if decide (tot (p cseg) > 0) then
             match recv_data i with
             | [] => Some (p cseg)
             | _ => pbuf_cat (recv_data i) (p cseg)
             end
           else Some (recv_data i));
      let fin := has TCP_FIN cseg in
      let c := if fin && bool_decide (state c = ESTABLISHED) then set_state CLOSE_WAIT c else c in
      let f := if fin then Z.lor (recv_flags i) TF_GOT_FIN else recv_flags i in
      dequeue q' c (In (inseg i) (tcplen i) r f)
    else Some (set_ooseq q c, i)
  | [] => Some (set_ooseq [] c, i)
  end.

(** The SACK blocks below [rcv_nxt] are dropped or cut. *)
Definition prune_sack (nxt : Z) (bs : list tcp_sack_block) : list tcp_sack_block :=
  b ← bs;
  if TCP_SEQ_LEQ b.2 b.1 then []
  else if TCP_SEQ_LEQ b.2 nxt then []
  else if TCP_SEQ_LEQ b.1 nxt && TCP_SEQ_LT nxt b.2 then [(nxt, b.2)]
  else [b].

Definition in_order (c : tcp_pcb) (i : tcp_in_data) : option (tcp_pcb * tcp_in_data) :=
  i ← fit_window c i;
  '(c, i) ← adjust_ooseq c i;
  let c := (tcp_update_rcv_ann_wnd
              (set_nxt_wnd (u32 (seqno i + tcplen i)) (u32 (rcv_wnd c - tcplen i)) c)).2 in
  let r := if decide (tot (p (inseg i)) > 0) then p (inseg i) else recv_data i in
  let f := if has TCP_FIN (inseg i) then Z.lor (recv_flags i) TF_GOT_FIN else recv_flags i in
  '(c, i) ← dequeue (ooseq c) c (In (inseg i) (tcplen i) r f);
  let c := if sack_permitted c then set_sack (prune_sack (rcv_nxt c) (rcv_sack_block c)) c else c in
  Some (tcp_ack_now c, i).

(** ** A segment that is not next: the queue *)

Fixpoint oos_drop (cseg : tcp_seg) (next : list tcp_seg) : list tcp_seg * tcp_seg :=
  match next with
  | n :: next' =>
    if TCP_SEQ_GEQ (seg_seqno cseg + seg_len cseg) (seg_seqno n + seg_len n) then
      oos_drop (if has TCP_FIN n then set_flag TCP_FIN cseg else cseg) next'
    else (next, cseg)
  | [] => ([], cseg)
  end.

Definition tcp_oos_insert_segment (cseg : tcp_seg) (next : list tcp_seg) : option (list tcp_seg) :=
  if has TCP_FIN cseg then Some [cseg]
  else
    let '(next, cseg) := oos_drop cseg next in
    match next with
    | n :: _ =>
      if TCP_SEQ_GT (seg_seqno cseg + seg_len cseg) (seg_seqno n) then
        cseg ← cut (seg_seqno n - seg_seqno cseg) cseg; Some (cseg :: next)
      else Some (cseg :: next)
    | [] => Some [cseg]
    end.

(** The end of [s] is cut back to the start [sq] of the new segment. *)
Definition trim_end (sq : Z) (s : tcp_seg) : option tcp_seg :=
  if TCP_SEQ_GT (seg_seqno s + seg_len s) sq then cut (sq - seg_seqno s) s else Some s.

(** The new segment is cut to the receive window when it is put at the end of
    the queue. *)
Definition overrun (c : tcp_pcb) (i : tcp_in_data) : option tcp_seg :=
  if decide (u32 (tcplen i + seqno i) > u32 (rcv_nxt c + rcv_wnd c)) then
    let s := if has TCP_FIN (inseg i) then clear_flag TCP_FIN (inseg i) else inseg i in
    cut (u32 (rcv_nxt c + rcv_wnd c - seqno i)) s
  else Some (inseg i).

(** "If the 'next' segment is the last segment on the ooseq queue, we add the
    incoming segment to the end of the list": the outcome when that is the
    case.  [ok] when [tcp_seg_copy] gets memory. *)
Definition oos_append (ok : bool) (c : tcp_pcb) (i : tcp_in_data) (prev : option tcp_seg)
    (next : tcp_seg) (q' : list tcp_seg) : option (option (list tcp_seg)) :=
  match q' with
  | [] =>
    if TCP_SEQ_GT (seqno i) (seg_seqno next) then
      Some (if has TCP_FIN next then Some (option_list prev ++ [next])
            else if ok then
              next ← trim_end (seqno i) next; cseg ← overrun c i;
              Some (option_list prev ++ [next; cseg])
            else Some (option_list prev ++ [next]))
    else None
  | _ => None
  end.

(** The [for] loop over the queue; [prev] is the segment before [q].  The
    result replaces [prev] and [q]. *)
Fixpoint oos_walk (ok : bool) (c : tcp_pcb) (i : tcp_in_data) (prev : option tcp_seg) (q : list tcp_seg)
  : option (list tcp_seg) :=
  match q with
  | [] => Some (option_list prev)
  | next :: q' =>
    let go_on :=
      match oos_append ok c i prev next q' with
      | Some r => r
      | None => r ← oos_walk ok c i (Some next) q'; Some (option_list prev ++ r)
      end in
    if decide (seqno i = seg_seqno next) then
      if decide (seg_len (inseg i) > seg_len next) then
        if ok then r ← tcp_oos_insert_segment (inseg i) q; Some (option_list prev ++ r)
        else Some (option_list prev ++ q)
      else Some (option_list prev ++ q)
    else
      match prev with
      | None =>
        if TCP_SEQ_LT (seqno i) (seg_seqno next) then
          if ok then tcp_oos_insert_segment (inseg i) q else Some q
        else go_on
      | Some pv =>
        if TCP_SEQ_BETWEEN (seqno i) (seg_seqno pv + 1) (seg_seqno next - 1) then
          if ok then
            pv ← trim_end (seqno i) pv; r ← tcp_oos_insert_segment (inseg i) q; Some (pv :: r)
          else Some (pv :: q)
        else go_on
      end
  end.

Definition oos_queue (ok : bool) (c : tcp_pcb) (i : tcp_in_data) : option (list tcp_seg) :=
  match ooseq c with
  | [] => Some (if ok then [inseg i] else [])
  | q => oos_walk ok c i None q
  end.

(** "rebuild SACK entries using OOSEQ": [bs] are the blocks completed so far.
    The local [incomplete] stays 0, so the left edge is written anew for
    every segment. *)
Fixpoint rebuild_sack (q : list tcp_seg) (bs : list tcp_sack_block) : option (list tcp_sack_block) :=
  match q with
  | [] => Some bs
  | s :: q' =>
    if decide (length bs < LWIP_TCP_SACK_BLOCK_LEN)%nat then
      let close := match q' with
                   | [] => true
                   | n :: _ => TCP_SEQ_LT (seg_seqno s + seg_len s) (seg_seqno n)
                   end in
      if close then rebuild_sack q' (bs ++ [(seg_seqno s, u32 (seg_seqno s + seg_len s))])
      else rebuild_sack q' bs
    else None
  end.

Definition out_of_order (alloc ack : bool) (c : tcp_pcb) (i : tcp_in_data) : option (tcp_pcb * tcp_in_data) :=
  q ← oos_queue alloc c i;
  bs ← (if sack_permitted c then rebuild_sack q [] else Some []);
  Some (tcp_send_empty_ack ack (set_sack bs (set_ooseq q c)), i).

(** ** The data half of tcp_receive

    [alloc]: [tcp_seg_copy] gets memory; [ack]: [tcp_send_empty_ack] does. *)
Definition receive_data (alloc ack : bool) (c : tcp_pcb) (i : tcp_in_data) : option (tcp_pcb * tcp_in_data) :=
  if bool_decide (tcplen i > 0) && before_close_wait (state c) then
    '(c, i) ← trim_to_rcv_nxt c i;
    if TCP_SEQ_BETWEEN (seqno i) (rcv_nxt c) (rcv_nxt c + rcv_wnd c - 1) then
      if decide (rcv_nxt c = seqno i) then in_order c i else out_of_order alloc ack c i
    else Some (tcp_send_empty_ack ack c, i)
  else Some (c, i).

(** [tcp_process] in the states ESTABLISHED and CLOSE_WAIT, after the
    acknowledgement half of [tcp_receive]. *)
Definition process_established (alloc ack : bool) (c : tcp_pcb) (i : tcp_in_data) : option (tcp_pcb * tcp_in_data) :=
  '(c, i) ← receive_data alloc ack c i;
  Some (if ctrue (Z.land (recv_flags i) TF_GOT_FIN) then set_state CLOSE_WAIT (tcp_ack_now c) else c, i).

(** The application takes [n] bytes: the window opens.  The update the peer
    is sent is left to [tcp_output]. *)
Definition tcp_recved (n : Z) (c : tcp_pcb) : tcp_pcb :=
  let w := u32 (rcv_wnd c + n) in
  let w := if decide (w > rcv_wnd_max c) then rcv_wnd_max c
           else if decide (w = 0) then
             if bool_decide (state c = CLOSE_WAIT \/ state c = LAST_ACK) then rcv_wnd_max c else w
           else w in
  let '(infl, c) := tcp_update_rcv_ann_wnd (set_nxt_wnd (rcv_nxt c) w c) in
  if decide (infl >= rcv_wnd_max c / 4) then tcp_ack_now c else c.

(** ** The byte stream

    The peer sends the bytes [S] of a stream; positions in it are integers,
    the sequence number of a position is the position modulo [2 ^ 32].  The
    stream ends at [E], where the FIN is. *)

Definition slice (S : Z -> Z) (a : Z) (n : Z) : list Z :=
  (fun k => S (a + Z.of_nat k)) <$> seq 0 (Z.to_nat n).

(** Sequence numbers a segment takes up. *)
Definition tlen (s : tcp_seg) : Z := seg_len s + (if has TCP_FIN s then 1 else 0).

Lemma has_lor f s g : has g (set_flag f s) = has g s || ctrue (Z.land f g).
Proof.
  unfold has, ctrue, set_flag. simpl. rewrite Z.land_lor_distr_l.
  rewrite <- bool_decide_or. apply bool_decide_ext. rewrite Z.lor_eq_0_iff.
  destruct (decide (Z.land (seg_flags s) g = 0)), (decide (Z.land f g = 0)); tauto.
Qed.

Lemma tcplen_tlen s : has TCP_SYN s = false -> TCP_TCPLEN s = tlen s.
Proof.
  unfold TCP_TCPLEN, tlen, has, ctrue. intros H%bool_decide_eq_false. f_equal.
  assert (Z.land (seg_flags s) TCP_SYN = 0) as E0 by (destruct (decide (Z.land (seg_flags s) TCP_SYN = 0)); tauto).
  by rewrite Z.land_lor_distr_r, E0, Z.lor_0_r.
Qed.

Lemma u16_u32 x : u16 (u32 x) = u16 x.
Proof. unfold wrap. apply Z.mod_mod_divide. by exists (2 ^ 16). Qed.

Lemma u16_diff a b : 0 <= b - a < 2 ^ 16 -> u16 (u32 b - u32 a) = b - a.
Proof. intros. rewrite <- u16_u32, wrap_sub_l, wrap_sub_r, u16_u32. by apply wrap_small. Qed.

Section stream.
Context (S : Z -> Z) (E : Z).

Lemma length_slice a n : length (slice S a n) = Z.to_nat n.
Proof using. unfold slice. by rewrite length_fmap, length_seq. Qed.

Lemma lookup_slice a n k : (k < Z.to_nat n)%nat -> slice S a n !! k = Some (S (a + Z.of_nat k)).
Proof using.
  intros. unfold slice. rewrite list_lookup_fmap, lookup_seq_lt by done. done.
Qed.

Lemma slice_split a n m : 0 <= m <= n -> slice S a n = slice S a m ++ slice S (a + m) (n - m).
Proof using.
  intros. unfold slice. replace (Z.to_nat n) with (Z.to_nat m + Z.to_nat (n - m))%nat by lia.
  rewrite seq_app, fmap_app. f_equal. rewrite Nat.add_0_l. rewrite <- (Nat.add_0_r (Z.to_nat m)) at 1.
  rewrite <- fmap_add_seq, <- list_fmap_compose. apply list_fmap_ext. intros ? k Hk. simpl. f_equal. lia.
Qed.

Lemma take_slice a n m : 0 <= m <= n -> take (Z.to_nat m) (slice S a n) = slice S a m.
Proof using.
  intros. rewrite (slice_split a n m) by done. apply take_app_length'. by rewrite length_slice.
Qed.

Lemma drop_slice a n m : 0 <= m <= n -> drop (Z.to_nat m) (slice S a n) = slice S (a + m) (n - m).
Proof using.
  intros. rewrite (slice_split a n m) by done. apply drop_app_length'. by rewrite length_slice.
Qed.

(** The segment holds the bytes of the stream from position [a] on. *)
Definition seg_at (a : Z) (s : tcp_seg) : Prop :=
  seg_seqno s = u32 a /\ 0 <= seg_len s < 2 ^ 16 - 1 /\
  p s <> [] /\ chain_ok (p s) /\ data (p s) = slice S a (seg_len s) /\
  has TCP_SYN s = false /\ a + seg_len s <= E /\ (has TCP_FIN s = true -> a + seg_len s = E).

(** The queue between the positions [lo] and [hi]: in order, without
    overlaps, nothing behind a FIN. *)
Fixpoint oos (lo hi : Z) (q : list tcp_seg) : Prop :=
  match q with
  | [] => True
  | s :: q => exists a, lo <= a /\ seg_at a s /\ 0 < tlen s /\ a + tlen s <= hi /\
      (has TCP_FIN s = true -> q = []) /\ oos (a + seg_len s) hi q
  end.

Lemma oos_mono lo hi lo' hi' q : lo' <= lo -> hi <= hi' -> oos lo hi q -> oos lo' hi' q.
Proof using.
  revert lo lo'. induction q as [|s q IH]; intros lo lo' ?? H; [done|].
  destruct H as (a & ? & ? & ? & ? & ? & H). exists a. split_and!; try done; try lia.
  eapply IH; [| |done]; lia.
Qed.

Lemma tlen_bounds a s : seg_at a s -> 0 <= tlen s < 2 ^ 16 /\ seg_len s <= tlen s <= seg_len s + 1.
Proof using. intros (_ & ? & _). unfold tlen. case_match; lia. Qed.

Lemma cut_spec a n s : seg_at a s -> has TCP_FIN s = false -> 0 <= u16 n <= seg_len s ->
  exists s', cut n s = Some s' /\ seg_at a s' /\ seg_len s' = u16 n /\ has TCP_FIN s' = false.
Proof using.
  intros (Hs & Hl & Hne & Hok & Hd & Hsyn & He & _) Hf Hn. unfold cut.
  destruct (pbuf_realloc_spec (u16 n) (p s)) as (c & -> & Hc & Hdc & Hcn); try done;
    [lia|rewrite Hd, length_slice; lia|].
  simpl. eexists. split; [done|]. split; [|done]. split_and!; simpl; try done; try lia.
  - by rewrite Hdc, Hd, take_slice by lia.
  - unfold has in *. simpl. rewrite Hf. done.
Qed.

(** Cutting a segment at the start [b] of another. *)
Lemma cut_at a b s sq : seg_at a s -> has TCP_FIN s = false -> sq = u32 b -> a <= b <= a + seg_len s ->
  exists s', cut (sq - seg_seqno s) s = Some s' /\ seg_at a s' /\ seg_len s' = b - a /\ has TCP_FIN s' = false.
Proof using.
  intros Hs Hf -> Hb. pose proof Hs as (Es & Hl & _).
  assert (u16 (u32 b - seg_seqno s) = b - a) as Eu.
  { rewrite Es. apply u16_diff. lia. }
  destruct (cut_spec a (u32 b - seg_seqno s) s Hs Hf) as (s' & ? & ? & ? & ?); [lia|].
  exists s'. split_and!; try done. lia.
Qed.

(** The new segment takes over the FIN of a segment it covers. *)
Lemma take_fin a s : seg_at a s -> a + seg_len s = E -> seg_at a (set_flag TCP_FIN s).
Proof using.
  intros (? & ? & ? & ? & ? & Hsyn & ? & ?) He. unfold seg_at. rewrite (has_lor _ _ TCP_SYN), Hsyn.
  split_and!; simpl; done || lia.
Qed.
(** Dropping what a new segment covers.  What is left of the queue starts
    beyond the end of the segment's last byte. *)
Lemma oos_drop_spec a cseg lo hi q :
  seg_at a cseg -> has TCP_FIN cseg = false -> oos lo hi q -> a < lo ->
  hi - a < 2 ^ 31 -> a + seg_len cseg <= hi ->
  let '(q', s) := oos_drop cseg q in
  seg_at a s /\ seg_len s = seg_len cseg /\ p s = p cseg /\ (length q' <= length q)%nat /\ a + tlen s <= hi /\
  (has TCP_FIN s = true -> q' = []) /\ oos lo hi q' /\
  match q' with
  | [] => True
  | n :: _ => exists b, seg_at b n /\ lo <= b /\ a + seg_len s < b + seg_len n /\ has TCP_FIN s = false /\
      oos b hi q'
  end.
Proof using.
  revert cseg lo. induction q as [|n q IH]; intros cseg lo Hc Hf Hq Ha Hhi Hend; simpl.
  { unfold tlen. rewrite Hf. split_and!; done || lia. }
  destruct Hq as (b & Hb & Hn & Hp & Hnh & Hlast & Hq).
  pose proof (tlen_bounds a cseg Hc) as [? ?]. pose proof (tlen_bounds b n Hn) as [? ?].
  assert (TCP_SEQ_GEQ (seg_seqno cseg + seg_len cseg) (seg_seqno n + seg_len n) =
    bool_decide (b + seg_len n <= a + seg_len cseg)) as ->.
  { destruct Hc as (-> & ? & _), Hn as (-> & ? & _). unfold TCP_SEQ_GEQ. rewrite !wrap_add_l.
    apply seq_geq. lia. }
  case_bool_decide as Hcov.
  - destruct (has TCP_FIN n) eqn:Hfn.
    + rewrite (Hlast eq_refl) in *. simpl.
      assert (a + seg_len cseg = E) as He.
      { destruct Hc as (_ & _ & _ & _ & _ & _ & ? & _), Hn as (_ & _ & _ & _ & _ & _ & _ & Hn).
        specialize (Hn Hfn). lia. }
      split_and!; try done; [by apply take_fin|lia|].
      unfold tlen in *. rewrite has_lor, orb_true_r. simpl. rewrite Hfn in *.
      destruct Hn as (_ & _ & _ & _ & _ & _ & _ & Hn). specialize (Hn Hfn). lia.
    + assert (0 < seg_len n) by (unfold tlen in Hp; rewrite Hfn in Hp; lia).
      specialize (IH cseg (b + seg_len n) Hc Hf Hq ltac:(lia) Hhi Hend).
      destruct (oos_drop cseg q) as [q' s]. destruct IH as (? & ? & ? & ? & ? & ? & Hq' & Hh).
      split_and!; try done; [lia|by eapply (oos_mono (b + seg_len n) hi); [lia| |]|].
      destruct q' as [|m q']; [done|]. destruct Hh as (b' & ? & ? & ? & ? & ?).
      exists b'. split_and!; try done. lia.
  - split_and!; try done.
    + unfold tlen. rewrite Hf. lia.
    + by rewrite Hf.
    + exists b. split_and!; done.
    + exists b. split_and!; try done; [lia|]. exists b. split_and!; done.
Qed.
(** [TCP_SEQ_GT] of the end of one segment and the start of another. *)
Lemma end_gt a s b n : seg_at a s -> seg_at b n -> - 2 ^ 30 <= a - b <= 2 ^ 30 ->
  TCP_SEQ_GT (seg_seqno s + seg_len s) (seg_seqno n) = bool_decide (b < a + seg_len s).
Proof using.
  intros (-> & ? & _) (-> & ? & _) ?. unfold TCP_SEQ_GT. rewrite wrap_add_l, wrap_wrap by lia.
  apply seq_gt. lia.
Qed.

Lemma oos_insert_spec a cseg hi q :
  seg_at a cseg -> 0 < tlen cseg -> a + tlen cseg <= hi -> hi - a <= 2 ^ 30 -> oos (a + 1) hi q ->
  exists r, tcp_oos_insert_segment cseg q = Some r /\ oos a hi r /\ (length r <= length q + 1)%nat.
Proof using.
  intros Hc Hp Hh Hb Hq. unfold tcp_oos_insert_segment.
  destruct (has TCP_FIN cseg) eqn:Hf.
  { exists [cseg]. split_and!; try done; [|simpl; lia]. exists a. split_and!; done || lia. }
  assert (a + seg_len cseg <= hi) by (pose proof (tlen_bounds a cseg Hc); lia).
  pose proof (oos_drop_spec a cseg (a + 1) hi q Hc Hf Hq ltac:(lia) ltac:(lia) ltac:(lia)) as Hd.
  destruct (oos_drop cseg q) as [q' s]. destruct Hd as (Hs & El & _ & Hlen & Hend & Hfin & Hq' & Hhead).
  assert (0 < tlen s) as Hps.
  { unfold tlen in *. rewrite Hf in Hp. rewrite El. destruct (has TCP_FIN s); lia. }
  destruct q' as [|n q'].
  { exists [s]. split_and!; try done; [|simpl; lia]. exists a. split_and!; done || lia. }
  destruct Hhead as (b & Hn & Hb1 & Hlt & Hnf & Hqb). simpl in Hlen.
  assert (b <= hi).
  { destruct Hqb as (b' & ? & Hb' & ? & ? & _). pose proof (tlen_bounds _ _ Hb'). lia. }
  rewrite (end_gt a s b n Hs Hn) by lia. case_bool_decide as Hgt.
  - destruct (cut_at a b s (seg_seqno n)) as (s' & -> & Hs' & El' & Hf'); try done; [by destruct Hn|lia|].
    simpl. eexists. split; [done|]. split; [|simpl; lia]. exists a. unfold tlen. rewrite Hf', El'.
    split_and!; try done; try lia. by replace (a + (b - a)) with b by lia.
  - eexists. split; [done|]. split; [|simpl; lia]. exists a. split_and!; try done; try lia.
    eapply oos_mono; [| |exact Hqb]; lia.
Qed.
(** The end of the segment [n] at [b] is cut back to [a]. *)
Lemma trim_end_spec a b n sq : seg_at b n -> has TCP_FIN n = false -> sq = u32 a -> b < a -> a - b <= 2 ^ 30 ->
  exists n', trim_end sq n = Some n' /\ seg_at b n' /\ b + seg_len n' <= a /\ has TCP_FIN n' = false /\
    (0 < seg_len n -> 0 < seg_len n') /\ seg_len n' <= seg_len n.
Proof using.
  intros Hn Hf Ea Hba Hd. unfold trim_end.
  assert (TCP_SEQ_GT (seg_seqno n + seg_len n) sq = bool_decide (a < b + seg_len n)) as ->.
  { destruct Hn as (-> & ? & _). rewrite Ea. unfold TCP_SEQ_GT. rewrite wrap_add_l, wrap_wrap by lia.
    apply seq_gt. lia. }
  case_bool_decide.
  - destruct (cut_at b a n sq) as (n' & -> & ? & El & ?); try done; [lia|].
    exists n'. split_and!; done || lia.
  - exists n. split_and!; done || lia.
Qed.

(** A new segment at [a] for a connection that expects [N]. *)
Definition early (N a : Z) (c : tcp_pcb) (i : tcp_in_data) : Prop :=
  seg_at a (inseg i) /\ tcplen i = tlen (inseg i) /\ 0 < tlen (inseg i) /\ N < a /\
  a + tlen (inseg i) <= N + rcv_wnd c /\ rcv_nxt c = u32 N /\ 0 <= rcv_wnd c <= 2 ^ 30 /\
  u32 N + rcv_wnd c < 2 ^ 32.

Lemma overrun_none N a c i : early N a c i -> overrun c i = Some (inseg i).
Proof using.
  intros (Hs & Et & Hp & HNa & Hhi & En & Hw & Hnw). unfold overrun. rewrite decide_False; [done|].
  unfold seqno. destruct Hs as (-> & Hl & _). rewrite En, Et, wrap_add_r.
  pose proof (wrap_range 32 ltac:(lia) N).
  assert (u32 (tlen (inseg i) + a) = u32 N + (a + tlen (inseg i) - N)) as ->.
  { replace (tlen (inseg i) + a) with (N + (a + tlen (inseg i) - N)) by lia.
    rewrite <- wrap_add_l. apply wrap_small. lia. }
  rewrite (wrap_small 32 (u32 N + rcv_wnd c)) by lia. lia.
Qed.

Lemma oos_cons lo hi a s q : lo <= a -> seg_at a s -> 0 < tlen s -> a + tlen s <= hi ->
  (has TCP_FIN s = true -> q = []) -> oos (a + seg_len s) hi q -> oos lo hi (s :: q).
Proof using. intros. exists a. split_and!; done. Qed.

(** The loop is between [prev] and [q]: from [m] on the queue may be replaced,
    and [prev], when there is one, starts before the new segment. *)
Definition walking (lo m hi a : Z) (prev : option tcp_seg) (q : list tcp_seg) : Prop :=
  oos m hi q /\ (forall r, oos m hi r -> oos lo hi (option_list prev ++ r)) /\
  match prev with
  | Some pv => exists c0, seg_at c0 pv /\ lo <= c0 < a /\ 0 < seg_len pv /\ has TCP_FIN pv = false /\
      c0 + seg_len pv <= hi /\ c0 + seg_len pv <= m
  | None => m <= a
  end.

(** The new segment is put in front of a queue that starts at it. *)
Lemma insert_same a b s n hi q : seg_at a s -> 0 < tlen s -> a + tlen s <= hi -> hi - a <= 2 ^ 30 ->
  seg_at a n -> 0 < tlen n -> seg_len s > seg_len n -> (has TCP_FIN n = true -> q = []) -> b = a + seg_len n ->
  a + tlen n <= hi -> oos b hi q ->
  exists r, tcp_oos_insert_segment s (n :: q) = Some r /\ oos a hi r /\ (length r <= length q + 2)%nat.
Proof using.
  intros Hs Hp Hh Hd Hn Hpn Hlt Hlast -> Hnh Hq. destruct (has TCP_FIN s) eqn:Hf.
  { unfold tcp_oos_insert_segment. rewrite Hf. exists [s]. split_and!; try done; [|simpl; lia].
    apply (oos_cons a hi a); done || lia. }
  assert (tcp_oos_insert_segment s (n :: q) =
    if has TCP_FIN n then Some [set_flag TCP_FIN s] else tcp_oos_insert_segment s q) as ->.
  { unfold tcp_oos_insert_segment. rewrite Hf. cbn [oos_drop].
    assert (TCP_SEQ_GEQ (seg_seqno s + seg_len s) (seg_seqno n + seg_len n) = true) as ->.
    { destruct Hs as (-> & ? & _), Hn as (-> & ? & _). unfold TCP_SEQ_GEQ. rewrite !wrap_add_l.
      fold (TCP_SEQ_GEQ (a + seg_len s) (a + seg_len n)). rewrite seq_geq by lia. apply bool_decide_true. lia. }
    destruct (has TCP_FIN n); [by rewrite (Hlast eq_refl)|done]. }
  destruct (has TCP_FIN n) eqn:Hfn.
  - destruct Hn as (_ & ? & _ & _ & _ & _ & _ & Hn). destruct Hs as (_ & ? & _ & _ & _ & _ & ? & _).
    specialize (Hn Hfn). lia.
  - assert (0 < seg_len n) by (unfold tlen in Hpn; rewrite Hfn in Hpn; lia).
    destruct (oos_insert_spec a s hi q) as (r & ? & ? & ?); try done.
    { eapply oos_mono; [| |exact Hq]; lia. }
    exists r. split_and!; done || lia.
Qed.

(** The new segment is appended. *)
Lemma oos_append_spec ok N a c i b n prev lo m : early N a c i ->
  let hi := N + rcv_wnd c in
  (forall r, oos m hi r -> oos lo hi (option_list prev ++ r)) ->
  oos m hi [n] -> m <= b -> seg_at b n -> N < b < a -> 0 < tlen n -> b + tlen n <= hi ->
  exists r, oos_append ok c i prev n [] = Some (Some r) /\ oos lo hi r /\
    (length r <= length (option_list prev) + 2)%nat.
Proof using.
  intros He hi Hrep Hq Hmb Hn Hba Hpn Hnh. pose proof He as (Hs & Et & Hp & HNa & Hhi & En & Hw & Hnw).
  fold hi in Hhi. pose proof (tlen_bounds a _ Hs) as [? ?].
  assert (seqno i = u32 a) as Ea by (by destruct Hs). unfold oos_append.
  assert (TCP_SEQ_GT (seqno i) (seg_seqno n) = true) as ->.
  { destruct Hn as (-> & _). rewrite Ea. unfold TCP_SEQ_GT. rewrite !wrap_wrap by lia.
    fold (TCP_SEQ_GT a b). rewrite seq_gt by lia. apply bool_decide_true. lia. }
  assert (exists r, Some (Some (option_list prev ++ [n])) = Some (Some r) /\ oos lo hi r /\
    (length r <= length (option_list prev) + 2)%nat) as Hsame.
  { eexists. split; [done|]. split; [by apply Hrep|]. rewrite length_app. simpl. lia. }
  destruct (has TCP_FIN n) eqn:Hfn; [done|]. destruct ok; [|done].
  destruct (trim_end_spec a b n (seqno i)) as (n' & -> & Hn' & Hend & Hf' & Hpos & Hle); try done; [lia..|].
  rewrite (overrun_none N a c i He). simpl. eexists. split; [done|].
  split; [|rewrite length_app; simpl; lia]. apply Hrep.
  unfold tlen in Hpn, Hnh. rewrite Hfn in Hpn, Hnh.
  apply (oos_cons m hi b); try done; [unfold tlen; rewrite Hf'; lia..|by rewrite Hf'|].
  apply (oos_cons _ hi a); try done; lia.
Qed.

(** Two positions of the window with the same sequence number are equal. *)
Lemma u32_eq_window a b : u32 a = u32 b -> - 2 ^ 31 <= a - b < 2 ^ 31 -> a = b.
Proof using.
  intros Heq Hab. pose proof (s32_diff a b Hab) as Hd. rewrite Heq, Z.sub_diag in Hd.
  change (s32 0) with 0 in Hd. lia.
Qed.

Lemma oos_walk_spec ok N a c i q : early N a c i -> q <> [] -> forall prev lo m,
  N < lo -> N < m -> walking lo m (N + rcv_wnd c) a prev q ->
  exists r, oos_walk ok c i prev q = Some r /\ oos lo (N + rcv_wnd c) r /\
    (length r <= length (option_list prev) + length q + 1)%nat.
Proof using.
  intros He Hne. pose proof He as (Hs & Et & Hp & HNa & Hhi & En & Hw & Hnw).
  set (hi := N + rcv_wnd c) in *. pose proof (tlen_bounds a _ Hs) as [? ?].
  induction q as [|n q IH]; [done|]. intros prev lo m HNl HNm (Hq & Hrep & Hprev).
  pose proof Hq as (b & Hmb & Hn & Hpn & Hnh & Hlast & Htail).
  pose proof (tlen_bounds b n Hn) as [? ?].
  assert (exists r, Some (option_list prev ++ n :: q) = Some r /\ oos lo hi r /\
    (length r <= length (option_list prev) + length (n :: q) + 1)%nat) as Hunch.
  { eexists. split_and!; [done|by apply Hrep|]. rewrite length_app. lia. }
  cbn [oos_walk]. assert (seqno i = u32 a) as Ea by (by destruct Hs).
  pose proof Hn as (Eb & _). case_decide as Heq.
  { (* the same sequence number *)
    case_decide; [|done]. destruct ok; [|done].
    assert (a = b) as <- by (apply u32_eq_window; [congruence|lia]).
    destruct (insert_same a (a + seg_len n) (inseg i) n hi q) as (r & -> & Hr & Hl); try done; try lia.
    simpl. eexists. split; [done|]. split; [|rewrite length_app; simpl; lia].
    apply Hrep. eapply oos_mono; [| |exact Hr]; lia. }
  assert (a <> b) as Hab by congruence.
  assert (b < a -> exists r,
    match oos_append ok c i prev n q with
    | Some r => r
    | None => r ← oos_walk ok c i (Some n) q; Some (option_list prev ++ r)
    end = Some r /\ oos lo hi r /\
    (length r <= length (option_list prev) + length (n :: q) + 1)%nat) as Hgo.
  { intros Hba. destruct q as [|n2 q].
    - destruct (oos_append_spec ok N a c i b n prev lo m) as (r & -> & ? & ?); try done; [lia|].
      exists r. split_and!; try done. simpl. lia.
    - assert (has TCP_FIN n = false) as Hfn by (destruct (has TCP_FIN n); [by specialize (Hlast eq_refl)|done]).
      unfold tlen in Hpn, Hnh. rewrite Hfn in Hpn, Hnh.
      destruct (IH ltac:(done) (Some n) m (b + seg_len n)) as (r & -> & Hr & Hl); [lia..| |].
      { split_and!; [done| |].
        - intros r Hr. apply (oos_cons m hi b); try done; unfold tlen; rewrite Hfn; lia || done.
        - exists b. split_and!; done || lia. }
      simpl. eexists. split; [done|]. split; [by apply Hrep|]. rewrite length_app. simpl in *. lia. }
  assert (a < b -> oos (a + 1) hi (n :: q)) as Hafter.
  { intros. exists b. split_and!; done || lia. }
  destruct prev as [pv|].
  - destruct Hprev as (c0 & Hc0 & Hlo & Hlen & Hfp & Hch & Hcm).
    assert (TCP_SEQ_BETWEEN (seqno i) (seg_seqno pv + 1) (seg_seqno n - 1) = bool_decide (c0 + 1 <= a <= b - 1)) as ->.
    { rewrite Ea, Eb. destruct Hc0 as (-> & _). unfold TCP_SEQ_BETWEEN, TCP_SEQ_GEQ, TCP_SEQ_LEQ.
      rewrite wrap_add_l, wrap_sub_l, wrap_wrap by lia. apply (seq_between a (c0 + 1) (b - 1)); lia. }
    case_bool_decide as Hbt; [|apply Hgo; lia].
    destruct ok; [|done].
    destruct (trim_end_spec a c0 pv (seqno i)) as (pv' & -> & Hpv' & Hend & Hf' & Hpos & Hle); try done; [lia..|].
    destruct (oos_insert_spec a (inseg i) hi (n :: q)) as (r & -> & Hr & Hl); try done; [lia|apply Hafter; lia|].
    simpl in *. eexists. split; [done|]. split; [|simpl; lia].
    apply (oos_cons lo hi c0); try done; [lia|unfold tlen; rewrite Hf'; lia..|by rewrite Hf'|].
    eapply oos_mono; [| |exact Hr]; lia.
  - assert (TCP_SEQ_LT (seqno i) (seg_seqno n) = bool_decide (a < b)) as ->.
    { rewrite Ea, Eb. unfold TCP_SEQ_LT. rewrite !wrap_wrap by lia. apply seq_lt. lia. }
    case_bool_decide as Hlt; [|apply Hgo; lia]. destruct ok; [|done].
    destruct (oos_insert_spec a (inseg i) hi (n :: q)) as (r & -> & Hr & Hl); try done; [lia|by apply Hafter|].
    eexists. split; [done|]. split; [|simpl in *; lia]. apply Hrep. eapply oos_mono; [| |exact Hr]; lia.
Qed.
Lemma oos_queue_spec ok N a c i : early N a c i -> oos (N + 1) (N + rcv_wnd c) (ooseq c) ->
  exists r, oos_queue ok c i = Some r /\ oos (N + 1) (N + rcv_wnd c) r /\
    (length r <= length (ooseq c) + 1)%nat.
Proof using.
  intros He Hq. pose proof He as (Hs & Et & Hp & HNa & Hhi & En & Hw & Hnw). unfold oos_queue.
  destruct (ooseq c) as [|n q] eqn:Eq.
  - eexists. split; [done|]. destruct ok; [|split; [done|simpl; lia]].
    split; [|simpl; lia]. apply (oos_cons _ _ a); done || lia.
  - destruct (oos_walk_spec ok N a c i (n :: q) He ltac:(done) None (N + 1) (N + 1)) as (r & -> & ? & ?);
      try lia; [|by exists r]. split_and!; [done|by intros|lia].
Qed.

Lemma rebuild_sack_total q bs : (length q + length bs <= LWIP_TCP_SACK_BLOCK_LEN)%nat ->
  is_Some (rebuild_sack q bs).
Proof using.
  revert bs. induction q as [|s q IH]; intros bs Hl; simpl in *; [done|].
  rewrite decide_True by lia. case_match; apply IH; rewrite ?length_app; simpl; lia.
Qed.

(** ** In-order data *)

Lemma update_ann_fields c :
  let c' := (tcp_update_rcv_ann_wnd c).2 in
  rcv_nxt c' = rcv_nxt c /\ rcv_wnd c' = rcv_wnd c /\ ooseq c' = ooseq c /\ state c' = state c /\
  rcv_wnd_max c' = rcv_wnd_max c /\ sack_permitted c' = sack_permitted c.
Proof using. unfold tcp_update_rcv_ann_wnd. repeat case_match; done. Qed.

(** What [tcp_receive] hands up when the connection has moved from [N] to
    [M]: the bytes in between, and the FIN exactly when it was reached. *)
Definition handed (N M : Z) (i : tcp_in_data) : Prop :=
  N <= M <= E + 1 /\ chain_ok (recv_data i) /\
  data (recv_data i) = slice S N (Z.min M E - N) /\
  recv_flags i = if decide (M = E + 1) then TF_GOT_FIN else 0.

(** Appending a segment to what is handed up. *)
Lemma handed_app N M s r l f :
  handed N M (In l f r 0) -> N <= E -> M <= E -> M - N <= 2 ^ 30 -> seg_at M s -> 0 < tlen s ->
  exists r', (if decide (tot (p s) > 0) then
                match r with [] => Some (p s) | _ => pbuf_cat r (p s) end
              else Some r) = Some r' /\
    forall l f, handed N (M + tlen s) (In l f r' (if has TCP_FIN s then Z.lor 0 TF_GOT_FIN else 0)).
Proof using.
  intros (HNM & Hc & Hd & _) HNE HME Hsz (_ & Hl & Hne & Hok & Hds & _ & He & Hf) Hp. simpl in *.
  rewrite Z.min_l in Hd by lia.
  assert (tot (p s) = seg_len s) as Et.
  { destruct (p s) as [|q c]; [done|]. simpl. rewrite (chain_ok_tot q c Hok), Hds, length_slice. lia. }
  assert (exists r', (if decide (tot (p s) > 0) then
                match r with [] => Some (p s) | _ => pbuf_cat r (p s) end
              else Some r) = Some r' /\ chain_ok r' /\ data r' = slice S N (M + seg_len s - N)) as (r' & Er & Hcr & Hdr).
  { assert (slice S N (M + seg_len s - N) = data r ++ data (p s)) as Hcat.
    { rewrite (slice_split N (M + seg_len s - N) (M - N)) by lia. rewrite Hd, Hds. do 2 f_equal; lia. }
    rewrite Et, Hcat. case_decide.
    - destruct r as [|q r]; [by exists (p s)|].
      destruct (pbuf_cat_spec (q :: r) (p s)) as (x & ? & ? & ? & ?); try done; [|by exists x].
      rewrite length_app, Hd, Hds, !length_slice. lia.
    - exists r. split_and!; try done. rewrite Hds. replace (seg_len s) with 0 by lia. by rewrite app_nil_r. }
  exists r'. split; [done|]. intros l' f'. unfold handed, tlen in *; simpl.
  destruct (has TCP_FIN s) eqn:Hfin.
  - specialize (Hf eq_refl). rewrite decide_True by lia. split_and!; try done; try lia.
    rewrite Hdr. f_equal. lia.
  - rewrite decide_False by lia. split_and!; try done; try lia. rewrite Hdr. f_equal. lia.
Qed.
(** The parts of the connection the receive path leaves alone. *)
Definition same_conf (c c' : tcp_pcb) : Prop :=
  rcv_wnd_max c' = rcv_wnd_max c /\ sack_permitted c' = sack_permitted c.

(** The connection expects [M], its window ends at [hi]. *)
Definition expects (M hi : Z) (c : tcp_pcb) : Prop :=
  rcv_nxt c = u32 M /\ rcv_wnd c = hi - M /\ M <= hi.

Lemma advance_expects M hi n c : expects M hi c -> 0 <= n -> M + n <= hi -> hi - M <= 2 ^ 30 ->
  expects (M + n) hi (advance n c) /\ same_conf c (advance n c) /\ state (advance n c) = state c.
Proof using.
  intros (En & Ew & Hh) Hn Hm Hb. unfold advance.
  destruct (update_ann_fields (set_nxt_wnd (u32 (rcv_nxt c + n)) (u32 (rcv_wnd c - n)) c))
    as (E1 & E2 & _ & E3 & E4 & E5).
  unfold expects, same_conf. rewrite E1, E2, E3, E4, E5. simpl. rewrite En, Ew, wrap_add_l.
  rewrite (wrap_small 32 (hi - M - n)) by lia. split_and!; done || lia.
Qed.

Lemma dequeue_spec N hi q : N <= E -> hi - N <= 2 ^ 30 -> forall M c i,
  handed N M i -> expects M hi c -> oos M hi q ->
  exists M' c' i', dequeue q c i = Some (c', i') /\ M <= M' /\ handed N M' i' /\ expects M' hi c' /\
    oos (M' + 1) hi (ooseq c') /\ (length (ooseq c') <= length q)%nat /\ same_conf c c' /\
    (state c' = state c \/ state c' = CLOSE_WAIT /\ M' = E + 1).
Proof using.
  intros HNE Hsz. induction q as [|s q IH]; intros M c i Hi Hc Hq.
  { exists M, (set_ooseq [] c), i. split_and!; done || lia || by left. }
  pose proof Hi as (HNM & _). pose proof Hc as (En & Ew & Hh). cbn [dequeue].
  destruct Hq as (a & Hma & Hs & Hp & Hah & Hlast & Hq). pose proof (tlen_bounds a s Hs) as [? ?].
  case_decide as Hd.
  2: { exists M, (set_ooseq (s :: q) c), i. split_and!; try done; try lia; try (by left).
       exists a. split_and!; try done. pose proof Hs as (Es & _). assert (a <> M) by congruence. lia. }
  assert (a = M) as ->.
  { pose proof Hs as (Es & _). apply u32_eq_window; [congruence|lia]. }
  assert (M <= E) as HME by (destruct Hs as (_ & ? & _ & _ & _ & _ & ? & _); lia).
  rewrite (tcplen_tlen s) by (by destruct Hs as (_ & _ & _ & _ & _ & ? & _)).
  destruct (advance_expects M hi (tlen s) c Hc ltac:(lia) ltac:(lia) ltac:(lia)) as (Hc' & Hconf & Hst).
  set (c1 := advance (tlen s) c) in *. destruct i as [sg il r f].
  assert (f = 0) as -> by (destruct Hi as (_ & _ & _ & Hf); simpl in Hf; rewrite decide_False in Hf by lia; done).
  destruct (handed_app N M s r sg il Hi HNE HME ltac:(lia) Hs Hp) as (r' & Er & Hr').
  simpl recv_data. simpl recv_flags. simpl inseg. simpl tcplen. rewrite Er. cbn [mbind option_bind].
  set (c2 := if has TCP_FIN s && bool_decide (state c1 = ESTABLISHED) then set_state CLOSE_WAIT c1 else c1).
  assert (expects (M + tlen s) hi c2 /\ same_conf c c2 /\
    (state c2 = state c \/ state c2 = CLOSE_WAIT /\ M + tlen s = E + 1)) as (Hc2 & Hconf2 & Hst2).
  { unfold c2. destruct (has TCP_FIN s) eqn:Hf; simpl; [|rewrite Hst; tauto].
    assert (M + tlen s = E + 1).
    { destruct Hs as (_ & _ & _ & _ & _ & _ & _ & He). unfold tlen. rewrite Hf. specialize (He Hf). lia. }
    case_bool_decide; [|rewrite Hst; tauto]. split_and!; try apply Hc'; try apply Hconf. by right. }
  destruct (IH (M + tlen s) c2 (In sg il r' (if has TCP_FIN s then Z.lor 0 TF_GOT_FIN else 0)))
    as (M' & c' & i' & E' & ? & ? & Hex & ? & ? & Hsc & Hst'); [done|done| |].
  { destruct (has TCP_FIN s) eqn:Hf; [by rewrite (Hlast eq_refl)|]. unfold tlen. rewrite Hf.
    by rewrite Z.add_0_r. }
  exists M', c', i'. split; [exact E'|]. split_and!; try done; try lia.
  - simpl. lia.
  - destruct Hsc, Hconf2. split; congruence.
  - destruct Hst' as [->|[-> ->]]; [|by right]. destruct Hst2 as [->|[-> ?]]; [by left|].
    right. split; [done|]. destruct H2 as (? & _). lia.
Qed.
(** For a segment without FIN, [drop_covered] is the loop of the queue. *)
Lemma drop_covered_eq i q lo hi :
  has TCP_SYN (inseg i) = false -> has TCP_FIN (inseg i) = false -> tcplen i = seg_len (inseg i) ->
  oos lo hi q ->
  drop_covered q i = let '(q', s) := oos_drop (inseg i) q in
    (q', In s (if has TCP_FIN s then u16 (TCP_TCPLEN s) else tcplen i) (recv_data i) (recv_flags i)).
Proof using.
  intros Hsyn Hfin Ht. revert lo. induction q as [|n q IH]; intros lo Hq.
  { destruct i. simpl in *. by rewrite Hfin. }
  destruct Hq as (b & _ & _ & _ & _ & Hlast & Hq). cbn [drop_covered oos_drop]. unfold seqno. rewrite Ht.
  destruct (TCP_SEQ_GEQ _ _); [|destruct i; simpl in *; by rewrite Hfin, Ht].
  rewrite Hsyn. destruct (has TCP_FIN n) eqn:Hf; cbn [andb negb].
  - rewrite (Hlast eq_refl). cbn [drop_covered oos_drop].
    rewrite (has_lor TCP_FIN (inseg i) TCP_FIN), orb_true_r. done.
  - rewrite <- Ht. by eapply IH.
Qed.

Lemma tlen_wrap a s : seg_at a s -> u16 (TCP_TCPLEN s) = tlen s.
Proof using.
  intros Hs. rewrite tcplen_tlen by (by destruct Hs as (_ & _ & _ & _ & _ & ? & _)).
  apply wrap_small. apply (tlen_bounds a s Hs).
Qed.

(** A new segment that is next in sequence. *)
Definition next_seg (N hi : Z) (i : tcp_in_data) : Prop :=
  seg_at N (inseg i) /\ tcplen i = tlen (inseg i) /\ 0 < tlen (inseg i) /\ N + tlen (inseg i) <= hi /\
  recv_data i = [] /\ recv_flags i = 0.

(** Making room in the queue for the segment: afterwards the queue starts
    where the segment ends, or later. *)
Lemma adjust_ooseq_spec N hi c i : next_seg N hi i -> oos (N + 1) hi (ooseq c) -> hi - N <= 2 ^ 30 ->
  exists q i', adjust_ooseq c i = Some (set_ooseq q c, i') /\ next_seg N hi i' /\
    oos (N + tlen (inseg i')) hi q /\ (length q <= length (ooseq c))%nat.
Proof using.
  intros Hi Hq Hsz. pose proof Hi as (Hs & Et & Hp & Hh & Hr & Hf). unfold adjust_ooseq.
  destruct (ooseq c) as [|n0 q0] eqn:Eq.
  { exists [], i. split_and!; try done. by destruct c; simpl in *; subst. }
  rewrite <- Eq in *. clear n0 q0 Eq. destruct (has TCP_FIN (inseg i)) eqn:Hfin.
  { exists [], i. split_and!; try done. simpl. lia. }
  assert (tlen (inseg i) = seg_len (inseg i)) as El by (unfold tlen; rewrite Hfin; lia).
  rewrite (drop_covered_eq i (ooseq c) (N + 1) hi); try done; [| |lia].
  2: by destruct Hs as (_ & _ & _ & _ & _ & ? & _).
  pose proof (oos_drop_spec N (inseg i) (N + 1) hi (ooseq c) Hs Hfin Hq ltac:(lia) ltac:(lia) ltac:(lia)) as Hd.
  destruct (oos_drop (inseg i) (ooseq c)) as [q s]. destruct Hd as (Hs' & El' & _ & Hlen & Hend & Hfl & Hq' & Hhead).
  set (t := if has TCP_FIN s then u16 (TCP_TCPLEN s) else tcplen i).
  assert (t = tlen s) as Et'.
  { unfold t. destruct (has TCP_FIN s) eqn:Hfs; [by apply (tlen_wrap N)|].
    unfold tlen at 1. rewrite Hfs. lia. }
  assert (0 < tlen s) as Hps by (unfold tlen; destruct (has TCP_FIN s); lia).
  assert (next_seg N hi (In s t (recv_data i) (recv_flags i))) as Hi' by (split_and!; done).
  destruct q as [|n q].
  { exists []. eexists. split; [done|]. split_and!; done || (simpl; lia). }
  destruct Hhead as (b & Hn & Hb & Hlt & Hnf & Hqb).
  assert (b <= hi) by (destruct Hqb as (b' & ? & Hb' & ? & ? & _); pose proof (tlen_bounds _ _ Hb'); lia).
  cbn [seqno inseg tcplen recv_data recv_flags]. unfold seqno. cbn [inseg].
  replace t with (seg_len s) by (rewrite Et'; unfold tlen; rewrite Hnf; lia).
  rewrite (end_gt N s b n Hs' Hn) by lia. case_bool_decide as Hgt.
  - replace (has TCP_SYN s) with false by (by destruct Hs' as (_ & _ & _ & _ & _ & -> & _)).
    destruct (cut_at N b s (seg_seqno n)) as (s' & -> & Hs2 & El2 & Hf2); try done; [by destruct Hn|lia|].
    cbn [mbind option_bind]. eexists _, _. split; [done|].
    assert (tlen s' = b - N) as Et2 by (unfold tlen; rewrite Hf2; lia).
    split; [|split; [|done]].
    + split_and!; simpl; try done; try lia. by apply (tlen_wrap N).
    + simpl. rewrite Et2. by replace (N + (b - N)) with b by lia.
  - eexists _, _. split; [done|].
    assert (tlen s = seg_len s) as Et2 by (unfold tlen; rewrite Hnf; lia).
    split; [|split; [|done]].
    + split_and!; simpl; try done; lia.
    + cbn [inseg]. rewrite Et2. eapply oos_mono; [| |exact Hqb]; lia.
Qed.
Lemma in_order_spec N hi c i : N <= E -> hi - N <= 2 ^ 30 -> next_seg N hi i -> expects N hi c ->
  oos (N + 1) hi (ooseq c) ->
  exists M c' i', in_order c i = Some (c', i') /\ N < M /\ handed N M i' /\ expects M hi c' /\
    oos (M + 1) hi (ooseq c') /\ (length (ooseq c') <= length (ooseq c))%nat /\ same_conf c c' /\
    (state c' = state c \/ state c' = CLOSE_WAIT /\ M = E + 1).
Proof using.
  intros HNE Hsz Hi Hc Hq. pose proof Hi as (Hs & Et & Hp & Hh & Hr & Hf). pose proof Hc as (En & Ew & Hhi).
  unfold in_order.
  assert (fit_window c i = Some i) as ->.
  { unfold fit_window. rewrite (tlen_wrap N) by done. simpl. rewrite decide_False by lia.
    destruct i; simpl in *. by subst. }
  cbn [mbind option_bind].
  destruct (adjust_ooseq_spec N hi c i Hi Hq Hsz) as (q & i1 & -> & Hi1 & Hq1 & Hl1). cbn [mbind option_bind].
  clear Hi Hs Et Hp Hh Hr Hf i. destruct Hi1 as (Hs & Et & Hp & Hh & Hr & Hf).
  assert (seqno i1 = u32 N) as Es by (by destruct Hs).
  destruct (advance_expects N hi (tlen (inseg i1)) (set_ooseq q c)) as (Hc1 & Hconf1 & Hst1); try done; [lia..|].
  assert ((tcp_update_rcv_ann_wnd (set_nxt_wnd (u32 (seqno i1 + tcplen i1))
    (u32 (rcv_wnd (set_ooseq q c) - tcplen i1)) (set_ooseq q c))).2 = advance (tlen (inseg i1)) (set_ooseq q c)) as ->.
  { unfold advance. rewrite Es, Et. simpl. by rewrite En. }
  assert (ooseq (advance (tlen (inseg i1)) (set_ooseq q c)) = q) as Eo by apply update_ann_fields.
  set (c1 := advance _ _) in *.
  assert (handed N N (In (inseg i1) (tcplen i1) [] 0)) as Hh0.
  { unfold handed. simpl. rewrite decide_False by lia. split_and!; try done; try lia.
    replace (Z.min N E - N) with 0 by lia. done. }
  destruct (handed_app N N (inseg i1) [] _ _ Hh0) as (r & Er & Hhd); try done; [lia|].
  rewrite Hr, Hf, Eo.
  assert ((if decide (tot (p (inseg i1)) > 0) then p (inseg i1) else []) = r) as ->.
  { case_decide; congruence. }
  destruct (dequeue_spec N hi q HNE Hsz (N + tlen (inseg i1)) c1 _ (Hhd (inseg i1) (tcplen i1)) Hc1 Hq1)
    as (M & c2 & i2 & -> & HM & Hh2 & Hc2 & Ho2 & Hl2 & Hconf2 & Hst2).
  cbn [mbind option_bind].
  set (c3 := if sack_permitted c2 then set_sack _ c2 else c2).
  exists M, (tcp_ack_now c3), i2.
  assert (rcv_nxt c3 = rcv_nxt c2 /\ rcv_wnd c3 = rcv_wnd c2 /\ ooseq c3 = ooseq c2 /\ state c3 = state c2 /\
    rcv_wnd_max c3 = rcv_wnd_max c2 /\ sack_permitted c3 = sack_permitted c2) as (E1 & E2 & E3 & E4 & E5 & E6)
    by (unfold c3; destruct (sack_permitted c2) eqn:Esp; simpl; split_and!; congruence).
  unfold expects, same_conf. simpl. rewrite E1, E2, E3, E4, E5, E6.
  destruct Hconf1 as [F1 F2], Hconf2 as [F3 F4]. simpl in *. split_and!; try done; try apply Hc2; try lia; try congruence.
Qed.
(** ** A segment arrives *)

(** The buffers of a received packet are shorter than 32 KiB. *)
Definition small (c : list pbuf) : Prop := Forall (fun q => len q < 2 ^ 15) c.

Lemma trim_loop_spec nt off c :
  chain_ok c -> small c -> 0 < off <= Z.of_nat (length (data c)) -> Z.of_nat (length (data c)) < 2 ^ 16 ->
  nt = Z.of_nat (length (data c)) - off ->
  exists c', trim_loop nt off c = Some c' /\ chain_ok c' /\ data c' = drop (Z.to_nat off) (data c) /\ c' <> [].
Proof using.
  intros Hok Hsm Ho Hmax Hnt. revert off Ho Hnt Hok Hsm Hmax.
  induction c as [|q c IH]; intros off Ho Hnt Hok Hsm Hmax; [simpl in Ho; lia|].
  apply list.Forall_cons in Hsm as [Hq Hsm]. destruct Hok as [Ht Hok].
  rewrite data_cons, length_app in *. unfold len in *. cbn [trim_loop]. case_decide as Hd; unfold len in Hd.
  - destruct (IH (off - len q)) as (c' & E1 & Hc & Hdc & _); unfold len; try done; try lia.
    unfold len in *. rewrite E1. simpl. eexists. split; [done|]. split_and!; [| |done].
    + split; [|done]. simpl. rewrite Hdc, length_drop. lia.
    + rewrite data_cons. simpl. rewrite drop_app_ge, Hdc by lia. f_equal. lia.
  - unfold pbuf_header. rewrite s16_small by lia. rewrite decide_False, decide_True by lia.
    unfold len. rewrite decide_True by lia. simpl. eexists. split; [done|].
    rewrite Z.opp_involutive. split_and!; [| |done].
    + split; [|done]. simpl. rewrite length_drop, Ht. rewrite wrap_small by lia. lia.
    + rewrite !data_cons. simpl. by rewrite drop_app_le by lia.
Qed.

(** A segment of the stream that keeps to the receive window arrives at a
    connection that expects [N]; the window does not reach over the end of
    the sequence number space. *)
Definition arrives (N a : Z) (c : tcp_pcb) (i : tcp_in_data) : Prop :=
  seg_at a (inseg i) /\ small (p (inseg i)) /\ tcplen i = tlen (inseg i) /\ 0 < tlen (inseg i) /\
  recv_data i = [] /\ recv_flags i = 0 /\
  N - 2 ^ 30 <= a /\ a + tlen (inseg i) <= N + rcv_wnd c /\ u32 N + rcv_wnd c < 2 ^ 32 /\
  (sack_permitted c = true -> (length (ooseq c) < LWIP_TCP_SACK_BLOCK_LEN)%nat).

Lemma trim_spec N a c i : arrives N a c i -> rcv_nxt c = u32 N -> 0 <= rcv_wnd c <= 2 ^ 30 ->
  exists c' i', trim_to_rcv_nxt c i = Some (c', i') /\ (c' = c \/ c' = tcp_ack_now c) /\
    ((a < N < a + tlen (inseg i) /\ next_seg N (N + rcv_wnd c) (In (inseg i') (tlen (inseg i')) (recv_data i') (recv_flags i'))
        /\ tcplen i' = tcplen i) \/
     (i' = i /\ ~ (a < N < a + tlen (inseg i)))).
Proof using.
  intros (Hs & Hsm & Et & Hp & Hr & Hf & Hlo & Hhi & Hnw & _) En Hw. unfold trim_to_rcv_nxt.
  assert (seqno i = u32 a) as Es by (by destruct Hs). pose proof (tlen_bounds a _ Hs) as [? ?].
  assert (TCP_SEQ_BETWEEN (rcv_nxt c) (seqno i + 1) (seqno i + tcplen i - 1)
    = bool_decide (a + 1 <= N <= a + tlen (inseg i) - 1)) as ->.
  { rewrite En, Es, Et. unfold TCP_SEQ_BETWEEN, TCP_SEQ_GEQ, TCP_SEQ_LEQ.
    rewrite <- (wrap_sub_l 32 (u32 a + tlen (inseg i)) 1), !wrap_add_l, !wrap_wrap, wrap_sub_l by lia.
    apply (seq_between N (a + 1) (a + tlen (inseg i) - 1)); lia. }
  case_bool_decide as Hb.
  - assert (s32 (rcv_nxt c - seqno i) = N - a) as -> by (rewrite En, Es; apply s32_diff; lia).
    pose proof Hs as (_ & Hl & Hne & Hok & Hd & Hsyn & He & Hfin).
    assert (Z.of_nat (length (data (p (inseg i)))) = seg_len (inseg i)) as Hdl by (rewrite Hd, length_slice; lia).
    destruct (p (inseg i)) as [|q0 q] eqn:Ep; [done|]. unfold trim_front.
    destruct (trim_loop_spec (u16 (tot_len q0 - (N - a))) (N - a) (q0 :: q)) as (c' & -> & Hc' & Hd' & Hn');
      try done; try lia.
    { rewrite (chain_ok_tot q0 q Hok), Hdl. apply wrap_small. lia. }
    cbn [mbind option_bind]. eexists _, _. split; [done|]. split; [by left|]. left. split; [lia|]. split; [|done].
    assert (u16 (seg_len (inseg i) - u16 (rcv_nxt c - seqno i)) = seg_len (inseg i) - (N - a)) as El.
    { rewrite En, Es, u16_diff by lia. apply wrap_small. lia. }
    rewrite El, En. split_and!; try done; simpl; try lia.
    + split_and!; simpl; try done; try lia.
      * rewrite Hd', Hd, drop_slice by lia. f_equal; lia.
      * intros Hfx. specialize (Hfin Hfx). lia.
    + unfold tlen in *. unfold has in *. simpl in *. lia.
    + unfold tlen in *. unfold has in *. simpl in *. lia.
  - destruct (TCP_SEQ_LT (seqno i) (rcv_nxt c)); eexists _, _; (split; [done|]); (split; [tauto|]);
      right; (split; [done|lia]).
Qed.
(** The receive side of a connection that expects position [N]. *)
Definition inv (N : Z) (c : tcp_pcb) : Prop :=
  rcv_nxt c = u32 N /\ 0 <= rcv_wnd c <= rcv_wnd_max c /\ rcv_wnd_max c <= 2 ^ 30 /\ N <= E + 1 /\
  oos (N + 1) (N + rcv_wnd c) (ooseq c) /\ (N = E + 1 -> before_close_wait (state c) = false).

(** One arrival: the connection moves on from [N] to [M], with the same right
    edge of the window, and hands up what is in between. *)
Definition received (N M : Z) (c c' : tcp_pcb) (i' : tcp_in_data) : Prop :=
  N <= M <= E + 1 /\ rcv_nxt c' = u32 M /\ M + rcv_wnd c' = N + rcv_wnd c /\ 0 <= rcv_wnd c' /\
  oos (M + 1) (M + rcv_wnd c') (ooseq c') /\ same_conf c c' /\
  data (recv_data i') = slice S N (Z.min M E - N) /\
  recv_flags i' = (if decide (N <= E /\ M = E + 1) then TF_GOT_FIN else 0) /\
  (state c' = state c \/ state c' = CLOSE_WAIT /\ M = E + 1).

(** Nothing new. *)
Lemma received_same N c c' i : inv N c -> recv_data i = [] -> recv_flags i = 0 ->
  rcv_nxt c' = rcv_nxt c -> rcv_wnd c' = rcv_wnd c -> oos (N + 1) (N + rcv_wnd c) (ooseq c') ->
  same_conf c c' -> state c' = state c -> received N N c c' i.
Proof using.
  intros (En & Hw & Hm & HNE & Hq & Hcl) Hr Hf E1 E2 E3 E4 E5. unfold received.
  rewrite E1, E2, Hr, Hf. rewrite decide_False by lia.
  split_and!; try done; try lia; [|by left].
  unfold slice. replace (Z.to_nat (Z.min N E - N)) with 0%nat by lia. done.
Qed.

Lemma ack_now_fields c : rcv_nxt (tcp_ack_now c) = rcv_nxt c /\ rcv_wnd (tcp_ack_now c) = rcv_wnd c /\
  ooseq (tcp_ack_now c) = ooseq c /\ state (tcp_ack_now c) = state c /\ same_conf c (tcp_ack_now c).
Proof using. done. Qed.

Lemma empty_ack_fields ok c : rcv_nxt (tcp_send_empty_ack ok c) = rcv_nxt c /\
  rcv_wnd (tcp_send_empty_ack ok c) = rcv_wnd c /\ ooseq (tcp_send_empty_ack ok c) = ooseq c /\
  state (tcp_send_empty_ack ok c) = state c /\ same_conf c (tcp_send_empty_ack ok c).
Proof using. by destruct ok. Qed.

Lemma in_order_received N c c1 i : inv N c -> N <= E -> (c1 = c \/ c1 = tcp_ack_now c) ->
  next_seg N (N + rcv_wnd c) (In (inseg i) (tlen (inseg i)) (recv_data i) (recv_flags i)) ->
  exists M c' i', in_order c1 i = Some (c', i') /\ N < M /\ received N M c c' i'.
Proof using.
  intros (En & Hw & Hm & _ & Hq & _) HNE Hc1 Hn.
  assert (rcv_nxt c1 = rcv_nxt c /\ rcv_wnd c1 = rcv_wnd c /\ ooseq c1 = ooseq c /\ state c1 = state c /\
    same_conf c c1) as (E1 & E2 & E3 & E4 & E5) by (destruct Hc1 as [->| ->]; done).
  (* [tcplen] is computed again first *)
  assert (in_order c1 i = in_order c1 (In (inseg i) (tlen (inseg i)) (recv_data i) (recv_flags i))) as -> by done.
  edestruct (in_order_spec N (N + rcv_wnd c) c1) as (M & c' & i' & E0 & HM & Hh & Hx & Ho & _ & Hsc & Hst);
    [done|lia|exact Hn|..].
  { unfold expects. rewrite E1, E2. split_and!; done || lia. }
  { by rewrite E3. }
  exists M, c', i'. split_and!; try done. destruct Hh as (? & ? & ? & Hf). destruct Hx as (X1 & X2 & X3).
  unfold received. rewrite Hf, <- E4. replace (M + rcv_wnd c') with (N + rcv_wnd c) by lia.
  split_and!; try done; try lia.
  - destruct Hsc, E5. split; congruence.
  - destruct (decide (M = E + 1)); [rewrite decide_True by lia|rewrite decide_False by lia]; done.
Qed.

Lemma receive_data_spec alloc ack N a c i : inv N c -> arrives N a c i ->
  exists M c' i', receive_data alloc ack c i = Some (c', i') /\ received N M c c' i' /\
    (before_close_wait (state c) = true -> a <= N < a + tlen (inseg i) -> N < M).
Proof using.
  intros Hinv Ha. pose proof Hinv as (En & Hw & Hm & HNE & Hq & Hcl).
  pose proof Ha as (Hs & Hsm & Et & Hp & Hr & Hf & Hlo & Hhi & Hnw & Hsk). unfold receive_data.
  rewrite bool_decide_true by lia. cbn [andb].
  destruct (before_close_wait (state c)) eqn:Hst.
  2: { exists N, c, i. split_and!; try done. by apply received_same. }
  assert (N <= E) as HNE' by (destruct (decide (N = E + 1)); [naive_solver|lia]).
  pose proof (tlen_bounds a _ Hs) as [? ?].
  destruct (trim_spec N a c i Ha En ltac:(lia)) as (c1 & i1 & -> & Hc1 & Hcase). cbn [mbind option_bind].
  assert (rcv_nxt c1 = u32 N /\ rcv_wnd c1 = rcv_wnd c /\ ooseq c1 = ooseq c /\ state c1 = state c /\
    same_conf c c1) as (E1 & E2 & E3 & E4 & E5) by (destruct Hc1 as [->| ->]; done).
  assert (forall b, seqno i1 = u32 b -> N - 2 ^ 30 <= b <= N + rcv_wnd c ->
    TCP_SEQ_BETWEEN (seqno i1) (rcv_nxt c1) (rcv_nxt c1 + rcv_wnd c1 - 1) =
    bool_decide (N <= b <= N + rcv_wnd c - 1)) as Hbt.
  { intros b -> ?. rewrite E1, E2. unfold TCP_SEQ_BETWEEN, TCP_SEQ_GEQ, TCP_SEQ_LEQ.
    rewrite <- (wrap_sub_l 32 (u32 N + rcv_wnd c) 1), !wrap_add_l, !wrap_wrap, wrap_sub_l by lia.
    apply (seq_between b N (N + rcv_wnd c - 1)); lia. }
  destruct Hcase as [(Hcut & Hn & Et1)|[-> Hnc]].
  - (* the front was cut off *)
    pose proof Hn as (Hs1 & _ & Hp1 & Hh1 & _). simpl in *.
    rewrite (Hbt N) by (try lia; by destruct Hs1). rewrite bool_decide_true by lia.
    rewrite decide_True by (rewrite E1; by destruct Hs1).
    destruct (in_order_received N c c1 i1 Hinv HNE' Hc1 Hn) as (M & c' & i' & ? & ? & ?).
    exists M, c', i'. split_and!; done || lia.
  - assert (seqno i = u32 a) as Es by (by destruct Hs). rewrite (Hbt a) by (done || lia).
    case_bool_decide as Hin.
    2: { (* received before *)
      exists N. eexists _, _. split; [done|]. split; [|lia].
      destruct (empty_ack_fields ack c1) as (F1 & F2 & F3 & F4 & F5).
      apply received_same; try done; try congruence.
      destruct E5, F5. split; congruence. }
    case_decide as Heq.
    + assert (a = N) as -> by (apply u32_eq_window; [congruence|lia]).
      destruct (in_order_received N c c1 i Hinv HNE' Hc1) as (M & c' & i' & ? & ? & ?).
      { split_and!; try done; lia. }
      exists M, c', i'. split_and!; done || lia.
    + assert (a <> N) by congruence. unfold out_of_order.
      destruct (oos_queue_spec alloc N a c1 i) as (q & -> & Hq' & Hlen).
      { unfold early. rewrite E1, E2. split_and!; try done; lia. }
      { by rewrite E2, E3. }
      cbn [mbind option_bind].
      assert (exists bs, (if sack_permitted c1 then rebuild_sack q [] else Some []) = Some bs) as (bs & ->).
      { destruct (sack_permitted c1) eqn:Esp; [|by eexists]. apply rebuild_sack_total. simpl.
        destruct E5 as [_ E5]. rewrite Esp in E5. rewrite E3 in Hlen. specialize (Hsk ltac:(congruence)). lia. }
      exists N. eexists _, _. split; [done|]. split; [|lia].
      destruct (empty_ack_fields ack (set_sack bs (set_ooseq q c1))) as (F1 & F2 & F3 & F4 & F5).
      apply received_same; try done; try (simpl in *; congruence).
      destruct E5, F5. simpl in *. split; congruence.
Qed.
(** ** Runs

    The state of a run: the position [N] the connection expects, the
    connection, and the bytes handed to the application so far. *)
Definition conn : Type := Z * tcp_pcb * list Z.

Inductive rstep : conn -> conn -> Prop :=
  | rstep_arrive N c D alloc ack a i c' i' :
      arrives N a c i -> process_established alloc ack c i = Some (c', i') ->
      rstep (N, c, D) (N + u32 (rcv_nxt c' - rcv_nxt c), c', D ++ data (recv_data i'))
  | rstep_recved N c D n :
      0 <= n -> rcv_wnd c + n <= rcv_wnd_max c ->
      rstep (N, c, D) (N, tcp_recved n c, D).

Lemma received_inv N M c c' i : inv N c -> received N M c c' i ->
  inv M (if ctrue (Z.land (recv_flags i) TF_GOT_FIN) then set_state CLOSE_WAIT (tcp_ack_now c') else c').
Proof using.
  intros (En & Hw & Hm & HNE & Hq & Hcl) (HM & R1 & R2 & R3 & R4 & [R5 _] & _ & Hf & Hst). rewrite Hf.
  case_decide as Hd; simpl; unfold inv; simpl; split_and!; try done; try lia.
  intros ->. destruct Hst as [->|[-> _]]; [|done]. apply Hcl. lia.
Qed.

Lemma recved_inv N c n : inv N c -> 0 <= n -> rcv_wnd c + n <= rcv_wnd_max c -> inv N (tcp_recved n c).
Proof using.
  intros (En & Hw & Hm & HNE & Hq & Hcl) Hn Hmax. unfold tcp_recved. rewrite wrap_small by lia.
  rewrite decide_False by lia.
  set (w := if decide (rcv_wnd c + n = 0) then _ else _).
  assert (rcv_wnd c <= w <= rcv_wnd_max c) by (unfold w; repeat case_match; lia). clearbody w.
  destruct (update_ann_fields (set_nxt_wnd (rcv_nxt c) w c)) as (E1 & E2 & E3 & E4 & E5 & _).
  destruct (tcp_update_rcv_ann_wnd _) as [infl c']. simpl in *.
  assert (inv N c') as Hinv.
  { unfold inv. rewrite E1, E2, E3, E4, E5. split_and!; try done; try lia.
    eapply oos_mono; [| |exact Hq]; lia. }
  case_decide; [|done]. exact Hinv.
Qed.

(** The bytes handed up so far are the stream up to [N]. *)
Definition run_inv (N0 : Z) (x : conn) : Prop :=
  let '(N, c, D) := x in inv N c /\ N0 <= N /\ D = slice S N0 (Z.min N E - N0).

Lemma rstep_inv N0 x y : N0 <= E -> run_inv N0 x -> rstep x y -> run_inv N0 y.
Proof using.
  intros H0 Hx Hstep. destruct Hstep as [N c D alloc ack a i c' i' Ha Hp|N c D n Hn Hm]; destruct Hx as (Hi & HN & HD).
  - unfold process_established in Hp.
    destruct (receive_data_spec alloc ack N a c i Hi Ha) as (M & c1 & i1 & E1 & Hr & _).
    rewrite E1 in Hp. cbn [mbind option_bind] in Hp. injection Hp as <- <-.
    pose proof (received_inv N M c c1 i1 Hi Hr) as Hi'. pose proof Hi as (En & Hw & Hm & HNE & _).
    destruct Hr as (HM & R1 & R2 & R3 & _ & _ & R6 & _).
    set (c2 := if ctrue _ then _ else c1) in *.
    assert (rcv_nxt c2 = u32 M) as -> by (unfold c2; by destruct (ctrue _)).
    rewrite En, wrap_sub_l, wrap_sub_r, wrap_small by lia.
    replace (N + (M - N)) with M by lia. split_and!; [done|lia|].
    rewrite HD, R6. destruct (decide (N <= E)).
    + rewrite (slice_split N0 (Z.min M E - N0) (Z.min N E - N0)) by lia. do 2 f_equal; lia.
    + replace (Z.min M E - N) with (-1) by lia. replace (Z.min M E) with (Z.min N E) by lia.
      apply app_nil_r.
  - split_and!; try done. by apply recved_inv.
Qed.

(** C2: The receive path delivers the stream.  Let segments of one byte
    stream arrive in any order, duplicated and overlapping in any way, inside
    the receive window, with the application taking data in between: what
    has been handed up is exactly the stream up to [rcv_nxt], in order,
    without gaps or repetitions; the next such arrival is processed without
    an invalid access; and if it holds the next byte the connection moves on
    (the window must not span the wrap-around of the sequence numbers, and
    with SACK fewer than 16 segments are queued). *)
Theorem receive_delivers_stream N0 c0 N c D :
  rcv_nxt c0 = u32 N0 -> ooseq c0 = [] -> N0 <= E -> 0 <= rcv_wnd c0 <= rcv_wnd_max c0 ->
  rcv_wnd_max c0 <= 2 ^ 30 ->
  rtc rstep (N0, c0, []) (N, c, D) ->
  rcv_nxt c = u32 N /\ N0 <= N <= E + 1 /\ D = slice S N0 (Z.min N E - N0) /\
  forall alloc ack a i, arrives N a c i -> exists c' i',
    process_established alloc ack c i = Some (c', i') /\
    (before_close_wait (state c) = true -> a <= N < a + tlen (inseg i) -> rcv_nxt c' <> rcv_nxt c).
Proof using.
  intros En Hq HNE Hw Hm Hr.
  assert (run_inv N0 (N0, c0, [])) as Hinv.
  { unfold run_inv, inv. rewrite Hq. split_and!; try done; try lia.
    replace (Z.min N0 E - N0) with 0 by lia. done. }
  assert (run_inv N0 (N, c, D)) as (Hi & HN & HD).
  { remember (N0, c0, []) as x eqn:Ex. remember (N, c, D) as y eqn:Ey. clear Ex Ey.
    induction Hr; [done|]. eauto using rstep_inv. }
  pose proof Hi as (Enx & Hww & Hmm & HE & _). split_and!; try done.
  intros alloc ack a i Ha.
  destruct (receive_data_spec alloc ack N a c i Hi Ha) as (M & c1 & i1 & E1 & Hrec & Hprog).
  unfold process_established. rewrite E1. cbn [mbind option_bind]. eexists _, _. split; [done|].
  intros Hst Hcov. specialize (Hprog Hst Hcov). destruct Hrec as (HM & R1 & R2 & R3 & _).
  assert (u32 M <> u32 N) as Hne by (intros Heq; apply u32_eq_window in Heq; lia).
  rewrite Enx. by destruct (ctrue _); simpl; rewrite R1.
Qed.
(** A packet with the [n] bytes from position [a] in one buffer. *)
Definition packet (a n : Z) : tcp_in_data :=
  In (Seg [Buf [] (slice S a n) n] n (u32 a) TCP_ACK) n [] 0.

Lemma packet_seg_at a n : 0 <= n < 2 ^ 16 - 1 -> a + n <= E -> seg_at a (inseg (packet a n)).
Proof using.
  intros. split_and!; simpl; try done; try lia.
  - rewrite length_slice. lia.
  - unfold data. simpl. by rewrite app_nil_r.
Qed.

Lemma packet_arrives N a n c : 0 < n < 2 ^ 15 -> a + n <= E -> N - 2 ^ 30 <= a ->
  a + n <= N + rcv_wnd c -> u32 N + rcv_wnd c < 2 ^ 32 ->
  (length (ooseq c) < LWIP_TCP_SACK_BLOCK_LEN)%nat -> arrives N a c (packet a n).
Proof using.
  intros. split; [apply packet_seg_at; lia|].
  assert (tlen (inseg (packet a n)) = n) as -> by (unfold tlen; simpl; lia).
  split_and!; simpl; try done; try lia.
  apply list.Forall_cons. split; [|constructor]. unfold len. simpl. rewrite length_slice. lia.
Qed.

(** Packets arriving one after the other, and the bytes handed up. *)
Fixpoint arrive_all (c : tcp_pcb) (l : list tcp_in_data) : option (tcp_pcb * list Z) :=
  match l with
  | [] => Some (c, [])
  | i :: l =>
    '(c, i) ← process_established true true c i;
    '(c, d) ← arrive_all c l;
    Some (c, data (recv_data i) ++ d)
  end.
End stream.

Definition fresh_pcb (nxt wnd : Z) (sack : bool) : tcp_pcb :=
  Pcb ESTABLISHED 0 (u32 nxt) wnd wnd 65535 (u32 (nxt + wnd)) 1460 [] 0 sack [].

Definition ex_stream (k : Z) : Z := k mod 256.
Definition ex_c0 : tcp_pcb := fresh_pcb 100 50 true.
Definition ex_c1 : tcp_pcb := Eval vm_compute in
  match process_established true true ex_c0 (packet ex_stream 110 5) with Some (c, _) => c | None => ex_c0 end.
Definition ex_c2 : tcp_pcb := Eval vm_compute in
  match process_established true true ex_c1 (packet ex_stream 100 10) with Some (c, _) => c | None => ex_c0 end.

Lemma receive_delivers_stream_witness :
  rtc (rstep ex_stream 1000) (100, ex_c0, []) (115, ex_c2, slice ex_stream 100 15) /\ rcv_nxt ex_c2 = u32 115.
Proof.
  assert (rtc (rstep ex_stream 1000) (100, ex_c0, []) (115, ex_c2, slice ex_stream 100 15)) as Hr.
  { assert (process_established true true ex_c0 (packet ex_stream 110 5) = Some (ex_c1, packet ex_stream 110 5)) as E1
      by (vm_compute; reflexivity).
    assert (exists i, process_established true true ex_c1 (packet ex_stream 100 10) = Some (ex_c2, i) /\
      data (recv_data i) = slice ex_stream 100 15) as (i & E2 & Ed).
    { eexists. split; vm_compute; reflexivity. }
    apply (rtc_l _ _ (100, ex_c1, [])).
    - apply (rstep_arrive ex_stream 1000 100 ex_c0 [] true true 110 _ ex_c1 _) in E1; [exact E1|].
      apply packet_arrives; [lia|lia|lia|vm_compute; discriminate|vm_compute; reflexivity|vm_compute; lia].
    - apply rtc_once.
      apply (rstep_arrive ex_stream 1000 100 ex_c1 [] true true 100 _ ex_c2 i) in E2; [rewrite Ed in E2; exact E2|].
      apply packet_arrives; [lia|lia|lia|vm_compute; discriminate|vm_compute; reflexivity|vm_compute; lia]. }
  split; [exact Hr|].
  refine (proj1 (receive_delivers_stream ex_stream 1000 100 ex_c0 115 ex_c2 (slice ex_stream 100 15) _ _ _ _ _ Hr));
    vm_compute; try reflexivity; try (split; discriminate); discriminate.
Defined.

(** When the receive window reaches over the wrap-around of the
    sequence numbers, the check whether a segment put at the end of the queue
    overruns the window compares the two numbers as plain integers.  A
    segment inside the window then gets the length of the rest of the window:
    here 25 bytes are handed up while [rcv_nxt] moves over 50, the 25 bytes in
    between are acknowledged and never delivered. *)
Theorem window_wrap_skips_bytes (S : Z -> Z) :
  let N := 2 ^ 32 - 30 in
  exists c, arrive_all (fresh_pcb N 50 false) [packet S (N + 10) 5; packet S (N + 20) 5; packet S N 20]
      = Some (c, slice S N 25) /\ rcv_nxt c = u32 (N + 50) /\ ooseq c = [].
Proof. eexists. split; [by vm_compute|]. by vm_compute. Qed.

(** The SACK blocks are built in a fixed array of 16: with 17 separate
    segments in the queue the next block is written behind it.  And of
    adjacent segments only the last one is reported. *)
Theorem sack_rebuild_errors (S : Z -> Z) :
  arrive_all (fresh_pcb 0 1000 true) ((fun k => packet S (10 * (Z.of_nat k + 1)) 5) <$> seq 0 17) = None /\
  exists c D, arrive_all (fresh_pcb 0 1000 true) [packet S 10 5; packet S 15 5] = Some (c, D) /\
    rcv_sack_block c = [(15, 20)].
Proof. split; [by vm_compute|]. eexists _, _. split; by vm_compute. Qed.

End Recv.
