(* ===== verification/Cc.v ===== *)
(** * Congestion control

    src/src/vma/lwip/cc.c and cc.h: an algorithm is a table of functions on the
    connection ([struct cc_algo], a type class here); cc_lwip.c, cc_none.c and
    cc_cubic.c with cc_cubic.h are its instances.  The algorithms write [cwnd],
    [ssthresh] and their own data and read some more of the connection, which
    is passed as a [ctx].  [None] is a division by zero, a signed overflow or a
    read through a dangling pointer.

    [cc_laws] is what the TCP engine relies on: an invariant of the algorithm
    under which every call returns, kept by every call and by whoever else
    changes [cwnd] (DCTCP does). *)

From S2P Require Import Prelude TcpBase.

Local Open Scope Z_scope.

Module Cc.

Definition CC_ACK : Z := 0x0001.
Definition CC_DUPACK : Z := 0x0002.
Definition CC_RTO : Z := 0x00000002.
Definition CC_NDUPACK : Z := 0x00000008.

(** What the algorithms read of the connection; [last_unacked] is the sequence
    number behind the pointer, [Some None] when the pointer dangles. *)
Record ctx := Ctx {
  mss : Z;
  snd_wnd : Z;
  infr : bool;                       (* TF_INFR *)
  lastack : Z;
  last_unacked : option (option Z);
  sa : Z;
  t_rttupdated : Z;
  nrtx : Z;
  ticks : Z
}.

Record vars (D : Type) := Vars { cwnd : Z; ssthresh : Z; cc_data : D }.
#[global] Arguments Vars {D}.
#[global] Arguments cwnd {D}.
#[global] Arguments ssthresh {D}.
#[global] Arguments cc_data {D}.

Definition set_cwnd {D} (w : Z) (v : vars D) : vars D := Vars w (ssthresh v) (cc_data v).
Definition set_ssthresh {D} (s : Z) (v : vars D) : vars D := Vars (cwnd v) s (cc_data v).

(** [struct cc_algo] (the hook [after_idle] is never called); an unset pointer
    is the identity, which is what the wrappers [cc_*] make of it. *)
Class cc_algo := {
  data : Type;
  cc_conn_init : ctx -> vars data -> option (vars data);
  cc_ack_received : ctx -> Z -> vars data -> option (vars data);
  cc_cong_signal : ctx -> Z -> vars data -> option (vars data);
  cc_post_recovery : ctx -> vars data -> option (vars data)
}.

Definition ctx_ok (c : ctx) : Prop := 0 < mss c < 2 ^ 16 /\ 0 <= snd_wnd c < 2 ^ 32.
Definition word {D} (v : vars D) : Prop := 0 <= cwnd v < 2 ^ 32 /\ 0 <= ssthresh v < 2 ^ 32.

Class cc_laws (A : cc_algo) := {
  cc_ok : vars data -> Prop;
  cc_ok_word v : cc_ok v -> word v;
  set_cwnd_ok v w : cc_ok v -> 0 <= w < 2 ^ 32 -> cc_ok (set_cwnd w v);
  conn_init_ok c v : ctx_ok c -> cc_ok v -> exists v', cc_conn_init c v = Some v' /\ cc_ok v';
  ack_received_ok c t v : ctx_ok c -> cc_ok v -> exists v', cc_ack_received c t v = Some v' /\ cc_ok v';
  cong_signal_ok c t v : ctx_ok c -> cc_ok v -> exists v', cc_cong_signal c t v = Some v' /\ cc_ok v';
  post_recovery_ok c v : ctx_ok c -> cc_ok v -> exists v', cc_post_recovery c v = Some v' /\ cc_ok v'
}.

(** ** cc_lwip.c *)

(** [if ((u32_t)(cwnd + mss) > cwnd) cwnd += mss] *)
Definition inflate (c : ctx) {D} (v : vars D) : vars D :=
  if decide (u32 (cwnd v + mss c) > cwnd v) then set_cwnd (u32 (cwnd v + mss c)) v else v.

Definition lwip_ack_received (c : ctx) (type : Z) (v : vars unit) : option (vars unit) :=
  if decide (type = CC_DUPACK) then Some (inflate c v)
  else if decide (type = CC_ACK) then
    if decide (cwnd v < ssthresh v) then Some (inflate c v)
    else if decide (cwnd v = 0) then None
    else
      let new_cwnd := u32 (cwnd v + u32 (mss c * mss c) / cwnd v) in
      Some (if decide (new_cwnd > cwnd v) then set_cwnd new_cwnd v else v)
  else Some v.

(** Half of the smaller of the two windows, but two segments at least. *)
Definition half_window (c : ctx) {D} (v : vars D) : vars D :=
  let s := if decide (cwnd v > snd_wnd c) then snd_wnd c / 2 else cwnd v / 2 in
  set_ssthresh (if decide (s < 2 * mss c) then 2 * mss c else s) v.

Definition lwip_cong_signal (c : ctx) (type : Z) (v : vars unit) : option (vars unit) :=
  let v := half_window c v in
  Some (if decide (type = CC_NDUPACK) then set_cwnd (u32 (ssthresh v + 3 * mss c)) v
        else if decide (type = CC_RTO) then set_cwnd (mss c) v
        else v).

Definition lwip_post_recovery (c : ctx) (v : vars unit) : option (vars unit) :=
  Some (set_cwnd (ssthresh v) v).

Definition lwip_conn_init (c : ctx) (v : vars unit) : option (vars unit) :=
  Some (set_cwnd (if decide (cwnd v = 1) then mss c * 10 else mss c) v).

Definition lwip_cc_algo : cc_algo := {|
  data := unit;
  cc_conn_init := lwip_conn_init;
  cc_ack_received := lwip_ack_received;
  cc_cong_signal := lwip_cong_signal;
  cc_post_recovery := lwip_post_recovery
|}.

(** ** cc_none.c *)

Definition none_cc_conn_init (c : ctx) (v : vars unit) : option (vars unit) :=
  Some (set_cwnd (2 ^ 32 - 1) v).

Definition none_cc_algo : cc_algo := {|
  data := unit;
  cc_conn_init := none_cc_conn_init;
  cc_ack_received _ _ v := Some v;
  cc_cong_signal _ _ v := Some v;
  cc_post_recovery _ v := Some v
|}.

(** ** cc_cubic.h *)

Definition hz : Z := 100.
Definition CUBIC_SHIFT : Z := 8.
Definition CUBIC_SHIFT_4 : Z := 32.
Definition CUBIC_BETA : Z := 204.
Definition ONE_SUB_CUBIC_BETA : Z := 51.
Definition THREE_X_PT2 : Z := 153.
Definition TWO_SUB_PT2 : Z := 461.
Definition CUBIC_C_FACTOR : Z := 102.
Definition CUBIC_FC_FACTOR : Z := 230.
Definition CUBIC_MIN_RTT_SAMPLES : Z := 8.

(** A signed 64-bit result. *)
Definition i64 (x : Z) : option Z := if decide (- 2 ^ 63 <= x < 2 ^ 63) then Some x else None.

(** [while (s >= 256) { s >>= 3; p++; }] *)
Fixpoint rebase (fuel : nat) (s p : Z) : option (Z * Z) :=
  if decide (s >= 256) then
    match fuel with
    | O => None
    | S fuel => rebase fuel (Z.shiftr s 3) (p + 1)
    end
  else Some (s, p).

(** The approximation of the cube root of [s], [0 <= s < 256]. *)
Definition root (s : Z) : Z :=
  (Z.shiftr (s * 275) CUBIC_SHIFT + 98) - Z.shiftr (Z.shiftr (s * s * 120) CUBIC_SHIFT) CUBIC_SHIFT.

Definition cubic_k (wmax_pkts : Z) : option Z :=
  let s := u64 (Z.shiftl (u64 (wmax_pkts * ONE_SUB_CUBIC_BETA)) CUBIC_SHIFT) / CUBIC_C_FACTOR in
  '(s, p) ← rebase 64 s 0;
  Some (Z.shiftl (root s) p).

Definition cubic_cwnd (ticks_since_cong wmax smss K : Z) : option Z :=
  kh ← i64 (K * hz);
  d ← i64 (s64 (Z.shiftl ticks_since_cong CUBIC_SHIFT) - kh);
  let cwnd := Z.quot d hz in
  sq ← i64 (cwnd * cwnd);
  cwnd ← i64 (cwnd * sq);
  x ← i64 (cwnd * CUBIC_C_FACTOR);
  x ← i64 (x * smss);
  Some (u64 (Z.shiftr x CUBIC_SHIFT_4 + wmax)).

Definition tf_cwnd (ticks_since_cong rtt_ticks wmax smss : Z) : option Z :=
  if decide (rtt_ticks = 0) then None
  else
    let t := u64 (Z.shiftl (u64 (THREE_X_PT2 * ticks_since_cong * smss)) CUBIC_SHIFT) in
    Some (Z.shiftr (u64 (wmax * CUBIC_BETA + t / TWO_SUB_PT2 / rtt_ticks)) CUBIC_SHIFT).

(** ** cc_cubic.c *)

Record cubic := Cubic {
  K : Z;
  sum_rtt_ticks : Z;
  max_cwnd : Z;
  prev_max_cwnd : Z;
  num_cong_events : Z;
  min_rtt_ticks : Z;
  mean_rtt_ticks : Z;
  epoch_ack_count : Z;
  t_last_cong : Z
}.

Definition set_data {D} (d : D) (v : vars D) : vars D := Vars (cwnd v) (ssthresh v) d.

Definition cubic_cb_init (now : Z) : cubic := Cubic 0 0 0 0 0 0 1 0 now.

Definition cubic_record_rtt (c : ctx) (d : cubic) : cubic :=
  if decide (t_rttupdated c >= CUBIC_MIN_RTT_SAMPLES) then
    let t := u64 (Z.shiftr (sa c) 3) in
    let '(mn, me) :=
      if decide (t < min_rtt_ticks d \/ min_rtt_ticks d = 0) then
        let mn := if decide (t > 1) then t else 1 in
        (mn, if decide (mn > mean_rtt_ticks d) then mn else mean_rtt_ticks d)
      else (min_rtt_ticks d, mean_rtt_ticks d) in
    Cubic (K d) (u64 (sum_rtt_ticks d + t)) (max_cwnd d) (prev_max_cwnd d) (num_cong_events d)
      mn me (u32 (epoch_ack_count d + 1)) (t_last_cong d)
  else d.

Definition cubic_ssthresh_update (v : vars cubic) : vars cubic :=
  set_ssthresh (if decide (num_cong_events (cc_data v) = 0) then Z.shiftr (cwnd v) 1
                else Z.shiftr (u32 (cwnd v * CUBIC_BETA)) CUBIC_SHIFT) v.

Definition set_max (m : Z) (d : cubic) : cubic :=
  Cubic (K d) (sum_rtt_ticks d) m (prev_max_cwnd d) (num_cong_events d) (min_rtt_ticks d)
    (mean_rtt_ticks d) (epoch_ack_count d) (t_last_cong d).

Definition cubic_ack_received (c : ctx) (type : Z) (v : vars cubic) : option (vars cubic) :=
  let d := cubic_record_rtt c (cc_data v) in
  let v := set_data d v in
  if bool_decide (type = CC_ACK) && negb (infr c) && bool_decide (cwnd v < snd_wnd c) then
    if decide (cwnd v <= ssthresh v) then Some (set_cwnd (u32 (cwnd v + mss c)) v)
    else if decide (min_rtt_ticks d > 0) then
      let t := u64 (ticks c - t_last_cong d) in
      w_tf ← tf_cwnd t (mean_rtt_ticks d) (max_cwnd d) (mss c);
      w_cubic_next ← cubic_cwnd (u64 (t + mean_rtt_ticks d)) (max_cwnd d) (mss c) (K d);
      v ← (if decide (w_cubic_next < w_tf) then Some (set_cwnd (u32 w_tf) v)
           else if decide (cwnd v < w_cubic_next) then
             if decide (cwnd v = 0) then None
             else Some (set_cwnd (u32 (cwnd v + u64 ((w_cubic_next - cwnd v) * mss c) / cwnd v)) v)
           else Some v);
      Some (if bool_decide (num_cong_events d = 0) && bool_decide (max_cwnd d < cwnd v)
            then set_data (set_max (cwnd v) d) v else v)
    else Some v
  else Some v.

Definition cubic_cong_signal (c : ctx) (type : Z) (v : vars cubic) : option (vars cubic) :=
  let d := cc_data v in
  Some (if decide (type = CC_NDUPACK) then
          if infr c then v
          else
            let v := cubic_ssthresh_update v in
            set_data (Cubic (K d) (sum_rtt_ticks d) (cwnd v) (max_cwnd d) (u32 (num_cong_events d + 1))
                        (min_rtt_ticks d) (mean_rtt_ticks d) (epoch_ack_count d) (t_last_cong d)) v
        else if decide (type = CC_RTO) then
          let v := set_cwnd (mss c) (half_window c v) in
          let n := if decide (nrtx c >= 1) then u32 (num_cong_events d + 1) else num_cong_events d in
          set_data (Cubic (K d) (sum_rtt_ticks d) (max_cwnd d) (prev_max_cwnd d) n
                      (min_rtt_ticks d) (mean_rtt_ticks d) (epoch_ack_count d) (ticks c)) v
        else v).

Definition cubic_conn_init (c : ctx) (v : vars cubic) : option (vars cubic) :=
  let w := if decide (cwnd v = 1) then mss c * 10 else mss c in
  Some (Vars w (mss c * 3) (set_max w (cc_data v))).

(** The new [cwnd] when fast recovery ends. *)
Definition recovered_cwnd (c : ctx) (v : vars cubic) (m : Z) : option Z :=
  let beta := Z.shiftr (u64 (CUBIC_BETA * m)) CUBIC_SHIFT in
  let by_beta := if decide (beta > 1) then u32 beta else mss c in
  match last_unacked c with
  | None => Some by_beta
  | Some None => None
  | Some (Some s) =>
    Some (if TCP_SEQ_GT (lastack c + ssthresh v) s then u32 (s - lastack c + mss c) else by_beta)
  end.

Definition cubic_post_recovery (c : ctx) (v : vars cubic) : option (vars cubic) :=
  let d := cc_data v in
  let m := if decide (max_cwnd d < prev_max_cwnd d)
           then Z.shiftr (u64 (max_cwnd d * CUBIC_FC_FACTOR)) CUBIC_SHIFT else max_cwnd d in
  w ← (if infr c then recovered_cwnd c v m else Some (cwnd v));
  let mean := if bool_decide (epoch_ack_count d > 0) && bool_decide (sum_rtt_ticks d >= epoch_ack_count d)
              then sum_rtt_ticks d / epoch_ack_count d else mean_rtt_ticks d in
  if decide (mss c = 0) then None
  else
    k ← cubic_k (m / mss c);
    Some (Vars w (ssthresh v) (Cubic k 0 m (prev_max_cwnd d) (num_cong_events d) (min_rtt_ticks d) mean 0 (ticks c))).

Definition cubic_cc_algo : cc_algo := {|
  data := cubic;
  cc_conn_init := cubic_conn_init;
  cc_ack_received := cubic_ack_received;
  cc_cong_signal := cubic_cong_signal;
  cc_post_recovery := cubic_post_recovery
|}.

(** ** The interface's laws *)

Lemma inflate_word {D} c (v : vars D) : ctx_ok c -> word v ->
  word (inflate c v) /\ ssthresh (inflate c v) = ssthresh v.
Proof.
  intros [Hm _] [Hw Hs]. unfold inflate. case_decide; [|repeat split; lia].
  pose proof (wrap_range 32 ltac:(lia) (cwnd v + mss c)). repeat split; simpl; lia.
Qed.

Lemma half_window_spec {D} c (v : vars D) : ctx_ok c -> word v ->
  cwnd (half_window c v) = cwnd v /\ 2 * mss c <= ssthresh (half_window c v) < 2 ^ 32 /\
  ssthresh (half_window c v) <= Z.max (2 * mss c) (Z.min (cwnd v) (snd_wnd c) / 2).
Proof.
  intros [Hm Hn] [Hw Hs]. unfold half_window, set_ssthresh. cbn [cwnd ssthresh]. split; [done|].
  destruct (decide (cwnd v > snd_wnd c)).
  - rewrite Z.min_r by lia. case_decide; Z.div_mod_to_equations; lia.
  - rewrite Z.min_l by lia. case_decide; Z.div_mod_to_equations; lia.
Qed.

(** cc_lwip.c: the threshold is never 0, so that the division by [cwnd] in
    congestion avoidance is by a positive number. *)
Definition lwip_ok (v : vars unit) : Prop := word v /\ 0 < ssthresh v.

#[export] Instance lwip_laws : cc_laws lwip_cc_algo.
Proof.
  refine {| cc_ok := lwip_ok : vars (@data lwip_cc_algo) -> Prop |}; simpl.
  - intros v [H _]. done.
  - intros v w [[_ Hs] Hp] Hw. repeat split; simpl; lia.
  - intros c v [Hm _] [[Hw Hs] Hp]. eexists. split; [done|].
    repeat split; simpl; try lia; case_decide; lia.
  - intros c t v Hc [Hv Hp]. unfold lwip_ack_received.
    destruct (inflate_word c v Hc Hv) as [Hi Hi']. destruct Hv as [Hw Hs].
    repeat case_decide; try lia; eexists; (split; [done|]); unfold lwip_ok; simpl; try (split; [done|lia]);
      repeat case_decide; repeat split; simpl; try lia; apply wrap_range; lia.
  - intros c t v Hc [Hv Hp]. unfold lwip_cong_signal.
    destruct (half_window_spec c v Hc Hv) as (E & Hs & _). destruct Hc as [Hm _]. destruct Hv as [Hw _].
    eexists. split; [done|]. generalize dependent (half_window c v). intros h E Hs.
    pose proof (wrap_range 32 ltac:(lia) (ssthresh h + 3 * mss c)).
    repeat case_decide; repeat split; simpl; lia.
  - intros c v _ [[Hw Hs] Hp]. eexists. split; [done|]. repeat split; simpl; lia.
Defined.

#[export] Instance none_laws : cc_laws none_cc_algo.
Proof.
  refine {| cc_ok := word : vars (@data none_cc_algo) -> Prop |}; simpl; eauto.
  - intros v w [_ Hs] Hw. by split.
  - intros c v _ [Hw Hs]. eexists. split; [done|]. split; simpl; lia.
Defined.

(** ** The calls of a connection's life *)

(** [EvReduce] is DCTCP, which sets the window itself. *)
Inductive event :=
  | EvInit (c : ctx) | EvAck (c : ctx) (t : Z) | EvSignal (c : ctx) (t : Z) | EvRecovery (c : ctx) | EvReduce (w : Z).

Definition event_ok (e : event) : Prop :=
  match e with
  | EvInit c | EvAck c _ | EvSignal c _ | EvRecovery c => ctx_ok c
  | EvReduce w => 0 <= w < 2 ^ 32
  end.

Definition call (A : cc_algo) (e : event) (v : vars data) : option (vars data) :=
  match e with
  | EvInit c => cc_conn_init c v
  | EvAck c t => cc_ack_received c t v
  | EvSignal c t => cc_cong_signal c t v
  | EvRecovery c => cc_post_recovery c v
  | EvReduce w => Some (set_cwnd w v)
  end.

Fixpoint calls (A : cc_algo) (l : list event) (v : vars data) : option (vars data) :=
  match l with [] => Some v | e :: l => v ← call A e v; calls A l v end.

Lemma calls_ok (A : cc_algo) (LA : cc_laws A) l v : Forall event_ok l -> cc_ok v ->
  exists v', calls A l v = Some v' /\ cc_ok v'.
Proof.
  intros H. revert v. induction H as [|e l He _ IH]; intros v Hv; simpl; [eauto|].
  assert (exists v1, call A e v = Some v1 /\ cc_ok v1) as (v1 & -> & Hv1).
  { destruct e; simpl in *; eauto using conn_init_ok, ack_received_ok, cong_signal_ok, post_recovery_ok, set_cwnd_ok. }
  simpl. by apply IH.
Qed.

(** C37: The windows stay 32-bit words.  In any order of acknowledgements,
    duplicate acknowledgements, congestion signals, recoveries and reductions
    by DCTCP, with any segment size and send window, the default algorithm
    never divides by zero, and [cwnd] and [ssthresh] stay within 32 bits with
    a positive threshold, when they are so at the start and every segment size is
    positive. *)
Theorem lwip_windows_stay_words l (v : vars unit) : Forall event_ok l -> word v -> 0 < ssthresh v ->
  exists v' : vars unit, calls lwip_cc_algo l v = Some v' /\ word v' /\ 0 < ssthresh v'.
Proof. intros Hl Hv Hs. apply (calls_ok lwip_cc_algo lwip_laws l v Hl). by split. Qed.

Definition ex_ctx : ctx := Ctx 1460 100000 false 0 None 8 1 0 5.

Lemma lwip_windows_stay_words_witness : exists v' : vars unit,
  calls lwip_cc_algo [EvInit ex_ctx; EvAck ex_ctx CC_ACK; EvSignal ex_ctx CC_NDUPACK; EvRecovery ex_ctx; EvReduce 0;
    EvAck ex_ctx CC_ACK] (Vars 1460 65535 tt) = Some v' /\ word v' /\ 0 < ssthresh v'.
Proof.
  apply lwip_windows_stay_words; [repeat constructor; simpl; lia|split; simpl; lia|simpl; lia].
Defined.

(** ** CUBIC's fixed-point arithmetic *)

Lemma rebase_spec fuel s p : 32 <= s < 2 ^ (3 * Z.of_nat fuel + 8) ->
  exists s0 q, 0 <= q /\ rebase fuel s p = Some (s0, p + q) /\ 32 <= s0 < 256 /\
    s0 * 8 ^ q <= s < (s0 + 1) * 8 ^ q.
Proof.
  revert s p. induction fuel as [|fuel IH]; intros s p Hs; simpl rebase.
  - rewrite decide_False by (simpl in Hs; lia). exists s, 0. rewrite Z.add_0_r.
    simpl in Hs. repeat split; lia.
  - case_decide as H; [|exists s, 0; rewrite Z.add_0_r; repeat split; lia].
    rewrite Z.shiftr_div_pow2 by lia. change (2 ^ 3) with 8.
    replace (3 * Z.of_nat (S fuel) + 8) with (3 + (3 * Z.of_nat fuel + 8)) in Hs by lia.
    rewrite Z.pow_add_r in Hs by lia. change (2 ^ 3) with 8 in Hs.
    destruct (IH (s / 8) (p + 1)) as (s0 & q & Hq & E & H0 & Hlo & Hhi).
    { Z.div_mod_to_equations; lia. }
    exists s0, (q + 1). split; [lia|]. rewrite E. split; [do 2 f_equal; lia|]. split; [done|].
    rewrite Z.pow_add_r by lia. change (8 ^ 1) with 8. Z.div_mod_to_equations; nia.
Qed.

Definition root_bounds (s : Z) : bool :=
  bool_decide (93 * (s + 1) * 2 ^ 16 <= 100 * root s ^ 3) && bool_decide (100 * root s ^ 3 <= 108 * s * 2 ^ 16).

Lemma root_ok s : 32 <= s < 256 ->
  93 * (s + 1) * 2 ^ 16 <= 100 * root s ^ 3 /\ 100 * root s ^ 3 <= 108 * s * 2 ^ 16.
Proof.
  intros Hs.
  assert (forallb root_bounds (seqZ 32 224) = true) as H by (vm_compute; reflexivity).
  rewrite forallb_forall in H. specialize (H s).
  assert (List.In s (seqZ 32 224)) as Hin by (apply list_elem_of_In, elem_of_seqZ; lia).
  apply H in Hin. unfold root_bounds in Hin. apply andb_true_iff in Hin as [H1 H2].
  by apply bool_decide_eq_true in H1, H2.
Qed.

(** CUBIC's [cubic_k] is the cube root it stands for.  For a window of
    [w] packets the ideal [K] (with 8 bits of fraction) satisfies
    [K ^ 3 = w * 2 ^ 23], that is [K = cbrt (w * 0.2 / 0.4)] seconds; the
    rebasing loop terminates and the cube of the result is within 8% of that,
    so the root itself within 3%. *)
Theorem cubic_k_cube_root w : 1 <= w < 2 ^ 40 ->
  exists k, cubic_k w = Some k /\ 93 * (w * 2 ^ 23) <= 100 * k ^ 3 <= 108 * (w * 2 ^ 23).
Proof.
  intros Hw. unfold cubic_k.
  assert (u64 (Z.shiftl (u64 (w * ONE_SUB_CUBIC_BETA)) CUBIC_SHIFT) / CUBIC_C_FACTOR = 128 * w) as ->.
  { unfold ONE_SUB_CUBIC_BETA, CUBIC_SHIFT, CUBIC_C_FACTOR. rewrite Z.shiftl_mul_pow2 by lia.
    rewrite !wrap_small by (rewrite ?wrap_small; lia).
    replace (w * 51 * 2 ^ 8) with (128 * w * 102) by lia. by apply Z.div_mul. }
  destruct (rebase_spec 64 (128 * w) 0) as (s & q & Hq & -> & Hs & Hlo & Hhi).
  { assert (2 ^ 47 <= 2 ^ (3 * Z.of_nat 64 + 8)) by (apply Z.pow_le_mono_r; lia). lia. }
  simpl. eexists. split; [done|]. rewrite Z.add_0_l, Z.shiftl_mul_pow2 by done.
  rewrite Z.pow_mul_l, <- Z.pow_mul_r by lia. rewrite (Z.mul_comm q 3), Z.pow_mul_r by lia.
  change (2 ^ 3) with 8. destruct (root_ok s Hs) as [R1 R2].
  assert (0 < 8 ^ q) by (apply Z.pow_pos_nonneg; lia).
  replace (w * 2 ^ 23) with (128 * w * 2 ^ 16) by lia. nia.
Qed.

Lemma cubic_k_cube_root_witness :
  match cubic_k 1000 with
  | Some k => 93 * (1000 * 2 ^ 23) <= 100 * k ^ 3 <= 108 * (1000 * 2 ^ 23)
  | None => False
  end.
Proof.
  destruct (cubic_k_cube_root 1000 ltac:(lia)) as (k & E & H). rewrite E. exact H.
Defined.

Lemma i64_in x : - 2 ^ 63 <= x < 2 ^ 63 -> i64 x = Some x.
Proof. intros H. unfold i64. by rewrite decide_True. Qed.
Lemma i64_Some x y : i64 x = Some y -> y = x.
Proof. unfold i64. case_decide; congruence. Qed.

(** With segments of 1460 bytes the fixed-point product overflows when the
    time since the last congestion event exceeds [K] by 155 seconds. *)
Theorem cubic_cwnd_overflow t wmax smss k :
  0 <= k < 2 ^ 40 -> 1460 <= smss -> 39600 * hz + k * hz <= t * 256 < 2 ^ 50 ->
  cubic_cwnd t wmax smss k = None.
Proof.
  unfold hz. intros Hk Hs Ht. unfold cubic_cwnd, hz.
  assert (s64 (Z.shiftl t CUBIC_SHIFT) = t * 256) as ->.
  { unfold s64, CUBIC_SHIFT. rewrite Z.shiftl_mul_pow2 by lia. change (2 ^ 8) with 256.
    rewrite wrap_small by lia. rewrite decide_True by lia. done. }
  assert (39600 <= Z.quot (t * 256 - k * 100) 100) as Hq by (apply Z.quot_le_lower_bound; lia).
  set (x := Z.quot (t * 256 - k * 100) 100) in *.
  rewrite i64_in by lia. cbn [mbind option_bind]. rewrite i64_in by lia. cbn [mbind option_bind]. fold x.
  destruct (i64 (x * x)) as [y|] eqn:E1; [|done]. apply i64_Some in E1 as ->. simpl.
  destruct (i64 (x * (x * x))) as [y|] eqn:E2; [|done]. apply i64_Some in E2 as ->. simpl.
  assert (39600 * 39600 * 39600 <= x * (x * x)) by nia. unfold CUBIC_C_FACTOR.
  destruct (i64 (x * (x * x) * 102)) as [y|] eqn:E3; [|done]. apply i64_Some in E3 as ->. simpl.
  unfold i64. rewrite decide_False; [done|]. nia.
Qed.

End Cc.
