(* ===== verification/TcpSend.v ===== *)
(** * Sending TCP data

    The send queues of a connection: [tcp_output] with the forced
    retransmission of TLT, [tcp_output_segment], [tcp_split_segment],
    [tcp_send_empty_ack] and the retransmission functions of
    src/src/vma/lwip/tcp_out.c, and the acknowledgement half of [tcp_receive]
    in tcp_in.c.  The configuration is that of TcpRecv (LWIP_TCP_TLT, LWIP_DCTCP,
    LWIP_TCP_SACK and LWIP_TCP_TIMESTAMPS are 1, LWIP_TSO is 0, TCP_CC_ALGO_MOD
    is 1); the congestion control is any instance of [Cc.cc_algo].

    A queue is the list of its segments.  A segment has an identity [sid],
    which is what a pointer to it is: [last_unsent] and [last_unacked] are
    identities, and an identity that is on no list is a dangling pointer.  [None]
    is an access through a dangling pointer (or one into the wrong list), an
    access through [NULL], a division by zero, or a failure inside TLT's queue.
    [mem n] tells whether the [n]-th allocation succeeds.  Payload bytes are
    not kept: a segment is a range of sequence numbers.  A buffer taken from the
    reserve [pbuf_alloc] is an allocation like any other. *)

From S2P Require Import Prelude TcpBase Tlt Dctcp TcpOpt TcpRecv Cc.

Local Open Scope Z_scope.

Module Send.

Definition TF_ACK_DELAY : Z := Recv.TF_ACK_DELAY.
Definition TF_ACK_NOW : Z := Recv.TF_ACK_NOW.
Definition TF_INFR : Z := 0x0004.
Definition TF_TIMESTAMP : Z := 0x0008.
Definition TF_FIN : Z := 0x0020.
Definition TF_NODELAY : Z := 0x0040.
Definition TF_NAGLEMEMERR : Z := 0x0080.
Definition TF_SEG_OPTS_DUMMY_MSG : Z := 0x10.
Definition TCP_HLEN : Z := 20.
Definition LWIP_TCP_DUP_ACK_THRESH : Z := 1.
Definition LWIP_TCP_OPT_LEN_TS : Z := 10.

(** ** Data *)

(** A buffer of a segment's chain: its length and reference count. *)
Record buf := Buf { b_len : Z; b_ref : Z }.

(** [opts] is [seg->flags], [hrf] the flags field of the header. *)
Record tcp_seg := Seg {
  sid : nat;
  bufs : list buf;
  len : Z;
  seqno : Z;
  hrf : Z;
  opts : Z
}.

(** What [ip_output] is given. *)
Record pkt := Pkt { k_seqno : Z; k_len : Z; k_flags : Z; k_tos : Z }.

Record queues := Queues {
  unsent : list tcp_seg;
  unacked : list tcp_seg;
  last_unsent : option nat;
  last_unacked : option nat;
  snd_queuelen : Z;
  snd_buf : Z;
  snd_lbb : Z;
  max_tcp_snd_queuelen : Z;
  seg_alloc : bool;          (* a segment is kept in reserve *)
  next_id : nat;             (* allocations so far *)
  unsent_oversize : Z;       (* room behind the last buffer of [unsent] *)
  max_unsent_len : Z;
  tcp_oversize_val : Z
}.

Record sender := Sender {
  snd_nxt : Z;
  snd_wnd : Z;
  snd_wnd_max : Z;
  snd_wl1 : Z;
  snd_wl2 : Z;
  lastack : Z;
  acked : Z;
  snd_scale : Z;
  dupacks : Z;
  snd_sml_snt : Z;
  snd_sml_add : Z
}.

Record timers := Timers {
  rtime : Z;
  rttest : Z;
  rtseq : Z;
  t_rttupdated : Z;
  sa : Z;
  sv : Z;
  rto : Z;
  minrto : Z;
  nrtx : Z;
  persist_cnt : Z;
  persist_backoff : Z;
  polltmr : Z
}.

(** What arrives: the header's fields in host order and the SACK blocks. *)
Record tcp_in_data := In {
  in_flags : Z;
  in_seqno : Z;
  in_ackno : Z;
  in_wnd : Z;
  in_tcplen : Z;
  sack_block : list Recv.tcp_sack_block
}.

Definition set_unsent (x : list tcp_seg) (r : queues) : queues :=
  Queues x (unacked r) (last_unsent r) (last_unacked r) (snd_queuelen r) (snd_buf r) (snd_lbb r) (max_tcp_snd_queuelen r) (seg_alloc r) (next_id r) (unsent_oversize r) (max_unsent_len r) (tcp_oversize_val r).
Definition set_unacked (x : list tcp_seg) (r : queues) : queues :=
  Queues (unsent r) x (last_unsent r) (last_unacked r) (snd_queuelen r) (snd_buf r) (snd_lbb r) (max_tcp_snd_queuelen r) (seg_alloc r) (next_id r) (unsent_oversize r) (max_unsent_len r) (tcp_oversize_val r).
Definition set_last_unsent (x : option nat) (r : queues) : queues :=
  Queues (unsent r) (unacked r) x (last_unacked r) (snd_queuelen r) (snd_buf r) (snd_lbb r) (max_tcp_snd_queuelen r) (seg_alloc r) (next_id r) (unsent_oversize r) (max_unsent_len r) (tcp_oversize_val r).
Definition set_last_unacked (x : option nat) (r : queues) : queues :=
  Queues (unsent r) (unacked r) (last_unsent r) x (snd_queuelen r) (snd_buf r) (snd_lbb r) (max_tcp_snd_queuelen r) (seg_alloc r) (next_id r) (unsent_oversize r) (max_unsent_len r) (tcp_oversize_val r).
Definition set_snd_queuelen (x : Z) (r : queues) : queues :=
  Queues (unsent r) (unacked r) (last_unsent r) (last_unacked r) x (snd_buf r) (snd_lbb r) (max_tcp_snd_queuelen r) (seg_alloc r) (next_id r) (unsent_oversize r) (max_unsent_len r) (tcp_oversize_val r).
Definition set_snd_buf (x : Z) (r : queues) : queues :=
  Queues (unsent r) (unacked r) (last_unsent r) (last_unacked r) (snd_queuelen r) x (snd_lbb r) (max_tcp_snd_queuelen r) (seg_alloc r) (next_id r) (unsent_oversize r) (max_unsent_len r) (tcp_oversize_val r).
Definition set_snd_lbb (x : Z) (r : queues) : queues :=
  Queues (unsent r) (unacked r) (last_unsent r) (last_unacked r) (snd_queuelen r) (snd_buf r) x (max_tcp_snd_queuelen r) (seg_alloc r) (next_id r) (unsent_oversize r) (max_unsent_len r) (tcp_oversize_val r).
Definition set_seg_alloc (x : bool) (r : queues) : queues :=
  Queues (unsent r) (unacked r) (last_unsent r) (last_unacked r) (snd_queuelen r) (snd_buf r) (snd_lbb r) (max_tcp_snd_queuelen r) x (next_id r) (unsent_oversize r) (max_unsent_len r) (tcp_oversize_val r).
Definition set_next_id (x : nat) (r : queues) : queues :=
  Queues (unsent r) (unacked r) (last_unsent r) (last_unacked r) (snd_queuelen r) (snd_buf r) (snd_lbb r) (max_tcp_snd_queuelen r) (seg_alloc r) x (unsent_oversize r) (max_unsent_len r) (tcp_oversize_val r).
Definition set_unsent_oversize (x : Z) (r : queues) : queues :=
  Queues (unsent r) (unacked r) (last_unsent r) (last_unacked r) (snd_queuelen r) (snd_buf r) (snd_lbb r) (max_tcp_snd_queuelen r) (seg_alloc r) (next_id r) x (max_unsent_len r) (tcp_oversize_val r).

Definition set_snd_nxt (x : Z) (r : sender) : sender :=
  Sender x (snd_wnd r) (snd_wnd_max r) (snd_wl1 r) (snd_wl2 r) (lastack r) (acked r) (snd_scale r) (dupacks r) (snd_sml_snt r) (snd_sml_add r).
Definition set_lastack (x : Z) (r : sender) : sender :=
  Sender (snd_nxt r) (snd_wnd r) (snd_wnd_max r) (snd_wl1 r) (snd_wl2 r) x (acked r) (snd_scale r) (dupacks r) (snd_sml_snt r) (snd_sml_add r).
Definition set_acked (x : Z) (r : sender) : sender :=
  Sender (snd_nxt r) (snd_wnd r) (snd_wnd_max r) (snd_wl1 r) (snd_wl2 r) (lastack r) x (snd_scale r) (dupacks r) (snd_sml_snt r) (snd_sml_add r).
Definition set_dupacks (x : Z) (r : sender) : sender :=
  Sender (snd_nxt r) (snd_wnd r) (snd_wnd_max r) (snd_wl1 r) (snd_wl2 r) (lastack r) (acked r) (snd_scale r) x (snd_sml_snt r) (snd_sml_add r).
Definition set_snd_sml_snt (x : Z) (r : sender) : sender :=
  Sender (snd_nxt r) (snd_wnd r) (snd_wnd_max r) (snd_wl1 r) (snd_wl2 r) (lastack r) (acked r) (snd_scale r) (dupacks r) x (snd_sml_add r).

Definition set_rtime (x : Z) (r : timers) : timers :=
  Timers x (rttest r) (rtseq r) (t_rttupdated r) (sa r) (sv r) (rto r) (minrto r) (nrtx r) (persist_cnt r) (persist_backoff r) (polltmr r).
Definition set_nrtx (x : Z) (r : timers) : timers :=
  Timers (rtime r) (rttest r) (rtseq r) (t_rttupdated r) (sa r) (sv r) (rto r) (minrto r) x (persist_cnt r) (persist_backoff r) (polltmr r).
Definition set_rttest (x : Z) (r : timers) : timers :=
  Timers (rtime r) x (rtseq r) (t_rttupdated r) (sa r) (sv r) (rto r) (minrto r) (nrtx r) (persist_cnt r) (persist_backoff r) (polltmr r).
Definition set_rto (x : Z) (r : timers) : timers :=
  Timers (rtime r) (rttest r) (rtseq r) (t_rttupdated r) (sa r) (sv r) x (minrto r) (nrtx r) (persist_cnt r) (persist_backoff r) (polltmr r).
Definition set_persist_backoff (x : Z) (r : timers) : timers :=
  Timers (rtime r) (rttest r) (rtseq r) (t_rttupdated r) (sa r) (sv r) (rto r) (minrto r) (nrtx r) (persist_cnt r) x (polltmr r).
Definition set_polltmr (x : Z) (r : timers) : timers :=
  Timers (rtime r) (rttest r) (rtseq r) (t_rttupdated r) (sa r) (sv r) (rto r) (minrto r) (nrtx r) (persist_cnt r) (persist_backoff r) x.

(** ** Segments *)

Definition set_bufs (b : list buf) (l : Z) (s : tcp_seg) : tcp_seg :=
  Seg (sid s) b l (seqno s) (hrf s) (opts s).
Definition set_hrf (h : Z) (s : tcp_seg) : tcp_seg :=
  Seg (sid s) (bufs s) (len s) (seqno s) h (opts s).

Definition has (f : Z) (s : tcp_seg) : bool := ctrue (Z.land (TCPH_FLAGS (hrf s)) f).

Definition TCP_TCPLEN (s : tcp_seg) : Z := len s + (if has (Z.lor TCP_FIN TCP_SYN) s then 1 else 0).

Definition LWIP_IS_DUMMY_SEGMENT (s : tcp_seg) : bool := ctrue (Z.land (opts s) TF_SEG_OPTS_DUMMY_MSG).

Definition pbuf_clen (s : tcp_seg) : Z := u8 (Z.of_nat (length (bufs s))).
Definition tot_len (b : list buf) : Z := foldr (fun x t => b_len x + t) 0 b.

(** The walk with [cur_seg]: in front of the first segment that does not come
    before [seg]. *)
Fixpoint insert_sorted (seg : tcp_seg) (l : list tcp_seg) : list tcp_seg :=
  match l with
  | x :: l' => if TCP_SEQ_LT (seqno x) (seqno seg) then x :: insert_sorted seg l' else seg :: l
  | [] => [seg]
  end.

(** [useg->next = seg] for the segment [id] of the list: what followed it is no
    longer reachable. *)
Fixpoint link_after (id : nat) (seg : tcp_seg) (l : list tcp_seg) : option (list tcp_seg) :=
  match l with
  | [] => None
  | x :: l' => if decide (sid x = id) then Some [x; seg] else r ← link_after id seg l'; Some (x :: r)
  end.

Definition deref (id : nat) (l : list tcp_seg) : option tcp_seg :=
  list_find (fun s => sid s = id) l ≫= fun x => Some x.2.

Fixpoint last_id (l : list tcp_seg) : option nat :=
  match l with [] => None | [s] => Some (sid s) | _ :: l => last_id l end.

(** The segment goes to the list of unacknowledged segments. *)
Definition queue_unacked (seg : tcp_seg) (q : queues) : option queues :=
  match unacked q with
  | [] => Some (set_last_unacked (Some (sid seg)) (set_unacked [seg] q))
  | l =>
    id ← last_unacked q;
    useg ← deref id l;
    if TCP_SEQ_LT (seqno seg) (seqno useg) then Some (set_unacked (insert_sorted seg l) q)
    else l ← link_after id seg l; Some (set_last_unacked (Some (sid seg)) (set_unacked l q))
  end.

(** ** Selective acknowledgements *)

(** The inner loop: [le] moves over the blocks that cover the front. *)
Fixpoint sacked (bs : list Recv.tcp_sack_block) (le re : Z) : bool :=
  match bs with
  | [] => false
  | b :: bs =>
    if TCP_SEQ_LEQ b.1 le && TCP_SEQ_LEQ re b.2 then true
    else sacked bs (if TCP_SEQ_LEQ b.1 le then b.2 else le) re
  end.

Fixpoint sack_loop (bs : list Recv.tcp_sack_block) (l : list tcp_seg) (ql : Z) : list tcp_seg * Z :=
  match l with
  | [] => ([], ql)
  | s :: l =>
    if sacked bs (seqno s) (u32 (seqno s + len s)) then sack_loop bs l (u32 (ql - pbuf_clen s))
    else let '(l, ql) := sack_loop bs l ql in (s :: l, ql)
  end.

Definition remove_sacked (permitted : bool) (bs : list Recv.tcp_sack_block) (q : queues) : queues :=
  if permitted && negb (bool_decide (bs = [])) then
    let '(l, ql) := sack_loop bs (unacked q) (snd_queuelen q) in
    set_snd_queuelen ql (set_unacked l q)
  else q.

(** ** Acknowledged segments *)

(** The head of [unacked] up to [ackno]; [ak] is [pcb->acked]. *)
Fixpoint drop_acked (ackno : Z) (l : list tcp_seg) (ak ql : Z) : list tcp_seg * Z * Z :=
  match l with
  | s :: l' =>
    if TCP_SEQ_LEQ (seqno s + TCP_TCPLEN s) ackno then
      drop_acked ackno l' (if ctrue ak && has TCP_FIN s then ak - 1 else ak) (u32 (ql - pbuf_clen s))
    else (l, ak, ql)
  | [] => ([], ak, ql)
  end.

(** The head of [unsent]: segments queued again after they had been sent. *)
Fixpoint drop_unsent (ackno nxt : Z) (l : list tcp_seg) (ak ql : Z) : list tcp_seg * Z * Z :=
  match l with
  | s :: l' =>
    if TCP_SEQ_BETWEEN ackno (seqno s + TCP_TCPLEN s) nxt then
      drop_unsent ackno nxt l' (if ctrue ak && has TCP_FIN s then ak - 1 else ak) (u32 (ql - pbuf_clen s))
    else (l, ak, ql)
  | [] => ([], ak, ql)
  end.

Section send.
Context {A : Cc.cc_algo}.

(** ** The connection *)

Record tcp_pcb := Pcb {
  rx : Recv.tcp_pcb;              (* state, flags, mss and the receiver variables *)
  cc : Cc.vars Cc.data;           (* cwnd, ssthresh, cc_data *)
  tlt : Tlt.tlt_param;
  iss : Z;
  tos : Z;
  dctcp : Dctcp.dctcp_param;
  sn : sender;
  tm : timers;
  qs : queues
}.

Definition set_rx (x : Recv.tcp_pcb) (p : tcp_pcb) : tcp_pcb :=
  Pcb x (cc p) (tlt p) (iss p) (tos p) (dctcp p) (sn p) (tm p) (qs p).
Definition set_cc (x : Cc.vars Cc.data) (p : tcp_pcb) : tcp_pcb :=
  Pcb (rx p) x (tlt p) (iss p) (tos p) (dctcp p) (sn p) (tm p) (qs p).
Definition set_tlt (x : Tlt.tlt_param) (p : tcp_pcb) : tcp_pcb :=
  Pcb (rx p) (cc p) x (iss p) (tos p) (dctcp p) (sn p) (tm p) (qs p).
Definition set_dctcp (x : Dctcp.dctcp_param) (p : tcp_pcb) : tcp_pcb :=
  Pcb (rx p) (cc p) (tlt p) (iss p) (tos p) x (sn p) (tm p) (qs p).
Definition set_sn (x : sender) (p : tcp_pcb) : tcp_pcb :=
  Pcb (rx p) (cc p) (tlt p) (iss p) (tos p) (dctcp p) x (tm p) (qs p).
Definition set_tm (x : timers) (p : tcp_pcb) : tcp_pcb :=
  Pcb (rx p) (cc p) (tlt p) (iss p) (tos p) (dctcp p) (sn p) x (qs p).
Definition set_qs (x : queues) (p : tcp_pcb) : tcp_pcb :=
  Pcb (rx p) (cc p) (tlt p) (iss p) (tos p) (dctcp p) (sn p) (tm p) x.

Definition flag (f : Z) (p : tcp_pcb) : bool := ctrue (Z.land (Recv.flags (rx p)) f).
Definition or_flags (f : Z) (p : tcp_pcb) : tcp_pcb :=
  set_rx (Recv.set_flags (Z.lor (Recv.flags (rx p)) f) (rx p)) p.
Definition clear_flags (f : Z) (p : tcp_pcb) : tcp_pcb :=
  set_rx (Recv.set_flags (Z.land (Recv.flags (rx p)) (Z.lnot f)) (rx p)) p.

(** The views the components have of the connection. *)
Definition tlt_pcb (p : tcp_pcb) : Tlt.tcp_pcb := Tlt.Pcb (tlt p) (iss p) (tos p).
Definition dctcp_pcb (p : tcp_pcb) : Dctcp.tcp_pcb :=
  Dctcp.Pcb (dctcp p) (lastack (sn p)) (snd_nxt (sn p)) (Cc.cwnd (cc p)).
Definition cc_ctx (now : Z) (p : tcp_pcb) : Cc.ctx :=
  Cc.Ctx (Recv.mss (rx p)) (snd_wnd (sn p)) (flag TF_INFR p) (lastack (sn p))
    ((fun id => seqno <$> deref id (unacked (qs p) ++ unsent (qs p))) <$> last_unacked (qs p))
    (sa (tm p)) (t_rttupdated (tm p)) (nrtx (tm p)) now.

Definition LWIP_TCP_OPT_LENGTH (p : tcp_pcb) (fl : Z) : Z :=
  let cnt := Z.of_nat (length (Recv.rcv_sack_block (rx p))) in
  if negb (ctrue (Z.land fl Opt.TF_SEG_OPTS_SACK_PERM)) && Recv.sack_permitted (rx p)
     && ctrue cnt && bool_decide (Opt.LWIP_TCP_OPT_LENGTH_LEGACY fl <= 28)
  then Z.min 40 (Opt.LWIP_TCP_OPT_LENGTH_LEGACY fl + Z.shiftl cnt 3 + 4)
  else Opt.LWIP_TCP_OPT_LENGTH_LEGACY fl.

(** The options of a data segment: the flags and the length. *)
Definition data_optflags (p : tcp_pcb) : Z := if flag TF_TIMESTAMP p then Opt.TF_SEG_OPTS_TS else 0.
Definition data_optlen (p : tcp_pcb) : Z := LWIP_TCP_OPT_LENGTH p (data_optflags p).

(** ** Allocation *)

Definition alloc (mem : nat -> bool) (p : tcp_pcb) : bool * tcp_pcb :=
  (mem (next_id (qs p)), set_qs (set_next_id (S (next_id (qs p))) (qs p)) p).

(** [tcp_create_segment]: the reserved segment is used if there is one.  The
    buffers [b] get room for the header; [flags] is 0 in the calls here. *)
Definition tcp_create_segment (mem : nat -> bool) (b : list buf) (sq : Z) (optflags : Z) (p : tcp_pcb)
  : option tcp_seg * tcp_pcb :=
  let id := next_id (qs p) in
  let '(ok, p) := alloc mem p in
  let ok := seg_alloc (qs p) || ok in
  let p := set_qs (set_seg_alloc false (qs p)) p in
  let optlen := u8 (LWIP_TCP_OPT_LENGTH p optflags) in
  let hdr := match b with x :: b => Buf (u16 (b_len x + TCP_HLEN)) (b_ref x) :: b | [] => [] end in
  (if ok then
     Some (Seg id hdr (u16 (tot_len b - optlen)) sq (TCPH_HDRLEN_FLAGS_SET (5 + optlen / 4) 0) optflags)
   else None, p).

(** ** tcp_pbuf_prealloc *)

Definition MEM_ALIGNMENT : Z := 4.
Definition LWIP_MEM_ALIGN_SIZE (n : Z) : Z := Z.land (n + MEM_ALIGNMENT - 1) (Z.lnot (MEM_ALIGNMENT - 1)).

(** [mss_local]: at most half the largest window the peer announced. *)
Definition mss_local (p : tcp_pcb) : Z :=
  let m := u16 (Z.min (Recv.mss (rx p)) (snd_wnd_max (sn p) / 2)) in
  let m := if decide (m = 0) then Recv.mss (rx p) else m in
  if flag TF_TIMESTAMP p then Z.max m (LWIP_TCP_OPT_LEN_TS + 1) else m.

(** [*oversize]: the bytes allocated behind the [length] asked for. *)
Definition prealloc_oversize (length max_length : Z) (more first_seg : bool) (p : tcp_pcb) : Z :=
  let alloc :=
    if bool_decide (length < max_length)
       && (more || negb (flag TF_NODELAY p)
                   && (negb first_seg || negb (bool_decide (unsent (qs p) = []))
                       || negb (bool_decide (unacked (qs p) = []))))
    then Z.min max_length (LWIP_MEM_ALIGN_SIZE (length + tcp_oversize_val (qs p)))
    else length in
  u16 (alloc - length).

(** ** tcp_split_segment

    On the first segment of [unsent].  When [tcp_create_segment] fails it
    frees the buffers it was given.  A single buffer is the copy made here and
    the queue stays as it was; further buffers are still part of the segment,
    which stays queued with freed buffers: that is [None]. *)

(** The walk along the buffers that still fit; [None] when the function
    returns, else the length of the front, its buffers and the rest. *)
Fixpoint split_walk (hdr lentosend headchainlen : Z) (front : list buf) (tail : buf) (b : list buf)
  : option (Z * list buf * list buf) :=
  match b with
  | [] => None
  | x :: b' =>
    if decide (u32 (headchainlen + b_len x - hdr) <= lentosend) then
      if decide (b_ref tail > 1) then None
      else split_walk hdr lentosend (headchainlen + b_len x) (front ++ [tail]) x b'
    else Some (headchainlen, front ++ [tail], b)
  end.

(** The segment is replaced by its two halves; [o] is what [unsent_oversize]
    becomes when the second one is the new tail. *)
Definition set_halves (o : Z) (seg newseg : tcp_seg) (rest : list tcp_seg) (p : tcp_pcb) : tcp_pcb :=
  let q := set_unsent (seg :: newseg :: rest) (qs p) in
  set_qs (if decide (last_unsent q = Some (sid seg))
          then set_unsent_oversize o (set_last_unsent (Some (sid newseg)) q) else q) p.

(** "First buffer is too big, split it": its end is copied to a new buffer. *)
Definition split_first (mem : nat -> bool) (optlen lentosend : Z) (seg : tcp_seg) (b0 : buf) (bs : list buf)
    (rest : list tcp_seg) (p : tcp_pcb) : option tcp_pcb :=
  let lentoqueue := u32 (b_len b0 - (TCP_HLEN + optlen) - lentosend) in
  let oversize := prealloc_oversize (u16 (lentoqueue + optlen)) (mss_local p) false false p in
  let '(ok, p) := alloc mem p in
  if ok then
    let nb := Buf (u16 (lentoqueue + optlen)) 1 in
    let '(ns, p) := tcp_create_segment mem (nb :: bs) (u32 (seqno seg + lentosend)) (data_optflags p) p in
    match ns with
    | None => if decide (bs = []) then Some p else None
    | Some newseg =>
      let newseg := Seg (sid newseg) (bufs newseg) (u16 (tot_len (bufs seg) - lentosend - TCP_HLEN - optlen))
                      (seqno newseg) (TCPH_SET_FLAG (hrf newseg) TCP_PSH) (opts seg) in
      let l0 := u16 (b_len b0 - lentoqueue) in
      let seg := set_bufs [Buf l0 (b_ref b0)] (u16 (l0 - (TCP_HLEN + optlen))) seg in
      Some (set_halves oversize seg newseg rest (set_qs (set_snd_queuelen (u32 (snd_queuelen (qs p) + 1)) (qs p)) p))
    end
  else Some p.

(** "split segment pbuff chain" behind the last buffer that fits. *)
Definition split_chain (mem : nat -> bool) (optlen lentosend : Z) (seg : tcp_seg) (b0 : buf) (bs : list buf)
    (rest : list tcp_seg) (p : tcp_pcb) : option tcp_pcb :=
  match split_walk (TCP_HLEN + optlen) lentosend (b_len b0) [] b0 bs with
  | None => Some p
  | Some (headchainlen, front, pnewhead) =>
    let '(ns, p) := tcp_create_segment mem pnewhead
                      (u32 (seqno seg + headchainlen - (TCP_HLEN + optlen))) (data_optflags p) p in
    newseg ← ns;
    let newseg := Seg (sid newseg) (bufs newseg) (len newseg) (seqno newseg) (hrf newseg) (opts seg) in
    Some (set_halves (unsent_oversize (qs p)) (set_bufs front (u16 (headchainlen - (TCP_HLEN + optlen))) seg) newseg rest p)
  end.

Definition tcp_split_segment (mem : nat -> bool) (wnd : Z) (p : tcp_pcb) : option tcp_pcb :=
  match unsent (qs p) with
  | [] => Some p
  | seg :: rest =>
    match bufs seg with
    | [] => Some p
    | b0 :: bs =>
      let dist := u32 (seqno seg - lastack (sn p)) in
      if decide (dist >= wnd \/ b_ref b0 > 1) then Some p
      else
        let lentosend := wnd - dist in
        let optlen := u8 (data_optlen p) in
        if decide (b_len b0 > TCP_HLEN + optlen + lentosend)
        then split_first mem optlen lentosend seg b0 bs rest p
        else split_chain mem optlen lentosend seg b0 bs rest p
    end
  end.

(** ** Sending *)

Definition tcp_send_empty_ack (mem : nat -> bool) (p : tcp_pcb) : list pkt * tcp_pcb :=
  let optlen := if flag TF_TIMESTAMP p then LWIP_TCP_OPT_LENGTH p Opt.TF_SEG_OPTS_TS else 0 in
  let optlen := if Recv.sack_permitted (rx p) then LWIP_TCP_OPT_LENGTH p 0 else optlen in
  let '(ok, p) := alloc mem p in
  if ok then
    let p := set_rx (Recv.tcp_send_empty_ack true (rx p)) p in
    let '(h, d) := Dctcp.dctcp_send_empty (TCPH_HDRLEN_FLAGS_SET (5 + optlen / 4) TCP_ACK) (dctcp_pcb p) in
    let p := set_dctcp (Dctcp.dctcp d) p in
    let '(t, k) := Tlt.tlt_out_empty_ack (tlt_pcb p) in
    ([Pkt (snd_nxt (sn p)) 0 (TCPH_FLAGS h) k], set_tlt (Tlt.tlt t) p)
  else ([], p).

Definition tcp_output_segment (now : Z) (seg : tcp_seg) (p : tcp_pcb) : option (pkt * tcp_seg * tcp_pcb) :=
  let c := rx p in
  let dummy := LWIP_IS_DUMMY_SEGMENT seg in
  let p := if dummy then p
           else set_rx (Recv.Pcb (Recv.state c) (Recv.flags c) (Recv.rcv_nxt c) (Recv.rcv_wnd c)
                          (Recv.rcv_ann_wnd c) (Recv.rcv_wnd_max c) (u32 (Recv.rcv_nxt c + Recv.rcv_ann_wnd c))
                          (Recv.mss c) (Recv.ooseq c) (Recv.rcv_nxt c) (Recv.sack_permitted c)
                          (Recv.rcv_sack_block c)) p in
  let '(ds, d) := Dctcp.dctcp_send (Dctcp.Seg (tos p) (len seg) (hrf seg)) (dctcp_pcb p) in
  let p := set_dctcp (Dctcp.dctcp d) p in
  let seg := set_hrf (Dctcp.hrf ds) seg in
  '(t, ts) ← Tlt.tlt_out (tlt_pcb p)
               (Tlt.Seg (seqno seg) (len seg) (TCPH_FLAGS (hrf seg)) (Recv.rcv_nxt c) (Dctcp.tos ds));
  let p := set_tlt (Tlt.tlt t) p in
  let t := tm p in
  let p := if dummy then p
           else
             let t := if decide (rtime t = -1) then set_rtime 0 t else t in
             let t := if decide (rttest t = 0) then
                        Timers (rtime t) now (seqno seg) (t_rttupdated t) (sa t) (sv t) (rto t) (minrto t)
                          (nrtx t) (persist_cnt t) (persist_backoff t) (polltmr t)
                      else t in
             set_tm t p in
  Some (Pkt (seqno seg) (len seg) (TCPH_FLAGS (hrf seg)) (Tlt.seg_tos ts), seg, p).

(** [seg->seqno - pcb->lastack + seg->len] *)
Definition win_end (p : tcp_pcb) (seg : tcp_seg) : Z := u32 (seqno seg - lastack (sn p) + len seg).

Definition tcp_do_output_nagle (p : tcp_pcb) : bool :=
  let q := qs p in
  bool_decide (unacked q = [])
  || ctrue (Z.land (Recv.flags (rx p)) (Z.lor TF_NODELAY TF_INFR))
  || match unsent q with
     | [] => false
     | s :: l => negb (bool_decide (l = [])) || bool_decide (len s >= Recv.mss (rx p))
     end
  || bool_decide (snd_buf q = 0) || bool_decide (snd_queuelen q >= max_tcp_snd_queuelen q).

(** The Nagle (Minshall) test of the first unsent segment; [None] is [break]. *)
Definition nagle (force : bool) (seg : tcp_seg) (rest : list tcp_seg) (p : tcp_pcb) : option tcp_pcb :=
  if negb force && negb (tcp_do_output_nagle p) && negb (LWIP_IS_DUMMY_SEGMENT seg)
     && negb (flag (Z.lor TF_NAGLEMEMERR TF_FIN) p) then
    let l := match unacked (qs p) with s :: _ => len s | [] => 0 end in
    if decide (snd_sml_snt (sn p) > l) then None
    else
      let n := match rest with s :: _ => len s | [] => 0 end in
      Some (if decide (n + len seg <= snd_sml_add (sn p)) then set_sn (set_snd_sml_snt (snd_sml_add (sn p)) (sn p)) p else p)
  else Some p.

(** "Send ack now if the packet is a dummy packet". *)
Definition dummy_ack (mem : nat -> bool) (seg : tcp_seg) (p : tcp_pcb) : list pkt * tcp_pcb :=
  if LWIP_IS_DUMMY_SEGMENT seg && flag (Z.lor TF_ACK_DELAY TF_ACK_NOW) p then tcp_send_empty_ack mem p else ([], p).

(** The acknowledgement rides on the segment. *)
Definition piggyback (seg : tcp_seg) (p : tcp_pcb) : tcp_seg * tcp_pcb :=
  if decide (Recv.state (rx p) = Recv.SYN_SENT) then (seg, p)
  else (set_hrf (TCPH_SET_FLAG (hrf seg) TCP_ACK) seg, clear_flags (Z.lor TF_ACK_DELAY TF_ACK_NOW) p).

(** The body of the loop for a segment that is sent: [rest] follows it. *)
Definition output_one (mem : nat -> bool) (now : Z) (force : bool) (seg : tcp_seg) (rest : list tcp_seg) (p : tcp_pcb)
  : option (list pkt * tcp_pcb) :=
  let p := set_qs (set_unsent rest (qs p)) p in
  let dummy := LWIP_IS_DUMMY_SEGMENT seg in
  let '(out, p) := dummy_ack mem seg p in
  let '(seg, p) := piggyback seg p in
  '(k, seg, p) ← tcp_output_segment now seg p;
  let nxt := u32 (seqno seg + TCP_TCPLEN seg) in
  let p := if TCP_SEQ_LT (snd_nxt (sn p)) nxt && negb dummy then set_sn (set_snd_nxt nxt (sn p)) p else p in
  q ← (if negb force && bool_decide (TCP_TCPLEN seg > 0) then
         if dummy then
           let q := qs p in
           Some (set_snd_queuelen (u32 (snd_queuelen q - pbuf_clen seg))
                   (set_snd_buf (u32 (snd_buf q + len seg)) (set_snd_lbb (u32 (snd_lbb q - len seg)) q)))
         else queue_unacked seg (qs p)
       else Some (qs p));
  Some (out ++ [k], set_qs q p).

(** The loop of [tcp_output]. *)
Fixpoint output_loop (fuel : nat) (mem : nat -> bool) (now wnd : Z) (force : bool) (p : tcp_pcb)
  : option (list pkt * tcp_pcb) :=
  match unsent (qs p) with
  | [] => Some ([], p)
  | seg0 :: _ =>
    match fuel with
    | O => None
    | S fuel =>
      p ← (if negb force && bool_decide (unacked (qs p) = []) && ctrue wnd && bool_decide (win_end p seg0 > wnd)
           then tcp_split_segment mem wnd p else Some p);
      match unsent (qs p) with
      | [] => None
      | seg :: rest =>
        if bool_decide (win_end p seg <= wnd) || force then
          match nagle force seg rest p with
          | None => Some ([], p)
          | Some p =>
            '(out, p) ← output_one mem now force seg rest p;
            '(out', p) ← output_loop fuel mem now wnd force p;
            Some (out ++ out', p)
          end
        else Some ([], p)
      end
    end
  end.

(** The first unacknowledged segment that holds the position (compared as
    plain integers). *)
Definition find_target (sq : Z) (l : list tcp_seg) : option tcp_seg :=
  list_find (fun s => seqno s <= sq /\ sq <= u32 (seqno s + len s)) l ≫= fun x => Some x.2.

(** The forced retransmission of TLT: one lost range (or one byte) is copied
    into a new segment in front of [unsent].  The flag is [force_transmit]. *)
Definition force_retransmit (mem : nat -> bool) (wnd : Z) (p : tcp_pcb) : option (bool * tcp_pcb) :=
  match unacked (qs p) with
  | u :: _ =>
    if ctrue (len u) && negb (has TCP_SYN u)
       && match unsent (qs p) with [] => true | s :: _ => bool_decide (win_end p s > wnd) end
       && negb (bool_decide (Tlt.send_state (tlt p) = Tlt.Idle)) then
      lost ← Tlt.tlt_is_lost (tlt_pcb p) false;
      let target_len := if (lost : bool) then 1460 else 1 in
      match Tlt.tlt_uimpq_peek (tlt_pcb p) target_len with
      | None => Some (false, p)
      | Some (s, _) =>
        let seq_fr := u32 (s + iss p) in
        match find_target seq_fr (unacked (qs p)) with
        | None => Some (false, p)
        | Some target =>
          let target_len := Z.min target_len (s32 (seqno target + len target - seq_fr)) in
          '(r, t) ← Tlt.tlt_uimpq_pop (tlt_pcb p) target_len (u32 (Tlt.cur_round (tlt p) - 2));
          '(s, _) ← r;
          let seq_fr := u32 (s + iss p) in
          let p := set_tlt (Tlt.set_send Tlt.PendingForce (Tlt.tlt t)) p in
          let '(ok, p) := alloc mem p in
          if ok then
            let optlen := u8 (data_optlen p) in
            let '(ns, p) := tcp_create_segment mem [Buf (u16 (target_len + optlen)) 1] seq_fr (data_optflags p) p in
            match ns with
            | None => Some (false, p)
            | Some n =>
              let n := Seg (sid n) (bufs n) (len n) (seqno n) (hrf n) (opts target) in
              Some (true, set_qs (set_unsent (n :: unsent (qs p)) (qs p)) p)
            end
          else Some (false, p)
        end
      end
    else Some (false, p)
  | [] => Some (false, p)
  end.

(** [tcp_output], called outside of the input processing.  Every iteration of
    the loop takes a segment off [unsent] and a segment is split at most
    once. *)
Definition tcp_output (mem : nat -> bool) (now : Z) (p : tcp_pcb) : option (list pkt * tcp_pcb) :=
  let wnd := Z.min (snd_wnd (sn p)) (Cc.cwnd (cc p)) in
  if flag TF_ACK_NOW p && match unsent (qs p) with [] => true | s :: _ => bool_decide (win_end p s > wnd) end then
    Some (tcp_send_empty_ack mem p)
  else
    '(force, p) ← force_retransmit mem wnd p;
    '(out, p) ← output_loop (2 * S (length (unsent (qs p)))) mem now wnd force p;
    let p := if decide (unsent (qs p) = []) then set_qs (set_unsent_oversize 0 (qs p)) p else p in
    let p := clear_flags TF_NAGLEMEMERR p in
    let p := if seg_alloc (qs p) then p
             else let '(ok, p) := alloc mem p in set_qs (set_seg_alloc ok (qs p)) p in
    Some (out, p).

(** ** Retransmission *)

Definition tcp_rexmit (p : tcp_pcb) : tcp_pcb :=
  match unacked (qs p) with
  | [] => p
  | seg :: l =>
    let q := set_unacked l (qs p) in
    let q := set_unsent (insert_sorted seg (unsent q)) q in
    let q := if decide (last_id (unsent q) = Some (sid seg)) then set_unsent_oversize 0 q else q in
    set_tm (set_rttest 0 (set_nrtx (u8 (nrtx (tm p) + 1)) (tm p))) (set_qs q p)
  end.

Definition tcp_rexmit_fast (now : Z) (p : tcp_pcb) : option tcp_pcb :=
  if negb (bool_decide (unacked (qs p) = [])) && negb (flag TF_INFR p) then
    let p := tcp_rexmit p in
    v ← Cc.cc_cong_signal (cc_ctx now p) Cc.CC_NDUPACK (cc p);
    Some (or_flags TF_INFR (set_cc v p))
  else Some p.

Definition tcp_rexmit_rto (mem : nat -> bool) (now : Z) (p : tcp_pcb) : option (list pkt * tcp_pcb) :=
  match unacked (qs p) with
  | [] => Some ([], p)
  | l =>
    let q := set_unacked [] (set_unsent (l ++ unsent (qs p)) (qs p)) in
    tcp_output mem now (set_tm (set_rttest 0 (set_nrtx (u8 (nrtx (tm p) + 1)) (tm p))) (set_qs q p))
  end.

(** ** The acknowledgement half of tcp_receive *)

Definition SND_WND_SCALE (p : tcp_pcb) (wnd : Z) : Z := u32 (Z.shiftl wnd (snd_scale (sn p))).

(** "Update window": the flag is [persist]. *)
Definition update_window (i : tcp_in_data) (p : tcp_pcb) : bool * tcp_pcb :=
  let s := sn p in
  let w := SND_WND_SCALE p (in_wnd i) in
  if TCP_SEQ_LT (snd_wl1 s) (in_seqno i)
     || bool_decide (snd_wl1 s = in_seqno i) && TCP_SEQ_LT (snd_wl2 s) (in_ackno i)
     || bool_decide (snd_wl2 s = in_ackno i) && bool_decide (w > snd_wnd s) then
    let s := Sender (snd_nxt s) w (Z.max (snd_wnd_max s) w) (in_seqno i) (in_ackno i) (lastack s) (acked s)
               (snd_scale s) (dupacks s) (snd_sml_snt s) (snd_sml_add s) in
    let p := set_sn s p in
    if decide (w = 0) then (bool_decide (persist_backoff (tm p) = 0), p)
    else (false, if decide (persist_backoff (tm p) > 0) then set_tm (set_persist_backoff 0 (tm p)) p else p)
  else (false, p).

(** The retransmission timer after segments were acknowledged. *)
Definition restart_timer (persist : bool) (p : tcp_pcb) : tcp_pcb :=
  let t := tm p in
  match unacked (qs p) with
  | [] =>
    let t := if persist then Timers (rtime t) (rttest t) (rtseq t) (t_rttupdated t) (sa t) (sv t) (rto t)
                               (minrto t) (nrtx t) 0 1 (polltmr t)
             else t in
    set_tm (set_rtime (-1) t) p
  | _ => set_tm (set_rtime 0 t) p
  end.

(** The loop over [unacked]. *)
Definition free_acked (ackno : Z) (p : tcp_pcb) : tcp_pcb :=
  let '(l, ak, ql) := drop_acked ackno (unacked (qs p)) (acked (sn p)) (snd_queuelen (qs p)) in
  set_sn (set_acked ak (sn p)) (set_qs (set_snd_queuelen ql (set_unacked l (qs p))) p).

(** The loop over [unsent]. *)
Definition free_unsent (ackno : Z) (p : tcp_pcb) : tcp_pcb :=
  let '(l, ak, ql) := drop_unsent ackno (snd_nxt (sn p)) (unsent (qs p)) (acked (sn p)) (snd_queuelen (qs p)) in
  let q := set_snd_queuelen ql (set_unsent l (qs p)) in
  let q := if bool_decide (l = []) && negb (bool_decide (unsent (qs p) = [])) then set_unsent_oversize 0 q else q in
  set_sn (set_acked ak (sn p)) (set_qs q p).

(** Clauses 2 to 5: a duplicate acknowledgement is counted; at the threshold
    the first segment is retransmitted. *)
Definition duplicate_ack (now right_wnd_edge : Z) (i : tcp_in_data) (p : tcp_pcb) : option tcp_pcb :=
  let s := sn p in
  if bool_decide (in_tcplen i = 0) && bool_decide (u32 (snd_wl2 s + snd_wnd s) = right_wnd_edge)
     && bool_decide (rtime (tm p) >= 0) && bool_decide (lastack s = in_ackno i) then
    let d := if decide (u8 (dupacks s + 1) > dupacks s) then dupacks s + 1 else dupacks s in
    let p := set_sn (set_dupacks d s) p in
    if decide (d > LWIP_TCP_DUP_ACK_THRESH) then
      v ← Cc.cc_ack_received (cc_ctx now p) Cc.CC_DUPACK (cc p); Some (set_cc v p)
    else if decide (d = LWIP_TCP_DUP_ACK_THRESH) then
      p ← tcp_rexmit_fast now p;
      v ← Cc.cc_ack_received (cc_ctx now p) 0 (cc p); Some (set_cc v p)
    else Some p
  else Some (set_sn (set_dupacks 0 s) p).

Definition old_ack (now right_wnd_edge : Z) (persist : bool) (i : tcp_in_data) (p : tcp_pcb) : option tcp_pcb :=
  p ← duplicate_ack now right_wnd_edge i (set_sn (set_acked 0 (sn p)) p);
  Some (restart_timer persist (free_acked (in_ackno i) p)).

Definition established (s : Recv.tcp_state) : bool :=
  match s with Recv.CLOSED | Recv.LISTEN | Recv.SYN_SENT | Recv.SYN_RCVD => false | _ => true end.

(** "Update the congestion control variables": DCTCP's reduction, or the
    algorithm's growth. *)
Definition grow_window (now : Z) (p : tcp_pcb) : option tcp_pcb :=
  if established (Recv.state (rx p)) then
    let '(reduced, d) := Dctcp.dctcp_reduce_cwnd (dctcp_pcb p) in
    let p := set_cc (Cc.set_cwnd (Dctcp.cwnd d) (cc p)) (set_dctcp (Dctcp.dctcp d) p) in
    if (reduced : bool) then Some p
    else v ← Cc.cc_ack_received (cc_ctx now p) Cc.CC_ACK (cc p); Some (set_cc v p)
  else Some p.

Definition new_rto (t : timers) : Z := Z.max (Z.shiftr (sa t) 3 + sv t) (minrto t).

Definition new_ack (now : Z) (persist : bool) (i : tcp_in_data) (p : tcp_pcb) : option tcp_pcb :=
  p ← (if flag TF_INFR p then
         v ← Cc.cc_post_recovery (cc_ctx now p) (cc p); Some (clear_flags TF_INFR (set_cc v p))
       else Some p);
  let p := set_tm (set_rto (new_rto (tm p)) (set_nrtx 0 (tm p))) p in
  let ak := u32 (in_ackno i - lastack (sn p)) in
  let p := set_qs (set_snd_buf (u32 (snd_buf (qs p) + ak)) (qs p)) p in
  let p := set_sn (set_lastack (in_ackno i) (set_dupacks 0 (set_acked ak (sn p)))) p in
  p ← grow_window now p;
  let p := restart_timer persist (free_acked (in_ackno i) p) in
  Some (set_tm (set_polltmr 0 (tm p)) p).

(** "RTT estimation calculations". *)
Definition estimate_rtt (now : Z) (i : tcp_in_data) (p : tcp_pcb) : tcp_pcb :=
  let t := tm p in
  if ctrue (rttest t) && TCP_SEQ_LT (rtseq t) (in_ackno i) then
    let m := s16 (now - rttest t) - Z.shiftr (sa t) 3 in
    let sa := sa t + m in
    let sv := sv t + (Z.abs m - Z.shiftr (sv t) 2) in
    let t := Timers (rtime t) 0 (rtseq t) (u32 (t_rttupdated t + 1)) sa sv (rto t) (minrto t) (nrtx t)
               (persist_cnt t) (persist_backoff t) (polltmr t) in
    set_tm (set_rto (new_rto t) t) p
  else p.

Definition receive_ack (mem : nat -> bool) (now : Z) (i : tcp_in_data) (p : tcp_pcb) : option (list pkt * tcp_pcb) :=
  if ctrue (Z.land (in_flags i) TCP_ACK) then
    let right_wnd_edge := u32 (snd_wnd (sn p) + snd_wl2 (sn p)) in
    let '(persist, p) := update_window i p in
    let p := set_qs (remove_sacked (Recv.sack_permitted (rx p)) (sack_block i) (qs p)) p in
    '(out, p) ←
      (if TCP_SEQ_LEQ (in_ackno i) (lastack (sn p)) then
         p ← old_ack now right_wnd_edge persist i p; Some ([], p)
       else if TCP_SEQ_BETWEEN (in_ackno i) (lastack (sn p) + 1) (snd_nxt (sn p)) then
         p ← new_ack now persist i p; Some ([], p)
       else Some (tcp_send_empty_ack mem (set_sn (set_acked 0 (sn p)) p)));
    Some (out, estimate_rtt now i (free_unsent (in_ackno i) p))
  else Some ([], p).

End send.
#[global] Arguments tcp_pcb : clear implicits.

(** ** What sending leaves alone *)

Section frame.
Context {A : Cc.cc_algo}.
Implicit Types p : tcp_pcb A.

Definition rx_same (c c' : Recv.tcp_pcb) : Prop :=
  Recv.state c' = Recv.state c /\ Recv.mss c' = Recv.mss c /\
  Recv.sack_permitted c' = Recv.sack_permitted c /\ Recv.rcv_sack_block c' = Recv.rcv_sack_block c /\
  Z.land (Recv.flags c') TF_TIMESTAMP = Z.land (Recv.flags c) TF_TIMESTAMP.

(** The queues up to the allocation counter, the sender variables and the
    congestion window. *)
Definition framed p p' : Prop :=
  rx_same (rx p) (rx p') /\ cc p' = cc p /\ iss p' = iss p /\ sn p' = sn p /\
  qs p' = set_next_id (next_id (qs p')) (qs p) /\ (next_id (qs p) <= next_id (qs p'))%nat.

Lemma land_clear f g x : Z.land f g = 0 -> Z.land (Z.land x (Z.lnot f)) g = Z.land x g.
Proof.
  intros H. apply Z.bits_inj'. intros i Hi. rewrite !Z.land_spec, Z.lnot_spec by done.
  apply (f_equal (fun z => Z.testbit z i)) in H. rewrite Z.land_spec, Z.bits_0 in H.
  by destruct (Z.testbit x i), (Z.testbit f i), (Z.testbit g i).
Qed.

Lemma framed_refl p : framed p p.
Proof. unfold framed, rx_same. split_and!; try done. by destruct (qs p). Qed.

Lemma framed_trans p p' p'' : framed p p' -> framed p' p'' -> framed p p''.
Proof.
  intros ((R1 & R2 & R3 & R4 & R5) & C & I & S & Q & N) ((R1' & R2' & R3' & R4' & R5') & C' & I' & S' & Q' & N').
  unfold framed, rx_same. split_and!; try congruence; [|lia].
  rewrite Q', Q. by destruct (qs p).
Qed.

Lemma clear_flags_framed f p : Z.land f TF_TIMESTAMP = 0 -> framed p (clear_flags f p).
Proof.
  intros H. unfold framed, rx_same. simpl. rewrite land_clear by done. split_and!; try done.
  by destruct (qs p).
Qed.

Lemma alloc_framed mem p : framed p (alloc mem p).2.
Proof. unfold framed, rx_same. simpl. split_and!; try done. lia. Qed.

Lemma empty_ack_framed mem p : framed p (tcp_send_empty_ack mem p).2.
Proof.
  unfold tcp_send_empty_ack. cbn [alloc]. destruct (mem _).
  - destruct (Dctcp.dctcp_send_empty _ _). destruct (Tlt.tlt_out_empty_ack _).
    unfold framed, rx_same. simpl. rewrite land_clear by done. split_and!; try done. lia.
  - apply (alloc_framed mem).
Qed.

(** A segment's header after it was sent. *)
Lemma dctcp_send_len sg d : Dctcp.len (Dctcp.dctcp_send sg d).1 = Dctcp.len sg.
Proof. unfold Dctcp.dctcp_send. destruct (Dctcp.dctcp_send_empty _ _). by case_match. Qed.

Lemma output_segment_framed now seg p k seg' p' :
  tcp_output_segment now seg p = Some (k, seg', p') ->
  framed p p' /\ k_seqno k = seqno seg /\ k_len k = len seg /\
  seg' = set_hrf (Dctcp.hrf (Dctcp.dctcp_send (Dctcp.Seg (tos p) (len seg) (hrf seg))
                               (dctcp_pcb p)).1) seg.
Proof.
  unfold tcp_output_segment. intros H.
  set (p1 := if LWIP_IS_DUMMY_SEGMENT seg then p else _) in H.
  assert (framed p p1 /\ tos p1 = tos p /\ dctcp_pcb p1 = dctcp_pcb p) as (F1 & T1 & D1).
  { unfold p1. destruct (LWIP_IS_DUMMY_SEGMENT seg); [by split_and!; [apply framed_refl|..]|].
    unfold framed, rx_same. simpl. split_and!; try done. by destruct (qs p). }
  rewrite T1, D1 in H. clearbody p1.
  destruct (Dctcp.dctcp_send _ _) as [ds d] eqn:Ed. simpl in H |- *.
  destruct (Tlt.tlt_out _ _) as [[t ts]|]; simpl in H; [|done]. simplify_eq.
  split_and!; try done. eapply framed_trans; [exact F1|].
  destruct (LWIP_IS_DUMMY_SEGMENT seg); unfold framed, rx_same; simpl; split_and!; try done; by destruct (qs p1).
Qed.

Lemma dummy_ack_framed mem seg p out p' : dummy_ack mem seg p = (out, p') -> framed p p'.
Proof.
  unfold dummy_ack. intros H. case_match; [|simplify_eq; apply framed_refl].
  change p' with (out, p').2. rewrite <- H. apply empty_ack_framed.
Qed.

Lemma piggyback_framed seg p seg' p' : piggyback seg p = (seg', p') ->
  framed p p' /\ (seg' = seg \/ seg' = set_hrf (TCPH_SET_FLAG (hrf seg) TCP_ACK) seg).
Proof.
  unfold piggyback. intros H. case_decide; simplify_eq; (split; [|by auto]);
    [apply framed_refl|by apply clear_flags_framed].
Qed.

Lemma nagle_framed force seg rest p p' : nagle force seg rest p = Some p' ->
  rx_same (rx p) (rx p') /\ cc p' = cc p /\ iss p' = iss p /\ qs p' = qs p /\ tlt p' = tlt p /\
  snd_nxt (sn p') = snd_nxt (sn p) /\ lastack (sn p') = lastack (sn p) /\ snd_wnd (sn p') = snd_wnd (sn p).
Proof.
  unfold nagle, rx_same. intros H. repeat case_match; simplify_eq; done.
Qed.
End frame.

(** ** The forced retransmission

    [force_transmit] is not reset after the copy has been sent. *)

Section forced.
Context {A : Cc.cc_algo}.
Implicit Types p : tcp_pcb A.

Definition sent (s : tcp_seg) (out : list pkt) : Prop := exists k, k ∈ out /\ k_seqno k = seqno s /\ k_len k = len s.

Lemma forced_one mem now seg rest p out p' : output_one mem now true seg rest p = Some (out, p') ->
  unsent (qs p') = rest /\ unacked (qs p') = unacked (qs p) /\ snd_queuelen (qs p') = snd_queuelen (qs p) /\
  sent seg out.
Proof.
  unfold output_one. intros H.
  destruct (dummy_ack _ _ _) as [out1 p1] eqn:E1. apply dummy_ack_framed in E1 as F1.
  destruct (piggyback seg p1) as [s2 p2] eqn:E2. apply piggyback_framed in E2 as [F2 Hs2].
  assert (seqno s2 = seqno seg /\ len s2 = len seg) as [Hs Hl] by (destruct Hs2 as [-> | ->]; done).
  destruct (tcp_output_segment now s2 p2) as [[[k seg3] p3]|] eqn:E3; simpl in H; [|done].
  destruct (output_segment_framed _ _ _ _ _ _ E3) as (F3 & Hk & Hkl & _).
  pose proof (framed_trans _ _ _ (framed_trans _ _ _ F1 F2) F3) as (_ & _ & _ & _ & Q & _).
  simplify_eq. simpl.
  match goal with |- context [if ?b then set_sn _ p3 else p3] => destruct b end; simpl; rewrite Q; simpl;
    (split_and!; try done); exists k; (split; [apply elem_of_app; right; by left|]); split; congruence.
Qed.

Lemma forced_loop fuel mem now wnd p out p' : output_loop fuel mem now wnd true p = Some (out, p') ->
  unsent (qs p') = [] /\ unacked (qs p') = unacked (qs p) /\ snd_queuelen (qs p') = snd_queuelen (qs p) /\
  forall s, s ∈ unsent (qs p) -> sent s out.
Proof.
  revert p out p'. induction fuel as [|fuel IH]; intros p out p' H; simpl in H.
  - destruct (unsent (qs p)) eqn:Eu; simplify_eq. split_and!; try done. intros s Hs. set_solver.
  - destruct (unsent (qs p)) as [|seg rest] eqn:Eu; simplify_eq.
    { split_and!; try done. intros s Hs. set_solver. }
    simpl in H. rewrite ?Eu, orb_true_r in H. unfold nagle in H. simpl in H.
    destruct (output_one _ _ _ _ _ _) as [[o1 p1]|] eqn:E1; simpl in H; [|done].
    destruct (output_loop _ _ _ _ _ _) as [[o2 p2]|] eqn:E2; simpl in H; [|done]. simplify_eq.
    destruct (forced_one _ _ _ _ _ _ _ E1) as (U1 & A1 & Q1 & S1).
    destruct (IH _ _ _ E2) as (U2 & A2 & Q2 & S2). split_and!; try congruence.
    intros s Hs. apply elem_of_cons in Hs as [->|Hs].
    + destruct S1 as (k & Hk & ?). exists k. split; [set_solver|done].
    + rewrite <- U1 in Hs. destruct (S2 s Hs) as (k & Hk & ?). exists k. split; [set_solver|done].
Qed.

Lemma create_segment_qs mem b sq o p :
  let q := qs (tcp_create_segment mem b sq o p).2 in
  unsent q = unsent (qs p) /\ unacked q = unacked (qs p) /\ snd_queuelen q = snd_queuelen (qs p).
Proof. done. Qed.

Lemma force_qs mem wnd p p' : force_retransmit mem wnd p = Some (true, p') ->
  exists n, unsent (qs p') = n :: unsent (qs p) /\ unacked (qs p') = unacked (qs p) /\
    snd_queuelen (qs p') = snd_queuelen (qs p).
Proof.
  unfold force_retransmit. intros H.
  destruct (unacked (qs p)) as [|u l] eqn:Eu; [done|].
  destruct (_ && _ && _ && _) in H; [|done].
  destruct (Tlt.tlt_is_lost _ _) as [lost|]; simpl in H; [|done].
  destruct (Tlt.tlt_uimpq_peek _ _) as [[s ?]|]; [|done].
  destruct (find_target _ _) as [target|]; [|done].
  destruct (Tlt.tlt_uimpq_pop _ _ _) as [[[[s' ?]|] t]|]; simpl in H; try done.
  destruct (mem _); [|done].
  match type of H with context [if ?b then Some (Seg _ _ _ _ _ _) else None] => destruct b end; [|done].
  simplify_eq. simpl. eauto.
Qed.

(** C33: A forced retransmission throws the unsent data away.  Whenever TLT
    makes [tcp_output] retransmit a range, [force_transmit] stays set for the
    rest of the loop: every segment waiting in [unsent] is sent although the
    window does not admit it and is then freed instead of being put on
    [unacked].  Afterwards neither queue holds it, so that it is never
    retransmitted when the network loses it, while [snd_queuelen] still counts
    it. *)
Theorem forced_retransmission_discards_unsent mem now p p1 out p' :
  flag TF_ACK_NOW p = false ->
  force_retransmit mem (Z.min (snd_wnd (sn p)) (Cc.cwnd (cc p))) p = Some (true, p1) ->
  tcp_output mem now p = Some (out, p') ->
  unsent (qs p') = [] /\ unacked (qs p') = unacked (qs p) /\ snd_queuelen (qs p') = snd_queuelen (qs p) /\
  forall s, s ∈ unsent (qs p) -> sent s out.
Proof.
  intros Hn Hf. unfold tcp_output. rewrite Hn, Hf. cbn [andb mbind option_bind]. intros H.
  destruct (output_loop _ _ _ _ _ _) as [[o p2]|] eqn:E; simpl in H; [|done].
  destruct (forced_loop _ _ _ _ _ _ _ E) as (U & Ak & Q & S).
  destruct (force_qs _ _ _ _ Hf) as (n & U1 & A1 & Q1). rewrite U1 in S. rewrite A1 in Ak. rewrite Q1 in Q.
  assert (out = o /\ unsent (qs p') = unsent (qs p2) /\ unacked (qs p') = unacked (qs p2) /\
          snd_queuelen (qs p') = snd_queuelen (qs p2)) as (-> & E1 & E2 & E3).
  { destruct (decide (unsent (qs p2) = [])); simpl in H; destruct (seg_alloc (qs p2)); simpl in H; by simplify_eq. }
  split_and!; try congruence. intros s Hs. apply S. by right.
Qed.
End forced.

(** ** Splitting a segment while options are pending

    [tcp_split_segment] takes the room for options from the options there are
    now; the segment's buffer has the room there was when it was written. *)

Section split.
Context {A : Cc.cc_algo}.
Implicit Types p : tcp_pcb A.

Lemma data_optlen_range p : 0 <= data_optlen p <= 40.
Proof.
  unfold data_optlen, data_optflags, LWIP_TCP_OPT_LENGTH. destruct (flag _ p).
  - change (Opt.LWIP_TCP_OPT_LENGTH_LEGACY _) with 12. rewrite Z.shiftl_mul_pow2 by lia.
    destruct (_ && _ && _ && _); lia.
  - change (Opt.LWIP_TCP_OPT_LENGTH_LEGACY _) with 0. rewrite Z.shiftl_mul_pow2 by lia.
    destruct (_ && _ && _ && _); lia.
Qed.

(** C5: Bytes are lost in a split.  An unsent segment of [n] bytes in one buffer,
    written when there were no options to send, is split by [tcp_split_segment] at a
    window that ends [w] bytes into it, while there are options of [o] bytes to send
    (a SACK block to report, or timestamps): the first half has the [w] bytes that fit,
    the second half begins behind them and has only [n - w - o], the queues have no
    other new segment, so that the last [o] bytes of the segment are in no segment of
    the connection any more.  Allocations succeed, the buffer is not shared, and more
    than [o] bytes lie outside of the window. *)
Theorem split_loses_option_bytes mem wnd p seg b rest n :
  unsent (qs p) = seg :: rest -> bufs seg = [b] -> b_len b = TCP_HLEN + n -> b_ref b <= 1 ->
  0 < data_optlen p -> (forall i, mem i = true) ->
  let w := wnd - u32 (seqno seg - lastack (sn p)) in
  0 < w -> w + data_optlen p < n <= 65000 ->
  exists p' s1 s2, tcp_split_segment mem wnd p = Some p' /\
    unacked (qs p') = unacked (qs p) /\ unsent (qs p') = s1 :: s2 :: rest /\
    seqno s1 = seqno seg /\ len s1 = w /\
    seqno s2 = u32 (seqno seg + w) /\ len s2 = n - w - data_optlen p.
Proof.
  intros Eu Eb Hb Hr Ho Hm w Hw Hn. pose proof (data_optlen_range p) as Ho'.
  unfold tcp_split_segment. rewrite Eu, Eb, decide_False by (unfold w in *; lia). fold w.
  rewrite (wrap_small 8 (data_optlen p)) by lia. set (o := data_optlen p) in *.
  rewrite decide_True by lia. unfold split_first, alloc, tcp_create_segment, alloc. rewrite Hm. simpl.
  rewrite Hm, orb_true_r. eexists _, _, _. split; [reflexivity|]. unfold set_halves. simpl.
  rewrite Eb. simpl. rewrite Hb. unfold TCP_HLEN.
  rewrite (wrap_small 32 (20 + n - (20 + o) - w)) by lia.
  rewrite (wrap_small 16 (20 + n - (20 + n - (20 + o) - w))) by lia.
  destruct (decide _); simpl; split_and!; try done; unfold set_bufs; simpl; rewrite wrap_small; lia.
Qed.
End split.

(** ** Connections that go wrong *)

#[local] Existing Instance Cc.none_cc_algo.

(** A data segment of [n] bytes at [s]. *)
Definition ex_seg (id : nat) (s n : Z) : tcp_seg :=
  Seg id [Buf (TCP_HLEN + n) 1] n s (TCPH_HDRLEN_FLAGS_SET 5 TCP_ACK) 0.

(** Established, with a congestion window of [w] bytes and the given queues. *)
Definition ex_pcb (w : Z) (t : Tlt.tlt_param) (nxt : Z) (ua us : list tcp_seg) : tcp_pcb Cc.none_cc_algo :=
  Pcb (Recv.fresh_pcb 0 1000 true) (Cc.Vars w 100000 tt : Cc.vars Cc.data) t 0 0
    (Dctcp.Dctcp 1 0 0 0 0 1 0 0 1)
    (Sender nxt 100000 100000 0 0 1 0 0 0 0 0) (Timers 0 0 0 0 0 0 3 1 0 0 0 0)
    (Queues us ua (last_id us) (last_id ua)
       (Z.of_nat (length ua + length us)) 100000 1 1000 true 10 0 1000 1460).

(** One range of 1000 bytes was sent unimportant, and the important packet's
    echo has come back. *)
Definition ex_tlt : Tlt.tlt_param :=
  Tlt.TltParam Tlt.Idle Tlt.Pending
    (Tlt.Queue (Tlt.TSeg 1 1000 0 None :: replicate 255 Tlt.free_slot) 1) 1 0.

Definition ex_forced : tcp_pcb Cc.none_cc_algo :=
  ex_pcb 1000 ex_tlt 1001 [ex_seg 0 1 1000] [ex_seg 1 1001 1000; ex_seg 2 2001 1000].

Definition ex_forced_1 : tcp_pcb Cc.none_cc_algo :=
  Eval vm_compute in match force_retransmit (fun _ => true) 1000 ex_forced with Some (_, q) => q | None => ex_forced end.
Definition ex_forced_2 : list pkt * tcp_pcb Cc.none_cc_algo :=
  Eval vm_compute in match tcp_output (fun _ => true) 5 ex_forced with Some r => r | None => ([], ex_forced) end.

Lemma forced_retransmission_discards_unsent_witness :
  unsent (qs ex_forced) = [ex_seg 1 1001 1000; ex_seg 2 2001 1000] /\
  unsent (qs ex_forced_2.2) = [] /\ unacked (qs ex_forced_2.2) = [ex_seg 0 1 1000] /\
  snd_queuelen (qs ex_forced_2.2) = 3.
Proof.
  assert (flag TF_ACK_NOW ex_forced = false) as H1 by (vm_compute; reflexivity).
  assert (force_retransmit (fun _ => true) (Z.min (snd_wnd (sn ex_forced)) (Cc.cwnd (cc ex_forced))) ex_forced
          = Some (true, ex_forced_1)) as H2 by (vm_compute; reflexivity).
  assert (tcp_output (fun _ => true) 5 ex_forced = Some (ex_forced_2.1, ex_forced_2.2)) as H3
    by (vm_compute; reflexivity).
  pose proof (forced_retransmission_discards_unsent (fun _ => true) 5 ex_forced ex_forced_1
                ex_forced_2.1 ex_forced_2.2 H1 H2 H3) as (U & Ak & Q & _).
  split; [vm_compute; reflexivity|]. split; [exact U|]. split; [rewrite Ak|rewrite Q]; vm_compute; reflexivity.
Defined.

(** 1460 bytes wait, the window has room for 1000, a block is to be reported. *)
Definition ex_split_sack : tcp_pcb Cc.none_cc_algo :=
  let p := ex_pcb 1000 (Tlt.tlt (Tlt.tlt_init (Tlt.Pcb ex_tlt 0 0))) 1 [] [ex_seg 0 1 1460] in
  set_rx (Recv.set_sack [(5000, 6000)] (rx p)) p.

Lemma split_loses_option_bytes_witness :
  exists p' s1 s2, tcp_split_segment (fun _ => true) 1000 ex_split_sack = Some p' /\
    unacked (qs p') = [] /\ unsent (qs p') = [s1; s2] /\
    seqno s1 = 1 /\ len s1 = 1000 /\ seqno s2 = 1001 /\ len s2 = 448.
Proof.
  destruct (split_loses_option_bytes (fun _ => true) 1000 ex_split_sack (ex_seg 0 1 1460)
              (Buf (TCP_HLEN + 1460) 1) [] 1460) as (p' & s1 & s2 & E & U & N & H).
  1-3: reflexivity.
  1-5: vm_compute; repeat split; congruence || discriminate.
  exists p', s1, s2. split; [exact E|]. split; [exact U|]. split; [exact N|exact H].
Defined.

(** Three segments are in flight. *)
Definition ex_sack : tcp_pcb Cc.none_cc_algo :=
  ex_pcb 100000 (Tlt.tlt (Tlt.tlt_init (Tlt.Pcb ex_tlt 0 0))) 3001
    [ex_seg 0 1 1000; ex_seg 1 1001 1000; ex_seg 2 2001 1000] [ex_seg 3 3001 1000].

Definition ex_sack_in : tcp_in_data := In TCP_ACK 0 1 50000 0 [(2001, 3001)].
Definition ex_sack_1 : tcp_pcb Cc.none_cc_algo :=
  Eval vm_compute in match receive_ack (fun _ => true) 5 ex_sack_in ex_sack with Some r => r.2 | None => ex_sack end.

(** [last_unacked] is not updated when SACK blocks remove segments.  When
    the peer reports the last unacknowledged segment while an earlier one is
    missing, the pointer is left to a freed segment; the next [tcp_output]
    reads through it and links the new segment behind it, off the list. *)
Theorem sacked_tail_dangles :
  receive_ack (fun _ => true) 5 ex_sack_in ex_sack = Some ([], ex_sack_1) /\
  (sid <$> unacked (qs ex_sack_1)) = [0; 1]%nat /\ (sid <$> unsent (qs ex_sack_1)) = [3]%nat /\
  last_unacked (qs ex_sack_1) = Some 2%nat /\
  tcp_output (fun _ => true) 5 ex_sack_1 = None.
Proof. split_and!; vm_compute; reflexivity. Qed.

End Send.
