(* ===== verification/TcpSendInv.v ===== *)
(** * No byte is forgotten: the invariant of the send queues

    The operations of TcpSend on the queues of an established connection keep
    every byte that the peer has neither acknowledged nor reported in a SACK
    block on one of the two queues, under any congestion control that satisfies
    [Cc.cc_laws] and in any order of writes, transmissions, acknowledgements
    and timeouts.  Positions in the byte stream are integers: the connection
    has [lastack] at position [L] and [snd_lbb] at position [B]; a segment's
    position is the one below [B] its sequence number stands for. *)

From Stdlib Require Import Sorted.
From S2P Require Import Prelude TcpBase Tlt Dctcp TcpOpt TcpRecv Cc TcpSend.

Local Open Scope Z_scope.

Module SendInv.
Import Send.

(** ** Positions *)

Definition pos (B : Z) (s : tcp_seg) : Z := B - u32 (B - seqno s).
Definition stop (B : Z) (s : tcp_seg) : Z := pos B s + len s.

Lemma pos_eq B a s : seqno s = u32 a -> 0 <= B - a < 2 ^ 32 -> pos B s = a.
Proof. intros E H. unfold pos. rewrite E, wrap_sub_r, wrap_small; lia. Qed.

Lemma pos_seqno B s : 0 <= seqno s < 2 ^ 32 -> seqno s = u32 (pos B s).
Proof.
  intros H. unfold pos. rewrite wrap_sub_r. replace (B - (B - seqno s)) with (seqno s) by lia.
  by rewrite wrap_small.
Qed.

Lemma seq_lt_u32 a b : - 2 ^ 31 <= a - b < 2 ^ 31 -> TCP_SEQ_LT (u32 a) (u32 b) = bool_decide (a < b).
Proof. intros. rewrite <- seq_lt by done. unfold TCP_SEQ_LT. by rewrite !wrap_wrap by lia. Qed.
Lemma seq_leq_u32 a b : - 2 ^ 31 <= a - b < 2 ^ 31 -> TCP_SEQ_LEQ (u32 a) (u32 b) = bool_decide (a <= b).
Proof. intros. rewrite <- seq_leq by done. by rewrite seq_leq_l, seq_leq_r. Qed.
Lemma seq_between_u32 a b c : - 2 ^ 31 <= a - b < 2 ^ 31 -> - 2 ^ 31 <= a - c < 2 ^ 31 ->
  TCP_SEQ_BETWEEN (u32 a) (u32 b) (u32 c) = bool_decide (b <= a <= c).
Proof.
  intros. rewrite <- seq_between by done. unfold TCP_SEQ_BETWEEN, TCP_SEQ_GEQ, TCP_SEQ_LEQ.
  by rewrite !wrap_wrap by lia.
Qed.
(** A sum is compared by its value modulo [2 ^ 32]. *)
Lemma seq_leq_sum a b n : TCP_SEQ_LEQ (u32 a + n) b = TCP_SEQ_LEQ (u32 (a + n)) b.
Proof. unfold TCP_SEQ_LEQ. by rewrite wrap_wrap, wrap_add_l by lia. Qed.
Lemma seq_between_sum a b n c : TCP_SEQ_BETWEEN a (u32 b + n) c = TCP_SEQ_BETWEEN a (u32 (b + n)) c.
Proof. unfold TCP_SEQ_BETWEEN, TCP_SEQ_GEQ. by rewrite wrap_wrap, wrap_add_l by lia. Qed.

(** ** Segments *)

Definition data_hdr (h : Z) : Prop := 0 <= h < 2 ^ 16 /\ Z.land (TCPH_FLAGS h) (Z.lor TCP_FIN TCP_SYN) = 0.

(** The buffers of a segment without options: the header and [n] bytes, the
    first of them behind the header. *)
Definition bufs_ok (n : Z) (l : list buf) : Prop :=
  match l with
  | [] => False
  | b0 :: bs => TCP_HLEN < b_len b0 /\ Forall (fun b => 0 < b_len b) bs /\
                tot_len l = TCP_HLEN + n /\ (length bs < 255)%nat
  end.

Record seg_ok (s : tcp_seg) : Prop := {
  ok_len : 0 < len s < 2 ^ 16 - TCP_HLEN;
  ok_seqno : 0 <= seqno s < 2 ^ 32;
  ok_hdr : data_hdr (hrf s);
  ok_dummy : LWIP_IS_DUMMY_SEGMENT s = false;
  ok_bufs : bufs_ok (len s) (bufs s)
}.

Lemma set_flag_hdr f h : 0 <= f < 256 -> Z.land f (Z.lor TCP_FIN TCP_SYN) = 0 ->
  data_hdr h -> data_hdr (TCPH_SET_FLAG h f).
Proof.
  intros Hf E [Hr H0]. split; [by apply set_flag_range|].
  rewrite flags_set_flag by done. by rewrite Z.land_lor_distr_l, H0, E.
Qed.

Lemma hdr_syn h : data_hdr h -> Z.land (TCPH_FLAGS h) TCP_SYN = 0.
Proof.
  intros [_ H]. apply Z.bits_inj'. intros i Hi. apply (f_equal (fun z => Z.testbit z i)) in H.
  revert H. rewrite !Z.land_spec, Z.lor_spec, Z.bits_0.
  by destruct (Z.testbit _ i), (Z.testbit TCP_FIN i), (Z.testbit TCP_SYN i).
Qed.

Lemma dctcp_send_hdr t n h d : data_hdr h -> data_hdr (Dctcp.hrf (Dctcp.dctcp_send (Dctcp.Seg t n h) d).1).
Proof.
  intros Hh. rewrite (proj1 (Dctcp.send_hdr _ _)). cbn [Dctcp.hrf]. unfold Dctcp.dctcp_send_empty.
  rewrite !unset_flag_id by (try rewrite unset_flag_id; apply Hh). rewrite ctrue_eq by by apply hdr_syn.
  unfold Dctcp.mark_hdr. destruct (ctrue _); case_decide; simpl; repeat apply set_flag_hdr; done.
Qed.

Lemma tcplen_data s : seg_ok s -> TCP_TCPLEN s = len s.
Proof. intros H. unfold TCP_TCPLEN, has. rewrite ctrue_eq by apply H. lia. Qed.

Lemma data_fin s : seg_ok s -> has TCP_FIN s = false.
Proof.
  intros [_ _ [_ H] _ _]. unfold has. apply ctrue_eq. apply Z.bits_inj'. intros i Hi.
  apply (f_equal (fun z => Z.testbit z i)) in H. revert H. rewrite !Z.land_spec, Z.lor_spec, Z.bits_0.
  by destruct (Z.testbit _ i), (Z.testbit TCP_FIN i), (Z.testbit TCP_SYN i).
Qed.

(** ** The queues as one set of segments *)

Definition clens (l : list tcp_seg) : Z := foldr (fun s n => pbuf_clen s + n) 0 l.

Definition apart (B : Z) (s t : tcp_seg) : Prop := stop B s <= pos B t \/ stop B t <= pos B s.

(** What does not depend on which queue a segment is in or on the order. *)
Record core (L B : Z) (K : Z -> Prop) (nid : nat) (l : list tcp_seg) : Prop := {
  c_nodup : NoDup (sid <$> l);
  c_ids : forall s, s ∈ l -> (sid s < nid)%nat;
  c_ok : forall s, s ∈ l -> seg_ok s /\ L < stop B s <= B;
  c_apart : forall s t, s ∈ l -> t ∈ l -> sid s <> sid t -> apart B s t;
  c_cover : forall x, L <= x < B -> K x \/ exists s, s ∈ l /\ pos B s <= x < stop B s
}.

Lemma core_perm L B K nid l l' : l ≡ₚ l' -> core L B K nid l -> core L B K nid l'.
Proof.
  intros Hp [Hn Hi Ho Ha Hc].
  assert (forall s, s ∈ l' <-> s ∈ l) as He by (intros; by rewrite Hp).
  split.
  - by rewrite <- Hp.
  - intros s Hs. apply Hi. by apply He.
  - intros s Hs. apply Ho. by apply He.
  - intros s t Hs Ht. apply Ha; by apply He.
  - intros x Hx. destruct (Hc x Hx) as [?|(s & Hs & ?)]; [by left|]. right. exists s. by rewrite He.
Qed.

Lemma clens_app l l' : clens (l ++ l') = clens l + clens l'.
Proof. induction l; simpl; lia. Qed.
Lemma clens_perm l l' : l ≡ₚ l' -> clens l = clens l'.
Proof. induction 1; simpl; lia. Qed.

Lemma insert_sorted_perm s l : insert_sorted s l ≡ₚ s :: l.
Proof.
  induction l as [|x l IH]; simpl; [done|]. case_match; [|done]. rewrite IH. apply Permutation_swap.
Qed.

(** Sorted by position. *)
Definition sorted (B : Z) (l : list tcp_seg) : Prop := StronglySorted (fun s t => pos B s < pos B t) l.

Lemma sorted_inv B s l : sorted B (s :: l) -> sorted B l /\ forall t, t ∈ l -> pos B s < pos B t.
Proof.
  intros H. apply StronglySorted_inv in H as [H1 H2]. split; [done|].
  intros t Ht. rewrite list.Forall_forall in H2. by apply H2.
Qed.
Lemma sorted_cons B s l : sorted B l -> (forall t, t ∈ l -> pos B s < pos B t) -> sorted B (s :: l).
Proof. intros H1 H2. constructor; [done|]. by apply list.Forall_forall. Qed.

Lemma sorted_app B l l' : sorted B l -> sorted B l' -> (forall s t, s ∈ l -> t ∈ l' -> pos B s < pos B t) ->
  sorted B (l ++ l').
Proof.
  induction l as [|s l IH]; intros H1 H2 H; simpl; [done|].
  apply sorted_inv in H1 as [H1 Hs]. apply sorted_cons; [apply IH; [done..|]|].
  - intros; apply H; [by right|done].
  - intros t Ht. apply elem_of_app in Ht as [Ht|Ht]; [by apply Hs|apply H; [by left|done]].
Qed.

Lemma sorted_sublist B l l' : sublist l l' -> sorted B l' -> sorted B l.
Proof.
  induction 1 as [|x l l' Hs IH|x l l' Hs IH]; intros H; [done|..]; apply sorted_inv in H as [H Hx].
  - apply sorted_cons; [by apply IH|]. intros t Ht. apply Hx. eapply elem_of_submseteq; [done|by apply sublist_submseteq].
  - by apply IH.
Qed.

(** The segments the comparisons of sequence numbers see in order. *)
Section window.
Context (L B : Z) (HLB : L <= B <= L + 2 ^ 30).

Definition live (s : tcp_seg) : Prop := seg_ok s /\ L < stop B s <= B.

Lemma live_pos s : live s -> L - 2 ^ 16 < pos B s < B.
Proof using. intros [H [H1 H2]]. pose proof (ok_len s H). unfold stop, TCP_HLEN in *. lia. Qed.

Lemma lt_pos s t : live s -> live t -> TCP_SEQ_LT (seqno s) (seqno t) = bool_decide (pos B s < pos B t).
Proof using HLB.
  intros Hs Ht. pose proof (live_pos s Hs). pose proof (live_pos t Ht).
  rewrite (pos_seqno B s), (pos_seqno B t) by (apply Hs || apply Ht). rewrite seq_lt_u32 by lia. done.
Qed.

Lemma insert_sorted_sorted s l : live s -> (forall t, t ∈ l -> live t /\ apart B s t) ->
  sorted B l -> sorted B (insert_sorted s l).
Proof using HLB.
  intros Hs Hl. induction l as [|x l IH]; intros H; simpl.
  - apply sorted_cons; [done|]. intros t Ht. by apply not_elem_of_nil in Ht.
  - destruct (Hl x) as [Hx Hax]; [by left|]. rewrite lt_pos by done.
    apply sorted_inv in H as [H Hlt]. case_bool_decide as E.
    + apply sorted_cons; [apply IH; [|done]; intros; apply Hl; by right|].
      intros t Ht. rewrite insert_sorted_perm in Ht. apply elem_of_cons in Ht as [->|Ht]; [done|by apply Hlt].
    + apply sorted_cons; [by apply sorted_cons|].
      assert (pos B s < pos B x) by (destruct Hs as [[Hl1 _ _ _ _] _], Hx as [[Hl2 _ _ _ _] _];
        unfold apart, stop in *; lia).
      intros t Ht. apply elem_of_cons in Ht as [->|Ht]; [done|]. specialize (Hlt t Ht). lia.
Qed.
End window.

(** ** Segments that leave the queues *)

Lemma core_drop L B K nid a l1 l : core L B K nid (l1 ++ l) -> L <= a ->
  (forall s, s ∈ l1 -> stop B s <= a) -> (forall s, s ∈ l -> a < stop B s) -> core a B K nid l.
Proof.
  intros [Hn Hi Ho Ha Hc] HL H1 H. rewrite fmap_app, list.NoDup_app in Hn. split.
  - apply Hn.
  - intros s Hs. apply Hi. set_solver.
  - intros s Hs. destruct (Ho s) as (? & ? & ?); [set_solver|]. split; [done|]. split; [by apply H|done].
  - intros s t Hs Ht. apply Ha; set_solver.
  - intros x Hx. destruct (Hc x) as [?|(s & Hs & Hx')]; [lia|by left|]. right. exists s. split; [|done].
    apply elem_of_app in Hs as [Hs|Hs]; [|done]. specialize (H1 s Hs). lia.
Qed.

Lemma core_sack L B K K' nid l1 l : core L B K nid (l1 ++ l) -> (forall x, K x -> K' x) ->
  (forall s x, s ∈ l1 -> pos B s <= x < stop B s -> K' x) -> core L B K' nid l.
Proof.
  intros [Hn Hi Ho Ha Hc] HK H1. rewrite fmap_app, list.NoDup_app in Hn. split.
  - apply Hn.
  - intros s Hs. apply Hi. set_solver.
  - intros s Hs. apply Ho. set_solver.
  - intros s t Hs Ht. apply Ha; set_solver.
  - intros x Hx. destruct (Hc x) as [?|(s & Hs & Hx')]; [done|by left; apply HK|].
    apply elem_of_app in Hs as [Hs|Hs]; [left; by eapply H1|]. right. by exists s.
Qed.

Section drop.
Context (L B a : Z) (HLB : L <= B <= L + 2 ^ 30) (Ha : L - 2 ^ 29 <= a <= B + 2 ^ 29).

(** The last sequence number of a segment against [a]. *)
Lemma stop_u32 s : live L B s -> u32 (seqno s + TCP_TCPLEN s) = u32 (stop B s).
Proof using.
  intros Hs. rewrite tcplen_data, (pos_seqno B s) at 1 by apply Hs. by rewrite wrap_add_l.
Qed.

Definition split_at (l l1 l' : list tcp_seg) : Prop :=
  l = l1 ++ l' /\ (forall s, s ∈ l1 -> stop B s <= a) /\ (forall s, s ∈ l' -> a < stop B s).

Lemma split_at_nil : split_at [] [] [].
Proof using. split_and!; [done|..]; intros s Hs; by apply not_elem_of_nil in Hs. Qed.

Lemma split_at_keep s l : sorted B (s :: l) -> (forall t, t ∈ s :: l -> live L B t) -> a < stop B s ->
  (forall t u, t ∈ s :: l -> u ∈ s :: l -> pos B t < pos B u -> stop B t <= pos B u) -> split_at (s :: l) [] (s :: l).
Proof using HLB Ha.
  intros Hs Hl H Hd. split_and!; [done|set_solver|]. intros t Ht.
  apply sorted_inv in Hs as [_ Hlt]. apply elem_of_cons in Ht as [->|Ht]; [done|].
  specialize (Hlt t Ht). specialize (Hd s t ltac:(by left) ltac:(by right) Hlt).
  destruct (Hl t ltac:(by right)) as [[Hl1 _ _ _ _] _]. unfold stop in *. lia.
Qed.

Lemma drop_acked_spec l ak q : (forall t, t ∈ l -> live L B t) -> sorted B l ->
  (forall t u, t ∈ l -> u ∈ l -> pos B t < pos B u -> stop B t <= pos B u) ->
  exists l1 l', drop_acked (u32 a) l ak (u32 q) = (l', ak, u32 (q - clens l1)) /\ split_at l l1 l'.
Proof using HLB Ha.
  revert q. induction l as [|s l IH]; intros q Hl Hs Hd; simpl.
  { exists [], []. simpl. rewrite Z.sub_0_r. split; [done|apply split_at_nil]. }
  assert (live L B s) as Hls by (apply Hl; by left). pose proof (live_pos L B s Hls).
  assert (TCP_SEQ_LEQ (seqno s + TCP_TCPLEN s) (u32 a) = bool_decide (stop B s <= a)) as ->.
  { rewrite <- seq_leq_l, stop_u32 by done. rewrite seq_leq_u32; [done|].
    destruct Hls as [[] ?]. unfold stop in *. lia. }
  case_bool_decide as E.
  - rewrite data_fin, andb_false_r by apply Hls. rewrite wrap_sub_l.
    destruct (IH (q - pbuf_clen s)) as (l1 & l' & -> & -> & H1 & H2).
    { intros; apply Hl; by right. } { by apply sorted_inv in Hs as [? _]. } { intros; apply Hd; [by right..|done]. }
    exists (s :: l1), l'. split; [simpl; rewrite Z.sub_add_distr; done|]. split_and!; [done| |done].
    intros t Ht. apply elem_of_cons in Ht as [->|Ht]; [done|by apply H1].
  - exists [], (s :: l). simpl. rewrite Z.sub_0_r. split; [done|]. apply split_at_keep; done || lia.
Qed.

Lemma drop_unsent_spec X l ak q : L <= X <= B -> (forall t, t ∈ l -> live L B t) -> sorted B l ->
  (forall t u, t ∈ l -> u ∈ l -> pos B t < pos B u -> stop B t <= pos B u) ->
  exists l1 l', drop_unsent (u32 a) (u32 X) l ak (u32 q) = (l', ak, u32 (q - clens l1)) /\
    (if decide (a <= X) then split_at l l1 l' else l1 = [] /\ l' = l).
Proof using HLB Ha.
  intros HX. revert q. induction l as [|s l IH]; intros q Hl Hs Hd; simpl.
  { exists [], []. simpl. rewrite Z.sub_0_r. case_decide; (split; [done|]); [apply split_at_nil|done]. }
  assert (live L B s) as Hls by (apply Hl; by left). pose proof (live_pos L B s Hls).
  assert (TCP_SEQ_BETWEEN (u32 a) (seqno s + TCP_TCPLEN s) (u32 X) = bool_decide (stop B s <= a <= X)) as ->.
  { rewrite (pos_seqno B s), seq_between_sum, tcplen_data by apply Hls. apply seq_between_u32;
      destruct Hls as [[] ?]; unfold stop in *; lia. }
  case_bool_decide as E.
  - rewrite data_fin, andb_false_r by apply Hls. rewrite wrap_sub_l.
    destruct (IH (q - pbuf_clen s)) as (l1 & l' & -> & H1).
    { intros; apply Hl; by right. } { by apply sorted_inv in Hs as [? _]. } { intros; apply Hd; [by right..|done]. }
    rewrite decide_True in H1 by lia. destruct H1 as (-> & H1 & H2).
    exists (s :: l1), l'. rewrite decide_True by lia. split; [simpl; rewrite Z.sub_add_distr; done|]. split_and!; [done| |done].
    intros t Ht. apply elem_of_cons in Ht as [->|Ht]; [lia|by apply H1].
  - exists [], (s :: l). simpl. rewrite Z.sub_0_r. split; [done|].
    case_decide; [apply split_at_keep; done || lia|done].
Qed.
End drop.

(** ** Selective acknowledgements *)

(** The blocks are ranges of positions near the window. *)
Definition blocks_at (B : Z) (bs : list Recv.tcp_sack_block) (R : list (Z * Z)) : Prop :=
  Forall2 (fun b r => b = (u32 r.1, u32 r.2) /\ B - 2 ^ 30 - 2 ^ 17 <= r.1 <= B + 2 ^ 29 /\
                      B - 2 ^ 30 - 2 ^ 17 <= r.2 <= B + 2 ^ 29) bs R.

Definition reported (R : list (Z * Z)) (x : Z) : Prop := exists r, r ∈ R /\ r.1 <= x < r.2.

Lemma sacked_sound B bs R a e : blocks_at B bs R -> B - 2 ^ 30 - 2 ^ 17 <= a <= B + 2 ^ 29 ->
  B - 2 ^ 30 - 2 ^ 17 <= e <= B + 2 ^ 29 -> sacked bs (u32 a) (u32 e) = true ->
  forall x, a <= x < e -> reported R x.
Proof.
  intros Hb. revert a. induction Hb as [|b r bs R [-> Hr] Hb IH]; intros a Ha He H x Hx; simpl in H; [done|].
  rewrite !seq_leq_u32 in H by lia.
  assert (reported R x -> reported (r :: R) x) as Hin by (intros (r' & ? & ?); exists r'; split; [by right|done]).
  destruct (bool_decide (r.1 <= a)) eqn:E1; simpl in H.
  - apply bool_decide_eq_true in E1. destruct (bool_decide (e <= r.2)) eqn:E2.
    + apply bool_decide_eq_true in E2. exists r. split; [by left|lia].
    + apply bool_decide_eq_false in E2. destruct (decide (x < r.2)).
      * exists r. split; [by left|lia].
      * apply Hin. apply (IH r.2); done || lia.
  - apply Hin. by apply (IH a).
Qed.

Lemma remove_sacked_loop bs l q : exists l1 l', sack_loop bs l (u32 q) = (l', u32 (q - clens l1)) /\
  l ≡ₚ l1 ++ l' /\ sublist l' l /\
  forall s, s ∈ l1 -> sacked bs (seqno s) (u32 (seqno s + len s)) = true.
Proof.
  revert q. induction l as [|s l IH]; intros q; simpl.
  { exists [], []. simpl. rewrite Z.sub_0_r. split_and!; try done. set_solver. }
  destruct (sacked _ _ _) eqn:E.
  - rewrite wrap_sub_l. destruct (IH (q - pbuf_clen s)) as (l1 & l' & -> & Hp & Hs & H).
    exists (s :: l1), l'. split; [simpl; rewrite Z.sub_add_distr; done|]. split_and!.
    + by rewrite Hp.
    + by apply sublist_cons.
    + intros t Ht. apply elem_of_cons in Ht as [->|Ht]; [done|by apply H].
  - destruct (IH q) as (l1 & l' & -> & Hp & Hs & H). exists l1, (s :: l'). split; [done|]. split_and!.
    + rewrite Hp. apply Permutation_middle.
    + by apply sublist_skip.
    + done.
Qed.

(** ** The invariant *)

Lemma nodup_sid l s t : NoDup (sid <$> l) -> s ∈ l -> t ∈ l -> sid s = sid t -> s = t.
Proof.
  intros Hn Hs Ht E. apply list_elem_of_lookup in Hs as [i Hi]. apply list_elem_of_lookup in Ht as [j Hj].
  assert (i = j) as ->; [|congruence].
  eapply (NoDup_lookup (sid <$> l) i j (sid s)); [exact Hn| |]; rewrite list_lookup_fmap; [by rewrite Hi|by rewrite Hj, E].
Qed.

Lemma core_order L B K nid l s t : core L B K nid l -> s ∈ l -> t ∈ l -> pos B s < pos B t -> stop B s <= pos B t.
Proof.
  intros [Hn _ Ho Ha _] Hs Ht H. destruct (Ho t Ht) as [[Hl _ _ _ _] _].
  destruct (Ha s t Hs Ht); [intros E; pose proof (nodup_sid _ _ _ Hn Hs Ht E); subst; lia|done|].
  unfold stop in *. lia.
Qed.

Lemma last_id_cons s l : l <> [] -> last_id (s :: l) = last_id l.
Proof. by destruct l. Qed.

(** ** A segment cut in two *)

Lemma core_split L B K nid nid' seg s1 s2 l : core L B K nid (seg :: l) ->
  sid s1 = sid seg -> (nid <= sid s2 < nid')%nat -> seg_ok s1 -> seg_ok s2 ->
  pos B s1 = pos B seg -> stop B s1 = pos B s2 -> stop B s2 = stop B seg -> L < stop B s1 ->
  core L B K nid' (s1 :: s2 :: l).
Proof.
  intros [Hn Hi Ho Ha Hc] E1 E2 O1 O2 P1 P2 P3 HL.
  pose proof (ok_len s1 O1). pose proof (ok_len s2 O2).
  destruct (Ho seg) as [Oseg Hseg]; [by left|].
  assert (Hlt : forall t, t ∈ seg :: l -> (sid t < nid)%nat) by done.
  rewrite fmap_cons in Hn. apply list.NoDup_cons in Hn as [Hn1 Hn2].
  assert (forall t, t ∈ l -> apart B s1 t /\ apart B s2 t) as Hap.
  { intros t Ht. assert (sid seg <> sid t) as Hne.
    { intros E. apply Hn1. rewrite E. apply list_elem_of_fmap. by exists t. }
    destruct (Ha seg t) as [H1|H1]; [by left|by right|done|..]; unfold apart, stop in *; lia. }
  split.
  - rewrite !fmap_cons. apply list.NoDup_cons. split.
    { rewrite E1. apply not_elem_of_cons. split; [|done]. specialize (Hi seg ltac:(by left)). lia. }
    apply list.NoDup_cons. split; [|done]. intros (t & E & Ht)%list_elem_of_fmap.
    specialize (Hi t ltac:(by right)). lia.
  - intros t Ht. rewrite !elem_of_cons in Ht. destruct Ht as [->|[->|Ht]]; [|lia|].
    + specialize (Hi seg ltac:(by left)). lia.
    + specialize (Hi t ltac:(by right)). lia.
  - intros t Ht. rewrite !elem_of_cons in Ht. destruct Ht as [->|[->|Ht]].
    + split; [done|]. unfold stop in *. lia.
    + split; [done|]. unfold stop in *. lia.
    + apply Ho. by right.
  - assert (forall s t, apart B s t -> apart B t s) as Hsym by (intros ?? [?|?]; [by right|by left]).
    assert (apart B s1 s2) by (left; lia).
    intros s t Hs Ht Hne. rewrite !elem_of_cons in Hs, Ht.
    destruct Hs as [->|[->|Hs]], Ht as [->|[->|Ht]]; try done; try (apply Hsym; done);
      try (by apply Hap); try (by apply Hsym, Hap). apply Ha; [by right..|done].
  - intros x Hx. destruct (Hc x Hx) as [?|(t & Ht & Hxt)]; [by left|]. right.
    apply elem_of_cons in Ht as [->|Ht].
    + destruct (decide (x < stop B s1)); [exists s1|exists s2]; (split; [set_solver|lia]).
    + exists t. split; [set_solver|done].
Qed.

Lemma split_walk_spec hdr n h fr tail b h' fr' b' :
  split_walk hdr n h fr tail b = Some (h', fr', b') -> h = tot_len (fr ++ [tail]) ->
  fr' ++ b' = fr ++ tail :: b /\ h' = tot_len fr' /\ b' <> [] /\ (exists bs, fr' = fr ++ tail :: bs).
Proof.
  revert h fr tail. induction b as [|x b IH]; intros h fr tail; simpl; [done|].
  case_decide.
  - case_decide; [done|]. intros Hw E. destruct (IH _ _ _ Hw) as (H1 & H2 & H3 & bs & H4).
    { rewrite E, <- app_assoc. clear. induction fr as [|y fr IH]; simpl; [simpl; lia|]. simpl in IH. lia. }
    rewrite H1. split_and!; try done; [by rewrite <- app_assoc|]. exists (x :: bs). by rewrite H4, <- app_assoc.
  - intros Hw E. simplify_eq. split_and!; try done; [by rewrite <- app_assoc|]. by exists [].
Qed.

Lemma tot_len_app l l' : tot_len (l ++ l') = tot_len l + tot_len l'.
Proof. induction l; simpl; lia. Qed.
Lemma tot_len_pos l : Forall (fun b => 0 < b_len b) l -> 0 <= tot_len l /\ (l <> [] -> 0 < tot_len l).
Proof. induction 1 as [|b l Hb _ [IH _]]; simpl; [by split|]. split; lia. Qed.

Section inv.
Context {A : Cc.cc_algo} {LA : Cc.cc_laws A}.
Implicit Types p : tcp_pcb A.

(** A window of at most [65535 << 14]. *)
Definition wnd_ok (s : sender) : Prop := 0 <= snd_wnd s <= 2 ^ 30 /\ 0 <= snd_scale s <= 14.

Definition all p : list tcp_seg := unacked (qs p) ++ unsent (qs p).

(** [C] is the size of the send buffer, [K] the bytes reported in SACK
    blocks. *)
Record inv (C L B : Z) (K : Z -> Prop) p : Prop := {
  v_lastack : lastack (sn p) = u32 L;
  v_lbb : snd_lbb (qs p) = u32 B;
  v_window : L <= B <= L + 2 ^ 30;
  v_nxt : exists X, snd_nxt (sn p) = u32 X /\ L <= X <= B;
  v_core : core L B K (next_id (qs p)) (all p);
  v_unacked : sorted B (unacked (qs p));
  v_unsent : sorted B (unsent (qs p));
  v_last : unacked (qs p) <> [] -> last_unacked (qs p) = last_id (unacked (qs p));
  v_queuelen : snd_queuelen (qs p) = u32 (clens (all p));
  v_buf : snd_buf (qs p) = u32 (C - (B - L));
  v_options : Z.land (Recv.flags (rx p)) TF_TIMESTAMP = 0 /\ Recv.rcv_sack_block (rx p) = [];
  v_mss : 0 < Recv.mss (rx p) < 2 ^ 16;
  v_wnd : wnd_ok (sn p);
  v_cc : Cc.cc_ok (cc p)
}.

Lemma core_next L B K n n' l : (n <= n')%nat -> core L B K n l -> core L B K n' l.
Proof using. intros H [? Hi ? ? ?]. split; try done. intros s Hs. specialize (Hi s Hs). lia. Qed.

(** What the invariant does not depend on. *)
Lemma inv_ext C L B K p p' : inv C L B K p -> rx_same (rx p) (rx p') -> Cc.cc_ok (cc p') ->
  lastack (sn p') = lastack (sn p) -> snd_nxt (sn p') = snd_nxt (sn p) -> wnd_ok (sn p') ->
  qs p' = set_next_id (next_id (qs p')) (qs p) -> (next_id (qs p) <= next_id (qs p'))%nat -> inv C L B K p'.
Proof using.
  intros [] (R1 & R2 & R3 & R4 & R5) Hc E1 E2 Hw Q N.
  assert (unacked (qs p') = unacked (qs p) /\ unsent (qs p') = unsent (qs p)) as [Eu Es] by (rewrite Q; done).
  assert (all p' = all p) as Ea by (unfold all; congruence).
  split; rewrite ?E1, ?E2, ?R2, ?R4, ?R5, ?Eu, ?Es, ?Ea; try done; try (rewrite Q; done).
  by eapply core_next.
Qed.

Lemma framed_inv C L B K p p' : inv C L B K p -> framed p p' -> inv C L B K p'.
Proof using.
  intros H (R & Ec & _ & Es & Q & N). eapply inv_ext; try done; rewrite ?Es, ?Ec; try done; by apply H.
Qed.

Lemma set_tm_inv C L B K t p : inv C L B K p -> inv C L B K (set_tm t p).
Proof using. intros H. eapply inv_ext; try done; simpl; try apply H; by destruct (qs p). Qed.
Lemma set_cc_inv C L B K v p : inv C L B K p -> Cc.cc_ok v -> inv C L B K (set_cc v p).
Proof using. intros H Hv. eapply inv_ext; try done; simpl; try apply H; by destruct (qs p). Qed.
Lemma set_sn_inv C L B K x p : inv C L B K p -> lastack x = lastack (sn p) -> snd_nxt x = snd_nxt (sn p) ->
  wnd_ok x -> inv C L B K (set_sn x p).
Proof using. intros H E1 E2 Hw. eapply inv_ext; try done; simpl; try apply H; by destruct (qs p). Qed.
Lemma or_flags_inv C L B K f p : Z.land f TF_TIMESTAMP = 0 -> inv C L B K p -> inv C L B K (or_flags f p).
Proof using.
  intros Hf H. eapply inv_ext; try done; simpl; try apply H; [|by destruct (qs p)].
  unfold rx_same. simpl. by rewrite Z.land_lor_distr_l, Hf, Z.lor_0_r.
Qed.

Lemma inv_ctx C L B K now p : inv C L B K p -> Cc.ctx_ok (cc_ctx now p).
Proof using. intros [???????????? [? _] ?]. split; simpl; lia. Qed.

Lemma inv_live C L B K p s : inv C L B K p -> s ∈ all p -> live L B s.
Proof using. intros H. apply (c_ok _ _ _ _ _ (v_core _ _ _ _ _ H)). Qed.

Lemma inv_oversize C L B K o q p : inv C L B K (set_qs q p) -> inv C L B K (set_qs (set_unsent_oversize o q) p).
Proof using. by intros []. Qed.

(** ** Retransmission *)

Lemma rexmit_inv C L B K p : inv C L B K p -> inv C L B K (tcp_rexmit p).
Proof using.
  intros H. unfold tcp_rexmit. destruct (unacked (qs p)) as [|seg l] eqn:Eu; [done|].
  apply set_tm_inv. cbv zeta.
  cut (inv C L B K (set_qs (set_unsent (insert_sorted seg (unsent (qs p))) (set_unacked l (qs p))) p)).
  { intros Hq. cbn [unsent set_unsent set_unacked]. case_decide; [by apply inv_oversize|done]. }
  destruct H. unfold all in *. rewrite Eu in *. simpl in *.
  assert (seg :: l ++ unsent (qs p) ≡ₚ l ++ insert_sorted seg (unsent (qs p))) as Hp.
  { rewrite insert_sorted_perm. apply Permutation_middle. }
  apply sorted_inv in v_unacked0 as [Hsl _].
  split; unfold all; simpl; try done.
  - by eapply core_perm.
  - eapply insert_sorted_sorted; try done.
    + apply (c_ok _ _ _ _ _ v_core0). by left.
    + intros t Ht. split; [apply (c_ok _ _ _ _ _ v_core0); set_solver|].
      apply (c_apart _ _ _ _ _ v_core0); [by left|set_solver|]. intros E.
      pose proof (c_nodup _ _ _ _ _ v_core0) as Hn. rewrite fmap_cons in Hn. apply list.NoDup_cons in Hn as [Hn _].
      apply Hn. rewrite E. apply list_elem_of_fmap. exists t. split; [done|set_solver].
  - intros Hl. rewrite v_last0 by done. by apply last_id_cons.
  - rewrite v_queuelen0. f_equal. rewrite <- (clens_perm _ _ Hp). done.
Qed.

Lemma rexmit_fast_inv C L B K now p : inv C L B K p ->
  exists p', tcp_rexmit_fast now p = Some p' /\ inv C L B K p'.
Proof using.
  intros H. unfold tcp_rexmit_fast. destruct (_ && _); [|eauto].
  pose proof (rexmit_inv _ _ _ _ _ H) as H'.
  destruct (Cc.cong_signal_ok _ Cc.CC_NDUPACK _ (inv_ctx _ _ _ _ now _ H') (v_cc _ _ _ _ _ H')) as (v & -> & Hv).
  simpl. eexists. split; [done|]. apply or_flags_inv; [done|]. by apply set_cc_inv.
Qed.

(** ** Acknowledgements *)

Lemma update_window_inv C L B K i p : inv C L B K p -> 0 <= in_wnd i < 2 ^ 16 -> inv C L B K (update_window i p).2.
Proof using.
  intros H Hi. unfold update_window. destruct (_ || _ || _); [|done].
  match goal with |- context [set_sn ?x p] => set (s := x) end.
  assert (inv C L B K (set_sn s p)) as H'.
  { apply set_sn_inv; try done. destruct (v_wnd _ _ _ _ _ H) as [_ Hs]. split; [simpl|done].
    unfold SND_WND_SCALE. rewrite Z.shiftl_mul_pow2 by lia.
    assert (0 < 2 ^ snd_scale (sn p) <= 2 ^ 14)
      by (split; [apply Z.pow_pos_nonneg|apply Z.pow_le_mono_r]; lia).
    rewrite wrap_small; nia. }
  case_decide; [done|]. simpl snd. case_decide; [by apply set_tm_inv|done].
Qed.

(** The last segment stays unless all go. *)
Definition tail_kept (bs : list Recv.tcp_sack_block) (l : list tcp_seg) : Prop :=
  (sack_loop bs l 0).1 = [] \/ last_id (sack_loop bs l 0).1 = last_id l.

Lemma sack_loop_list bs l q q' : (sack_loop bs l q).1 = (sack_loop bs l q').1.
Proof using.
  revert q q'. induction l as [|s l IH]; intros q q'; simpl; [done|].
  destruct (sacked _ _ _); [apply IH|]. specialize (IH q q').
  destruct (sack_loop bs l q), (sack_loop bs l q'). simpl in *. congruence.
Qed.

Lemma remove_sacked_inv C L B K b i R p : inv C L B K p -> blocks_at B (sack_block i) R ->
  tail_kept (sack_block i) (unacked (qs p)) ->
  inv C L B (fun x => K x \/ reported R x) (set_qs (remove_sacked b (sack_block i) (qs p)) p).
Proof using.
  intros H HR Ht. unfold remove_sacked.
  assert (forall K', (forall x, K x -> K' x) -> inv C L B K' (set_qs (qs p) p)) as Hk.
  { intros K' HK. destruct H. split; try done. simpl. by apply (core_sack L B K K' _ []); [| |set_solver]. }
  destruct (_ && _); [|apply Hk; tauto].
  destruct H. unfold all in *. rewrite v_queuelen0, clens_app.
  destruct (remove_sacked_loop (sack_block i) (unacked (qs p)) (clens (unacked (qs p)) + clens (unsent (qs p))))
    as (l1 & l' & E & Hp & Hs & Hsk). rewrite E.
  assert (unacked (qs p) ++ unsent (qs p) ≡ₚ l1 ++ (l' ++ unsent (qs p))) as Hpp by by rewrite Hp, <- app_assoc.
  split; unfold all; simpl; try done.
  - eapply core_sack; [by eapply core_perm|by left|]. intros s x Hin Hx. right.
    destruct (c_ok _ _ _ _ _ v_core0 s) as [Hok Hst]; [rewrite Hpp; set_solver|].
    specialize (Hsk s Hin). rewrite (pos_seqno B s), wrap_add_l in Hsk by apply Hok.
    pose proof (live_pos L B s (conj Hok Hst)).
    eapply (sacked_sound B _ R (pos B s) (stop B s)); try done; lia.
  - by eapply sorted_sublist.
  - intros Hn. unfold tail_kept in Ht.
    rewrite (sack_loop_list _ _ 0 (u32 (clens (unacked (qs p)) + clens (unsent (qs p))))), E in Ht.
    simpl in Ht. destruct Ht as [-> | ->]; [done|]. apply v_last0. intros E0. rewrite E0 in Hs.
    by apply sublist_nil_r in Hs.
  - rewrite clens_app. f_equal. apply clens_perm in Hp. rewrite clens_app in Hp. lia.
Qed.

Lemma duplicate_ack_inv C L B K now e i p : inv C L B K p ->
  exists p', duplicate_ack now e i p = Some p' /\ inv C L B K p'.
Proof using.
  intros H. unfold duplicate_ack.
  assert (forall d, inv C L B K (set_sn (set_dupacks d (sn p)) p)) as Hd.
  { intros d. by apply set_sn_inv; try done; apply H. }
  destruct (_ && _); [|eauto].
  set (d := if decide (u8 _ > _) then _ else _). specialize (Hd d). set (p1 := set_sn _ p) in *.
  assert (forall t q, inv C L B K q -> exists p',
    (v ← Cc.cc_ack_received (cc_ctx now q) t (cc q); Some (set_cc v q)) = Some p' /\ inv C L B K p') as Hcc.
  { intros t q Hq.
    destruct (Cc.ack_received_ok _ t _ (inv_ctx _ _ _ _ now _ Hq) (v_cc _ _ _ _ _ Hq)) as (v & -> & Hv).
    simpl. eexists. split; [done|]. by apply set_cc_inv. }
  case_decide; [by apply Hcc|]. case_decide; [|eauto].
  destruct (rexmit_fast_inv _ _ _ _ now _ Hd) as (p2 & -> & H2). simpl. by apply Hcc.
Qed.

Lemma restart_timer_inv C L B K b p : inv C L B K p -> inv C L B K (restart_timer b p).
Proof using. intros H. unfold restart_timer. case_match; by apply set_tm_inv. Qed.

Lemma queue_order C L B K p l : inv C L B K p -> l ⊆ all p ->
  (forall t, t ∈ l -> live L B t) /\
  (forall t u, t ∈ l -> u ∈ l -> pos B t < pos B u -> stop B t <= pos B u).
Proof using.
  intros H Hl. split.
  - intros t Ht. eapply inv_live; [done|by apply Hl].
  - intros t u Ht Hu. eapply core_order; [apply H|by apply Hl..].
Qed.

Lemma split_at_all B a l l1 l' : split_at B a l l1 l' -> (forall s, s ∈ l -> a < stop B s) -> l1 = [] /\ l' = l.
Proof using.
  intros (-> & H1 & _) H. destruct l1 as [|s l1]; [done|]. exfalso.
  specialize (H1 s ltac:(by left)). specialize (H s ltac:(by left)). lia.
Qed.

(** An acknowledgement of what was acknowledged before frees nothing. *)
Lemma free_acked_old C L B K a p : inv C L B K p -> L - 2 ^ 29 <= a <= L ->
  inv C L B K (free_acked (u32 a) p).
Proof using.
  intros H Ha. unfold free_acked. rewrite (v_queuelen _ _ _ _ _ H).
  destruct (queue_order C L B K p (unacked (qs p)) H ltac:(set_solver)) as [Hl Ho].
  pose proof (v_window _ _ _ _ _ H).
  destruct (drop_acked_spec L B a ltac:(done) ltac:(lia) (unacked (qs p)) (acked (sn p)) (clens (all p)) Hl
              (v_unacked _ _ _ _ _ H) Ho) as (l1 & l' & E & Hs).
  destruct (split_at_all _ _ _ _ _ Hs) as [-> ->].
  { intros s Hin. destruct (Hl s Hin) as [_ ?]. lia. }
  rewrite E. simpl. rewrite Z.sub_0_r, <- (v_queuelen _ _ _ _ _ H).
  apply set_sn_inv; try done; [|apply H].
  replace (set_qs _ p) with p; [done|]. by destruct p as [? ? ? ? ? ? ? ? []].
Qed.

Lemma free_unsent_none C L B K a p : inv C L B K p -> L - 2 ^ 29 <= a <= B + 2 ^ 29 ->
  (a <= L \/ forall X, snd_nxt (sn p) = u32 X -> L <= X <= B -> X < a) -> inv C L B K (free_unsent (u32 a) p).
Proof using.
  intros H Ha HaL. unfold free_unsent. rewrite (v_queuelen _ _ _ _ _ H).
  destruct (v_nxt _ _ _ _ _ H) as (X & EX & HX). rewrite EX.
  destruct (queue_order C L B K p (unsent (qs p)) H ltac:(set_solver)) as [Hl Ho].
  destruct (drop_unsent_spec L B a (v_window _ _ _ _ _ H) Ha X (unsent (qs p)) (acked (sn p)) (clens (all p)) HX Hl
              (v_unsent _ _ _ _ _ H) Ho) as (l1 & l' & E & Hs).
  assert (l1 = [] /\ l' = unsent (qs p)) as [-> ->].
  { case_decide; [|done]. eapply split_at_all; [done|]. intros s Hin. destruct (Hl s Hin) as [_ ?].
    destruct HaL as [?|HaL]; [lia|]. specialize (HaL X EX HX). lia. }
  rewrite E. cbv beta iota zeta. rewrite andb_negb_r. simpl. rewrite Z.sub_0_r, <- (v_queuelen _ _ _ _ _ H).
  apply set_sn_inv; try done; [|apply H].
  replace (set_qs _ p) with p; [done|]. by destruct p as [? ? ? ? ? ? ? ? []].
Qed.

(** What a step of the acknowledgement processing may change besides the
    queues. *)
Definition kept p p' : Prop :=
  rx_same (rx p) (rx p') /\ lastack (sn p') = lastack (sn p) /\ snd_nxt (sn p') = snd_nxt (sn p) /\
  snd_wnd (sn p') = snd_wnd (sn p) /\ snd_scale (sn p') = snd_scale (sn p) /\ qs p' = qs p /\ Cc.cc_ok (cc p').

Lemma kept_trans p p' p'' : kept p p' -> kept p' p'' -> kept p p''.
Proof using.
  intros ((?&?&?&?&?) & ? & ? & ? & ? & ? & ?) ((?&?&?&?&?) & ? & ? & ? & ? & ? & ?).
  unfold kept, rx_same. split_and!; congruence || done.
Qed.

Lemma grow_window_kept now p : Cc.cc_ok (cc p) -> Cc.ctx_ok (cc_ctx now p) ->
  exists p', grow_window now p = Some p' /\ kept p p'.
Proof using.
  intros Hc Hx. unfold grow_window.
  destruct (established _); [|exists p; unfold kept, rx_same; by split_and!].
  destruct (Dctcp.dctcp_reduce_cwnd (dctcp_pcb p)) as [b d] eqn:E.
  set (p1 := set_cc _ _).
  assert (kept p p1) as H1.
  { unfold kept, rx_same. split_and!; try done. simpl. apply Cc.set_cwnd_ok; [done|].
    unfold Dctcp.dctcp_reduce_cwnd in E. destruct (ctrue _); simplify_eq; simpl.
    - apply wrap_range. lia.
    - apply (Cc.cc_ok_word _ Hc). }
  destruct b; [eauto|].
  destruct (Cc.ack_received_ok (cc_ctx now p1) Cc.CC_ACK (cc p1)) as (v & -> & Hv); [done|apply H1|].
  simpl. eexists. split; [done|]. eapply kept_trans; [done|]. unfold kept, rx_same. by split_and!.
Qed.

Lemma leave_recovery now p : Cc.cc_ok (cc p) -> Cc.ctx_ok (cc_ctx now p) -> exists p',
  (if flag TF_INFR p then
     v ← Cc.cc_post_recovery (cc_ctx now p) (cc p); Some (clear_flags TF_INFR (set_cc v p))
   else Some p) = Some p' /\ kept p p'.
Proof using.
  intros Hc Hx. destruct (flag _ p); [|exists p; unfold kept, rx_same; by split_and!].
  destruct (Cc.post_recovery_ok _ _ Hx Hc) as (v & -> & Hv). simpl. eexists. split; [done|].
  unfold kept, rx_same. simpl. rewrite land_clear by done. by split_and!.
Qed.

(** New data is acknowledged: the segments up to [a] leave [unacked]. *)
Lemma new_ack_spec C L B K X now b i a p : inv C L B K p -> snd_nxt (sn p) = u32 X -> L < a <= X -> X <= B ->
  in_ackno i = u32 a ->
  exists p' l1 l', new_ack now b i p = Some p' /\ split_at B a (unacked (qs p)) l1 l' /\
    rx_same (rx p) (rx p') /\ Cc.cc_ok (cc p') /\ lastack (sn p') = u32 a /\ snd_nxt (sn p') = u32 X /\
    snd_wnd (sn p') = snd_wnd (sn p) /\ snd_scale (sn p') = snd_scale (sn p) /\
    qs p' = set_snd_queuelen (u32 (clens (all p) - clens l1))
              (set_unacked l' (set_snd_buf (u32 (C - (B - a))) (qs p))).
Proof using.
  intros H EX Ha HX Ei. unfold new_ack.
  destruct (leave_recovery now p (v_cc _ _ _ _ _ H) (inv_ctx _ _ _ _ now _ H)) as (p1 & -> & K1).
  cbn [mbind option_bind]. set (p2 := set_sn _ _).
  destruct K1 as (R1 & L1 & N1 & W1 & S1 & Q1 & C1).
  assert (qs p2 = set_snd_buf (u32 (C - (B - a))) (qs p)) as Q2.
  { unfold p2. simpl. rewrite Q1. f_equal. rewrite L1, (v_lastack _ _ _ _ _ H), (v_buf _ _ _ _ _ H), Ei.
    rewrite wrap_sub_l, wrap_sub_r, wrap_add_l, wrap_add_r. f_equal. lia. }
  destruct (grow_window_kept now p2) as (p3 & -> & (R3 & L3 & N3 & W3 & S3 & Q3 & C3)).
  { done. }
  { unfold Cc.ctx_ok. simpl. destruct R1 as (_ & -> & _). rewrite W1. split; [apply (v_mss _ _ _ _ _ H)|].
    destruct (v_wnd _ _ _ _ _ H). lia. }
  cbn [mbind option_bind].
  destruct (queue_order C L B K p (unacked (qs p)) H ltac:(set_solver)) as [Hl Ho].
  pose proof (v_window _ _ _ _ _ H).
  destruct (drop_acked_spec L B a ltac:(done) ltac:(lia) (unacked (qs p)) (acked (sn p3)) (clens (all p)) Hl
              (v_unacked _ _ _ _ _ H) Ho) as (l1 & l' & E & Hs).
  assert (qs p3 = set_snd_buf (u32 (C - (B - a))) (qs p)) as Q3' by congruence.
  eexists _, l1, l'. split; [done|]. split; [done|].
  unfold free_acked. rewrite Q3', Ei. simpl unacked. simpl snd_queuelen.
  rewrite (v_queuelen _ _ _ _ _ H), E.
  unfold restart_timer. simpl.
  assert (rx_same (rx p) (rx p3)) as R.
  { destruct R1 as (?&?&?&?&?), R3 as (?&?&?&?&?). unfold rx_same. simpl in *. split_and!; congruence. }
  assert (lastack (sn p3) = u32 a) by (rewrite L3; simpl; congruence).
  assert (snd_nxt (sn p3) = u32 X) by (rewrite N3; simpl; congruence).
  assert (snd_wnd (sn p3) = snd_wnd (sn p)) by (rewrite W3; simpl; congruence).
  assert (snd_scale (sn p3) = snd_scale (sn p)) by (rewrite S3; simpl; congruence).
  destruct l'; simpl; by split_and!.
Qed.

Lemma estimate_rtt_inv C L B K now i p : inv C L B K p -> inv C L B K (estimate_rtt now i p).
Proof using. intros H. unfold estimate_rtt. case_match; [by apply set_tm_inv|done]. Qed.

Lemma last_id_app l1 l : l <> [] -> last_id (l1 ++ l) = last_id l.
Proof using.
  intros Hl. induction l1 as [|s l1 IH]; [done|]. simpl app. rewrite last_id_cons; [done|].
  by destruct l1, l.
Qed.

(** The acknowledgement half of [tcp_receive] returns and keeps the
    invariant. *)
Lemma receive_ack_inv C L B K mem now i R a p : inv C L B K p -> in_ackno i = u32 a ->
  L - 2 ^ 29 <= a <= B + 2 ^ 29 -> 0 <= in_wnd i < 2 ^ 16 -> blocks_at B (sack_block i) R -> tail_kept (sack_block i) (unacked (qs p)) ->
  exists out p' L', receive_ack mem now i p = Some (out, p') /\
    inv C L' B (fun x => K x \/ reported R x) p' /\ (L' = L \/ L < L' /\ L' = a).
Proof using.
  intros H Ei Ha Hw HR Ht. unfold receive_ack.
  set (K' := fun x => K x \/ reported R x).
  assert (inv C L B K' p) as HK.
  { destruct H. split; try done. apply (core_sack L B K K' _ []); [done|by left|set_solver]. }
  destruct (ctrue _); [|exists [], p, L; by auto].
  destruct (update_window i p) as [persist p1] eqn:Ep.
  assert (inv C L B K p1 /\ unacked (qs p1) = unacked (qs p)) as [H1 Eu].
  { pose proof (update_window_inv C L B K i p H Hw) as H1. rewrite Ep in H1. split; [done|].
    unfold update_window in Ep. repeat case_match; by simplify_eq. }
  rewrite <- Eu in Ht.
  pose proof (remove_sacked_inv C L B K (Recv.sack_permitted (rx p1)) i R p1 H1 HR Ht) as H2. fold K' in H2.
  cbv beta iota zeta. set (p2 := set_qs _ p1) in *. clearbody p2.
  destruct (v_nxt _ _ _ _ _ H2) as (X & EX & HX). pose proof (v_window _ _ _ _ _ H2) as HLB.
  rewrite (v_lastack _ _ _ _ _ H2), Ei, EX, seq_leq_u32 by lia.
  case_bool_decide as E1.
  { unfold old_ack.
    destruct (duplicate_ack_inv C L B K' now (u32 (snd_wnd (sn p) + snd_wl2 (sn p))) i
                (set_sn (set_acked 0 (sn p2)) p2)) as (p3 & -> & H3).
    { apply set_sn_inv; try done. apply H2. }
    simpl. eexists _, _, L. split; [done|]. split; [|by left]. apply estimate_rtt_inv.
    apply free_unsent_none; [|done|by left].
    apply restart_timer_inv. rewrite Ei. apply free_acked_old; [done|lia]. }
  assert (TCP_SEQ_BETWEEN (u32 a) (u32 L + 1) (u32 X) = bool_decide (L + 1 <= a <= X)) as ->.
  { rewrite seq_between_sum. apply seq_between_u32; lia. }
  case_bool_decide as E2.
  - destruct (new_ack_spec C L B K' X now persist i a p2) as (p3 & l1 & l' & -> & Hs & R3 & C3 & L3 & N3 & W3 & S3 & Q3);
      [done|done|lia|lia|done|].
    cbn [mbind option_bind]. eexists _, _, a. split; [done|]. split; [|right; lia].
    apply estimate_rtt_inv. unfold free_unsent. rewrite Q3, N3. simpl unsent. simpl snd_queuelen.
    destruct (queue_order C L B K' p2 (unsent (qs p2)) H2 ltac:(set_solver)) as [Hl Ho].
    destruct (drop_unsent_spec L B a HLB Ha X (unsent (qs p2)) (acked (sn p3)) (clens (all p2) - clens l1) HX Hl
                (v_unsent _ _ _ _ _ H2) Ho) as (m1 & m' & -> & Hm).
    rewrite decide_True in Hm by lia. destruct Hs as (Es & S1 & S2), Hm as (Em & M1 & M2).
    destruct H2. unfold all in *. rewrite Es, Em in *.
    assert ((l1 ++ l') ++ m1 ++ m' ≡ₚ (l1 ++ m1) ++ (l' ++ m')) as Hp by solve_Permutation.
    destruct R3 as (R31 & R32 & R33 & R34 & R35).
    match goal with |- inv _ _ _ _ (set_sn ?x (set_qs _ _)) => set (x3 := x) end.
    cut (inv C a B K' (set_sn x3 (set_qs (set_snd_queuelen (u32 (clens ((l1 ++ l') ++ m1 ++ m') - clens l1 - clens m1))
      (set_unsent m' (qs p3))) p3))).
    { rewrite Q3. intros Hq. destruct (_ && _); [|done].
      apply (inv_oversize _ _ _ _ 0 _ (set_sn x3 p3)). done. }
    rewrite Q3. unfold x3.
    split; unfold all; simpl; rewrite ?L3, ?N3, ?R31, ?R32, ?R33, ?R34, ?R35; try done; try lia.
    + exists X. split; [done|lia].
    + eapply core_drop; [by eapply core_perm|lia|..]; intros s Hin; apply elem_of_app in Hin as [?|?]; auto.
    + eapply sorted_sublist; [|exact v_unacked0]. by apply sublist_inserts_l.
    + eapply sorted_sublist; [|exact v_unsent0]. by apply sublist_inserts_l.
    + intros Hn. rewrite v_last0 by (by destruct l1). by apply last_id_app.
    + f_equal. rewrite !clens_app. lia.
    + unfold wnd_ok. simpl. by rewrite W3, S3.
  - destruct (tcp_send_empty_ack mem _) as [out p3] eqn:E3.
    assert (inv C L B K' p3) as H3.
    { change p3 with (out, p3).2. rewrite <- E3. eapply framed_inv; [|apply empty_ack_framed].
      apply set_sn_inv; try done. apply H2. }
    assert (snd_nxt (sn p3) = u32 X) as N3.
    { change p3 with (out, p3).2. rewrite <- E3.
      destruct (empty_ack_framed mem (set_sn (set_acked 0 (sn p2)) p2)) as (_ & _ & _ & -> & _). done. }
    simpl. eexists _, _, L. split; [done|]. split; [|by left]. apply estimate_rtt_inv.
    apply free_unsent_none; [done|done|]. right. intros X' EX' HX'. rewrite N3 in EX'.
    assert (X = X') by (eapply Recv.u32_eq_window; [exact EX'|lia]). lia.
Qed.

End inv.
End SendInv.

