(* ===== verification/TcpSendOut.v ===== *)
(** * No byte is forgotten: sending

    [tcp_split_segment], [tcp_output] and the retransmission timeout keep the
    invariant of TcpSendInv, the loop of [tcp_output] ends, and a connection
    that runs any sequence of writes, transmissions, acknowledgements and
    timeouts still holds every byte the peer lacks. *)

From Stdlib Require Import Sorted.
From S2P Require Import Prelude TcpBase Tlt Dctcp TcpOpt TcpRecv Cc TcpSend TcpSendInv.

Local Open Scope Z_scope.

Module SendOut.
Import Send SendInv.

Section out.
Context {A : Cc.cc_algo} {LA : Cc.cc_laws A}.
Implicit Types p : tcp_pcb A.

(** ** Splitting the first unsent segment *)

Lemma data_optlen_0 C L B K p : inv C L B K p -> u8 (data_optlen p) = 0 /\ data_optflags p = 0.
Proof using.
  intros H. destruct (v_options _ _ _ _ _ H) as [Ht Hb].
  assert (data_optflags p = 0) as E by (unfold data_optflags, flag; by rewrite ctrue_eq).
  split; [|done]. unfold data_optlen, LWIP_TCP_OPT_LENGTH. rewrite E, Hb. simpl.
  by rewrite andb_false_r.
Qed.

(** The two halves [s1] and [s2] of the first segment, back in the queue. *)
Lemma split_queue C L B K p p' seg s1 s2 rest : inv C L B K p -> unsent (qs p) = seg :: rest ->
  rx p' = rx p -> cc p' = cc p -> sn p' = sn p -> snd_buf (qs p') = snd_buf (qs p) -> snd_lbb (qs p') = snd_lbb (qs p) ->
  unacked (qs p') = unacked (qs p) -> last_unacked (qs p') = last_unacked (qs p) ->
  unsent (qs p') = s1 :: s2 :: rest ->
  snd_queuelen (qs p') = u32 (snd_queuelen (qs p) + (pbuf_clen s1 + pbuf_clen s2 - pbuf_clen seg)) ->
  sid s1 = sid seg -> (next_id (qs p) <= sid s2 < next_id (qs p'))%nat -> seg_ok s1 -> seg_ok s2 ->
  seqno s1 = seqno seg -> seqno s2 = u32 (seqno s1 + len s1) -> len s1 + len s2 = len seg -> L <= pos B seg ->
  inv C L B K p'.
Proof using.
  intros H Eu Er Ec Es Eb El Ea Ela Eu' Eq I1 I2 O1 O2 S1 S2 Hlen HL.
  assert (live L B seg) as Hls by (eapply inv_live; [done|unfold all; rewrite Eu; set_solver]).
  pose proof (live_pos L B seg Hls). pose proof (v_window _ _ _ _ _ H).
  pose proof (ok_len s1 O1). pose proof (ok_len s2 O2).
  assert (pos B s1 = pos B seg) as P1 by (unfold pos; by rewrite S1).
  assert (pos B s2 = stop B s1) as P2.
  { apply pos_eq; [|destruct Hls as [_ ?]; unfold stop in *; lia].
    rewrite S2, S1, (pos_seqno B seg) by apply Hls. rewrite wrap_add_l. unfold stop. by rewrite P1. }
  assert (stop B s2 = stop B seg) as P3 by (unfold stop in *; lia).
  destruct H. unfold all in *. rewrite Eu in *.
  assert (unacked (qs p) ++ seg :: rest ≡ₚ seg :: unacked (qs p) ++ rest) as Hp by by rewrite Permutation_middle.
  assert (s1 :: s2 :: unacked (qs p) ++ rest ≡ₚ unacked (qs p) ++ s1 :: s2 :: rest) as Hp' by solve_Permutation.
  apply sorted_inv in v_unsent0 as [Hsr Hlt].
  split; unfold all; rewrite ?Er, ?Ec, ?Es, ?Eb, ?El, ?Ea, ?Ela, ?Eu'; try done.
  - eapply core_perm; [exact Hp'|]. eapply core_split; [by eapply core_perm|done..| |]; [lia|].
    unfold stop in *. lia.
  - assert (forall t, t ∈ rest -> stop B seg <= pos B t) as Hrest.
    { intros t Ht. eapply core_order; [exact v_core0|set_solver..|by apply Hlt]. }
    apply sorted_cons; [apply sorted_cons; [done|]|].
    + intros t Ht. specialize (Hrest t Ht). unfold stop in *. lia.
    + intros t Ht. apply elem_of_cons in Ht as [->|Ht]; [unfold stop in *; lia|].
      specialize (Hrest t Ht). unfold stop in *. lia.
  - rewrite Eq, v_queuelen0, wrap_add_l. f_equal. rewrite !clens_app. simpl. lia.
Qed.

(** The distance of a segment from [lastack], as [tcp_output] computes it. *)
Lemma dist_pos C L B K p s : inv C L B K p -> live L B s ->
  L <= pos B s /\ u32 (seqno s - lastack (sn p)) = pos B s - L \/
  pos B s < L /\ 2 ^ 32 - 2 ^ 16 < u32 (seqno s - lastack (sn p)).
Proof using.
  intros H Hs. pose proof (live_pos L B s Hs). pose proof (v_window _ _ _ _ _ H).
  rewrite (v_lastack _ _ _ _ _ H), (pos_seqno B s), wrap_sub_l, wrap_sub_r by apply Hs.
  destruct (decide (L <= pos B s)); [left|right]; (split; [lia|]).
  - rewrite wrap_small; lia.
  - replace (u32 (pos B s - L)) with (pos B s - L + 2 ^ 32); [lia|].
    unfold wrap. rewrite <- (Z.mod_add _ 1), Z.mod_small; lia.
Qed.

Definition split_frame p p' : Prop :=
  rx p' = rx p /\ cc p' = cc p /\ sn p' = sn p /\ tlt p' = tlt p /\ iss p' = iss p /\
  unacked (qs p') = unacked (qs p) /\ (next_id (qs p) <= next_id (qs p'))%nat /\
  (length (unsent (qs p')) <= S (length (unsent (qs p))))%nat /\ (unsent (qs p) <> [] -> unsent (qs p') <> []).

Lemma clen_small (n : nat) (s : tcp_seg) : length (bufs s) = n -> (n < 256)%nat -> pbuf_clen s = Z.of_nat n.
Proof using. intros E H. unfold pbuf_clen. rewrite E. apply wrap_small. lia. Qed.

Lemma framed_split C L B K p q : inv C L B K p -> framed p q -> rx q = rx p -> tlt q = tlt p ->
  inv C L B K q /\ split_frame p q.
Proof using.
  intros H F Er Et. split; [by eapply framed_inv|].
  destruct F as (_ & Ec & Ei & Es & Q & N). unfold split_frame. rewrite Q. split_and!; try done. simpl. lia.
Qed.

Lemma create_spec mem b bs sq p seg p' : tcp_create_segment mem (b :: bs) sq 0 p = (Some seg, p') ->
  u8 (LWIP_TCP_OPT_LENGTH p 0) = 0 ->
  seg = Seg (next_id (qs p)) (Buf (u16 (b_len b + TCP_HLEN)) (b_ref b) :: bs) (u16 (tot_len (b :: bs))) sq
          (TCPH_HDRLEN_FLAGS_SET (5 + 0 / 4) 0) 0 /\
  p' = set_qs (set_seg_alloc false (set_next_id (S (next_id (qs p))) (qs p))) p.
Proof using.
  intros H Eo. unfold tcp_create_segment in H. cbn [alloc] in H.
  change (LWIP_TCP_OPT_LENGTH _ 0) with (LWIP_TCP_OPT_LENGTH p 0) in H. rewrite Eo, Z.sub_0_r in H.
  destruct (_ || _) in H; [|done]. by injection H as <- <-.
Qed.

Lemma create_failed mem b sq o p p' : tcp_create_segment mem b sq o p = (None, p') -> p' = (alloc mem p).2.
Proof using.
  unfold tcp_create_segment. cbn [alloc]. destruct (_ || _) eqn:E; [done|]. intros [= <-].
  apply orb_false_iff in E as [E _]. simpl in E. simpl. rewrite <- E. destruct p as [? ? ? ? ? ? ? ? q]. by destruct q.
Qed.

Section halves.
Context (C L B : Z) (K : Z -> Prop) (mem : nat -> bool) (p : tcp_pcb A) (seg : tcp_seg) (rest : list tcp_seg)
  (b0 : buf) (bs : list buf) (n : Z).
Context (H : inv C L B K p) (Eu : unsent (qs p) = seg :: rest) (Eb : bufs seg = b0 :: bs) (Hn : 0 < n)
  (HL : L <= pos B seg).

Lemma halves_live : live L B seg.
Proof using H Eu. eapply inv_live; [exact H|]. unfold all. rewrite Eu. apply elem_of_app. right. left. Qed.

Lemma split_first_inv p' : TCP_HLEN + n < b_len b0 -> split_first mem 0 n seg b0 bs rest p = Some p' ->
  inv C L B K p' /\ split_frame p p'.
Proof using H Eu Eb Hn HL.
  intros Hb. unfold split_first, TCP_HLEN in *.
  destruct halves_live as [[Hlen Hseq Hhdr Hdum Hbufs] Hst]. rewrite Eb in Hbufs.
  destruct Hbufs as (Hb0 & Hbs & Htot & Hcnt). simpl in Htot. destruct (tot_len_pos bs Hbs) as [Hbs0 _].
  unfold TCP_HLEN in *. set (m := b_len b0 - (20 + 0) - n). rewrite (wrap_small 32 m) by (unfold m; lia).
  destruct (alloc mem p) as [ok p1] eqn:E1. unfold alloc in E1. injection E1 as E1 E1'.
  destruct ok; [|intros [= <-]; subst p1; apply framed_split; [done|apply (alloc_framed mem)|done..]].
  destruct (data_optlen_0 _ _ _ _ _ H) as [Eo Ef].
  assert (data_optflags p1 = 0) as -> by (subst p1; exact Ef).
  destruct (tcp_create_segment _ _ _ _ p1) as [[ns|] p2] eqn:E2; simpl.
  2: { case_decide; [|done]. intros [= <-]. apply create_failed in E2. subst p2 p1. apply framed_split; try done.
    eapply framed_trans; [apply (alloc_framed mem)|apply (alloc_framed mem)]. }
  apply create_spec in E2 as [-> ->]; [|subst p1; etransitivity; [|exact Eo]; unfold data_optlen; by rewrite Ef].
  simpl. unfold TCP_HLEN. rewrite (wrap_small 16 (m + 0)), (wrap_small 16 (m + 0 + 20)) by (unfold m; lia).
  rewrite (wrap_small 16 (b_len b0 - m)) by (unfold m; lia).
  rewrite (wrap_small 16 (b_len b0 - m - (20 + 0))) by (unfold m; lia).
  rewrite Eb. simpl. rewrite (wrap_small 16 (b_len b0 + tot_len bs - n - 20 - 0)) by lia.
  intros [= <-]. subst p1. unfold set_halves. simpl. split.
  - eapply (split_queue C L B K p _ seg
      (set_bufs [Buf (b_len b0 - m) (b_ref b0)] (b_len b0 - m - (20 + 0)) seg)
      (Seg (S (next_id (qs p))) (Buf (m + 0 + 20) 1 :: bs) (b_len b0 + tot_len bs - n - 20 - 0)
         (u32 (seqno seg + n)) (TCPH_SET_FLAG (TCPH_HDRLEN_FLAGS_SET (5 + 0 / 4) 0) TCP_PSH) (opts seg)) rest H Eu);
      try (by case_decide); try done.
    + assert (pbuf_clen (set_bufs [Buf (b_len b0 - m) (b_ref b0)] (b_len b0 - m - (20 + 0)) seg) = 1) as -> by done.
      rewrite (clen_small (S (length bs)) (Seg _ _ _ _ _ _)), (clen_small (S (length bs)) seg);
        [|by rewrite Eb|lia|done|lia].
      case_decide; simpl; f_equal; lia.
    + case_decide; simpl; lia.
    + split; simpl; try done; unfold TCP_HLEN; [unfold m; lia|]. split_and!; simpl; done || (unfold m; lia).
    + split; simpl; try done; unfold TCP_HLEN.
      * unfold m in *; lia.
      * apply wrap_range. lia.
      * split_and!; simpl; try done; unfold m in *; lia.
    + simpl. f_equal. unfold m. lia.
    + simpl. unfold m. lia.
  - unfold split_frame. rewrite Eu. case_decide; simpl; split_and!; done || lia.
Qed.

Lemma split_chain_inv p' : split_chain mem 0 n seg b0 bs rest p = Some p' ->
  inv C L B K p' /\ split_frame p p'.
Proof using H Eu Eb Hn HL.
  unfold split_chain. destruct halves_live as [[Hlen Hseq Hhdr Hdum Hbufs] Hst]. rewrite Eb in Hbufs.
  destruct Hbufs as (Hb0 & Hbs & Htot & Hcnt).
  destruct (split_walk _ _ _ _ _ _) as [[[h fr] b']|] eqn:Ew;
    [|intros [= <-]; apply framed_split; done || apply framed_refl].
  destruct (split_walk_spec _ _ _ _ _ _ _ _ _ Ew) as (Happ & -> & Hne & fs & Efr); [simpl; lia|].
  simpl in Happ, Efr. subst fr. simpl in Happ. injection Happ as Happ.
  destruct b' as [|x b']; [done|]. rewrite <- Happ in *.
  apply list.Forall_app in Hbs as [Hfs Hb']. apply list.Forall_cons in Hb' as [Hx Hb'].
  simpl in Htot. rewrite tot_len_app in Htot. simpl in Htot. rewrite length_app in Hcnt. simpl in Hcnt.
  destruct (tot_len_pos fs Hfs) as [Hfs0 _]. destruct (tot_len_pos b' Hb') as [Hb0' _].
  destruct (data_optlen_0 _ _ _ _ _ H) as [Eo Ef]. rewrite Ef.
  destruct (tcp_create_segment _ _ _ _ p) as [[ns|] p2] eqn:E2; simpl; [|done].
  apply create_spec in E2 as [-> ->]; [|etransitivity; [|exact Eo]; unfold data_optlen; by rewrite Ef].
  unfold TCP_HLEN in *. simpl.
  rewrite (wrap_small 16 (b_len x + 20)), (wrap_small 16 (b_len b0 + tot_len fs - (20 + 0))),
    (wrap_small 16 (b_len x + tot_len b')) by lia.
  intros [= <-]. unfold set_halves. simpl. split.
  - eapply (split_queue C L B K p _ seg
      (set_bufs (b0 :: fs) (b_len b0 + tot_len fs - (20 + 0)) seg)
      (Seg (next_id (qs p)) (Buf (b_len x + 20) (b_ref x) :: b') (b_len x + tot_len b')
         (u32 (seqno seg + (b_len b0 + tot_len fs) - (20 + 0))) (TCPH_HDRLEN_FLAGS_SET (5 + 0 / 4) 0) (opts seg))
      rest H Eu); try (by case_decide); try done.
    + rewrite (clen_small (S (length fs)) (set_bufs _ _ _)), (clen_small (S (length b')) (Seg _ _ _ _ _ _)),
        (clen_small (S (length fs + S (length b'))) seg);
        [|by rewrite Eb; simpl; rewrite length_app|lia|done|lia|done|lia].
      rewrite (v_queuelen _ _ _ _ _ H).
      case_decide; simpl; rewrite (v_queuelen _ _ _ _ _ H), wrap_add_l; f_equal; lia.
    + case_decide; simpl; lia.
    + split; simpl; try done; unfold TCP_HLEN; [lia|]. split_and!; simpl; done || lia.
    + split; simpl; try done; unfold TCP_HLEN.
      * lia.
      * apply wrap_range. lia.
      * split_and!; simpl; try done; lia.
    + simpl. f_equal. lia.
    + simpl. lia.
  - unfold split_frame. rewrite Eu. case_decide; simpl; split_and!; done || lia.
Qed.
End halves.

Lemma split_segment_inv C L B K mem wnd p p' : inv C L B K p -> 0 <= wnd <= 2 ^ 30 ->
  tcp_split_segment mem wnd p = Some p' -> inv C L B K p' /\ split_frame p p'.
Proof using.
  intros H Hw. unfold tcp_split_segment.
  assert (Some p = Some p' -> inv C L B K p' /\ split_frame p p') as Hid.
  { intros E. injection E as <-. apply framed_split; done || apply framed_refl. }
  destruct (unsent (qs p)) as [|seg rest] eqn:Eu; [done|].
  destruct (bufs seg) as [|b0 bs] eqn:Eb; [done|].
  case_decide as Hd; [done|].
  destruct (data_optlen_0 _ _ _ _ _ H) as [-> _].
  assert (live L B seg) as Hls by (eapply inv_live; [done|unfold all; rewrite Eu; set_solver]).
  destruct (dist_pos _ _ _ _ _ _ H Hls) as [[HL Ed]|[_ Hf]]; [|exfalso; lia]. rewrite Ed in Hd |- *.
  case_decide as Hb; [apply (split_first_inv C L B K)|apply (split_chain_inv C L B K)]; done || lia.
Qed.

(** ** A segment that was sent *)

Lemma last_id_snoc l (t : tcp_seg) : last_id (l ++ [t]) = Some (sid t).
Proof using. induction l as [|x l IH]; [done|]. simpl app. rewrite last_id_cons; [done|by destruct l]. Qed.

Lemma deref_last l (t seg : tcp_seg) : NoDup (sid <$> l ++ [t]) ->
  deref (sid t) (l ++ [t]) = Some t /\ link_after (sid t) seg (l ++ [t]) = Some (l ++ [t; seg]).
Proof using.
  unfold deref. induction l as [|x l IH]; intros Hn; simpl.
  { by rewrite !decide_True by done. }
  rewrite <- app_comm_cons, fmap_cons in Hn. apply list.NoDup_cons in Hn as [Hx Hn]. destruct (IH Hn) as [E1 E2].
  assert (sid x <> sid t) as Hne by (intros E; apply Hx; rewrite E, fmap_app; set_solver).
  rewrite !decide_False, E2 by done. split; [|done].
  destruct (list_find _ (l ++ [t])) as [[i y]|]; simpl in *; [by simplify_eq|done].
Qed.

Lemma insert_sorted_last l (t seg : tcp_seg) : TCP_SEQ_LT (seqno t) (seqno seg) = false ->
  last_id (insert_sorted seg (l ++ [t])) = Some (sid t).
Proof using.
  intros H. induction l as [|x l IH]; cbn [insert_sorted app]; [by rewrite H|].
  destruct (TCP_SEQ_LT (seqno x) _).
  - rewrite last_id_cons; [done|]. intros E. apply (f_equal length) in E. revert E.
    rewrite insert_sorted_perm. simpl. lia.
  - rewrite !last_id_cons by (by destruct l). apply last_id_snoc.
Qed.

(** It goes to its place among the unacknowledged segments. *)
Lemma queue_unacked_spec L B K nid l seg q : L <= B <= L + 2 ^ 30 ->
  core L B K nid (seg :: unacked q ++ l) -> sorted B (unacked q) ->
  (unacked q <> [] -> last_unacked q = last_id (unacked q)) ->
  exists l', queue_unacked seg q = Some (set_last_unacked (last_id l') (set_unacked l' q)) /\
    l' ≡ₚ seg :: unacked q /\ sorted B l'.
Proof using.
  intros HLB Hc Hs Hl. unfold queue_unacked.
  assert (forall t, t ∈ seg :: unacked q -> live L B t) as Hlive by (intros t Ht; apply (c_ok _ _ _ _ _ Hc); set_solver).
  assert (forall t, t ∈ unacked q -> apart B seg t) as Hap.
  { intros t Ht. apply (c_apart _ _ _ _ _ Hc); [set_solver..|]. intros E. pose proof (c_nodup _ _ _ _ _ Hc) as Hn.
    rewrite fmap_cons in Hn. apply list.NoDup_cons in Hn as [Hn _]. apply Hn. rewrite E, fmap_app.
    apply elem_of_app. left. by apply list_elem_of_fmap_2. }
  destruct (unacked q) as [|u0 us] eqn:Eu.
  { exists [seg]. split_and!; [done|done|]. apply sorted_cons; [constructor|set_solver]. }
  rewrite Hl by done. destruct (@List.exists_last _ (u0 :: us) ltac:(done)) as (us' & u & Eus). rewrite Eus in *.
  rewrite last_id_snoc. cbn [mbind option_bind].
  destruct (deref_last us' u seg) as [-> ->].
  { pose proof (c_nodup _ _ _ _ _ Hc) as Hn. rewrite fmap_cons, fmap_app in Hn.
    apply list.NoDup_cons in Hn as [_ Hn]. by apply list.NoDup_app in Hn as [Hn _]. }
  cbn [mbind option_bind].
  assert (live L B seg) as Hls by (apply Hlive; by left).
  assert (live L B u) as Hlu by (apply Hlive; set_solver).
  assert (apart B seg u) as Hau by (apply Hap; set_solver).
  assert (TCP_SEQ_LT (seqno u) (seqno seg) = negb (TCP_SEQ_LT (seqno seg) (seqno u))) as Elt.
  { rewrite !(lt_pos L B) by done. destruct Hls as [[? _ _ _ _] _], Hlu as [[? _ _ _ _] _].
    unfold apart, stop in Hau. case_bool_decide; case_bool_decide; simpl; done || lia. }
  destruct (TCP_SEQ_LT (seqno seg) (seqno u)) eqn:E.
  - exists (insert_sorted seg (us' ++ [u])). split_and!.
    + rewrite insert_sorted_last by done. rewrite last_id_snoc in Hl. unfold set_last_unacked. simpl.
      rewrite <- Hl by (by destruct us'). by destruct q.
    + apply insert_sorted_perm.
    + apply (insert_sorted_sorted L B); [done..| |done]. intros t Ht. split; [apply Hlive; by right|by apply Hap].
  - exists ((us' ++ [u]) ++ [seg]). split_and!.
    + by rewrite last_id_snoc, <- app_assoc.
    + rewrite (Permutation_app_comm _ [seg]). done.
    + apply sorted_app; [done|apply sorted_cons; [constructor|set_solver]|].
      intros s t Hin Ht. apply list_elem_of_singleton in Ht as ->. simpl in Elt.
      rewrite (lt_pos L B) in Elt by done. apply bool_decide_eq_true in Elt.
      apply elem_of_app in Hin as [Hin|Hin]; [|by apply list_elem_of_singleton in Hin as ->].
      assert (pos B s < pos B u); [|lia].
      clear -Hs Hin. induction us' as [|x us' IH]; [set_solver|]. simpl in Hs. apply sorted_inv in Hs as [Hs Hx].
      apply elem_of_cons in Hin as [->|Hin]; [apply Hx; set_solver|by apply IH].
Qed.

(** The header of a segment changes when it is sent. *)
Lemma core_hdr L B K nid h seg l : core L B K nid (seg :: l) -> data_hdr h -> core L B K nid (set_hrf h seg :: l).
Proof using.
  intros [Hn Hi Ho Ha Hc] Hh.
  assert (forall t, t ∈ set_hrf h seg :: l -> exists t', t' ∈ seg :: l /\ sid t = sid t' /\
    pos B t = pos B t' /\ stop B t = stop B t') as Hsame.
  { intros t Ht. apply elem_of_cons in Ht as [->|Ht]; [exists seg|exists t]; (split; [by constructor|done]). }
  split; [done|..].
  - intros t Ht. destruct (Hsame t Ht) as (t' & Ht' & -> & _). by apply Hi.
  - intros t Ht. apply elem_of_cons in Ht as [->|Ht]; [|apply Ho; by right].
    destruct (Ho seg) as [[] ?]; [by left|]. by split; [split|].
  - intros s t Hs Ht. destruct (Hsame s Hs) as (s' & Hs' & -> & Es1 & Es2), (Hsame t Ht) as (t' & Ht' & -> & Et1 & Et2).
    unfold apart. rewrite Es1, Es2, Et1, Et2. by apply Ha.
  - intros x Hx. destruct (Hc x Hx) as [?|(s & Hs & Hxs)]; [by left|]. right.
    apply elem_of_cons in Hs as [->|Hs]; [exists (set_hrf h seg)|exists s]; (split; [by constructor|done]).
Qed.

(** What [tcp_output] leaves as it was. *)
Definition out_frame p p' : Prop :=
  rx_same (rx p) (rx p') /\ cc p' = cc p /\ iss p' = iss p /\ lastack (sn p') = lastack (sn p) /\
  snd_wnd (sn p') = snd_wnd (sn p).

Lemma out_frame_trans p p' p'' : out_frame p p' -> out_frame p' p'' -> out_frame p p''.
Proof using.
  intros ((R1 & R2 & R3 & R4 & R5) & ?) ((R1' & R2' & R3' & R4' & R5') & ?).
  unfold out_frame, rx_same. destruct_and?. split_and!; congruence.
Qed.

(** Sending one segment up to the queue: the header changes, nothing else of
    the segment does. *)
Lemma output_one_sent mem now force seg rest p out p' : LWIP_IS_DUMMY_SEGMENT seg = false -> data_hdr (hrf seg) ->
  output_one mem now force seg rest p = Some (out, p') ->
  exists h p3 q, data_hdr h /\ framed (set_qs (set_unsent rest (qs p)) p) p3 /\
    (exists k, out = [k] /\ k_seqno k = seqno seg /\ k_len k = len seg) /\
    (if negb force && bool_decide (len seg > 0) then queue_unacked (set_hrf h seg) (qs p3) else Some (qs p3)) = Some q /\
    p' = set_qs q (if TCP_SEQ_LT (snd_nxt (sn p)) (u32 (seqno seg + len seg))
                   then set_sn (set_snd_nxt (u32 (seqno seg + len seg)) (sn p)) p3 else p3).
Proof using.
  intros Hd H0. unfold output_one, dummy_ack. rewrite Hd. cbn [andb negb]. intros H.
  set (p0 := set_qs _ p) in *. destruct (piggyback seg p0) as [s2 p2] eqn:E2.
  apply piggyback_framed in E2 as [F2 Hs2].
  destruct (tcp_output_segment now s2 p2) as [[[k s3] p3]|] eqn:E3; simpl in H; [|done].
  destruct (output_segment_framed _ _ _ _ _ _ E3) as (F3 & Hk & Hkl & ->).
  assert (exists h2, s2 = set_hrf h2 seg /\ data_hdr h2) as (h2 & -> & Hh2).
  { destruct Hs2 as [-> | ->]; [exists (hrf seg)|exists (TCPH_SET_FLAG (hrf seg) TCP_ACK)].
    - split; [by destruct seg|done].
    - split; [done|]. by apply set_flag_hdr. }
  set (h := Dctcp.hrf _) in *. assert (data_hdr h) as Hh by by apply dctcp_send_hdr.
  change (set_hrf h (set_hrf h2 seg)) with (set_hrf h seg) in H.
  assert (TCP_TCPLEN (set_hrf h seg) = len seg) as El.
  { unfold TCP_TCPLEN, has. rewrite ctrue_eq by apply Hh. simpl. lia. }
  rewrite El in H. simpl in H, Hk, Hkl.
  assert (framed p0 p3) as F by (by eapply framed_trans).
  assert (sn p3 = sn p) as Esn by (destruct F as (_ & _ & _ & -> & _); done). rewrite andb_true_r, Esn in H.
  exists h, p3. destruct (TCP_SEQ_LT _ _); simpl in H |- *;
    (destruct (if negb force && _ then queue_unacked _ _ else _) as [q|] eqn:Eq; simpl in H; [|done]); simplify_eq;
    exists q; (split_and!; [done..|by exists k|done|done]).
Qed.

(** The segments change places. *)
Lemma inv_requeue C L B K p p' : inv C L B K p -> out_frame p p' -> snd_scale (sn p') = snd_scale (sn p) ->
  (exists Y, snd_nxt (sn p') = u32 Y /\ L <= Y <= B) ->
  snd_queuelen (qs p') = snd_queuelen (qs p) -> snd_buf (qs p') = snd_buf (qs p) -> snd_lbb (qs p') = snd_lbb (qs p) ->
  core L B K (next_id (qs p')) (all p') -> clens (all p') = clens (all p) ->
  sorted B (unacked (qs p')) -> sorted B (unsent (qs p')) ->
  (unacked (qs p') <> [] -> last_unacked (qs p') = last_id (unacked (qs p'))) -> inv C L B K p'.
Proof using.
  intros [] ((R1 & R2 & R3 & R4 & R5) & Ec & _ & El & Ew) Es HY Q1 Q2 Q3 Hc Hl S1 S2 Hla.
  split; [congruence|congruence|done|done|exact Hc|done|done|done|congruence|congruence| | | |].
  - by rewrite R4, R5.
  - by rewrite R2.
  - unfold wnd_ok in *. by rewrite Ew, Es.
  - by rewrite Ec.
Qed.

Lemma output_one_inv C L B K mem now seg rest p out p' : inv C L B K p -> unsent (qs p) = seg :: rest ->
  output_one mem now false seg rest p = Some (out, p') ->
  inv C L B K p' /\ out_frame p p' /\ unsent (qs p') = rest /\ unacked (qs p') <> [] /\
  exists k, out = [k] /\ k_seqno k = seqno seg /\ k_len k = len seg.
Proof using.
  intros H Eu Ho. pose proof H as [E1 E2 HLB (X & EX & HX) Hc Hsa Hsu Hla Hq Hbuf Hop Hm Hw Hcc].
  unfold all in Hc, Hq. rewrite Eu in *.
  destruct (c_ok _ _ _ _ _ Hc seg) as [Hok Hst]; [set_solver|].
  apply output_one_sent in Ho as (h & p3 & q & Hh & (R & Ec & Ei & Es & Q & N) & Hk & Hqu & ->); [|apply Hok..].
  rewrite bool_decide_true in Hqu by (destruct Hok; lia).
  simpl in R, Ec, Ei, Es, Q, N.
  assert (core L B K (next_id (qs p3)) (set_hrf h seg :: unacked (qs p3) ++ rest)) as Hc'.
  { rewrite Q. cbn [unacked set_next_id set_unsent]. apply core_hdr; [|done]. eapply core_next; [exact N|].
    eapply core_perm; [|exact Hc]. by rewrite Permutation_middle. }
  destruct (queue_unacked_spec L B K _ rest (set_hrf h seg) (qs p3) HLB Hc') as (l' & Eq & Hp & Hs);
    [by rewrite Q..|]. rewrite Eq in Hqu. injection Hqu as <-. rewrite Q in Hp. cbn [unacked set_next_id set_unsent] in Hp.
  assert (unacked (qs p3) = unacked (qs p)) as Eua by (by rewrite Q). rewrite Eua in Hc'.
  apply sorted_inv in Hsu as [Hsr _].
  assert (exists Y, (if TCP_SEQ_LT (snd_nxt (sn p)) (u32 (seqno seg + len seg)) then u32 (seqno seg + len seg)
     else snd_nxt (sn p)) = u32 Y /\ L <= Y <= B) as HY.
  { destruct (TCP_SEQ_LT _ _); [exists (stop B seg)|by exists X]. split; [|lia].
    rewrite (pos_seqno B seg) by apply Hok. by rewrite wrap_add_l. }
  set (b := TCP_SEQ_LT _ _) in *. clearbody b. set (p4 := if b then _ else p3).
  assert (rx p4 = rx p3 /\ cc p4 = cc p3 /\ iss p4 = iss p3 /\ lastack (sn p4) = lastack (sn p) /\
    snd_wnd (sn p4) = snd_wnd (sn p) /\ snd_scale (sn p4) = snd_scale (sn p) /\
    snd_nxt (sn p4) = if b then u32 (seqno seg + len seg) else snd_nxt (sn p)) as (P1 & P2 & P3 & P4 & P5 & P6 & P7).
  { unfold p4. destruct b; simpl; by rewrite ?Es. }
  clearbody p4. rewrite <- P7 in HY.
  assert (out_frame p (set_qs (set_last_unacked (last_id l') (set_unacked l' (qs p3))) p4)) as Hf.
  { unfold out_frame. simpl. rewrite P1, P2, P3, P4, P5. by split_and!. }
  split; [|split; [done|split; [|split; [|done]]]].
  - apply (inv_requeue C L B K p); [exact H|exact Hf|exact P6|exact HY|by rewrite Q..| | |exact Hs| |exact (fun _ => eq_refl)];
      unfold all; cbn [qs set_qs unacked unsent set_last_unacked set_unacked].
    + rewrite Q at 2. eapply core_perm; [|exact Hc']. by rewrite Hp.
    + rewrite Q, Eu, !clens_app, (clens_perm _ _ Hp). cbn [clens foldr set_next_id set_unsent unsent].
      change (pbuf_clen (set_hrf h seg)) with (pbuf_clen seg). fold (clens (unacked (qs p))). fold (clens rest). lia.
    + rewrite Q. exact Hsr.
  - simpl. by rewrite Q.
  - simpl. intros ->. by apply Permutation_nil_l in Hp.
Qed.

(** ** The loop *)

Lemma nagle_inv C L B K force seg rest p p' : inv C L B K p -> nagle force seg rest p = Some p' ->
  inv C L B K p' /\ out_frame p p' /\ qs p' = qs p.
Proof using.
  intros H Hn. apply nagle_framed in Hn as Hf. destruct Hf as (R & Ec & Ei & Q & _ & N & La & W).
  assert (snd_scale (sn p') = snd_scale (sn p)) as Es.
  { unfold nagle in Hn. repeat case_match; by simplify_eq. }
  split_and!; [|by split_and!|done].
  apply (inv_ext C L B K p); [done|done|rewrite Ec; apply H|done|done| |by rewrite Q; destruct (qs p)|by rewrite Q].
  unfold wnd_ok. rewrite W, Es. apply H.
Qed.

Lemma split_out_frame p p' : split_frame p p' -> out_frame p p'.
Proof using. intros (Er & Ec & Es & _ & Ei & _). unfold out_frame, rx_same. by rewrite Er, Ec, Es, Ei. Qed.

Definition in_window (la wnd : Z) (k : pkt) : Prop := 0 < k_len k /\ u32 (k_seqno k - la + k_len k) <= wnd.

(** Every segment that is sent leaves [unsent], and only the first one can be
    split: afterwards [unacked] is not empty.  So [fuel] iterations are enough,
    and what is sent lies within the window. *)
Lemma output_loop_inv C L B K mem now wnd fuel p : inv C L B K p -> 0 <= wnd <= 2 ^ 30 ->
  (length (unsent (qs p)) + (if decide (unacked (qs p) = []) then 1 else 0) <= fuel)%nat ->
  (forall k, output_loop (fuel + k) mem now wnd false p = output_loop fuel mem now wnd false p) /\
  forall out p', output_loop fuel mem now wnd false p = Some (out, p') ->
    inv C L B K p' /\ out_frame p p' /\ Forall (in_window (lastack (sn p)) wnd) out.
Proof using.
  revert p. induction fuel as [|fuel IH]; intros p H Hw Hf; simpl.
  { destruct (unsent (qs p)) as [|seg0 rest0] eqn:Eu; [|simpl in Hf; lia].
    split; [intros k; by destruct k; simpl; rewrite Eu|]. intros out p' E. by injection E as <- <-. }
  assert (forall q, inv C L B K q -> out_frame p q -> forall (out : list pkt) p', Some ([], q) = Some (out, p') ->
    inv C L B K p' /\ out_frame p p' /\ Forall (in_window (lastack (sn p)) wnd) out) as Hstop.
  { intros q Hq Fq out p' E. by injection E as <- <-. }
  destruct (unsent (qs p)) as [|seg0 rest0] eqn:Eu; [by split; [|apply Hstop]|].
  set (c := _ && bool_decide (win_end p seg0 > wnd)).
  destruct (if c then tcp_split_segment mem wnd p else Some p) as [p1|] eqn:E1; simpl; [|done].
  assert (inv C L B K p1 /\ out_frame p p1 /\ (length (unsent (qs p1)) <= S fuel)%nat) as (H1 & F1 & L1).
  { destruct c eqn:Ec; unfold c in Ec.
    - apply andb_prop in Ec as [Ec _]. apply andb_prop in Ec as [Ec _]. simpl in Ec.
      apply bool_decide_eq_true in Ec. rewrite decide_True in Hf by done.
      apply (split_segment_inv C L B K) in E1 as [H1 F1]; [|done|done].
      split_and!; [done|by apply split_out_frame|]. destruct F1 as (_ & _ & _ & _ & _ & _ & _ & F1 & _).
      rewrite Eu in F1. lia.
    - injection E1 as <-. rewrite Eu. split_and!; [done|by split_and!|]. lia. }
  destruct (unsent (qs p1)) as [|seg rest] eqn:Eu1; [done|]. rewrite orb_false_r.
  clear c E1. destruct (bool_decide (_ <= wnd)) eqn:Ew; [|by split; [|apply Hstop]].
  apply bool_decide_eq_true in Ew.
  destruct (nagle false seg rest p1) as [p2|] eqn:E2; [|by split; [|apply Hstop]].
  apply (nagle_inv C L B K) in E2 as (H2 & F2 & Q2); [|done]. rewrite <- Q2 in Eu1.
  destruct (output_one mem now false seg rest p2) as [[o3 p3]|] eqn:E3; simpl; [|done].
  destruct (output_one_inv C L B K _ _ _ _ _ _ _ H2 Eu1 E3) as (H3 & F3 & U3 & A3 & k & -> & Hk & Hkl).
  assert (out_frame p p3) as F by (eapply out_frame_trans; [|exact F3]; by eapply out_frame_trans).
  destruct (IH p3 H3 Hw) as [Hmore Hres].
  { rewrite U3, decide_False by done. simpl in L1. lia. }
  split; [intros n; by rewrite Hmore|]. intros out p' E.
  destruct (output_loop fuel mem now wnd false p3) as [[o4 p4]|] eqn:E4; simpl in E; [|done]. injection E as <- <-.
  destruct (Hres _ _ eq_refl) as (H4 & F4 & O4).
  split_and!; [done|by eapply out_frame_trans|]. constructor.
  - destruct (inv_live C L B K p2 seg H2) as [Hok _]; [unfold all; rewrite Eu1; set_solver|].
    destruct (ok_len seg Hok) as [Hl0 _]. destruct F1 as (_ & _ & _ & La & _). unfold win_end in Ew. rewrite La in Ew. unfold in_window. by rewrite Hk, Hkl.
  - destruct F as (_ & _ & _ & La & _). by rewrite La in O4.
Qed.

(** ** The forced retransmission *)

(** The copy lies within a segment that is still there. *)
Definition copy_ok (L B : Z) (n : tcp_seg) : Prop :=
  LWIP_IS_DUMMY_SEGMENT n = false /\ data_hdr (hrf n) /\
  exists e, u32 (seqno n + len n) = u32 e /\ L - 2 ^ 16 < e <= B.

Definition same_queues (q q' : queues) : Prop :=
  unsent q' = unsent q /\ unacked q' = unacked q /\ last_unacked q' = last_unacked q /\
  snd_queuelen q' = snd_queuelen q /\ snd_buf q' = snd_buf q /\ snd_lbb q' = snd_lbb q /\
  (next_id q <= next_id q')%nat.

Lemma inv_same C L B K p p' : inv C L B K p -> out_frame p p' -> snd_scale (sn p') = snd_scale (sn p) ->
  (exists Y, snd_nxt (sn p') = u32 Y /\ L <= Y <= B) -> same_queues (qs p) (qs p') -> inv C L B K p'.
Proof using.
  intros H F S HY (Q1 & Q2 & Q3 & Q4 & Q5 & Q6 & Q7). assert (all p' = all p) as Ea by (unfold all; congruence).
  apply (inv_requeue C L B K p); try done; rewrite ?Ea, ?Q1, ?Q2, ?Q3; try apply H; [|done].
  eapply core_next; [exact Q7|]. apply H.
Qed.

Lemma find_target_spec C L B K p sq t : inv C L B K p -> find_target sq (unacked (qs p)) = Some t ->
  t ∈ unacked (qs p) /\ live L B t /\ s32 (seqno t + len t - sq) = seqno t + len t - sq /\ seqno t <= sq <= seqno t + len t.
Proof using.
  intros H Hf. unfold find_target in Hf. destruct (list_find _ _) as [[i t']|] eqn:Ef; simpl in Hf; [|done].
  injection Hf as ->. apply list_find_Some in Ef as (Hi & [H1 H2] & _). apply list_elem_of_lookup_2 in Hi.
  assert (live L B t) as Hl by (eapply inv_live; [done|unfold all; set_solver]).
  destruct (Hl) as [[Hlen Hseq _ _ _] _]. unfold TCP_HLEN in *.
  assert (sq <= seqno t + len t).
  { destruct (decide (seqno t + len t < 2 ^ 32)); [by rewrite wrap_small in H2 by lia|].
    assert (u32 (seqno t + len t) = seqno t + len t - 2 ^ 32); [|lia].
    unfold wrap. rewrite <- (Z.mod_add _ (-1)), Z.mod_small; lia. }
  split_and!; try done. apply s32_small. lia.
Qed.

Lemma peek_seq (t : Tlt.tcp_pcb) m m' s s' l l' : Tlt.tlt_uimpq_peek t m = Some (s, l) ->
  Tlt.tlt_uimpq_peek t m' = Some (s', l') -> s' = s.
Proof using.
  unfold Tlt.tlt_uimpq_peek. destruct (Tlt.slots _ !! 0%nat) as [h|]; simpl; [|done].
  case_decide; [|done]. intros E E'. by injection E as <- _; injection E' as <- _.
Qed.

Lemma pop_seq (t t' : Tlt.tcp_pcb) m m' r s s' l l' : Tlt.tlt_uimpq_peek t m = Some (s, l) ->
  Tlt.tlt_uimpq_pop t m' r = Some (Some (s', l'), t') -> s' = s.
Proof using.
  intros Hp. unfold Tlt.tlt_uimpq_pop. destruct (Tlt.tlt_uimpq_peek t m') as [[s'' l'']|] eqn:E; [|done].
  destruct (Tlt.tlt_segment_remove_round _ _ _ _ _); simpl; [|done]. intros E'. injection E' as <- <- _.
  by eapply peek_seq.
Qed.

(** What is put in front of [unsent], if anything is. *)
Lemma force_spec mem wnd p b p1 : force_retransmit mem wnd p = Some (b, p1) -> exists p2,
  rx p2 = rx p /\ cc p2 = cc p /\ iss p2 = iss p /\ sn p2 = sn p /\ same_queues (qs p) (qs p2) /\
  if b then exists n s l t m, p1 = set_qs (set_unsent (n :: unsent (qs p2)) (qs p2)) p2 /\
      Tlt.tlt_uimpq_peek (tlt_pcb p) m = Some (s, l) /\ (m = 1460 \/ m = 1) /\
      find_target (u32 (s + iss p)) (unacked (qs p)) = Some t /\ seqno n = u32 (s + iss p) /\ opts n = opts t /\
      hrf n = TCPH_HDRLEN_FLAGS_SET (5 + u8 (data_optlen p) / 4) 0 /\
      len n = u16 (u16 (Z.min m (s32 (seqno t + len t - seqno n)) + u8 (data_optlen p)) - u8 (data_optlen p))
  else p1 = p2.
Proof using.
  unfold force_retransmit. intros H.
  assert (same_queues (qs p) (qs p)) as Hid by (by split_and!).
  assert (Some (false, p) = Some (b, p1) -> exists p2, rx p2 = rx p /\ cc p2 = cc p /\ iss p2 = iss p /\ sn p2 = sn p /\
    same_queues (qs p) (qs p2) /\ b = false /\ p1 = p2) as Hno.
  { intros E. injection E as <- <-. by exists p. }
  destruct (unacked (qs p)) as [|u l] eqn:Eu; [destruct (Hno H) as (? & ?); destruct_and?; subst; eauto 10|].
  destruct (_ && _ && _ && _) in H; [|destruct (Hno H) as (? & ?); destruct_and?; subst; eauto 10].
  destruct (Tlt.tlt_is_lost _ _) as [lost|]; simpl in H; [|done].
  set (m := if lost then 1460 else 1) in *.
  destruct (Tlt.tlt_uimpq_peek _ _) as [[s ls]|] eqn:Ep;
    [|destruct (Hno H) as (? & ?); destruct_and?; subst; eauto 10].
  destruct (find_target _ _) as [t|] eqn:Et; [|destruct (Hno H) as (? & ?); destruct_and?; subst; eauto 10].
  destruct (Tlt.tlt_uimpq_pop _ _ _) as [[[[s' l']|] t']|] eqn:Eo; simpl in H; try done.
  apply (pop_seq _ _ _ _ _ _ _ _ _ Ep) in Eo as ->.
  assert (m = 1460 \/ m = 1) as Hm by (unfold m; destruct lost; auto). clearbody m.
  assert (forall q, unsent q = unsent (qs p) -> unacked q = unacked (qs p) -> last_unacked q = last_unacked (qs p) ->
    snd_queuelen q = snd_queuelen (qs p) -> snd_buf q = snd_buf (qs p) -> snd_lbb q = snd_lbb (qs p) ->
    (next_id (qs p) <= next_id q)%nat -> same_queues (qs p) q) as Hsq by (intros; unfold same_queues; by split_and!).
  destruct (mem _); [|injection H as <- Hp; exists p1; rewrite <- Hp; split_and!; try done; apply Hsq; try done; simpl; lia].
  destruct (seg_alloc (qs p) || _) eqn:Ea in H.
  - injection H as <- Hp. exists (set_qs (set_unsent (unsent (qs p)) (qs p1)) p1). rewrite <- Hp.
    split_and!; try done; [apply Hsq; try done; simpl; lia|].
    eexists _, s, ls, t, m. split_and!; [reflexivity|done..|]. simpl. by rewrite Z.add_0_r.
  - injection H as <- Hp. exists p1. rewrite <- Hp. split_and!; try done. apply Hsq; try done. simpl. lia.
Qed.

(** A forced retransmission that starts at the end of a segment carries no
    data.  The search for the segment that holds the first lost byte accepts a
    segment that ends right before it; so whenever the lost range begins where
    one unacknowledged segment ends and the next begins, the copy has length
    0, and the important packet is an empty one. *)
Theorem forced_retransmission_at_boundary mem wnd p p1 s l t :
  force_retransmit mem wnd p = Some (true, p1) -> Tlt.tlt_uimpq_peek (tlt_pcb p) 1460 = Some (s, l) ->
  find_target (u32 (s + iss p)) (unacked (qs p)) = Some t -> u32 (seqno t + len t) = u32 (s + iss p) ->
  exists n, unsent (qs p1) = n :: unsent (qs p) /\ len n = 0.
Proof using.
  intros Hf Hp Ht E. destruct (force_spec _ _ _ _ _ Hf) as (p2 & _ & _ & _ & _ & (Q & _) & n & s' & l' & t' & m & -> &
    Hp' & Hm & Ht' & Esn & _ & _ & En).
  pose proof (peek_seq _ _ _ _ _ _ _ Hp Hp') as ->. rewrite Ht in Ht'. injection Ht' as ->.
  exists n. simpl. rewrite Q. split; [done|]. rewrite En, Esn.
  assert (s32 (seqno t' + len t' - u32 (s + iss p)) = 0) as ->.
  { unfold s32. rewrite <- E, wrap_sub_r, Z.sub_diag. done. }
  rewrite Z.min_r by lia. rewrite wrap_sub_l, Z.add_0_l, Z.sub_diag. done.
Qed.

Lemma framed_out p p' : framed p p' -> out_frame p p'.
Proof using. intros (R & Ec & Ei & Es & _). unfold out_frame. by rewrite Es. Qed.

Lemma out_frame_rx p p' : rx p' = rx p -> cc p' = cc p -> iss p' = iss p -> sn p' = sn p -> out_frame p p'.
Proof using. intros Er Ec Ei Es. unfold out_frame, rx_same. by rewrite Er, Ec, Ei, Es. Qed.

(** The copy is sent and freed. *)
Lemma copy_sent_inv C L B K mem now n p out p' : inv C L B K p -> unsent (qs p) = [] -> copy_ok L B n ->
  output_one mem now true n [] (set_qs (set_unsent [n] (qs p)) p) = Some (out, p') ->
  inv C L B K p' /\ out_frame p p' /\ unsent (qs p') = [].
Proof using.
  intros H Eu (Hd & Hh & e & Ee & He) Ho. pose proof (v_window _ _ _ _ _ H) as HLB.
  destruct (v_nxt _ _ _ _ _ H) as (X & EX & HX).
  apply output_one_sent in Ho as (h & p3 & q & _ & F & _ & Hq & ->); [|done..]. simpl in Hq, F. injection Hq as <-.
  assert (set_qs (set_unsent [] (set_unsent [n] (qs p))) (set_qs (set_unsent [n] (qs p)) p) = p) as Ep.
  { destruct p as [? ? ? ? ? ? ? ? []]. simpl in *. by subst. }
  change (framed (set_qs (set_unsent [] (set_unsent [n] (qs p))) (set_qs (set_unsent [n] (qs p)) p)) p3) in F.
  rewrite Ep in F. pose proof (framed_inv _ _ _ _ _ _ H F) as H3. pose proof (framed_out _ _ F) as F3.
  destruct F as (_ & _ & _ & Es & Q & N). simpl. rewrite Ee, EX, seq_lt_u32 by lia.
  case_bool_decide as Hlt.
  - set (p4 := set_qs _ _).
    assert (out_frame p p4) as F4 by (destruct F3 as (? & ? & ? & ? & ?); by split_and!).
    split_and!; [|done|simpl; by rewrite Q].
    apply (inv_same C L B K p); [done|done|done|exists e; split; [done|lia]|]. simpl. rewrite Q. by split_and!.
  - assert (set_qs (qs p3) p3 = p3) as -> by by destruct p3. split_and!; [done|done|by rewrite Q].
Qed.

Lemma copy_in_target C L B K p n s l t m : inv C L B K p -> m = 1460 \/ m = 1 ->
  find_target (u32 (s + iss p)) (unacked (qs p)) = Some t -> seqno n = u32 (s + iss p) -> opts n = opts t ->
  hrf n = TCPH_HDRLEN_FLAGS_SET (5 + u8 (data_optlen p) / 4) 0 ->
  len n = u16 (u16 (Z.min m (s32 (seqno t + len t - seqno n)) + u8 (data_optlen p)) - u8 (data_optlen p)) ->
  Tlt.tlt_uimpq_peek (tlt_pcb p) m = Some (s, l) -> copy_ok L B n.
Proof using.
  intros H Hm Ht Es Eo Eh El _. destruct (data_optlen_0 _ _ _ _ _ H) as [E0 _]. rewrite E0, Z.add_0_r, Z.sub_0_r in El.
  destruct (find_target_spec _ _ _ _ _ _ _ H Ht) as (_ & Hlt & E32 & Hsq). rewrite <- Es in E32, Hsq.
  rewrite E32 in El. pose proof (live_pos L B t Hlt). destruct Hlt as [[Hl Hs _ Hdt _] Hst]. unfold TCP_HLEN in *.
  assert (len n = Z.min m (seqno t + len t - seqno n)) as En by (rewrite El, !wrap_small by (rewrite ?wrap_small; lia); done).
  split_and!.
  - unfold LWIP_IS_DUMMY_SEGMENT in *. by rewrite Eo.
  - rewrite Eh, E0. done.
  - exists (pos B t + (seqno n - seqno t) + len n). split; [|unfold stop in *; lia].
    transitivity (u32 (u32 (pos B t) + (seqno n - seqno t + len n))).
    + rewrite <- pos_seqno by done. f_equal. lia.
    + rewrite wrap_add_l. f_equal. lia.
Qed.

(** [tcp_output] keeps every byte, unless it forces a retransmission while
    data waits in [unsent]. *)
Lemma tcp_output_inv C L B K mem now p out p' : inv C L B K p ->
  (forall p1, force_retransmit mem (Z.min (snd_wnd (sn p)) (Cc.cwnd (cc p))) p = Some (true, p1) -> unsent (qs p) = []) ->
  tcp_output mem now p = Some (out, p') -> inv C L B K p' /\ out_frame p p'.
Proof using.
  intros H Hforce. unfold tcp_output. set (wnd := Z.min _ _) in *.
  assert (0 <= wnd <= 2 ^ 30) as Hw.
  { destruct (v_wnd _ _ _ _ _ H) as [? _]. destruct (Cc.cc_ok_word _ (v_cc _ _ _ _ _ H)) as [? _]. unfold wnd. lia. }
  destruct (_ && _).
  { intros E. injection E as E. assert (p' = (tcp_send_empty_ack mem p).2) as -> by (by rewrite E).
    pose proof (empty_ack_framed mem p) as F. split; [by eapply framed_inv|by apply framed_out]. }
  destruct (force_retransmit mem wnd p) as [[b p1]|] eqn:Ef; cbn [mbind option_bind]; [|done].
  destruct (force_spec _ _ _ _ _ Ef) as (p2 & Er & Ec & Ei & Es & Q & Hb).
  assert (out_frame p p2) as F2 by (by apply out_frame_rx).
  assert (inv C L B K p2) as H2.
  { apply (inv_same C L B K p); [done|done|by rewrite Es|rewrite Es; apply H|done]. }
  destruct (output_loop _ _ _ _ _ _) as [[o p3]|] eqn:El; cbn [mbind option_bind]; [|done].
  assert (inv C L B K p3 /\ out_frame p p3) as [H3 F3].
  { destruct b.
    - destruct Hb as (n & s & l & t & m & -> & Hp & Hm & Ht & Esn & Eo & Eh & En).
      pose proof (copy_in_target C L B K p n s l t m H Hm Ht Esn Eo Eh En Hp) as Hn.
      assert (unsent (qs p2) = []) as Eu by (destruct Q as [-> _]; by apply (Hforce _ eq_refl)).
      simpl in El. rewrite Eu in El. simpl in El. rewrite orb_true_r in El. unfold nagle in El. simpl in El.
      destruct (output_one _ _ _ _ _ _) as [[o1 p4]|] eqn:E1; simpl in El; [|done].
      apply (copy_sent_inv C L B K) in E1 as (H4 & F4 & U4); [|done..]. rewrite U4 in El. simpl in El.
      injection El as <- <-. split; [done|by eapply out_frame_trans].
    - subst p2. apply (output_loop_inv C L B K) in El; [|done|done|case_decide; lia].
      destruct El as (H3 & F3 & _). split; [done|by eapply out_frame_trans]. }
  set (p3' := if decide (unsent (qs p3) = []) then set_qs (set_unsent_oversize 0 (qs p3)) p3 else p3).
  assert (inv C L B K p3' /\ out_frame p p3') as [H3' F3'].
  { unfold p3'. case_decide; [|done]. split; [|by eapply out_frame_trans; [done|]; apply out_frame_rx].
    apply inv_oversize. by destruct p3. }
  clearbody p3'. clear p3 H3 F3 El. rename p3' into p3, H3' into H3, F3' into F3.
  pose proof (clear_flags_framed TF_NAGLEMEMERR p3 eq_refl) as F4.
  pose proof (framed_inv _ _ _ _ _ _ H3 F4) as H4. apply framed_out in F4.
  intros E. injection E as <- <-. destruct (seg_alloc _).
  - split; [done|by eapply out_frame_trans].
  - split; [|by eapply out_frame_trans; [by eapply out_frame_trans|]; apply out_frame_rx].
    apply (inv_same C L B K (clear_flags TF_NAGLEMEMERR p3)); [done|by apply out_frame_rx|done|apply H4|].
    split_and!; try done. simpl. lia.
Qed.

End out.

(** ** A lost range at a segment boundary *)

#[local] Existing Instance Cc.none_cc_algo.

(** Two segments are in flight and the second one was lost. *)
Definition ex_boundary : tcp_pcb Cc.none_cc_algo :=
  ex_pcb 100000 (Tlt.TltParam Tlt.Idle Tlt.Pending
    (Tlt.Queue (Tlt.TSeg 1001 1000 0 None :: replicate 255 Tlt.free_slot) 1) 5 0) 2001
    [ex_seg 0 1 1000; ex_seg 1 1001 1000] [].
Definition ex_boundary_1 : tcp_pcb Cc.none_cc_algo :=
  Eval vm_compute in match force_retransmit (fun _ => true) 100000 ex_boundary with Some r => r.2 | None => ex_boundary end.

Lemma forced_retransmission_at_boundary_witness : exists n, unsent (qs ex_boundary_1) = [n] /\ len n = 0.
Proof.
  apply (forced_retransmission_at_boundary (fun _ => true) 100000 ex_boundary ex_boundary_1 1001 1000 (ex_seg 0 1 1000));
    vm_compute; reflexivity.
Defined.
End SendOut.
