(* ===== verification/TcpWrite.v ===== *)
(** * Writing TCP data

    [tcp_write] with [tcp_write_checks] of src/src/vma/lwip/tcp_out.c: the three
    phases (the room behind the last buffer, a buffer chained to the last
    segment, new segments), the commit and the way out when memory or the queue
    limit is reached.  The connection is that of TcpSend. *)

From Stdlib Require Import Sorted.
From S2P Require Import Prelude TcpBase Tlt Dctcp TcpOpt TcpRecv Cc TcpSend TcpSendInv TcpSendOut.

Local Open Scope Z_scope.

Module Write.
Import Send SendInv SendOut.

Inductive err_t :=
  | ERR_OK | ERR_MEM | ERR_BUF | ERR_TIMEOUT | ERR_RTE | ERR_INPROGRESS | ERR_VAL | ERR_WOULDBLOCK
  | ERR_ABRT | ERR_RST | ERR_CLSD | ERR_CONN | ERR_ARG | ERR_USE | ERR_IF | ERR_ISCONN.
#[global] Instance err_t_eq_dec : EqDecision err_t.
Proof. solve_decision. Defined.

Definition TCP_SNDQUEUELEN_OVERFLOW : Z := 0xffffff - 3.

(** Whether the segment [id] of a list has a [next]. *)
Fixpoint has_next (id : nat) (l : list tcp_seg) : option bool :=
  match l with
  | [] => None
  | x :: l' => if decide (sid x = id) then Some (negb (bool_decide (l' = []))) else has_next id l'
  end.

(** [pcb->last_unsent] after it has been looked up ([unsent] is not empty);
    [None] is an access through a dangling pointer. *)
Definition tail_of (q : queues) : option nat :=
  match last_unsent q with
  | None => last_id (unsent q)
  | Some id =>
    b ← (match has_next id (unsent q) with Some b => Some b | None => has_next id (unacked q) end);
    if (b : bool) then last_id (unsent q) else Some id
  end.

Definition map_seg (id : nat) (f : tcp_seg -> tcp_seg) (l : list tcp_seg) : list tcp_seg :=
  (fun s => if decide (sid s = id) then f s else s) <$> l.

(** [n] more bytes in the last buffer. *)
Fixpoint grow_last (n : Z) (b : list buf) : list buf :=
  match b with
  | [] => []
  | [x] => [Buf (u16 (b_len x + n)) (b_ref x)]
  | x :: b => x :: grow_last n b
  end.

Definition push (s : tcp_seg) : tcp_seg := set_hrf (TCPH_SET_FLAG (hrf s) TCP_PSH) s.

Section write.
Context {A : Cc.cc_algo}.
Implicit Types p : tcp_pcb A.

Definition too_long (n : Z) p : bool :=
  bool_decide (n > max_unsent_len (qs p)) || bool_decide (n > TCP_SNDQUEUELEN_OVERFLOW).

Definition tcp_write_checks (n : Z) (p : tcp_pcb A) : err_t * tcp_pcb A :=
  match Recv.state (rx p) with
  | Recv.ESTABLISHED | Recv.CLOSE_WAIT | Recv.SYN_SENT | Recv.SYN_RCVD =>
    if decide (n = 0) then (ERR_OK, p)
    else if decide (n > snd_buf (qs p)) then (ERR_MEM, or_flags TF_NAGLEMEMERR p)
    else if bool_decide (snd_queuelen (qs p) >= max_unsent_len (qs p))
            || bool_decide (snd_queuelen (qs p) > TCP_SNDQUEUELEN_OVERFLOW)
    then (ERR_MEM, or_flags TF_NAGLEMEMERR p)
    else (ERR_OK, p)
  | _ => (ERR_CONN, p)
  end.

(** The local variables: [seg], [pos], [oversize], [oversize_used], the length
    of [concat_p], [queuelen] and [queue]. *)
Record locals := Locals {
  w_seg : option nat;
  w_pos : Z;
  w_oversize : Z;
  w_used : Z;
  w_concat : option Z;
  w_queuelen : Z;
  w_queue : list tcp_seg
}.

(** Phases 1 and 2 at the segment [t]; the flag tells whether memory was
    found. *)
Definition fill_tail (mem : nat -> bool) (n : Z) (t : tcp_seg) (p : tcp_pcb A) : bool * locals * tcp_pcb A :=
  let space := u16 (mss_local p - (len t + u16 (LWIP_TCP_OPT_LENGTH p (opts t)))) in
  let oversize := unsent_oversize (qs p) in
  let used := if decide (oversize > 0) then Z.min oversize n else 0 in
  let seg := if decide (oversize > 0) then Some (sid t) else None in
  let oversize := oversize - used in
  let space := u16 (space - used) in
  let w := Locals seg used oversize used None (snd_queuelen (qs p)) [] in
  if bool_decide (used < n) && bool_decide (space > 0) && bool_decide (len t > 0) then
    let seglen := u16 (Z.min space (n - used)) in
    let oversize := prealloc_oversize seglen space true true p in
    let '(ok, p) := alloc mem p in
    (ok, Locals (Some (sid t)) (used + seglen) oversize used (Some seglen) (u32 (snd_queuelen (qs p) + 1)) [], p)
  else (true, w, p).

(** Phase 3.  Each iteration makes [queuelen] longer, so that the limit ends
    the loop if nothing else does; [None] is no fuel. *)
Fixpoint write_loop (fuel : nat) (mem : nat -> bool) (n optflags : Z) (w : locals) (p : tcp_pcb A)
  : option (bool * locals * tcp_pcb A) :=
  if decide (w_pos w < n) then
    match fuel with
    | O => None
    | S fuel =>
      let optlen := u8 (LWIP_TCP_OPT_LENGTH p optflags) in
      let max_len := u16 (mss_local p - optlen) in
      let seglen := Z.min (n - w_pos w) max_len in
      let length := u16 (seglen + optlen) in
      let oversize := prealloc_oversize length max_len true (bool_decide (w_queue w = [])) p in
      let '(ok, p) := alloc mem p in
      if ok then
        let queuelen := u32 (w_queuelen w + 1) in
        if too_long queuelen p then Some (false, w, p)
        else
          let '(ns, p) := tcp_create_segment mem [Buf length 1] (u32 (snd_lbb (qs p) + w_pos w)) optflags p in
          match ns with
          | None => Some (false, w, p)
          | Some seg =>
            write_loop fuel mem n optflags
              (Locals (Some (sid seg)) (u32 (w_pos w + seglen)) oversize (w_used w) (w_concat w) queuelen
                 (w_queue w ++ [seg])) p
          end
      else Some (false, w, p)
    end
  else Some (true, w, p).

(** What phases 1 and 2 add to the segment. *)
Definition extend (w : locals) (s : tcp_seg) : tcp_seg :=
  let s := if decide (w_used w > 0) then set_bufs (grow_last (w_used w) (bufs s)) (u16 (len s + w_used w)) s else s in
  match w_concat w with
  | Some m => set_bufs (bufs s ++ [Buf m 1]) (u16 (len s + m)) s
  | None => s
  end.

(** The two lists with [queue] behind [tl], which is [pcb->last_unsent]. *)
Definition link_queue (tl : option nat) (w : locals) (q : queues) : list tcp_seg * list tcp_seg :=
  match tl with
  | None => (w_queue w, unacked q)
  | Some id =>
    let us := map_seg id (extend w) (unsent q) in
    let ua := map_seg id (extend w) (unacked q) in
    match has_next id (unsent q) with Some _ => (us ++ w_queue w, ua) | None => (us, ua ++ w_queue w) end
  end.

(** "We can commit the transaction". *)
Definition commit (n : Z) (tl : option nat) (w : locals) (q : queues) : queues :=
  let '(us, ua) := link_queue tl w q in
  let '(us, ua) := match w_seg w with
                   | Some id => (map_seg id push us, map_seg id push ua)
                   | None => (us, ua)
                   end in
  set_unsent_oversize (w_oversize w)
    (set_snd_queuelen (w_queuelen w)
      (set_snd_buf (u32 (snd_buf q - n)) (set_snd_lbb (u32 (snd_lbb q + n))
        (set_last_unsent (w_seg w) (set_unacked ua (set_unsent us q)))))).

Definition write_fuel (p : tcp_pcb A) : nat := Z.to_nat (max_unsent_len (qs p) + 2).

(** The phases after the checks. *)
Definition write_data (mem : nat -> bool) (n optflags : Z) (p : tcp_pcb A) : option (err_t * tcp_pcb A) :=
  '(ok, w, p) ←
    (match unsent (qs p) with
     | [] =>
       Some (true, Locals None 0 0 0 None (snd_queuelen (qs p)) [], set_qs (set_last_unsent None (qs p)) p)
     | us =>
       id ← tail_of (qs p);
       t ← deref id (us ++ unacked (qs p));
       Some (fill_tail mem n t (set_qs (set_last_unsent (Some id) (qs p)) p))
     end);
  '(ok, w, p) ← (if (ok : bool) then write_loop (write_fuel p) mem n optflags w p else Some (false, w, p));
  Some (if (ok : bool) then (ERR_OK, set_qs (commit n (last_unsent (qs p)) w (qs p)) p)
        else (ERR_MEM, or_flags TF_NAGLEMEMERR p)).

(** [arg] tells whether the data pointer is not [NULL]. *)
Definition tcp_write (mem : nat -> bool) (arg : bool) (n : Z) (is_dummy : bool) (p : tcp_pcb A)
  : option (err_t * tcp_pcb A) :=
  let p := if bool_decide (n < Recv.mss (rx p)) && negb is_dummy then
             let s := sn p in
             let l := match unacked (qs p) with u :: _ => len u | [] => 0 end in
             set_sn (Sender (snd_nxt s) (snd_wnd s) (snd_wnd_max s) (snd_wl1 s) (snd_wl2 s) (lastack s) (acked s)
                       (snd_scale s) (dupacks s) (snd_sml_snt s) (u32 (l + u32 (snd_nxt s - lastack s)))) p
           else p in
  if negb arg then Some (ERR_ARG, p)
  else
    let '(e, p) := tcp_write_checks n p in
    match e with
    | ERR_OK => write_data mem n (Z.lor (if is_dummy then TF_SEG_OPTS_DUMMY_MSG else 0) (data_optflags p)) p
    | _ => Some (e, p)
    end.
End write.

(** ** The loop ends *)

Section write_spec.
Context {A : Cc.cc_algo}.
Implicit Types p : tcp_pcb A.

Lemma create_max mem b sq o p : max_unsent_len (qs (tcp_create_segment mem b sq o p).2) = max_unsent_len (qs p).
Proof using. done. Qed.

Lemma write_loop_ends fuel mem n o w p : 0 <= w_queuelen w < 2 ^ 31 ->
  Z.max 0 (max_unsent_len (qs p) - w_queuelen w) < Z.of_nat fuel -> write_loop fuel mem n o w p <> None.
Proof using.
  revert w p. induction fuel as [|fuel IH]; intros w p Hq Hf; simpl; [lia|].
  case_decide; [|done]. destruct (mem _); [|done]. unfold too_long. cbn [max_unsent_len qs set_qs set_next_id].
  rewrite (wrap_small 32) by lia. case_bool_decide as E1; [done|]. case_bool_decide as E2; [done|]. cbn [orb].
  destruct (seg_alloc _ || _); [|done]. apply IH; simpl; unfold TCP_SNDQUEUELEN_OVERFLOW in *; lia.
Qed.

(** ** Errors *)

(** What a failed [tcp_write] leaves alone. *)
Definition untouched (q q' : queues) : Prop :=
  same_queues q q' /\ unsent_oversize q' = unsent_oversize q /\ max_unsent_len q' = max_unsent_len q.

Lemma untouched_refl q : untouched q q.
Proof using. by split_and!. Qed.
Lemma untouched_trans q q' q'' : untouched q q' -> untouched q' q'' -> untouched q q''.
Proof using. unfold untouched, same_queues. intros. destruct_and?. split_and!; try congruence. lia. Qed.

Lemma alloc_untouched mem p : untouched (qs p) (qs (alloc mem p).2).
Proof using. unfold untouched, same_queues. split_and!; try done. simpl. lia. Qed.

Lemma create_untouched mem b sq o p : untouched (qs p) (qs (tcp_create_segment mem b sq o p).2).
Proof using. unfold untouched, same_queues. split_and!; try done. simpl. lia. Qed.

(** Until the commit the phases work on local variables. *)
Lemma write_loop_untouched fuel mem n o w p ok w' p' : write_loop fuel mem n o w p = Some (ok, w', p') ->
  untouched (qs p) (qs p') /\ last_unsent (qs p') = last_unsent (qs p) /\ rx p' = rx p /\ sn p' = sn p /\ cc p' = cc p /\ iss p' = iss p.
Proof using.
  revert w p. induction fuel as [|fuel IH]; intros w p; simpl.
  { case_decide; [done|]. intros E. injection E as <- <- <-. by split_and!. }
  case_decide; [|intros E; injection E as <- <- <-; by split_and!].
  pose proof (alloc_untouched mem p) as Ha. simpl in Ha.
  set (p1 := set_qs (set_next_id (S (next_id (qs p))) (qs p)) p) in *.
  destruct (mem _); [|intros E; injection E as <- <- <-; by split_and!].
  destruct (too_long _ _); [intros E; injection E as <- <- <-; by split_and!|].
  set (p3 := (tcp_create_segment mem [] 0 0 p1).2).
  assert (untouched (qs p) (qs p3)) as Hc.
  { eapply untouched_trans; [exact Ha|]. apply create_untouched. }
  destruct (seg_alloc _ || _).
  - intros E. destruct (IH _ _ E) as (H1 & H2 & H3 & H4 & H5 & H6). split_and!; try done.
    eapply untouched_trans; [exact Hc|done].
  - intros E. injection E as <- <- <-. by split_and!.
Qed.

Lemma fill_tail_untouched mem n t p ok w p' : fill_tail mem n t p = (ok, w, p') ->
  untouched (qs p) (qs p') /\ last_unsent (qs p') = last_unsent (qs p) /\ rx p' = rx p /\ sn p' = sn p /\ cc p' = cc p /\ iss p' = iss p.
Proof using.
  unfold fill_tail. destruct (_ && _); intros E; injection E as <- <- <-; (split; [|done]);
    [apply (alloc_untouched mem)|apply untouched_refl].
Qed.

(** What is left of the connection when the checks or the phases fail: the
    queues and the sequence numbers, only the flag is set. *)
Definition write_failed p p' : Prop :=
  untouched (qs p) (qs p') /\ cc p' = cc p /\ iss p' = iss p /\
  (rx p' = rx p \/ rx p' = rx (or_flags TF_NAGLEMEMERR p)) /\
  snd_nxt (sn p') = snd_nxt (sn p) /\ lastack (sn p') = lastack (sn p) /\ snd_wnd (sn p') = snd_wnd (sn p) /\
  snd_scale (sn p') = snd_scale (sn p).

Lemma write_data_error mem n o p e p' : write_data mem n o p = Some (e, p') -> e <> ERR_OK -> write_failed p p'.
Proof using.
  unfold write_data. intros H He.
  assert (forall p1 ok w ok2 w2 p2, untouched (qs p) (qs p1) -> rx p1 = rx p -> sn p1 = sn p -> cc p1 = cc p -> iss p1 = iss p ->
    (if (ok : bool) then write_loop (write_fuel p1) mem n o w p1 else Some (false, w, p1)) = Some (ok2, w2, p2) ->
    (if (ok2 : bool) then (ERR_OK, set_qs (commit n (last_unsent (qs p2)) w2 (qs p2)) p2)
        else (ERR_MEM, or_flags TF_NAGLEMEMERR p2)) = (e, p') -> write_failed p p') as Hloop.
  { intros p1 ok w ok2 w2 p2 Hu Er Es Ec Ei Hl E.
    assert (untouched (qs p) (qs p2) /\ rx p2 = rx p /\ sn p2 = sn p /\ cc p2 = cc p /\ iss p2 = iss p) as (U & R & S & C & I).
    { destruct ok; [|injection Hl as <- <- <-; by split_and!].
      destruct (write_loop_untouched _ _ _ _ _ _ _ _ _ Hl) as (H1 & _ & H3 & H4 & H5 & H6).
      split_and!; [by eapply untouched_trans|congruence..]. }
    destruct ok2; injection E as <- <-; [done|]. unfold write_failed. simpl. rewrite S. split_and!; try done.
    right. by rewrite R. }
  destruct (unsent (qs p)) as [|u us] eqn:Eu; simpl in H.
  - match goal with H : context [write_loop (write_fuel ?q) mem n o ?w0 ?q] |- _ =>
      destruct (write_loop (write_fuel q) mem n o w0 q) as [[[ok2 w2] p2]|] eqn:El; [|done] end.
    simpl in H. injection H as H. eapply (Hloop _ true _ ok2 w2 p2); [..|exact El|exact H]; try done.
  - destruct (tail_of (qs p)) as [id|]; simpl in H; [|done].
    destruct (deref _ _) as [t|]; simpl in H; [|done].
    destruct (fill_tail _ _ _ _) as [[ok w] p1] eqn:Ef. cbn [mbind option_bind] in H.
    destruct (fill_tail_untouched _ _ _ _ _ _ _ Ef) as (U & _ & R & S & C & I).
    destruct (if ok then _ else _) as [[[ok2 w2] p2]|] eqn:El; [|done]. simpl in H. injection H as H.
    eapply (Hloop p1); [|done..]. eapply untouched_trans; [|exact U]. unfold untouched, same_queues. by split_and!.
Qed.

Lemma write_error mem arg n d p e p' : tcp_write mem arg n d p = Some (e, p') -> e <> ERR_OK ->
  write_failed p p'.
Proof using.
  unfold tcp_write. intros H He.
  match type of H with context [if ?b then set_sn _ p else p] => set (p0 := if b then set_sn _ p else p) in H end.
  cut (write_failed p0 p'); [unfold p0; by destruct (_ && _)|].
  destruct arg; simpl in H; [|injection H as <- <-; unfold write_failed; by split_and!; auto using untouched_refl].
  unfold tcp_write_checks in H.
  destruct (Recv.state (rx p0)); try (injection H as <- <-; unfold write_failed; by split_and!; auto using untouched_refl).
  all: repeat (destruct (decide _) in H || destruct (_ || _) in H).
  all: try (injection H as <- <-; unfold write_failed; split_and!; auto using untouched_refl; done).
  all: by eapply write_data_error.
Qed.

(** C9: A [tcp_write] that fails changes nothing of the queues.  Whatever the
    connection and wherever the write fails (no data pointer, state, send buffer,
    queue limit, no buffer or no segment), both queues with their segments, the length of
    the queue, the space in the send buffer, the sequence number of the next
    byte and the room behind the last segment are what they were. *)
Theorem tcp_write_error_keeps_queues mem arg n d p e p' : tcp_write mem arg n d p = Some (e, p') -> e <> ERR_OK ->
  write_failed p p'.
Proof using. apply write_error. Qed.
End write_spec.

(** ** Data behind the last byte *)

Lemma pos_grow L B B' s : L <= B <= B' -> B' <= L + 2 ^ 30 -> live L B s -> pos B' s = pos B s.
Proof.
  intros H1 H2 Hs. pose proof (live_pos L B s Hs). apply pos_eq; [|lia]. apply pos_seqno. apply Hs.
Qed.

Lemma sorted_grow L B B' l : L <= B <= B' -> B' <= L + 2 ^ 30 -> (forall s, s ∈ l -> live L B s) -> sorted B l -> sorted B' l.
Proof.
  intros H1 H2. induction l as [|s l IH]; intros Hl H; [constructor|]. apply sorted_inv in H as [H Hs].
  apply sorted_cons; [apply IH; [|done]; intros; apply Hl; by right|]. intros t Ht.
  rewrite !(pos_grow L B B') by (done || apply Hl; by (left || right)). by apply Hs.
Qed.

Section grow.
Context (L B B' : Z) (HB : L <= B <= B') (HB' : B' <= L + 2 ^ 30).

Lemma live_grow s : live L B s -> pos B' s = pos B s /\ stop B' s = stop B s.
Proof using HB HB'. intros Hs. unfold stop. by rewrite (pos_grow L B B'). Qed.

(** A new segment [B, B') behind everything. *)
Lemma core_append K nid nid' s l : core L B K nid l -> (nid <= sid s < nid')%nat -> seg_ok s ->
  seqno s = u32 B -> len s = B' - B -> core L B' K nid' (l ++ [s]).
Proof using HB HB'.
  intros [Hn Hi Ho Ha Hc] Hid Hok Hs Hl. pose proof (ok_len s Hok).
  assert (pos B' s = B /\ stop B' s = B') as [P1 P2].
  { assert (pos B' s = B) by (apply pos_eq; [done|lia]). unfold stop. lia. }
  assert (forall t, t ∈ l -> pos B' t = pos B t /\ stop B' t = stop B t /\ stop B t <= B) as Hg.
  { intros t Ht. destruct (live_grow t (Ho t Ht)). destruct (Ho t Ht) as [_ ?]. split_and!; lia. }
  split.
  - rewrite fmap_app. apply list.NoDup_app. split_and!; [done| |apply NoDup_singleton].
    intros x (t & -> & Ht)%list_elem_of_fmap. specialize (Hi t Ht). simpl. intros E%list_elem_of_singleton. lia.
  - intros t [Ht|Ht%list_elem_of_singleton]%elem_of_app; [specialize (Hi t Ht)|subst]; lia.
  - intros t [Ht|Ht%list_elem_of_singleton]%elem_of_app; [|subst; split; [done|lia]].
    destruct (Ho t Ht) as [? ?]. destruct (Hg t Ht) as (_ & -> & _). split; [done|lia].
  - intros t u [Ht|Ht%list_elem_of_singleton]%elem_of_app [Hu|Hu%list_elem_of_singleton]%elem_of_app Hne; subst; unfold apart.
    + destruct (Hg t Ht) as (-> & -> & _), (Hg u Hu) as (-> & -> & _). by apply Ha.
    + destruct (Hg t Ht) as (_ & -> & ?). left. lia.
    + destruct (Hg u Hu) as (_ & -> & ?). right. lia.
    + done.
  - intros x Hx. destruct (decide (x < B)).
    + destruct (Hc x) as [?|(t & Ht & Hxt)]; [lia|by left|]. right. exists t. split; [set_solver|].
      destruct (Hg t Ht) as (-> & -> & _). done.
    + right. exists s. split; [set_solver|lia].
Qed.

(** The segment that ends at [B] is extended to [B']. *)
Lemma core_extend K nid s s' l1 l2 : core L B K nid (l1 ++ s :: l2) -> sid s' = sid s -> seg_ok s' ->
  seqno s' = seqno s -> len s' = len s + (B' - B) -> stop B s = B -> core L B' K nid (l1 ++ s' :: l2).
Proof using HB HB'.
  intros Hc E1 Hok E2 E3 E4.
  assert (l1 ++ s :: l2 ≡ₚ s :: l1 ++ l2) as Hp by by rewrite Permutation_middle.
  apply (core_perm _ _ _ _ _ _ Hp) in Hc.
  apply (core_perm _ _ _ _ (s' :: l1 ++ l2)); [by rewrite Permutation_middle|]. clear Hp. revert Hc.
  generalize (l1 ++ l2). clear l1 l2. intros l Hc.
  assert (forall t, t ∈ s :: l -> live L B t) as Hlive by apply (c_ok _ _ _ _ _ Hc).
  assert (pos B' s' = pos B s) as P1.
  { unfold pos. rewrite E2. fold (pos B' s). fold (pos B s). apply live_grow, Hlive. by left. }
  assert (stop B' s' = B') as P2 by (unfold stop in *; lia).
  pose proof Hc as [Hn Hi Ho Ha Hcov]. destruct (Hlive s ltac:(by left)) as [Hoks Hst]. pose proof (ok_len s Hoks).
  assert (forall t, t ∈ l -> pos B' t = pos B t /\ stop B' t = stop B t /\ stop B t <= pos B s) as Hg.
  { intros t Ht. destruct (live_grow t (Hlive t ltac:(by right))). split_and!; try lia.
    rewrite fmap_cons in Hn. apply list.NoDup_cons in Hn as [Hn _].
    destruct (Ha t s) as [?|?]; [by right|by left| |done|].
    - intros E. apply Hn. rewrite <- E. by apply list_elem_of_fmap_2.
    - destruct (Hlive t ltac:(by right)) as [[? _ _ _ _] ?]. unfold stop in *. lia. }
  split.
  - rewrite fmap_cons, E1. by rewrite fmap_cons in Hn.
  - intros t [->|Ht]%elem_of_cons; [rewrite E1; apply Hi; by left|apply Hi; by right].
  - intros t [->|Ht]%elem_of_cons; [split; [done|lia]|].
    destruct (Hlive t ltac:(by right)) as [? ?]. destruct (Hg t Ht) as (_ & -> & _). split; [done|lia].
  - intros t u [->|Ht]%elem_of_cons [->|Hu]%elem_of_cons Hne; [done| | |]; unfold apart.
    + destruct (Hg u Hu) as (_ & -> & ?). right. lia.
    + destruct (Hg t Ht) as (_ & -> & ?). left. lia.
    + destruct (Hg t Ht) as (-> & -> & _), (Hg u Hu) as (-> & -> & _). apply Ha; [by right..|done].
  - intros x Hx. destruct (decide (x < B)).
    + destruct (Hcov x) as [?|(t & [->|Ht]%elem_of_cons & Hxt)]; [lia|by left| |].
      * right. exists s'. split; [by left|lia].
      * right. exists t. split; [by right|]. destruct (Hg t Ht) as (-> & -> & _). done.
    + right. exists s'. split; [by left|]. unfold stop in *. lia.
Qed.
End grow.

(** ** One segment of a list *)

Lemma map_seg_other id f l : (forall s, s ∈ l -> sid s <> id) -> map_seg id f l = l.
Proof.
  intros H. unfold map_seg. induction l as [|s l IH]; [done|]. rewrite fmap_cons, decide_False by (apply H; by left).
  f_equal. apply IH. intros. apply H. by right.
Qed.

Lemma core_map L B K nid f l : (forall s, sid (f s) = sid s /\ pos B (f s) = pos B s /\ stop B (f s) = stop B s /\
    (seg_ok s -> seg_ok (f s))) -> core L B K nid l -> core L B K nid (f <$> l).
Proof.
  intros Hf [Hn Hi Ho Ha Hc].
  assert (sid <$> (f <$> l) = sid <$> l) as Es.
  { rewrite <- list_fmap_compose. apply list_fmap_ext. intros ? s _. simpl. by destruct (Hf s). }
  split.
  - by rewrite Es.
  - intros t (s & -> & Hs)%list_elem_of_fmap. destruct (Hf s) as (-> & _). by apply Hi.
  - intros t (s & -> & Hs)%list_elem_of_fmap. destruct (Hf s) as (_ & _ & -> & Hok). destruct (Ho s Hs). auto.
  - intros t u (s & -> & Hs)%list_elem_of_fmap (s' & -> & Hs')%list_elem_of_fmap.
    unfold apart. destruct (Hf s) as (-> & -> & -> & _), (Hf s') as (-> & -> & -> & _). by apply Ha.
  - intros x Hx. destruct (Hc x Hx) as [?|(s & Hs & Hxs)]; [by left|]. right. exists (f s).
    destruct (Hf s) as (_ & -> & -> & _). split; [by apply list_elem_of_fmap_2|done].
Qed.

Lemma sorted_map B f l : (forall s, pos B (f s) = pos B s) -> sorted B l -> sorted B (f <$> l).
Proof.
  intros Hf. induction l as [|s l IH]; intros H; [constructor|]. apply sorted_inv in H as [H Hs].
  rewrite fmap_cons. apply sorted_cons; [by apply IH|]. intros t (u & -> & Hu)%list_elem_of_fmap. rewrite !Hf. by apply Hs.
Qed.

Lemma push_same B id s : let s' := if decide (sid s = id) then push s else s in
  sid s' = sid s /\ pos B s' = pos B s /\ stop B s' = stop B s /\ (seg_ok s -> seg_ok s').
Proof.
  case_decide; simpl; [|done]. split_and!; try done. intros []. split; try done. by apply set_flag_hdr.
Qed.

Lemma clens_map f l : (forall s, pbuf_clen (f s) = pbuf_clen s) -> clens (f <$> l) = clens l.
Proof. intros Hf. induction l as [|s l IH]; [done|]. rewrite fmap_cons. simpl. by rewrite Hf, IH. Qed.

Lemma last_id_map f l : (forall s, sid (f s) = sid s) -> last_id (f <$> l) = last_id l.
Proof.
  intros Hf. induction l as [|s l IH]; [done|]. destruct l as [|t l]; simpl; [by rewrite Hf|]. simpl in IH. done.
Qed.

(** ** A write that succeeds *)

Section write_ok.
Context {A : Cc.cc_algo} {LA : Cc.cc_laws A}.
Implicit Types p : tcp_pcb A.

(** A segment of [m] bytes made by [tcp_write]. *)
Definition fresh_seg (id : nat) (m sq : Z) : tcp_seg :=
  Seg id [Buf (m + TCP_HLEN) 1] m sq (TCPH_HDRLEN_FLAGS_SET 5 0) 0.

Lemma fresh_ok id m sq : 0 < m < 2 ^ 16 - TCP_HLEN -> 0 <= sq < 2 ^ 32 -> seg_ok (fresh_seg id m sq).
Proof using. intros Hm Hs. split; simpl; try done. split_and!; simpl; unfold TCP_HLEN in *; done || lia. Qed.

Lemma loop_step fuel mem n w p w' p' : w_pos w < n -> 0 <= w_pos w -> n < 2 ^ 32 ->
  LWIP_TCP_OPT_LENGTH p 0 = 0 -> 0 < mss_local p < 2 ^ 16 - TCP_HLEN ->
  write_loop (S fuel) mem n 0 w p = Some (true, w', p') ->
  exists o, write_loop fuel mem n 0
    (Locals (Some (S (next_id (qs p)))) (w_pos w + Z.min (n - w_pos w) (mss_local p)) o (w_used w) (w_concat w)
       (u32 (w_queuelen w + 1))
       (w_queue w ++ [fresh_seg (S (next_id (qs p))) (Z.min (n - w_pos w) (mss_local p)) (u32 (snd_lbb (qs p) + w_pos w))]))
    (set_qs (set_seg_alloc false (set_next_id (S (S (next_id (qs p)))) (qs p))) p) = Some (true, w', p').
Proof using.
  intros Hlt Hp Hn Eo Hm. cbn [write_loop]. rewrite decide_True by done. cbn [alloc].
  destruct (mem _); [|done]. destruct (too_long _ _); [done|].
  rewrite Eo. unfold tcp_create_segment. cbn [alloc]. change (LWIP_TCP_OPT_LENGTH _ 0) with (LWIP_TCP_OPT_LENGTH p 0).
  rewrite Eo. unfold TCP_HLEN in Hm. rewrite (wrap_small 8), !Z.sub_0_r, (wrap_small 16 (mss_local p)) by lia.
  set (m := Z.min _ _). assert (0 < m < 2 ^ 16 - 20) as Hm' by lia.
  rewrite Z.add_0_r, (wrap_small 16 m) by lia. destruct (_ || _); [|done].
  cbn [sid b_len b_ref tot_len foldr]. unfold TCP_HLEN. rewrite !Z.add_0_r.
  rewrite (wrap_small 16 (m + 20)), (wrap_small 16 m), (wrap_small 32 (w_pos w + m)) by lia. eauto.
Qed.

Lemma loop_spec L B K n ua us fuel mem w p w' p' : L <= B -> B + n <= L + 2 ^ 30 -> 0 <= w_pos w <= n -> n < 2 ^ 32 ->
  LWIP_TCP_OPT_LENGTH p 0 = 0 -> 0 < mss_local p < 2 ^ 16 - TCP_HLEN -> snd_lbb (qs p) = u32 B ->
  core L (B + w_pos w) K (next_id (qs p)) (ua ++ us ++ w_queue w) -> sorted (B + w_pos w) (us ++ w_queue w) ->
  w_queuelen w = u32 (clens (ua ++ us ++ w_queue w)) ->
  write_loop fuel mem n 0 w p = Some (true, w', p') ->
  core L (B + n) K (next_id (qs p')) (ua ++ us ++ w_queue w') /\ sorted (B + n) (us ++ w_queue w') /\
  w_queuelen w' = u32 (clens (ua ++ us ++ w_queue w')) /\ w_used w' = w_used w /\ w_concat w' = w_concat w.
Proof using.
  intros HLB HBn. revert w p. induction fuel as [|fuel IH]; intros w p Hp Hn Eo Hm El Hc Hs Hq.
  { simpl. case_decide; [done|]. intros E. injection E as <- <-. assert (w_pos w = n) as E by lia. rewrite E in *. by split_and!. }
  destruct (decide (w_pos w < n)) as [Hlt|Hlt].
  2: { simpl. rewrite decide_False by done. intros E. injection E as <- <-. assert (w_pos w = n) as E by lia.
       rewrite E in *. by split_and!. }
  intros (o & Hl)%loop_step; [|done||lia..]. set (m := Z.min _ _) in Hl.
  assert (0 < m < 2 ^ 16 - TCP_HLEN /\ m <= n - w_pos w) as [Hm' Hmn] by (unfold TCP_HLEN in *; lia). clearbody m.
  set (seg := fresh_seg _ _ _) in Hl.
  assert (seg_ok seg) as Hok by (apply fresh_ok; [done|apply wrap_range; lia]).
  assert (seqno seg = u32 (B + w_pos w)) as Esq by (unfold seg; simpl; by rewrite El, wrap_add_l).
  assert (forall t, t ∈ ua ++ us ++ w_queue w -> live L (B + w_pos w) t) as Hlive by apply (c_ok _ _ _ _ _ Hc).
  eapply IH in Hl; simpl; try done; simpl; [lia| | |].
  - rewrite Z.add_assoc, !app_assoc, <- (app_assoc ua).
    eapply (core_append L (B + w_pos w) (B + w_pos w + m)); [lia..|exact Hc|simpl; lia|done|done|simpl; lia].
  - rewrite Z.add_assoc, app_assoc. apply sorted_app.
    + eapply (sorted_grow L (B + w_pos w)); [lia..| |done]. intros t Ht. apply Hlive. set_solver.
    + apply sorted_cons; [constructor|set_solver].
    + intros t u Ht ->%list_elem_of_singleton.
      assert (live L (B + w_pos w) t) as Ht' by (apply Hlive; set_solver).
      destruct (live_grow L (B + w_pos w) (B + w_pos w + m) ltac:(lia) ltac:(lia) t Ht') as [-> _].
      rewrite (pos_eq (B + w_pos w + m) (B + w_pos w) seg) by (done || lia).
      pose proof (live_pos _ _ _ Ht'). lia.
  - rewrite Hq, wrap_add_l. f_equal. rewrite !clens_app. simpl.
    rewrite (clen_small 1 seg) by (done || lia). lia.
Qed.

Lemma grow_last_len u l : length (grow_last u l) = length l.
Proof using. induction l as [|x [|y l] IH]; [done..|]. simpl in *. by rewrite IH. Qed.

Lemma grow_last_pos u l : 0 <= u -> Forall (fun b => 0 < b_len b) l -> tot_len l + u < 2 ^ 16 ->
  Forall (fun b => 0 < b_len b) (grow_last u l) /\ (l <> [] -> tot_len (grow_last u l) = tot_len l + u).
Proof using.
  intros Hu H. induction H as [|x l Hx Hl IH]; intros Ht; [done|].
  destruct (tot_len_pos l Hl) as [Hl0 _]. cbn [tot_len foldr] in Ht. fold (tot_len l) in Ht.
  destruct l as [|y l].
  - cbn [grow_last tot_len foldr] in *. rewrite wrap_small by lia. split; [repeat constructor; simpl; lia|simpl; lia].
  - destruct IH as [IH1 IH2]; [lia|]. cbn [grow_last]. split; [by constructor|]. intros _.
    change (b_len x + tot_len (grow_last u (y :: l)) = b_len x + tot_len (y :: l) + u). rewrite IH2 by done. lia.
Qed.

Lemma grow_last_ok n u l : bufs_ok n l -> 0 <= u -> n + u < 2 ^ 16 - TCP_HLEN -> bufs_ok (n + u) (grow_last u l).
Proof using.
  destruct l as [|b bs]; simpl; [done|]. intros (Hb & Hbs & Ht & Hc) Hu Hn. unfold TCP_HLEN in *.
  destruct (tot_len_pos bs Hbs) as [Hbs0 _].
  destruct bs as [|y bs].
  - simpl in *. rewrite wrap_small by lia. unfold TCP_HLEN. split_and!; simpl; try done; lia.
  - destruct (grow_last_pos u (y :: bs) Hu Hbs) as [H1 H2]; [lia|].
    pose proof (grow_last_len u (y :: bs)) as H3. cbn [bufs_ok]. split_and!; [done|done| |lia].
    change (b_len b + tot_len (grow_last u (y :: bs)) = TCP_HLEN + (n + u)). rewrite H2 by done. unfold TCP_HLEN. lia.
Qed.

Lemma chain_ok n m l : bufs_ok n l -> 0 < m -> (length l < 255)%nat -> bufs_ok (n + m) (l ++ [Buf m 1]).
Proof using.
  destruct l as [|b bs]; simpl; [done|]. intros (Hb & Hbs & Ht & Hc) Hm Hl. unfold TCP_HLEN in *. split_and!.
  - done.
  - apply list.Forall_app. split; [done|]. by repeat constructor.
  - rewrite tot_len_app. simpl. lia.
  - rewrite length_app. simpl. lia.
Qed.

(** The last segment can take what [unsent_oversize] promises. *)
Record tail_ok (B : Z) (t : tcp_seg) p : Prop := {
  t_end : stop B t = B;
  t_opts : opts t = 0;
  t_bufs : (length (bufs t) < 255)%nat;
  t_room : 0 <= unsent_oversize (qs p) /\ len t + unsent_oversize (qs p) <= mss_local p
}.

Lemma fill_spec B mem n t p w p1 : seg_ok t -> tail_ok B t p -> 0 <= n < 2 ^ 32 -> LWIP_TCP_OPT_LENGTH p 0 = 0 ->
  mss_local p < 2 ^ 16 - TCP_HLEN -> 0 <= snd_queuelen (qs p) < 2 ^ 32 -> fill_tail mem n t p = (true, w, p1) ->
  0 <= w_pos w <= n /\ w_queue w = [] /\ seg_ok (extend w t) /\ sid (extend w t) = sid t /\
  seqno (extend w t) = seqno t /\ len (extend w t) = len t + w_pos w /\
  exists c, 0 <= c <= 1 /\ w_queuelen w = u32 (snd_queuelen (qs p) + c) /\ pbuf_clen (extend w t) = pbuf_clen t + c.
Proof using.
  intros Hok [_ Eo Hb [Ho Hr]] Hn E0 Hm Hql. unfold fill_tail. rewrite Eo, E0.
  destruct Hok as [Hl Hsq Hh Hd Hbok]. unfold TCP_HLEN in *.
  rewrite (wrap_small 16 0), Z.add_0_r, (wrap_small 16 (mss_local p - len t)) by lia.
  set (o := unsent_oversize (qs p)) in *. set (used := if decide (o > 0) then Z.min o n else 0).
  assert (0 <= used <= Z.min o n) as Hu by (unfold used; case_decide; lia).
  rewrite (wrap_small 16 (mss_local p - len t - used)) by lia. clearbody used.
  set (t1 := if decide (used > 0) then set_bufs (grow_last used (bufs t)) (u16 (len t + used)) t else t).
  assert (seg_ok t1 /\ sid t1 = sid t /\ seqno t1 = seqno t /\ len t1 = len t + used /\ pbuf_clen t1 = pbuf_clen t /\
          length (bufs t1) = length (bufs t)) as (Hok1 & I1 & Q1 & L1 & C1 & B1).
  { unfold t1. case_decide as Hu0.
    - split_and!; try done; unfold pbuf_clen; simpl; rewrite ?grow_last_len; try done; [|apply wrap_small; lia].
      split; simpl; unfold TCP_HLEN; try done; rewrite wrap_small by lia; [lia|]. by apply grow_last_ok; unfold TCP_HLEN; try lia.
    - split_and!; try done; lia. }
  case_bool_decide as E1; [case_bool_decide as E2; [rewrite bool_decide_true by lia|]|]; cbn [andb].
  - unfold alloc. destruct (mem _); intros E; [|done]. injection E as <- <-.
    rewrite (wrap_small 16 (Z.min _ _)) by lia. set (m := Z.min _ _). assert (0 < m <= n - used /\ m <= mss_local p - len t - used) as [Hm1 Hm2] by lia.
    clearbody m. unfold extend. cbn [w_used w_concat w_pos w_queue w_queuelen]. fold t1.
    split_and!; try done; try lia; simpl.
    + destruct Hok1 as [? ? ? ? Hb1]. split; simpl; unfold TCP_HLEN; try done; rewrite wrap_small by lia; [lia|].
      apply chain_ok; [done|lia|lia].
    + rewrite wrap_small; lia.
    + exists 1. split_and!; [lia|lia|done|]. rewrite <- C1. unfold pbuf_clen. simpl. rewrite length_app. simpl.
      rewrite !wrap_small; lia.
  - intros E. injection E as <- <-. unfold extend. cbn [w_used w_concat w_pos w_queue w_queuelen]. fold t1.
    split_and!; try done; try lia. exists 0. rewrite !Z.add_0_r, wrap_small by lia. by split_and!.
  - intros E. injection E as <- <-. unfold extend. cbn [w_used w_concat w_pos w_queue w_queuelen]. fold t1.
    split_and!; try done; try lia. exists 0. rewrite !Z.add_0_r, wrap_small by lia. by split_and!.
Qed.

(** The new state, as the invariant sees it. *)
Lemma inv_written C L B K n g p p' : inv C L B K p -> 0 <= n -> B + n <= L + 2 ^ 30 ->
  out_frame p p' -> snd_scale (sn p') = snd_scale (sn p) -> snd_nxt (sn p') = snd_nxt (sn p) ->
  unacked (qs p') = g <$> unacked (qs p) -> last_unacked (qs p') = last_unacked (qs p) ->
  (forall s, sid (g s) = sid s /\ pos (B + n) (g s) = pos (B + n) s) ->
  core L (B + n) K (next_id (qs p')) (all p') -> sorted (B + n) (unsent (qs p')) ->
  snd_queuelen (qs p') = u32 (clens (all p')) -> snd_buf (qs p') = u32 (snd_buf (qs p) - n) ->
  snd_lbb (qs p') = u32 (snd_lbb (qs p) + n) -> inv C L (B + n) K p'.
Proof using.
  intros H Hn HB ((R1 & R2 & R3 & R4 & R5) & Ec & _ & El & Ew) Es EN Eu Ea Hg Hc Hs Eq Eb Elb.
  pose proof H as [E1 E2 HLB (X & EX & HX) Hco Hsa Hsu Hla Hq Hbuf Hop Hmss Hw Hcc]. split; try done.
  - by rewrite El.
  - by rewrite Elb, E2, wrap_add_l.
  - lia.
  - exists X. rewrite EN. split; [done|lia].
  - rewrite Eu. apply sorted_map; [intros s; apply Hg|]. eapply (sorted_grow L B); [lia..| |done].
    intros t Ht. eapply inv_live; [done|]. unfold all. set_solver.
  - rewrite Eu. intros Hne. rewrite Ea, last_id_map by (intros; apply Hg). apply Hla. intros E. by rewrite E in Hne.
  - rewrite Eb, Hbuf, wrap_sub_l. f_equal. lia.
  - by rewrite R4, R5.
  - by rewrite R2.
  - unfold wnd_ok. by rewrite Ew, Es.
  - by rewrite Ec.
Qed.

Lemma mss_local_range C L B K p : inv C L B K p -> 0 <= snd_wnd_max (sn p) ->
  0 < mss_local p <= Recv.mss (rx p).
Proof using.
  intros H Hw. destruct (v_options _ _ _ _ _ H) as [Ht _]. pose proof (v_mss _ _ _ _ _ H) as Hm.
  unfold mss_local, flag. rewrite ctrue_eq by done.
  assert (0 <= snd_wnd_max (sn p) / 2) by (apply Z.div_pos; lia).
  rewrite wrap_small by lia. case_decide; lia.
Qed.

Lemma opt_length_0 C L B K p : inv C L B K p -> LWIP_TCP_OPT_LENGTH p 0 = 0.
Proof using.
  intros H. destruct (v_options _ _ _ _ _ H) as [_ Hb]. unfold LWIP_TCP_OPT_LENGTH. rewrite Hb. simpl.
  by rewrite andb_false_r.
Qed.

(** What a write relies on: the last segment on [unsent] holds the newest data
    and [last_unsent] leads to it. *)
Record write_ready (B : Z) p : Prop := {
  r_mss : Recv.mss (rx p) < 2 ^ 16 - TCP_HLEN;
  r_wnd_max : 0 <= snd_wnd_max (sn p);
  r_max : 0 <= max_unsent_len (qs p) < 2 ^ 16;
  r_tail : unsent (qs p) <> [] -> exists us t, unsent (qs p) = us ++ [t] /\ tail_of (qs p) = Some (sid t) /\ tail_ok B t p
}.

(** The segment that gets the PSH flag. *)
Definition pushed (w : locals) (s : tcp_seg) : tcp_seg :=
  match w_seg w with Some id => if decide (sid s = id) then push s else s | None => s end.

Lemma pushed_same B w s : sid (pushed w s) = sid s /\ pos B (pushed w s) = pos B s /\ stop B (pushed w s) = stop B s /\
  (seg_ok s -> seg_ok (pushed w s)).
Proof using. unfold pushed. destruct (w_seg w); [apply push_same|done]. Qed.

Lemma commit_lists n tl w q us' ua' : link_queue tl w q = (us', ua') ->
  unsent (commit n tl w q) = pushed w <$> us' /\ unacked (commit n tl w q) = pushed w <$> ua' /\
  snd_queuelen (commit n tl w q) = w_queuelen w /\ snd_buf (commit n tl w q) = u32 (snd_buf q - n) /\
  snd_lbb (commit n tl w q) = u32 (snd_lbb q + n) /\ next_id (commit n tl w q) = next_id q /\
  last_unacked (commit n tl w q) = last_unacked q.
Proof using.
  intros E. unfold commit. rewrite E. unfold pushed. destruct (w_seg w); cbn [unsent unacked]; [by split_and!|].
  simpl. split_and!; try done; symmetry; apply list_fmap_id.
Qed.

Lemma has_next_last us (t : tcp_seg) : NoDup (sid <$> us ++ [t]) -> has_next (sid t) (us ++ [t]) = Some false.
Proof using.
  induction us as [|x us IH]; intros Hn; simpl; [by rewrite decide_True|].
  rewrite <- app_comm_cons, fmap_cons in Hn. apply list.NoDup_cons in Hn as [Hx Hn].
  rewrite decide_False; [by apply IH|]. intros E. apply Hx. rewrite E, fmap_app. set_solver.
Qed.

Lemma tail_lists ua us (t : tcp_seg) f : NoDup (sid <$> ua ++ us ++ [t]) ->
  has_next (sid t) (us ++ [t]) = Some false /\ deref (sid t) ((us ++ [t]) ++ ua) = Some t /\
  map_seg (sid t) f (us ++ [t]) = us ++ [f t] /\ map_seg (sid t) f ua = ua.
Proof using.
  intros Hn. rewrite fmap_app in Hn. apply list.NoDup_app in Hn as (_ & Hd & Hn). split_and!.
  - by apply has_next_last.
  - destruct (deref_last us t t Hn) as [Hd' _]. unfold deref in *.
    destruct (list_find _ (us ++ [t])) as [[i y]|] eqn:Ef; simpl in Hd'; [|done]. injection Hd' as ->.
    by rewrite (list_find_app_l _ _ _ _ _ Ef).
  - unfold map_seg. rewrite fmap_app. simpl. rewrite decide_True by done. f_equal.
    apply map_seg_other. intros s Hs E. rewrite fmap_app in Hn. apply list.NoDup_app in Hn as (_ & Hn & _).
    apply (Hn (sid s)); [by apply list_elem_of_fmap_2|]. rewrite E. set_solver.
  - apply map_seg_other. intros s Hs E. apply (Hd (sid s)); [by apply list_elem_of_fmap_2|]. rewrite E, fmap_app. set_solver.
Qed.

Section phases.
Context (C L B n : Z) (K : Z -> Prop) (mem : nat -> bool) (p : tcp_pcb A).
Context (H : inv C L B K p) (Hr : write_ready B p) (Hn : 0 <= n < 2 ^ 32) (HB : B + n <= L + 2 ^ 30).

(** What phases 1 and 2 leave for phase 3: the lists with the last segment
    extended hold everything up to [pos]. *)
Definition planned (us' : list tcp_seg) (w : locals) (p1 : tcp_pcb A) : Prop :=
  0 <= w_pos w <= n /\ w_queue w = [] /\
  untouched (qs p) (qs p1) /\ rx p1 = rx p /\ sn p1 = sn p /\ cc p1 = cc p /\ iss p1 = iss p /\
  core L (B + w_pos w) K (next_id (qs p1)) (unacked (qs p) ++ us') /\ sorted (B + w_pos w) us' /\
  w_queuelen w = u32 (clens (unacked (qs p) ++ us')) /\
  forall w', w_used w' = w_used w -> w_concat w' = w_concat w ->
    link_queue (last_unsent (qs p1)) w' (qs p1) = (us' ++ w_queue w', unacked (qs p)).

Lemma new_list_planned : unsent (qs p) = [] ->
  planned [] (Locals None 0 0 0 None (snd_queuelen (qs p)) []) (set_qs (set_last_unsent None (qs p)) p).
Proof using H Hn.
  intros Eu. pose proof (v_core _ _ _ _ _ H) as Hc. pose proof (v_queuelen _ _ _ _ _ H) as Hq. unfold all in *.
  rewrite Eu in *. unfold planned. cbn [w_pos w_queue w_queuelen]. rewrite Z.add_0_r.
  split_and!; try done; try lia. constructor.
Qed.

Lemma fill_planned us t w p1 : unsent (qs p) = us ++ [t] -> tail_ok B t p ->
  fill_tail mem n t (set_qs (set_last_unsent (Some (sid t)) (qs p)) p) = (true, w, p1) ->
  planned (us ++ [extend w t]) w p1.
Proof using H Hr Hn HB.
  intros Eu Ht Hf. pose proof (v_core _ _ _ _ _ H) as Hc. pose proof (v_queuelen _ _ _ _ _ H) as Hq.
  pose proof (v_window _ _ _ _ _ H) as HLB. pose proof (v_unsent _ _ _ _ _ H) as Hs. unfold all in *. rewrite Eu in *.
  destruct (c_ok _ _ _ _ _ Hc t) as [Hok Hst]; [set_solver|].
  destruct (mss_local_range C L B K p H (r_wnd_max _ _ Hr)) as [_ Hm]. pose proof (r_mss _ _ Hr).
  destruct (fill_tail_untouched _ _ _ _ _ _ _ Hf) as (U & EL & R & S & Ec & I).
  assert (tail_ok B t (set_qs (set_last_unsent (Some (sid t)) (qs p)) p)) as Ht' by (destruct Ht; by split).
  destruct (fill_spec B mem n t _ w p1 Hok Ht' Hn)
    as (Hp & Hwq & Hok' & Es & Esq & El & c & Hc0 & Ewq & Ecl);
    [by apply (opt_length_0 C L B K p)|exact (Z.le_lt_trans _ _ _ Hm H0)|simpl; rewrite Hq; apply wrap_range; lia|exact Hf|].
  simpl in Ewq. unfold planned. split_and!; try done; try lia.
  - rewrite app_assoc in Hc |- *. apply (core_next _ _ _ (next_id (qs p))); [apply U|].
    eapply (core_extend L B); [lia..|exact Hc|done|done|done|lia|apply Ht].
  - assert (sorted (B + w_pos w) (us ++ [t])) as Hs'.
    { eapply (sorted_grow L B); [lia..| |done]. intros s Hin. apply (c_ok _ _ _ _ _ Hc). set_solver. }
    clear -Hs' Esq. induction us as [|x us IH]; simpl in *.
    { apply sorted_cons; [constructor|set_solver]. }
    apply sorted_inv in Hs' as [Hs' Hx]. apply sorted_cons; [by apply IH|].
    intros u [Hu|Hu%list_elem_of_singleton]%elem_of_app; [apply Hx; set_solver|].
    subst u. unfold pos at 2. rewrite Esq. apply Hx. set_solver.
  - rewrite Ewq, Hq, wrap_add_l. f_equal. rewrite !clens_app. simpl. lia.
  - intros w' E1 E2. rewrite EL. cbn [last_unsent qs set_qs set_last_unsent]. unfold link_queue.
    destruct U as ((U1 & U2 & _) & _). simpl in U1, U2. rewrite U1, U2, Eu.
    destruct (tail_lists (unacked (qs p)) us t (extend w') (c_nodup _ _ _ _ _ Hc)) as (-> & _ & -> & ->).
    unfold extend. by rewrite E1, E2.
Qed.

Lemma planned_commit us' w p1 w2 p2 : planned us' w p1 ->
  write_loop (write_fuel p1) mem n 0 w p1 = Some (true, w2, p2) ->
  inv C L (B + n) K (set_qs (commit n (last_unsent (qs p2)) w2 (qs p2)) p2).
Proof using H Hr Hn HB.
  intros (Hp & Ewq & U & R & S & Ec & Ei & Hco & Hso & Hqu & Hlk) Hl.
  pose proof (v_window _ _ _ _ _ H) as HLB.
  destruct (mss_local_range C L B K p H (r_wnd_max _ _ Hr)) as [Hm0 Hm]. pose proof (r_mss _ _ Hr).
  destruct (write_loop_untouched _ _ _ _ _ _ _ _ _ Hl) as (U2 & EL & R2 & S2 & C2 & I2).
  assert (rx p2 = rx p /\ sn p2 = sn p /\ cc p2 = cc p /\ iss p2 = iss p) as (R' & S' & C' & I') by (split_and!; congruence).
  eapply (loop_spec L B K n (unacked (qs p)) us') in Hl as (Hc2 & Hs2 & Hq2 & Hu2 & Hk2); rewrite ?Ewq, ?app_nil_r; try done; try lia.
  - specialize (Hlk w2 Hu2 Hk2).
    assert (link_queue (last_unsent (qs p2)) w2 (qs p2) = (us' ++ w_queue w2, unacked (qs p))) as Hlk2.
    { rewrite EL. unfold link_queue in *. destruct U2 as ((V1 & V2 & _) & _). by rewrite V1, V2. }
    destruct (commit_lists n _ _ _ _ _ Hlk2) as (F1 & F2 & F3 & F4 & F5 & F6 & F7).
    assert (untouched (qs p) (qs p2)) as ((U1' & U2' & U3' & U4' & U5' & U6' & U7') & _) by (by eapply untouched_trans).
    apply (inv_written C L B K n (pushed w2) p); try done; try lia; cbn [qs set_qs].
    + by apply out_frame_rx.
    + simpl. by rewrite S'.
    + simpl. by rewrite S'.
    + by rewrite F7.
    + intros s. by destruct (pushed_same (B + n) w2 s) as (? & ? & _).
    + unfold all. cbn [qs set_qs]. rewrite F1, F2, F6, <- fmap_app. apply core_map; [apply pushed_same|done].
    + rewrite F1. apply sorted_map; [apply pushed_same|done].
    + unfold all. cbn [qs set_qs]. rewrite F1, F2, F3, <- fmap_app, clens_map; [done|]. intros s. unfold pushed. by repeat case_match.
    + by rewrite F4, U5'.
    + by rewrite F5, U6'.
  - unfold LWIP_TCP_OPT_LENGTH. rewrite R. apply (opt_length_0 C L B K p H).
  - unfold mss_local, flag. rewrite R, S. split; [exact Hm0|]. eapply Z.le_lt_trans; [exact Hm|done].
  - destruct U as ((_ & _ & _ & _ & _ & -> & _) & _). apply H.
Qed.

Lemma write_data_total : n = 0 \/ 0 <= snd_queuelen (qs p) <= TCP_SNDQUEUELEN_OVERFLOW -> write_data mem n 0 p <> None.
Proof using H Hr Hn HB.
  intros Hq.
  assert (forall w p1, untouched (qs p) (qs p1) -> 0 <= w_pos w ->
    (exists c, 0 <= c <= 1 /\ w_queuelen w = u32 (snd_queuelen (qs p) + c)) ->
    write_loop (write_fuel p1) mem n 0 w p1 <> None) as Hl.
  { intros w p1 U Hp (c & Hc & Eq). destruct (decide (w_pos w < n)).
    - destruct U as (_ & _ & U). pose proof (r_max _ _ Hr). unfold TCP_SNDQUEUELEN_OVERFLOW in *.
      rewrite wrap_small in Eq by lia. apply write_loop_ends; [lia|]. unfold write_fuel. rewrite U. lia.
    - destruct (write_fuel p1); simpl; by rewrite decide_False. }
  assert (0 <= snd_queuelen (qs p) < 2 ^ 32) as Hql by (rewrite (v_queuelen _ _ _ _ _ H); apply wrap_range; lia).
  unfold write_data. destruct (unsent (qs p)) as [|u us'] eqn:Eu.
  - cbn [mbind option_bind]. match goal with |- context [write_loop ?f mem n 0 ?w ?q] =>
      pose proof (Hl w q ltac:(unfold untouched, same_queues; by split_and!) ltac:(simpl; lia)) as Hl1;
      destruct (write_loop f mem n 0 w q) as [[[? ?] ?]|] end; [done|].
    exfalso. apply Hl1; [|done]. exists 0. simpl. rewrite Z.add_0_r, wrap_small; lia.
  - destruct (r_tail _ _ Hr) as (us & t & Eut & Et & Ht); [by rewrite Eu|]. rewrite <- Eu, Eut, Et. cbn [mbind option_bind].
    pose proof (v_core _ _ _ _ _ H) as Hc. unfold all in Hc. rewrite Eut in Hc.
    destruct (tail_lists (unacked (qs p)) us t id (c_nodup _ _ _ _ _ Hc)) as (_ & -> & _).
    cbn [mbind option_bind]. destruct (fill_tail _ _ _ _) as [[ok w] p1] eqn:Ef. destruct ok; [|done].
    destruct (fill_planned us t w p1 Eut Ht Ef) as (Hp & _ & U & _).
    destruct (write_loop _ _ _ _ _ _) as [[[? ?] ?]|] eqn:El; [done|]. exfalso. apply (Hl w p1 U); [lia| |done].
    unfold fill_tail in Ef. destruct (_ && _ && _) in Ef.
    + injection Ef as _ <- _. by exists 1.
    + injection Ef as <- _. exists 0. simpl. rewrite Z.add_0_r, wrap_small; lia.
Qed.

Lemma write_data_ok p' : write_data mem n 0 p = Some (ERR_OK, p') -> inv C L (B + n) K p'.
Proof using H Hr Hn HB.
  unfold write_data. destruct (unsent (qs p)) as [|u us'] eqn:Eu.
  - cbn [mbind option_bind]. destruct (write_loop _ _ _ _ _ _) as [[[ok w2] p2]|] eqn:El; [|done].
    destruct ok; intros E; [|done]. injection E as <-. eapply planned_commit; [|exact El]. by apply new_list_planned.
  - destruct (r_tail _ _ Hr) as (us & t & Eut & Et & Ht); [by rewrite Eu|]. rewrite <- Eu, Eut, Et. cbn [mbind option_bind].
    pose proof (v_core _ _ _ _ _ H) as Hc. unfold all in Hc. rewrite Eut in Hc.
    destruct (tail_lists (unacked (qs p)) us t id (c_nodup _ _ _ _ _ Hc)) as (_ & -> & _).
    cbn [mbind option_bind]. destruct (fill_tail _ _ _ _) as [[ok w] p1] eqn:Ef. destruct ok; [|done].
    destruct (write_loop _ _ _ _ _ _) as [[[ok w2] p2]|] eqn:El; [|done].
    destruct ok; intros E; [|done]. injection E as <-. eapply planned_commit; [|exact El]. by eapply fill_planned.
Qed.
End phases.

Lemma write_failed_inv C L B K p p' : inv C L B K p -> write_failed p p' -> inv C L B K p'.
Proof using.
  intros H (U & Ec & Ei & R & N & La & W & S). apply (inv_same C L B K p); [done| |done|rewrite N; apply H|apply U].
  split_and!; try done. destruct R as [-> | ->]; [done|].
  unfold rx_same. split_and!; try done. simpl. by rewrite Z.land_lor_distr_l, Z.lor_0_r.
Qed.

Lemma checks_spec n p e p' : tcp_write_checks n p = (e, p') ->
  match e with
  | ERR_OK => p' = p /\ (n = 0 \/ n <= snd_buf (qs p) /\ snd_queuelen (qs p) <= TCP_SNDQUEUELEN_OVERFLOW)
  | _ => write_failed p p'
  end.
Proof using.
  unfold tcp_write_checks, write_failed. intros E.
  destruct (Recv.state (rx p)); try (injection E as <- <-; by split_and!; auto using untouched_refl).
  all: repeat case_decide; try (injection E as <- <-; split_and!; auto using untouched_refl; done).
  all: case_bool_decide; [injection E as <- <-; split_and!; auto using untouched_refl; done|].
  all: case_bool_decide; injection E as <- <-; split_and!; auto using untouched_refl; try done; right; lia.
Qed.

Lemma write_inv C L B K mem arg n p : inv C L B K p -> B - L <= C <= 2 ^ 30 -> 0 <= n < 2 ^ 32 -> write_ready B p ->
  exists e p', tcp_write mem arg n false p = Some (e, p') /\
    match e with
    | ERR_OK => B + n - L <= C /\ inv C L (B + n) K p'
    | _ => inv C L B K p'
    end.
Proof using.
  intros H HC Hn Hr. unfold tcp_write.
  match goal with |- context [if ?b then set_sn ?x p else p] => set (p0 := if b then set_sn x p else p) end.
  assert (inv C L B K p0 /\ write_ready B p0) as [H0 Hr0].
  { unfold p0. destruct (_ && _); [|done]. split; [apply set_sn_inv; try done; apply H|].
    destruct Hr as [? ? ? Ht]. split; try done. intros Hu. destruct (Ht Hu) as (us & t & ? & ? & []).
    exists us, t. by split_and!. }
  clearbody p0. destruct arg; simpl; [|by exists ERR_ARG, p0]. destruct (tcp_write_checks n p0) as [e p1] eqn:Ec. apply checks_spec in Ec as He.
  assert (write_failed p0 p1 -> inv C L B K p1) as Hfail by by apply write_failed_inv.
  destruct (decide (e = ERR_OK)) as [->|Hne].
  2: { exists e, p1. split; [by destruct e|]. destruct e; [done|exact (Hfail He)..]. }
  destruct He as [-> Hok]. destruct (data_optlen_0 _ _ _ _ _ H0) as [_ ->]. cbn [Z.lor].
  pose proof (v_window _ _ _ _ _ H0) as HLB. rewrite (v_buf _ _ _ _ _ H0), wrap_small in Hok by lia.
  assert (0 <= snd_queuelen (qs p0)) by (rewrite (v_queuelen _ _ _ _ _ H0); apply wrap_range; lia).
  assert (B + n <= L + 2 ^ 30 /\ B + n - L <= C) as [HBn HnC] by lia.
  pose proof (write_data_total C L B n K mem p0 H0 Hr0 Hn HBn ltac:(lia)) as Htot.
  destruct (write_data mem n 0 p0) as [[e p']|] eqn:Ew; [|done]. exists e, p'. split; [done|].
  destruct (decide (e = ERR_OK)) as [->|Hne]; [split; [done|]; by eapply write_data_ok|].
  assert (inv C L B K p') by (eapply write_failed_inv; [done|]; by eapply write_data_error).
  by destruct e.
Qed.

(** C3: [tcp_write] appends to the byte stream.  On a connection without the
    timestamp option and with no SACK block to report, with a send buffer of at
    most 2^30 bytes and a segment size that leaves room for a header in 16 bits,
    that keeps the invariant of its queues, a write of any length, with or without data, wherever memory gives
    out, returns, provided that the last segment on [unsent], if there is one, is
    the one [last_unsent] leads to, ends at the last byte written, has fewer than
    255 buffers and no option flags, and has within the segment size the room
    that [unsent_oversize] promises ([len + unsent_oversize <= mss_local], which
    a split of a segment of several buffers can break).  When it returns
    [ERR_OK] the connection holds the old bytes and the [n] new ones right behind
    them, has counted them in the send buffer and in the queue's length and never
    has more than the send buffer's size outstanding; otherwise the stream is
    what it was. *)
Theorem tcp_write_appends C L B K mem arg n p : inv C L B K p -> B - L <= C <= 2 ^ 30 -> 0 <= n < 2 ^ 32 -> write_ready B p ->
  exists e p', tcp_write mem arg n false p = Some (e, p') /\
    match e with
    | ERR_OK => B + n - L <= C /\ inv C L (B + n) K p'
    | _ => inv C L B K p'
    end.
Proof using. apply write_inv. Qed.
End write_ok.

(** ** Writes on concrete connections *)

#[local] Existing Instance Cc.none_cc_algo.
#[local] Existing Instance Cc.none_laws.

(** Nothing is queued and TLT waits for its first packet. *)
Definition ex_idle : Tlt.tlt_param := Tlt.tlt (Tlt.tlt_init (Tlt.Pcb ex_tlt 0 0)).
Definition ex_run_0 : tcp_pcb Cc.none_cc_algo := ex_pcb 100000 ex_idle 1 [] [].

Lemma ex_start_inv : inv 100000 1 1 (fun _ => False) ex_run_0.
Proof.
  split; simpl; try done; try lia.
  - exists 1. done.
  - split; try done; try (intros s Hs; by apply not_elem_of_nil in Hs).
    + apply NoDup_nil_2.
    + intros s t Hs. by apply not_elem_of_nil in Hs.
    + lia.
  - constructor.
  - constructor.
Qed.

Lemma ex_start_ready : write_ready 1 ex_run_0.
Proof. split; simpl; done || lia. Qed.

(** Memory gives out after the first of three segments. *)
Definition ex_short (n : nat) : bool := bool_decide (n < 12)%nat.
Definition ex_short_1 : tcp_pcb Cc.none_cc_algo :=
  Eval vm_compute in match tcp_write ex_short true 3000 false ex_run_0 with Some r => r.2 | None => ex_run_0 end.

Lemma tcp_write_error_keeps_queues_witness :
  unsent (qs ex_short_1) = [] /\ next_id (qs ex_short_1) = 13%nat /\ seg_alloc (qs ex_short_1) = false /\
  unsent (qs ex_short_1) = unsent (qs ex_run_0) /\ snd_lbb (qs ex_short_1) = snd_lbb (qs ex_run_0).
Proof.
  assert (tcp_write ex_short true 3000 false ex_run_0 = Some (ERR_MEM, ex_short_1)) as E by (vm_compute; reflexivity).
  pose proof (tcp_write_error_keeps_queues ex_short true 3000 false ex_run_0 ERR_MEM ex_short_1 E ltac:(discriminate))
    as (((U & _ & _ & _ & _ & Lb & _) & _) & _).
  split; [vm_compute; reflexivity|]. split; [vm_compute; reflexivity|]. split; [vm_compute; reflexivity|].
  split; [exact U|exact Lb].
Defined.

Lemma tcp_write_appends_witness : exists e p', tcp_write (fun _ => true) true 3000 false ex_run_0 = Some (e, p') /\
  match e with
  | ERR_OK => 1 + 3000 - 1 <= 100000 /\ inv 100000 1 (1 + 3000) (fun _ => False) p'
  | _ => inv 100000 1 1 (fun _ => False) p'
  end.
Proof.
  apply (tcp_write_appends 100000 1 1 (fun _ => False) (fun _ => true) true 3000 ex_run_0); [apply ex_start_inv|lia|lia|].
  apply ex_start_ready.
Defined.

(** A segment of two buffers that the window does not admit as a whole. *)
Definition ex_split : tcp_pcb Cc.none_cc_algo :=
  let p := ex_pcb 200 ex_idle 1 [] [Seg 0 [Buf 520 1; Buf 300 1] 800 1 (TCPH_HDRLEN_FLAGS_SET 5 TCP_ACK) 0] in
  set_qs (set_snd_lbb 801 (set_snd_buf 99200 (qs p))) p.
Definition ex_split_1 : tcp_pcb Cc.none_cc_algo :=
  Eval vm_compute in match tcp_output (fun _ => true) 5 ex_split with Some r => r.2 | None => ex_split end.
Definition ex_split_out : list pkt :=
  Eval vm_compute in match tcp_output (fun _ => true) 5 ex_split with Some r => r.1 | None => [] end.
Definition ex_split_3 : tcp_pcb Cc.none_cc_algo :=
  Eval vm_compute in match tcp_write (fun _ => true) true 70000 false ex_split_1 with Some r => r.2 | None => ex_split end.
Definition ex_split_2 : tcp_pcb Cc.none_cc_algo :=
  Eval vm_compute in match tcp_write (fun _ => true) true 2000 false ex_split_1 with Some r => r.2 | None => ex_split end.

(** A write behind a split segment makes a segment longer than the MSS.
    When [tcp_split_segment] cuts the first of several buffers it sets
    [unsent_oversize] to the room behind the copy of that buffer's end, which
    is not the last buffer of the new segment.  The next [tcp_write] takes more
    than the segment has room for, [space] wraps around below zero, and all
    the data is chained to the segment: 2600 bytes where the MSS is 1460.  A
    write of more than 64 KB is cut to the wrapped space: of 70000 bytes
    accepted with [ERR_OK] those from 1661 to 67196 are in no segment. *)
Theorem write_after_split_exceeds_mss :
  tcp_output (fun _ => true) 5 ex_split = Some (ex_split_out, ex_split_1) /\
  tcp_write (fun _ => true) true 2000 false ex_split_1 = Some (ERR_OK, ex_split_2) /\
  mss_local ex_split_1 = 1460 /\ (len <$> unsent (qs ex_split_1)) = [600] /\
  (len <$> unsent (qs ex_split_2)) = [2600] /\
  tcp_write (fun _ => true) true 70000 false ex_split_1 = Some (ERR_OK, ex_split_3) /\
  snd_lbb (qs ex_split_3) = 70801 /\ (len <$> unacked (qs ex_split_3)) = [200] /\
  ((fun s => (seqno s, len s)) <$> unsent (qs ex_split_3)) =
    [(201, 1460); (67197, 1460); (68657, 1460); (70117, 684)].
Proof. split_and!; vm_compute; reflexivity. Qed.

(** The first of two segments in flight is retransmitted, but the window does
    not admit it yet. *)
Definition ex_behind : tcp_pcb Cc.none_cc_algo :=
  let p := ex_pcb 100 ex_idle 1001 [ex_seg 0 1 500; ex_seg 1 501 500] [] in
  tcp_rexmit (set_qs (set_last_unsent (Some 1%nat) (qs p)) p).

(** [last_unsent] still leads to the last segment that was sent: new data goes
    into a segment on [unacked], which is not sent again before a timeout. *)
Theorem write_behind_retransmission :
  match tcp_write (fun _ => true) true 100 false ex_behind with
  | Some (ERR_OK, p) => (len <$> unsent (qs p)) = [500] /\ (len <$> unacked (qs p)) = [600]
  | _ => False
  end.
Proof. vm_compute. split; reflexivity. Qed.
End Write.
