(* ===== verification/TcpRun.v ===== *)
(** * The life of a send queue

    A connection that is written to, sends, gets acknowledgements and times out
    in any order: the operations of TcpSend and TcpWrite as one step relation,
    and what every reachable state keeps.  The congestion control is any one that
    satisfies [Cc.cc_laws]. *)

From Stdlib Require Import Sorted.
From S2P Require Import Prelude TcpBase Tlt Dctcp TcpOpt TcpRecv Cc TcpSend TcpSendInv TcpSendOut TcpWrite.

Local Open Scope Z_scope.

Module Run.
Import Send SendInv SendOut Write.

Section run.
Context {A : Cc.cc_algo} {LA : Cc.cc_laws A}.
Implicit Types p : tcp_pcb A.

(** ** The retransmission timeout *)

Lemma rexmit_rto_inv C L B K mem now p out p' : inv C L B K p ->
  (forall s t, s ∈ unacked (qs p) -> t ∈ unsent (qs p) -> pos B s < pos B t) ->
  tcp_rexmit_rto mem now p = Some (out, p') -> inv C L B K p' /\ out_frame p p'.
Proof using.
  intros H Ho. unfold tcp_rexmit_rto. destruct (unacked (qs p)) as [|u l] eqn:Eu.
  { intros E. injection E as <- <-. by split; [|split_and!]. }
  set (p1 := set_tm _ _). intros E.
  assert (out_frame p p1) as F by by apply out_frame_rx.
  assert (inv C L B K p1) as H1.
  { apply set_tm_inv. pose proof H as []. unfold all in *. rewrite Eu in *.
    apply (inv_requeue C L B K p); try done; unfold all; simpl; rewrite ?Eu; try done; [constructor|].
    by apply (sorted_app B (u :: l)). }
  apply (tcp_output_inv C L B K) in E as [H2 F2]; [|done|by simpl].
  split; [done|]. by eapply out_frame_trans.
Qed.

(** ** The steps

    [lo] and [hi] are the positions of [lastack] and [snd_lbb], [known] the
    bytes reported in SACK blocks so far. *)
Record conn := Conn { lo : Z; hi : Z; known : Z -> Prop; pcb : tcp_pcb A }.

(** An acknowledgement of position [a] with blocks at the ranges [R] that the
    connection can meet: positions near the window, and the last
    unacknowledged segment is not reported while an earlier one is missing. *)
Definition ack_fits (c : conn) (i : tcp_in_data) (a : Z) (R : list (Z * Z)) : Prop :=
  in_ackno i = u32 a /\ lo c - 2 ^ 29 <= a <= hi c + 2 ^ 29 /\ 0 <= in_wnd i < 2 ^ 16 /\
  blocks_at (hi c) (sack_block i) R /\ tail_kept (sack_block i) (unacked (qs (pcb c))).

Inductive step : conn -> conn -> Prop :=
  | step_write mem arg n c p' : 0 <= n < 2 ^ 32 -> write_ready (hi c) (pcb c) ->
      tcp_write mem arg n false (pcb c) = Some (ERR_OK, p') ->
      step c (Conn (lo c) (hi c + n) (known c) p')
  | step_write_error mem arg n e c p' : tcp_write mem arg n false (pcb c) = Some (e, p') -> e <> ERR_OK ->
      step c (Conn (lo c) (hi c) (known c) p')
  | step_output mem now out c p' :
      (forall p1, force_retransmit mem (Z.min (snd_wnd (sn (pcb c))) (Cc.cwnd (cc (pcb c)))) (pcb c) = Some (true, p1) ->
        unsent (qs (pcb c)) = []) ->
      tcp_output mem now (pcb c) = Some (out, p') -> step c (Conn (lo c) (hi c) (known c) p')
  | step_ack mem now i a R out c p' L' : ack_fits c i a R -> receive_ack mem now i (pcb c) = Some (out, p') ->
      L' = lo c \/ L' = a -> lastack (sn p') = u32 L' ->
      step c (Conn L' (hi c) (fun x => known c x \/ reported R x) p')
  | step_rto mem now out c p' :
      (forall s t, s ∈ unacked (qs (pcb c)) -> t ∈ unsent (qs (pcb c)) -> pos (hi c) s < pos (hi c) t) ->
      tcp_rexmit_rto mem now (pcb c) = Some (out, p') -> step c (Conn (lo c) (hi c) (known c) p').

Inductive steps : conn -> conn -> Prop :=
  | steps_refl c : steps c c
  | steps_next c c' c'' : step c c' -> steps c' c'' -> steps c c''.

Definition conn_ok (C : Z) (c : conn) : Prop :=
  inv C (lo c) (hi c) (known c) (pcb c) /\ hi c - lo c <= C <= 2 ^ 30.

Lemma step_ok C c c' : step c c' -> conn_ok C c -> conn_ok C c' /\ lo c <= lo c' /\ hi c <= hi c' /\
  forall x, known c x -> known c' x.
Proof using.
  intros Hs [H HC]. destruct Hs as [mem arg n c p' Hn Hr Hw|mem arg n e c p' Hw He|mem now out c p' Hf Ho|
    mem now i a R out c p' L' (Ei & Ha & Hw & HR & Ht) Hack HL' EL'|mem now out c p' Hpos Ho]; unfold conn_ok; simpl.
  - destruct (write_inv C (lo c) (hi c) (known c) mem arg n (pcb c) H HC Hn Hr) as (e & p1 & E & Hres).
    rewrite Hw in E. injection E as <- <-. destruct Hres as [? ?]. split_and!; done || lia.
  - split_and!; try done; try lia. eapply write_failed_inv; [done|]. by eapply write_error.
  - apply (tcp_output_inv C (lo c) (hi c) (known c)) in Ho as [? _]; [|done..]. split_and!; done || lia.
  - destruct (receive_ack_inv C (lo c) (hi c) (known c) mem now i R a (pcb c)) as (o & p1 & L1 & E & H1 & HL1); try done.
    rewrite Hack in E. injection E as <- <-.
    assert (L' = L1) as ->.
    { pose proof (v_lastack _ _ _ _ _ H1) as E1. rewrite EL' in E1. pose proof (v_window _ _ _ _ _ H).
      eapply Recv.u32_eq_window; [exact E1|]. lia. }
    split_and!; try done; try lia. auto.
  - apply (rexmit_rto_inv C (lo c) (hi c) (known c)) in Ho as [? _]; [|done..]. split_and!; done || lia.
Qed.

Lemma steps_ok C c c' : steps c c' -> conn_ok C c -> conn_ok C c'.
Proof using. induction 1 as [|c c' c'' Hs _ IH]; [done|]. intros H. apply IH. by eapply step_ok. Qed.

End run.

(** ** A run *)

#[local] Existing Instance Cc.none_cc_algo.
#[local] Existing Instance Cc.none_laws.

Definition ex_run_1 : tcp_pcb Cc.none_cc_algo :=
  Eval vm_compute in match tcp_write (fun _ => true) true 3000 false ex_run_0 with Some r => r.2 | None => ex_run_0 end.
Definition ex_run_2 : tcp_pcb Cc.none_cc_algo :=
  Eval vm_compute in match tcp_output (fun _ => true) 5 ex_run_1 with Some r => r.2 | None => ex_run_0 end.
Definition ex_run_in : tcp_in_data := In TCP_ACK 0 1461 50000 0 [].
Definition ex_run_3 : tcp_pcb Cc.none_cc_algo :=
  Eval vm_compute in match receive_ack (fun _ => true) 9 ex_run_in ex_run_2 with Some r => r.2 | None => ex_run_0 end.
Definition ex_run_out : list pkt :=
  Eval vm_compute in match tcp_output (fun _ => true) 5 ex_run_1 with Some r => r.1 | None => [] end.

Lemma ex_run_start : conn_ok 100000 (Conn 1 1 (fun _ => False) ex_run_0).
Proof. split; [apply ex_start_inv|simpl; lia]. Qed.

End Run.
