(* ===== verification/TcpConn.v ===== *)
(** * TCP connections

    The life of a connection around the send and receive paths: opening
    ([tcp_connect], [tcp_listen_input]), the state machine [tcp_process], closing
    ([tcp_close], [tcp_shutdown], [tcp_abandon]) and the timers ([tcp_tmr]) of
    src/src/vma/lwip/tcp.c, tcp_in.c and tcp_out.c.  The configuration is that of
    TcpSend; LWIP_TCP_KEEPALIVE and TIMER_US_GRAN are 0, LWIP_3RD_PARTY_BUFS and
    LWIP_CALLBACK_API are 1.

    An operation is a computation [M]: it reads and changes the connection, emits
    packets and may fail.  Failure is undefined behaviour (as in TcpSend, and a
    read outside of a table).  The application's functions that a connection
    calls ([callbacks]) are such computations too.  [mem] answers the
    allocations; [inp] tells whether [tcp_input_pcb] is this connection, in which
    case [tcp_output] does nothing. *)

From S2P Require Import Prelude TcpBase Pbuf Tlt Dctcp TcpOpt TcpRecv Cc TcpSend TcpSendInv TcpSendOut TcpWrite.

Local Open Scope Z_scope.

Module Conn.
Import Recv(tcp_state, CLOSED, LISTEN, SYN_SENT, SYN_RCVD, ESTABLISHED, FIN_WAIT_1, FIN_WAIT_2, CLOSE_WAIT,
  CLOSING, LAST_ACK, TIME_WAIT).
Import Write(err_t, ERR_OK, ERR_MEM, ERR_TIMEOUT, ERR_VAL, ERR_ABRT, ERR_RST, ERR_CONN, ERR_ARG, ERR_ISCONN).
Import Send.

Definition TF_RXCLOSED : Z := 0x0010.
Definition TF_RESET : Z := 0x08.
Definition TF_CLOSED : Z := 0x10.
Definition SOF_ACCEPTCONN : Z := 0x02.
Definition SOF_KEEPALIVE : Z := 0x08.
Definition SOF_INHERITED : Z := 0x8c.
Definition TCP_MAXRTX : Z := 12.
Definition TCP_SYNMAXRTX : Z := 6.
Definition TCP_WND : Z := 0xFFFF.
Definition TCP_SND_BUF : Z := 1000000.
Definition TCP_FIN_WAIT_TIMEOUT : Z := 20000.
Definition TCP_SYN_RCVD_TIMEOUT : Z := 20000.
Definition TCP_OOSEQ_TIMEOUT : Z := 6.
Definition TCP_MSL : Z := 60000.
Definition TCP_KEEPIDLE_DEFAULT : Z := 7200000.
Definition TCP_KEEPINTVL_DEFAULT : Z := 75000.
Definition TCP_MAXIDLE : Z := 9 * TCP_KEEPINTVL_DEFAULT.
Definition TCP_INITIAL_RTO : Z := 100.
Definition TCP_MIN_RTO : Z := 4.
Definition TCP_INITIAL_RTT_EST : Z := 4.
Definition tcp_backoff : list Z := [1; 2; 3; 4; 5; 6; 7; 7; 7; 7; 7; 7; 7].
Definition tcp_persist_backoff : list Z := [3; 6; 12; 24; 48; 96; 120].

(** ** Data *)

Definition PCB_IN_ACTIVE_STATE (s : tcp_state) : bool :=
  match s with CLOSED | LISTEN | TIME_WAIT => false | _ => true end.

(** The rest of [struct tcp_pcb] beside what TcpSend has: what changes during
    the connection's life ... *)
Record life := Life {
  refused_data : list Pbuf.pbuf;       (* [[]] is [NULL] *)
  tmr : Z;
  keep_cnt_sent : Z;
  tcp_timer : Z;
  advtsd_mss : Z;
  rcv_scale : Z;
  ts_recent : Z;
  cc_alive : bool                      (* [cc_destroy] has not been called *)
}.

(** ... and what is set up with it. *)
Record setup := Setup {
  keep_idle : Z;
  so_options : Z;
  pollinterval : Z;
  enable_ts_opt : bool;
  max_snd_buff : Z;
  rcv_wnd_max_desired : Z;
  local_ip : Z;
  local_port : Z;
  remote_ip : Z;
  remote_port : Z
}.

Definition set_refused (x : list Pbuf.pbuf) (l : life) : life :=
  Life x (tmr l) (keep_cnt_sent l) (tcp_timer l) (advtsd_mss l) (rcv_scale l) (ts_recent l) (cc_alive l).
Definition set_tmr (x : Z) (l : life) : life :=
  Life (refused_data l) x (keep_cnt_sent l) (tcp_timer l) (advtsd_mss l) (rcv_scale l) (ts_recent l) (cc_alive l).
Definition set_keep_cnt_sent (x : Z) (l : life) : life :=
  Life (refused_data l) (tmr l) x (tcp_timer l) (advtsd_mss l) (rcv_scale l) (ts_recent l) (cc_alive l).
Definition set_tcp_timer (x : Z) (l : life) : life :=
  Life (refused_data l) (tmr l) (keep_cnt_sent l) x (advtsd_mss l) (rcv_scale l) (ts_recent l) (cc_alive l).
Definition set_advtsd_mss (x : Z) (l : life) : life :=
  Life (refused_data l) (tmr l) (keep_cnt_sent l) (tcp_timer l) x (rcv_scale l) (ts_recent l) (cc_alive l).
Definition set_negotiated (s t : Z) (l : life) : life :=
  Life (refused_data l) (tmr l) (keep_cnt_sent l) (tcp_timer l) (advtsd_mss l) s t (cc_alive l).
Definition set_cc_dead (l : life) : life :=
  Life (refused_data l) (tmr l) (keep_cnt_sent l) (tcp_timer l) (advtsd_mss l) (rcv_scale l) (ts_recent l) false.

Definition set_local (ip port : Z) (s : setup) : setup :=
  Setup (keep_idle s) (so_options s) (pollinterval s) (enable_ts_opt s) (max_snd_buff s) (rcv_wnd_max_desired s)
    ip port (remote_ip s) (remote_port s).
Definition set_remote (ip port : Z) (s : setup) : setup :=
  Setup (keep_idle s) (so_options s) (pollinterval s) (enable_ts_opt s) (max_snd_buff s) (rcv_wnd_max_desired s)
    (local_ip s) (local_port s) ip port.
Definition set_so_options (x : Z) (s : setup) : setup :=
  Setup (keep_idle s) x (pollinterval s) (enable_ts_opt s) (max_snd_buff s) (rcv_wnd_max_desired s)
    (local_ip s) (local_port s) (remote_ip s) (remote_port s).
Definition set_wnd_max_desired (x : Z) (s : setup) : setup :=
  Setup (keep_idle s) (so_options s) (pollinterval s) (enable_ts_opt s) (max_snd_buff s) x
    (local_ip s) (local_port s) (remote_ip s) (remote_port s).

(** The globals: [tcp_ticks], [slow_tmr_interval], [lwip_tcp_mss], the window
    scale, what [external_ip_route_mtu] answers, and the allocations. *)
Record env := Env {
  mem : nat -> bool;
  tcp_ticks : Z;
  slow_tmr_interval : Z;
  lwip_tcp_mss : Z;
  scale_cfg : Opt.config;
  route_mtu : Z
}.

(** A segment as [L3_level_tcp_input] hands it on: the header's fields in host
    order, its options, the IP header's TOS and the data. *)
Record arrival := Arrival {
  i_flags : Z;
  i_seqno : Z;
  i_ackno : Z;
  i_wnd : Z;
  i_tcplen : Z;
  i_hdrlen : Z;
  i_opts : list Z;
  i_tos : Z;
  i_data : list Pbuf.pbuf;
  i_src : Z;                           (* address and port of the peer *)
  i_src_port : Z;
  i_dest : Z
}.

Section conn.
Context {A : Cc.cc_algo}.

Record pcb := P { core : tcp_pcb A; lf : life; su : setup }.

Definition st (c : pcb) : tcp_state := Recv.state (rx (core c)).

(** ** Computations *)

Definition M (X : Type) : Type := pcb -> option (X * list pkt * pcb).

#[global] Instance M_ret : MRet M := fun X x c => Some (x, [], c).
#[global] Instance M_bind : MBind M := fun X Y f m c =>
  match m c with
  | Some (x, o, c) => match f x c with Some (y, o', c) => Some (y, o ++ o', c) | None => None end
  | None => None
  end.

Definition get : M pcb := fun c => Some (c, [], c).
Definition modify (f : pcb -> pcb) : M unit := fun c => Some (tt, [], f c).
Definition undef {X} : M X := fun _ => None.
Definition from_option {X} (o : option X) : M X := fun c => match o with Some x => Some (x, [], c) | None => None end.

(** The operations of TcpSend. *)
Definition on_core (f : tcp_pcb A -> tcp_pcb A) : M unit := modify (fun c => P (f (core c)) (lf c) (su c)).
Definition run_core (f : tcp_pcb A -> option (list pkt * tcp_pcb A)) : M unit := fun c =>
  match f (core c) with Some (o, p) => Some (tt, o, P p (lf c) (su c)) | None => None end.
Definition ret_core {X} (f : tcp_pcb A -> X * tcp_pcb A) : M X := fun c =>
  let '(x, p) := f (core c) in Some (x, [], P p (lf c) (su c)).
Definition on_life (f : life -> life) : M unit := modify (fun c => P (core c) (f (lf c)) (su c)).
Definition on_setup (f : setup -> setup) : M unit := modify (fun c => P (core c) (lf c) (f (su c))).
Definition on_rx (f : Recv.tcp_pcb -> Recv.tcp_pcb) : M unit := on_core (fun p => set_rx (f (rx p)) p).
Definition on_sn (f : sender -> sender) : M unit := on_core (fun p => set_sn (f (sn p)) p).
Definition on_tm (f : timers -> timers) : M unit := on_core (fun p => set_tm (f (tm p)) p).
Definition on_qs (f : queues -> queues) : M unit := on_core (fun p => set_qs (f (qs p)) p).

Definition set_tcp_state (s : tcp_state) : M unit := on_rx (Recv.set_state s).
Definition tcp_ack_now : M unit := on_rx Recv.tcp_ack_now.
Definition when (b : bool) (m : M unit) : M unit := if b then m else mret tt.

(** What the application has registered. *)
Record callbacks := Callbacks {
  on_accept : M err_t;
  on_connected : M err_t;
  on_sent : Z -> M err_t;
  on_recv : option (list Pbuf.pbuf) -> M err_t;     (* [None] is the end of the stream *)
  on_poll : M err_t;
  on_err : err_t -> M unit;
  on_syn : M err_t
}.

Section ops.
Context (g : env) (cb : callbacks).

(** ** Sending *)

Definition tcp_output (inp : bool) : M unit :=
  if inp then mret tt else run_core (Send.tcp_output (mem g) (tcp_ticks g)).

Definition empty_ack : M unit := run_core (fun p => Some (tcp_send_empty_ack (mem g) p)).

(** [tcp_rst] for a connection; without one ([pcb] is [NULL]) it returns at
    once. *)
Definition tcp_rst (seqno : Z) : M unit := run_core (fun p =>
  let '(ok, p) := alloc (mem g) p in
  Some (if ok then [Pkt seqno 0 (Z.lor TCP_RST TCP_ACK) (tos p)] else [], p)).

Definition tcp_keepalive : M unit := run_core (fun p =>
  let '(ok, p) := alloc (mem g) p in
  let c := rx p in
  Some (if ok then
          ([Pkt (u32 (snd_nxt (sn p) - 1)) 0 TCP_ACK (tos p)],
           set_rx (Recv.Pcb (Recv.state c) (Recv.flags c) (Recv.rcv_nxt c) (Recv.rcv_wnd c) (Recv.rcv_ann_wnd c)
             (Recv.rcv_wnd_max c) (u32 (Recv.rcv_nxt c + Recv.rcv_ann_wnd c)) (Recv.mss c) (Recv.ooseq c)
             (Recv.ts_lastacksent c) (Recv.sack_permitted c) (Recv.rcv_sack_block c)) p)
        else ([], p))).

(** The options of a SYN or FIN segment. *)
Definition flag_options (flags : Z) (c : pcb) : Z :=
  let o := if ctrue (Z.land flags TCP_SYN) then
             let o := Opt.TF_SEG_OPTS_MSS in
             let o := if Opt.enable_wnd_scale (scale_cfg g)
                         && (negb (bool_decide (st c = SYN_RCVD)) || flag Opt.TF_WND_SCALE (core c))
                      then Z.lor o Opt.TF_SEG_OPTS_WNDSCALE else o in
             if enable_ts_opt (su c) && negb (ctrue (Z.land flags TCP_ACK)) then Z.lor o Opt.TF_SEG_OPTS_TS else o
           else 0 in
  let o := if flag TF_TIMESTAMP (core c) then Z.lor o Opt.TF_SEG_OPTS_TS else o in
  if ctrue (Z.land flags TCP_SYN) then Z.lor o Opt.TF_SEG_OPTS_SACK_PERM else o.

Definition permit_sack (c : Recv.tcp_pcb) : Recv.tcp_pcb :=
  Recv.Pcb (Recv.state c) (Recv.flags c) (Recv.rcv_nxt c) (Recv.rcv_wnd c) (Recv.rcv_ann_wnd c) (Recv.rcv_wnd_max c)
    (Recv.rcv_ann_right_edge c) (Recv.mss c) (Recv.ooseq c) (Recv.ts_lastacksent c) true (Recv.rcv_sack_block c).

(** The segment goes to the end of [unsent]; [last_unsent] is not touched. *)
Definition enqueue (flags : Z) (seg : tcp_seg) (q : queues) : queues :=
  let q := set_unsent_oversize 0 (set_unsent (unsent q ++ [seg]) q) in
  let q := if ctrue (Z.land flags TCP_SYN) || ctrue (Z.land flags TCP_FIN)
           then set_snd_lbb (u32 (snd_lbb q + 1)) q else q in
  set_snd_queuelen (u32 (snd_queuelen q + pbuf_clen seg)) q.

(** [tcp_create_segment] puts the flags in the header. *)
Definition tcp_enqueue_flags (flags : Z) : M err_t :=
  c ← get;
  let q := qs (core c) in
  if (bool_decide (snd_queuelen q >= max_unsent_len q)
      || bool_decide (snd_queuelen q > Write.TCP_SNDQUEUELEN_OVERFLOW)) && negb (ctrue (Z.land flags TCP_FIN)) then
    on_core (or_flags TF_NAGLEMEMERR);; mret ERR_MEM
  else
    let optflags := flag_options flags c in
    when (ctrue (Z.land flags TCP_SYN)) (on_rx permit_sack);;
    c ← get;
    let optlen := u8 (LWIP_TCP_OPT_LENGTH (core c) optflags) in
    ok ← ret_core (alloc (mem g));
    if (ok : bool) then
      ns ← ret_core (tcp_create_segment (mem g) [Buf optlen 1] (snd_lbb q) optflags);
      match ns with
      | None => on_core (or_flags TF_NAGLEMEMERR);; mret ERR_MEM
      | Some seg =>
        on_qs (enqueue flags (set_hrf (TCPH_HDRLEN_FLAGS_SET (5 + optlen / 4) flags) seg));;
        when (ctrue (Z.land flags TCP_FIN)) (on_core (or_flags TF_FIN));;
        mret ERR_OK
      end
    else on_core (or_flags TF_NAGLEMEMERR);; mret ERR_MEM.

(** The FIN rides on the last unsent segment if it can. *)
Definition tcp_send_fin : M err_t :=
  c ← get;
  match list.last (unsent (qs (core c))) with
  | Some s =>
    if ctrue (Z.land (TCPH_FLAGS (hrf s)) (Z.lor (Z.lor TCP_SYN TCP_FIN) TCP_RST)) then tcp_enqueue_flags TCP_FIN
    else
      on_qs (fun q => set_unsent (removelast (unsent q) ++ [set_hrf (TCPH_SET_FLAG (hrf s) TCP_FIN) s]) q);;
      on_core (or_flags TF_FIN);; mret ERR_OK
  | None => tcp_enqueue_flags TCP_FIN
  end.

(** ** Freeing *)

Definition tcp_pcb_purge : M unit :=
  c ← get;
  match st c with
  | CLOSED | TIME_WAIT | LISTEN => mret tt
  | _ =>
    on_life (set_refused []);;
    on_rx (Recv.set_ooseq []);;
    on_tm (set_rtime (-1));;
    on_qs (fun q => set_unsent_oversize 0 (set_unacked [] (set_unsent [] q)));;
    on_life set_cc_dead
  end.

Definition tcp_pcb_remove (inp : bool) : M unit :=
  tcp_pcb_purge;;
  c ← get;
  when (negb (bool_decide (st c = TIME_WAIT)) && negb (bool_decide (st c = LISTEN)) && flag TF_ACK_DELAY (core c))
    (tcp_ack_now;; tcp_output inp);;
  set_tcp_state CLOSED.

Definition tcp_abandon (inp reset : bool) : M unit :=
  c ← get;
  if decide (st c = TIME_WAIT) then tcp_pcb_remove inp
  else
    let send_rst := reset && negb (bool_decide (st c = CLOSED)) in
    let seqno := snd_nxt (sn (core c)) in
    tcp_pcb_remove inp;;
    on_qs (fun q => set_unsent [] (set_unacked [] q));;
    on_err cb ERR_ABRT;;
    when send_rst (tcp_rst seqno).

Definition tcp_abort (inp : bool) : M unit := tcp_abandon inp true.

(** ** Closing *)

(** [tcp_send_fin], the next state and [tcp_output]. *)
Definition fin_then (inp : bool) (s : tcp_state) : M err_t :=
  err ← tcp_send_fin;
  when (bool_decide (err = ERR_OK)) (set_tcp_state s;; tcp_output inp);;
  mret err.

Definition tcp_close_shutdown (inp rst_on_unacked_data : bool) : M err_t :=
  c ← get;
  let r := rx (core c) in
  if rst_on_unacked_data && (bool_decide (st c = ESTABLISHED) || bool_decide (st c = CLOSE_WAIT))
     && (negb (bool_decide (refused_data (lf c) = [])) || negb (bool_decide (Recv.rcv_wnd r = Recv.rcv_wnd_max r))) then
    tcp_rst (snd_nxt (sn (core c)));;
    tcp_pcb_purge;;
    when (bool_decide (st c = ESTABLISHED)) (set_tcp_state TIME_WAIT);;
    mret ERR_OK
  else
    match st c with
    | CLOSED => mret ERR_OK
    | LISTEN | SYN_SENT => tcp_pcb_remove inp;; mret ERR_OK
    | SYN_RCVD | ESTABLISHED => fin_then inp FIN_WAIT_1
    | CLOSE_WAIT => fin_then inp LAST_ACK
    | _ => mret ERR_OK
    end.

Definition rxclosed : M unit := on_core (or_flags TF_RXCLOSED).

Definition tcp_close (inp : bool) : M err_t :=
  c ← get;
  when (negb (bool_decide (st c = LISTEN))) rxclosed;;
  tcp_close_shutdown inp true.

Definition tcp_shutdown (inp shut_rx shut_tx : bool) : M err_t :=
  c ← get;
  if decide (st c = LISTEN) then mret ERR_CONN
  else
    when shut_rx rxclosed;;
    if shut_rx && shut_tx then tcp_close_shutdown inp true
    else
      when shut_rx (on_life (set_refused []));;
      if shut_tx then
        match st c with
        | SYN_RCVD | ESTABLISHED | CLOSE_WAIT => tcp_close_shutdown inp false
        | _ => mret ERR_CONN
        end
      else mret ERR_OK.

(** ** Opening *)

Definition tcp_bind (ip port : Z) : M err_t :=
  c ← get;
  if decide (st c = CLOSED) then
    on_setup (fun s => set_local (if decide (ip = 0) then local_ip s else ip) port s);; mret ERR_OK
  else mret ERR_ISCONN.

(** [None] is [NULL]; the listening connection is changed. *)
Definition tcp_listen (listen_pcb c : option pcb) : err_t * option pcb :=
  match listen_pcb, c with
  | Some l, Some c =>
    if decide (st c = LISTEN) then (ERR_ISCONN, Some l)
    else
      let p := core l in
      let p := Pcb (Recv.set_state LISTEN (rx p)) (cc p) (tlt p) (iss p) (tos (core c)) (dctcp p) (sn p) (tm p) (qs p) in
      (ERR_OK, Some (P p (lf l) (set_so_options (Z.lor (so_options (su c)) SOF_ACCEPTCONN)
                                   (set_local (local_ip (su c)) (local_port (su c)) (su l)))))
  | _, _ => (ERR_ISCONN, listen_pcb)
  end.

Definition tcp_eff_send_mss (sendmss : Z) : Z :=
  if decide (route_mtu g <> 0) then u16 (Z.min sendmss (route_mtu g - 20 - TCP_HLEN)) else sendmss.

Definition tcp_mss_follow_mtu_with_default (defsendmss : Z) : Z :=
  if decide (route_mtu g <> 0) then Z.max (u16 (route_mtu g - 20 - TCP_HLEN)) 1 else defsendmss.

(** What TcpOpt sees of a connection, and what it may change. *)
Definition opt_view (c : pcb) : Opt.tcp_pcb :=
  let p := core c in
  let r := rx p in
  Opt.Pcb (advtsd_mss (lf c)) (Recv.mss r) (max_snd_buff (su c)) (max_tcp_snd_queuelen (qs p)) (max_unsent_len (qs p))
    (tcp_oversize_val (qs p)) (snd_scale (sn p)) (rcv_scale (lf c)) (Recv.flags r) (enable_ts_opt (su c))
    (ts_recent (lf c)) (Recv.ts_lastacksent r) (Recv.sack_permitted r) (Recv.rcv_nxt r) (Recv.rcv_sack_block r).

Definition opt_update (o : Opt.tcp_pcb) (c : pcb) : pcb :=
  let p := core c in
  let r := rx p in
  let s := sn p in
  let q := qs p in
  let p := set_rx (Recv.Pcb (Recv.state r) (Opt.flags o) (Recv.rcv_nxt r) (Recv.rcv_wnd r) (Recv.rcv_ann_wnd r)
             (Recv.rcv_wnd_max r) (Recv.rcv_ann_right_edge r) (Opt.mss o) (Recv.ooseq r) (Recv.ts_lastacksent r)
             (Opt.sack_permitted o) (Recv.rcv_sack_block r)) p in
  let p := set_sn (Sender (snd_nxt s) (snd_wnd s) (snd_wnd_max s) (snd_wl1 s) (snd_wl2 s) (lastack s) (acked s)
             (Opt.snd_scale o) (dupacks s) (snd_sml_snt s) (snd_sml_add s)) p in
  let p := set_qs (Queues (unsent q) (unacked q) (last_unsent q) (last_unacked q) (snd_queuelen q) (snd_buf q)
             (snd_lbb q) (Opt.max_tcp_snd_queuelen o) (seg_alloc q) (next_id q) (unsent_oversize q)
             (Opt.max_unsent_len o) (Opt.tcp_oversize_val o)) p in
  P p (set_negotiated (Opt.rcv_scale o) (Opt.ts_recent o) (lf c)) (su c).

(** A segment size of 0 is divided by. *)
Definition UPDATE_PCB_BY_MSS (m : Z) : M unit :=
  if decide (m = 0) then undef else modify (fun c => opt_update (Opt.UPDATE_PCB_BY_MSS m (opt_view c)) c).

(** At most 40 bytes of options are read, one at least in each round, unless
    the loop does not end at all. *)
Definition tcp_parseopt (i : arrival) : M (list Recv.tcp_sack_block) :=
  c ← get;
  match Opt.tcp_parseopt 64 (scale_cfg g) (i_hdrlen i) (i_opts i)
          (opt_view c, Opt.In (i_flags i) (i_seqno i) (i_tcplen i) []) with
  | Opt.Ok (o, d) => modify (opt_update o);; mret (Opt.sack_block d)
  | _ => undef
  end.

Definition initial_mss : Z :=
  if decide (lwip_tcp_mss g <> 0) then (if decide (lwip_tcp_mss g > 536) then 536 else lwip_tcp_mss g) else 536.

Definition route_mss : Z :=
  if decide (lwip_tcp_mss g > 0) then tcp_eff_send_mss (lwip_tcp_mss g) else tcp_mss_follow_mtu_with_default 536.

(** The numbers of a connection that is about to send its SYN. *)
Definition reset_seqnos (c : pcb) : pcb :=
  let p := core c in
  let s := sn p in
  let r := rx p in
  let p := set_rx (Recv.Pcb (Recv.state r) (Recv.flags r) 0 (Recv.rcv_wnd r) (Recv.rcv_ann_wnd r) (Recv.rcv_wnd_max r) 0
             (Recv.mss r) (Recv.ooseq r) (Recv.ts_lastacksent r) (Recv.sack_permitted r) (Recv.rcv_sack_block r)) p in
  let p := set_sn (Sender 1 TCP_WND (snd_wnd_max s) (snd_wl1 s) (snd_wl2 s) 0 (acked s) (snd_scale s) (dupacks s)
             (snd_sml_snt s) (snd_sml_add s)) p in
  P (set_qs (set_snd_lbb 0 (qs p)) p) (lf c) (su c).

Definition set_windows (w s : Z) : M unit := on_core (fun p => set_cc (Cc.Vars w s (Cc.cc_data (cc p))) p).

Definition tcp_connect (ipaddr : option Z) (port : Z) : M err_t :=
  c ← get;
  if decide (st c = CLOSED) then
    match ipaddr with
    | None => mret ERR_VAL
    | Some ip =>
      on_setup (set_remote ip port);;
      if decide (local_port (su c) = 0) then mret ERR_VAL
      else
        modify reset_seqnos;;
        on_life (set_advtsd_mss initial_mss);;
        UPDATE_PCB_BY_MSS initial_mss;;
        on_life (set_advtsd_mss route_mss);;
        c ← get;
        UPDATE_PCB_BY_MSS (tcp_eff_send_mss (Recv.mss (rx (core c))));;
        c ← get;
        set_windows 1 (Recv.mss (rx (core c)) * 10);;
        ret ← tcp_enqueue_flags TCP_SYN;
        when (bool_decide (ret = ERR_OK)) (set_tcp_state SYN_SENT;; tcp_output false);;
        mret ret
    end
  else mret ERR_ISCONN.

(** [TCP_WND_SCALED(npcb)] in the four window fields. *)
Definition open_windows (c : pcb) : pcb :=
  let w := u32 (Z.shiftl TCP_WND (rcv_scale (lf c))) in
  let r := rx (core c) in
  P (set_rx (Recv.Pcb (Recv.state r) (Recv.flags r) (Recv.rcv_nxt r) w w w (Recv.rcv_ann_right_edge r) (Recv.mss r)
       (Recv.ooseq r) (Recv.ts_lastacksent r) (Recv.sack_permitted r) (Recv.rcv_sack_block r)) (core c))
    (lf c) (set_wnd_max_desired w (su c)).

(** [l] is the listening connection; the computation runs on the one that
    [clone_conn] made. *)
Definition accept_syn (l : pcb) (i : arrival) : M err_t :=
  on_setup (fun s => set_so_options (Z.land (so_options (su l)) SOF_INHERITED)
              (set_remote (i_src i) (i_src_port i) (set_local (i_dest i) (local_port (su l)) s)));;
  set_tcp_state SYN_RCVD;;
  on_rx (fun r => Recv.Pcb (Recv.state r) (Recv.flags r) (u32 (i_seqno i + 1)) (Recv.rcv_wnd r) (Recv.rcv_ann_wnd r)
     (Recv.rcv_wnd_max r) (u32 (i_seqno i + 1)) (Recv.mss r) (Recv.ooseq r) (Recv.ts_lastacksent r)
     (Recv.sack_permitted r) (Recv.rcv_sack_block r));;
  on_sn (fun s => Sender (snd_nxt s) (i_wnd i) (snd_wnd_max s) (u32 (i_seqno i - 1)) (snd_wl2 s) (lastack s) (acked s)
     0 (dupacks s) (snd_sml_snt s) (snd_sml_add s));;
  on_life (fun l => set_advtsd_mss route_mss (set_negotiated 0 (ts_recent l) l));;
  _ ← tcp_parseopt i;
  modify open_windows;;
  c ← get;
  let w := SND_WND_SCALE (core c) (i_wnd i) in
  on_sn (fun s => Sender (snd_nxt s) w w (snd_wl1 s) (snd_wl2 s) (lastack s) (acked s) (snd_scale s) (dupacks s)
     (snd_sml_snt s) (snd_sml_add s));;
  set_windows (Cc.cwnd (cc (core c))) w;;
  UPDATE_PCB_BY_MSS (tcp_eff_send_mss (Recv.mss (rx (core c))));;
  rc ← on_syn cb;
  if decide (rc = ERR_OK) then
    rc ← tcp_enqueue_flags (Z.lor TCP_SYN TCP_ACK);
    if decide (rc = ERR_OK) then tcp_output false;; mret ERR_OK
    else tcp_abandon false false;; mret rc
  else mret rc.

(** [npcb] is what [clone_conn] returns.  The RST for an ACK is not sent:
    [tcp_rst] is called without a connection. *)
Definition tcp_listen_input (l : pcb) (npcb : option pcb) (i : arrival) : option (err_t * list pkt * option pcb) :=
  if ctrue (Z.land (i_flags i) TCP_RST) || ctrue (Z.land (i_flags i) TCP_FIN) then Some (ERR_OK, [], None)
  else if ctrue (Z.land (i_flags i) TCP_ACK) then Some (ERR_OK, [], None)
  else if ctrue (Z.land (i_flags i) TCP_SYN) then
    match npcb with
    | None => Some (ERR_MEM, [], None)
    | Some n => '(e, out, n) ← accept_syn l i n; Some (e, out, Some n)
    end
  else Some (ERR_OK, [], None).

Definition tcp_timewait_input (i : arrival) : M err_t :=
  c ← get;
  let r := rx (core c) in
  if ctrue (Z.land (i_flags i) TCP_RST) then mret ERR_OK
  else if ctrue (Z.land (i_flags i) TCP_SYN)
          && TCP_SEQ_BETWEEN (i_seqno i) (Recv.rcv_nxt r) (Recv.rcv_nxt r + Recv.rcv_wnd r) then
    tcp_rst (i_ackno i);; mret ERR_OK
  else
    when (negb (ctrue (Z.land (i_flags i) TCP_SYN)) && ctrue (Z.land (i_flags i) TCP_FIN))
      (on_life (set_tmr (tcp_ticks g)));;
    when (bool_decide (i_tcplen i > 0)) (tcp_ack_now;; tcp_output false);;
    mret ERR_OK.

(** ** Receiving *)

Definition in_seg (i : arrival) : Recv.tcp_seg :=
  Recv.Seg (i_data i) (u16 (Recv.tot (i_data i))) (i_seqno i) (i_flags i).

(** Whether the data half of [tcp_receive] calls [tcp_send_empty_ack]: for a
    segment that is not the next one. *)
Definition acks_at_once (r : Recv.tcp_pcb) (i : Recv.tcp_in_data) : bool :=
  bool_decide (Recv.tcplen i > 0) && Recv.before_close_wait (Recv.state r)
  && match Recv.trim_to_rcv_nxt r i with
     | Some (r, i) =>
       negb (TCP_SEQ_BETWEEN (Recv.seqno i) (Recv.rcv_nxt r) (Recv.rcv_nxt r + Recv.rcv_wnd r - 1)
             && bool_decide (Recv.rcv_nxt r = Recv.seqno i))
     | None => false
     end.

(** Both halves.  The acknowledgement that [Recv.receive_data] would send is
    sent with the whole connection at hand, so that it carries the marks of TLT
    and DCTCP. *)
Definition tcp_receive (i : arrival) (sack : list Recv.tcp_sack_block) : M (list Pbuf.pbuf * Z) :=
  run_core (receive_ack (mem g) (tcp_ticks g)
              (Send.In (i_flags i) (i_seqno i) (i_ackno i) (i_wnd i) (i_tcplen i) sack));;
  ok ← ret_core (alloc (mem g));
  c ← get;
  let d := Recv.In (in_seg i) (i_tcplen i) [] 0 in
  '(r, d') ← from_option (Recv.receive_data ok false (rx (core c)) d);
  on_rx (fun _ => r);;
  when (acks_at_once (rx (core c)) d) empty_ack;;
  mret (Recv.recv_data d', Recv.recv_flags d').

(** [u32_t old_cwnd = cwnd; ...; cwnd = old_cwnd; cc_conn_init(pcb)] *)
Definition conn_init : M unit := run_core (fun p =>
  v ← Cc.cc_conn_init (cc_ctx (tcp_ticks g) p) (cc p); Some ([], set_cc v p)).

Definition i_has (f : Z) (i : arrival) : bool := ctrue (Z.land (i_flags i) f).

(** The SYN was acknowledged: its segment [rseg] leaves [unacked]. *)
Definition syn_acked (i : arrival) (c : pcb) : pcb :=
  let p := core c in
  let s := sn p in
  let r := rx p in
  let w := SND_WND_SCALE p (i_wnd i) in
  let p := set_rx (Recv.Pcb ESTABLISHED (Recv.flags r) (u32 (i_seqno i + 1)) (Recv.rcv_wnd r) (Recv.rcv_ann_wnd r)
             (Recv.rcv_wnd_max r) (u32 (i_seqno i + 1)) (Recv.mss r) (Recv.ooseq r) (Recv.ts_lastacksent r)
             (Recv.sack_permitted r) (Recv.rcv_sack_block r)) p in
  P (set_sn (Sender (snd_nxt s) w w (u32 (i_seqno i - 1)) (snd_wl2 s) (i_ackno i) (acked s) (snd_scale s) (dupacks s)
       (snd_sml_snt s) (snd_sml_add s)) p) (lf c) (su c).

Definition drop_syn (p : tcp_pcb A) : tcp_pcb A :=
  let q := qs p in
  let l := tail (unacked q) in
  let t := tm p in
  set_tm (match l with [] => set_rtime (-1) t | _ => set_nrtx 0 (set_rtime 0 t) end)
    (set_qs (set_unacked l (set_snd_queuelen (u32 (snd_queuelen q - 1)) q)) p).

Definition process_syn_sent (i : arrival) : M err_t :=
  c ← get;
  ok ← from_option (if i_has TCP_ACK i && i_has TCP_SYN i then
                      match unacked (qs (core c)) with
                      | [] => None
                      | s :: _ => Some (bool_decide (i_ackno i = u32 (seqno s + 1)))
                      end
                    else Some false);
  if (ok : bool) then
    modify (syn_acked i);;
    c ← get;
    UPDATE_PCB_BY_MSS (tcp_eff_send_mss (Recv.mss (rx (core c))));;
    c ← get;
    set_windows (Cc.cwnd (cc (core c))) (Recv.mss (rx (core c)) * 10);;
    conn_init;;
    on_core drop_syn;;
    err ← on_connected cb;
    if decide (err = ERR_ABRT) then mret ERR_ABRT
    else tcp_ack_now;; on_tm (set_rttest 0);; mret ERR_OK
  else when (i_has TCP_ACK i) (tcp_rst (i_ackno i));; mret ERR_OK.

(** A FIN was received: acknowledge it and go to [s]. *)
Definition got_fin (d : list Pbuf.pbuf * Z) : bool := ctrue (Z.land d.2 Recv.TF_GOT_FIN).

Definition on_fin (d : list Pbuf.pbuf * Z) (s : tcp_state) : M unit :=
  when (got_fin d) (tcp_ack_now;; set_tcp_state s).

Definition enter_time_wait : M unit := tcp_pcb_purge;; set_tcp_state TIME_WAIT.

Definition process_syn_rcvd (i : arrival) (sack : list Recv.tcp_sack_block) : M (err_t * (list Pbuf.pbuf * Z)) :=
  c ← get;
  if i_has TCP_ACK i then
    if TCP_SEQ_BETWEEN (i_ackno i) (lastack (sn (core c)) + 1) (snd_nxt (sn (core c))) then
      set_tcp_state ESTABLISHED;;
      err ← on_accept cb;
      if decide (err <> ERR_OK) then
        when (negb (bool_decide (err = ERR_ABRT))) (tcp_abort true);; mret (ERR_ABRT, ([], 0))
      else
        c ← get;
        d ← tcp_receive i sack;
        on_sn (fun s => if ctrue (acked s) then set_acked (acked s - 1) s else s);;
        on_core (fun p => set_cc (Cc.set_cwnd (Cc.cwnd (cc (core c))) (cc p)) p);;
        conn_init;;
        on_fin d CLOSE_WAIT;;
        mret (ERR_OK, d)
    else tcp_rst (i_ackno i);; mret (ERR_OK, ([], 0))
  else
    when (i_has TCP_SYN i && bool_decide (i_seqno i = u32 (Recv.rcv_nxt (rx (core c)) - 1))) (on_core tcp_rexmit);;
    mret (ERR_OK, ([], 0)).

(** The acknowledgement of everything that was sent, the FIN included if it was. *)
Definition acks_all (i : arrival) (c : pcb) : bool :=
  i_has TCP_ACK i && bool_decide (i_ackno i = snd_nxt (sn (core c))).

(** The states with data: what comes after [tcp_receive]. *)
Definition after_receive (s : tcp_state) (i : arrival) (d : list Pbuf.pbuf * Z) : M (list Pbuf.pbuf * Z) :=
  c ← get;
  match s with
  | ESTABLISHED | CLOSE_WAIT => on_fin d CLOSE_WAIT;; mret d
  | FIN_WAIT_1 =>
    (if got_fin d then tcp_ack_now;; if acks_all i c then enter_time_wait else set_tcp_state CLOSING
     else when (acks_all i c) (set_tcp_state FIN_WAIT_2));; mret d
  | FIN_WAIT_2 => when (got_fin d) (tcp_ack_now;; enter_time_wait);; mret d
  | CLOSING => when (acks_all i c) enter_time_wait;; mret d
  | LAST_ACK => mret (d.1, if acks_all i c then Z.lor d.2 TF_CLOSED else d.2)
  | _ => mret d
  end.

(** Whether a RST is acceptable. *)
Definition rst_acceptable (i : arrival) (c : pcb) : bool :=
  if decide (st c = SYN_SENT) then bool_decide (i_ackno i = snd_nxt (sn (core c)))
  else TCP_SEQ_BETWEEN (i_seqno i) (Recv.rcv_nxt (rx (core c))) (Recv.rcv_nxt (rx (core c)) + Recv.rcv_wnd (rx (core c))).

(** The result: the error, what is handed up and [recv_flags]. *)
Definition tcp_process (i : arrival) : M (err_t * (list Pbuf.pbuf * Z)) :=
  c ← get;
  if i_has TCP_RST i then
    if rst_acceptable i c then on_core (clear_flags TF_ACK_DELAY);; mret (ERR_RST, ([], TF_RESET))
    else mret (ERR_OK, ([], 0))
  else if i_has TCP_SYN i && negb (bool_decide (st c = SYN_SENT)) && negb (bool_decide (st c = SYN_RCVD)) then
    tcp_ack_now;; mret (ERR_OK, ([], 0))
  else
    when (negb (flag TF_RXCLOSED (core c))) (on_life (set_tmr (tcp_ticks g)));;
    on_life (set_keep_cnt_sent 0);;
    sack ← tcp_parseopt i;
    match st c with
    | SYN_SENT => e ← process_syn_sent i; mret (e, ([], 0))
    | SYN_RCVD => process_syn_rcvd i sack
    | CLOSED | LISTEN | TIME_WAIT => mret (ERR_OK, ([], 0))
    | s => d ← tcp_receive i sack; d ← after_receive s i d; mret (ERR_OK, d)
    end.

(** ** Input

    Data for the application, in pieces of less than 64 KB; the result is what
    it did not take.  Every round takes a buffer at least off the chain. *)
Fixpoint deliver (fuel : nat) (d : list Pbuf.pbuf) : M (err_t * list Pbuf.pbuf) :=
  match d, fuel with
  | [], _ => mret (ERR_OK, [])
  | _, O => undef
  | _, S fuel =>
    '(front, rest) ← from_option (Pbuf.pbuf_split_64k d);
    err ← on_recv cb (Some front);
    if decide (err = ERR_OK) then deliver fuel rest
    else
      kept ← from_option (match rest with [] => Some front | _ => Pbuf.pbuf_cat front rest end);
      mret (err, kept)
  end.

(** The same for the data that has just arrived; nobody reads any more after
    [TF_RXCLOSED]. *)
Fixpoint deliver_new (fuel : nat) (d : list Pbuf.pbuf) : M (err_t * list Pbuf.pbuf) :=
  match d, fuel with
  | [], _ => mret (ERR_OK, [])
  | _, O => undef
  | _, S fuel =>
    c ← get;
    if flag TF_RXCLOSED (core c) then tcp_abort true;; mret (ERR_ABRT, [])
    else
      '(front, rest) ← from_option (Pbuf.pbuf_split_64k d);
      err ← on_recv cb (Some front);
      if decide (err = ERR_OK) then deliver_new fuel rest
      else
        kept ← from_option (match rest with [] => Some front | _ => Pbuf.pbuf_cat front rest end);
        mret (err, kept)
  end.

(** TLT and DCTCP look at the packet first. *)
Definition marks_in (i : arrival) : M unit := run_core (fun p =>
  t ← Tlt.tlt_in (Tlt.Seg (i_seqno i) (u16 (Recv.tot (i_data i))) (i_flags i) (i_ackno i) (i_tos i)) (i_tos i) (tlt_pcb p);
  let p := set_tlt (Tlt.tlt t) p in
  Some ([], set_dctcp (Dctcp.dctcp (Dctcp.dctcp_recv (Z.land (i_tos i) 3) (i_flags i) (i_ackno i) (dctcp_pcb p))) p)).

(** [++] of the window for the FIN, which nobody reads. *)
Definition fin_window (r : Recv.tcp_pcb) : Recv.tcp_pcb :=
  if decide (Recv.rcv_wnd r = Recv.rcv_wnd_max r) then r
  else Recv.set_nxt_wnd (Recv.rcv_nxt r) (u32 (Recv.rcv_wnd r + 1)) r.

(** After [tcp_process]: the application is told, then [tcp_output]. *)
Definition input_events (d : list Pbuf.pbuf * Z) : M unit :=
  c ← get;
  err ← (if decide (acked (sn (core c)) > 0) then on_sent cb (acked (sn (core c))) else mret ERR_OK);
  if decide (err = ERR_ABRT) then mret tt
  else
    '(err, kept) ← deliver_new (length d.1) d.1;
    if decide (err = ERR_ABRT) then mret tt
    else
      when (negb (bool_decide (err = ERR_OK))) (on_life (set_refused kept));;
      err ← (if got_fin d then on_rx fin_window;; on_recv cb None else mret ERR_OK);
      if decide (err = ERR_ABRT) then mret tt else tcp_output false.

Definition input_active (i : arrival) : M unit :=
  marks_in i;;
  c ← get;
  '(err, kept) ← deliver (length (refused_data (lf c))) (refused_data (lf c));
  on_life (set_refused kept);;
  if decide (err <> ERR_OK) then mret tt
  else
    '(err, d) ← tcp_process i;
    if decide (err = ERR_ABRT) then mret tt
    else if ctrue (Z.land d.2 TF_RESET) then on_err cb ERR_RST;; tcp_pcb_remove true
    else if ctrue (Z.land d.2 TF_CLOSED) then tcp_pcb_remove true
    else input_events d.

(** [L3_level_tcp_input] from the checked header on: the connection it was
    called for and, for a listening one, the one [clone_conn] makes.  Without a
    connection nothing happens: [tcp_rst] needs one. *)
Definition L3_level_tcp_input (c npcb : option pcb) (i : arrival) : option (list pkt * option pcb * option pcb) :=
  match c with
  | None => Some ([], None, None)
  | Some c =>
    if PCB_IN_ACTIVE_STATE (st c) then
      '(_, out, c) ← input_active i c; Some (out, Some c, None)
    else
      match st c with
      | LISTEN => '(_, out, n) ← tcp_listen_input c npcb i; Some (out, Some c, n)
      | TIME_WAIT => '(_, out, c) ← tcp_timewait_input i c; Some (out, Some c, None)
      | _ => Some ([], Some c, None)
      end
  end.

(** ** Timers *)

Definition ms_ticks (n : Z) : M Z := if decide (slow_tmr_interval g = 0) then undef else mret (n / slow_tmr_interval g).

(** [(u32_t)(tcp_ticks - pcb->tmr)] *)
Definition idle (c : pcb) : Z := u32 (tcp_ticks g - tmr (lf c)).

Definition stays_longer (ms : Z) : M bool := c ← get; t ← ms_ticks ms; mret (bool_decide (idle c > t)).

(** The persist timer: a probe and the next interval. *)
Definition slow_persist (t : timers) : M unit :=
  b ← from_option (tcp_persist_backoff !! Z.to_nat (persist_backoff t - 1));
  let n := u32 (persist_cnt t + 1) in
  if decide (n >= b) then
    let k := if decide (persist_backoff t < 7) then persist_backoff t + 1 else persist_backoff t in
    on_tm (fun t => Timers (rtime t) (rttest t) (rtseq t) (t_rttupdated t) (sa t) (sv t) (rto t) (minrto t) (nrtx t)
                      0 k (polltmr t));;
    tcp_keepalive
  else
    on_tm (fun t => Timers (rtime t) (rttest t) (rtseq t) (t_rttupdated t) (sa t) (sv t) (rto t) (minrto t) (nrtx t)
                      n (persist_backoff t) (polltmr t)).

(** [MAX(((sa >> 3) + sv) << tcp_backoff[nrtx], minrto)]: outside of the table,
    or out of 32 bits, it is undefined. *)
Definition backed_off (t : timers) : option Z :=
  b ← tcp_backoff !! Z.to_nat (nrtx t);
  let x := Z.shiftl (Z.shiftr (sa t) 3 + sv t) b in
  if decide (- 2 ^ 31 <= x < 2 ^ 31) then Some (Z.max x (minrto t)) else None.

(** Time for a retransmission. *)
Definition slow_timeout : M unit :=
  c ← get;
  (if decide (st c = SYN_SENT) then mret tt else r ← from_option (backed_off (tm (core c))); on_tm (set_rto r));;
  on_tm (set_rtime 0);;
  run_core (fun p => v ← Cc.cc_cong_signal (cc_ctx (tcp_ticks g) p) Cc.CC_RTO (cc p);
                     let p := set_cc v p in
                     Some ([], set_dctcp (Dctcp.dctcp (Dctcp.dctcp_reduce_cwnd_rto (dctcp_pcb p))) p));;
  run_core (tcp_rexmit_rto (mem g) (tcp_ticks g)).

(** [Some err]: the connection is to be removed. *)
Definition slow_rexmit : M (option err_t) :=
  c ← get;
  let t := tm (core c) in
  if decide (st c = SYN_SENT /\ nrtx t = TCP_SYNMAXRTX) then mret (Some ERR_TIMEOUT)
  else if decide (nrtx t = TCP_MAXRTX) then mret (Some ERR_ABRT)
  else if decide (persist_backoff t > 0) then slow_persist t;; mret None
  else
    on_tm (fun t => if decide (rtime t >= 0) then set_rtime (s16 (rtime t + 1)) t else t);;
    c ← get;
    when (negb (bool_decide (unacked (qs (core c)) = [])) && bool_decide (rtime (tm (core c)) >= rto (tm (core c))))
      slow_timeout;;
    mret None.

(** The keep-alive probes: [true] when the peer has not answered. *)
Definition slow_keepalive : M bool :=
  c ← get;
  if ctrue (Z.land (so_options (su c)) SOF_KEEPALIVE)
     && (bool_decide (st c = ESTABLISHED) || bool_decide (st c = CLOSE_WAIT)) then
    dead ← stays_longer (keep_idle (su c) + TCP_MAXIDLE);
    if (dead : bool) then mret true
    else
      b ← stays_longer (keep_idle (su c) + keep_cnt_sent (lf c) * TCP_KEEPINTVL_DEFAULT);
      when b (tcp_keepalive;; on_life (fun l => set_keep_cnt_sent (u8 (keep_cnt_sent l + 1)) l));;
      mret false
  else mret false.

(** "If this PCB has queued out of sequence data, but has been inactive for too
    long, will drop the data". *)
Definition slow_ooseq : M unit :=
  c ← get;
  when (negb (bool_decide (Recv.ooseq (rx (core c)) = []))
        && bool_decide (idle c >= u32 (rto (tm (core c)) * TCP_OOSEQ_TIMEOUT)))
    (on_rx (Recv.set_ooseq [])).

(** A connection that is stuck in the state [s]. *)
Definition slow_stuck (b : bool) (ms : Z) (r : option err_t) : M (option err_t) :=
  if b then x ← stays_longer ms; mret (if (x : bool) then Some ERR_ABRT else r) else mret r.

Definition slow_end (r : option err_t) (reset : bool) : M unit :=
  match r with
  | Some err =>
    tcp_pcb_purge;;
    on_err cb err;;
    c ← get;
    when reset (tcp_rst (snd_nxt (sn (core c))));;
    set_tcp_state CLOSED
  | None =>
    c ← get;
    let n := u8 (polltmr (tm (core c)) + 1) in
    if decide (n >= pollinterval (su c)) then
      on_tm (set_polltmr 0);;
      err ← on_poll cb;
      when (bool_decide (err = ERR_OK)) (tcp_output false)
    else on_tm (set_polltmr n)
  end.

Definition slow_active : M unit :=
  r ← slow_rexmit;
  c ← get;
  r ← slow_stuck (bool_decide (st c = FIN_WAIT_2) && flag TF_RXCLOSED (core c)) TCP_FIN_WAIT_TIMEOUT r;
  dead ← slow_keepalive;
  let r := if (dead : bool) then Some ERR_ABRT else r in
  slow_ooseq;;
  c ← get;
  r ← slow_stuck (bool_decide (st c = SYN_RCVD)) TCP_SYN_RCVD_TIMEOUT r;
  r ← slow_stuck (bool_decide (st c = LAST_ACK)) (2 * TCP_MSL) r;
  slow_end r dead.

Definition tcp_slowtmr : M unit :=
  c ← get;
  when (PCB_IN_ACTIVE_STATE (st c)) slow_active;;
  c ← get;
  if decide (st c = TIME_WAIT) then
    b ← stays_longer (2 * TCP_MSL);
    when b (tcp_pcb_purge;; set_tcp_state CLOSED)
  else mret tt.

Definition tcp_fasttmr : M unit :=
  c ← get;
  if PCB_IN_ACTIVE_STATE (st c) then
    '(err, kept) ← deliver (length (refused_data (lf c))) (refused_data (lf c));
    if decide (err = ERR_ABRT) then mret tt
    else
      on_life (set_refused kept);;
      c ← get;
      when (flag TF_ACK_DELAY (core c))
        (tcp_ack_now;; tcp_output false;; on_core (clear_flags (Z.lor TF_ACK_DELAY TF_ACK_NOW)))
  else mret tt.

Definition tcp_tmr : M unit :=
  tcp_fasttmr;;
  on_life (fun l => set_tcp_timer (u8 (tcp_timer l + 1)) l);;
  c ← get;
  when (Z.odd (tcp_timer (lf c))) tcp_slowtmr.

(** ** A new connection

    [d] is the data [cc_init] makes, [ts] is [enable_ts_option]. *)
Definition tcp_pcb_init (d : Cc.data) (ts : bool) : option pcb :=
  let t n := n / slow_tmr_interval g in
  if decide (slow_tmr_interval g = 0) then None
  else
    let r := Recv.Pcb CLOSED 0 0 TCP_WND TCP_WND TCP_WND 0 0 [] 0 false [] in
    let p := Pcb r (Cc.Vars 1 0 d) (Tlt.tlt (Tlt.tlt_init (Tlt.Pcb (Tlt.TltParam Tlt.Idle Tlt.Idle (Tlt.Queue [] 0) 0 0) 1 0)))
               1 0 (Dctcp.dctcp (Dctcp.dctcp_init (Dctcp.Pcb (Dctcp.Dctcp 0 0 0 0 0 0 0 0 0) 1 1 1)))
               (Sender 1 0 0 0 1 1 0 0 0 0 0)
               (Timers (-1) 0 0 0 (t (Z.shiftl TCP_INITIAL_RTT_EST 3)) 0 (t TCP_INITIAL_RTO) (t TCP_MIN_RTO) 0 0 0 0)
               (Queues [] [] None None 0 TCP_SND_BUF 1 0 false 0 0 0 0) in
    let c := P p (Life [] (tcp_ticks g) 0 0 initial_mss 0 0 true)
               (Setup TCP_KEEPIDLE_DEFAULT 0 0 ts TCP_SND_BUF TCP_WND 0 0 0 0) in
    '(_, _, c) ← UPDATE_PCB_BY_MSS initial_mss c;
    Some (P (set_qs (Queues [] [] None None 0 TCP_SND_BUF 1 (max_tcp_snd_queuelen (qs (core c))) false 0 0
                       (u16 (max_tcp_snd_queuelen (qs (core c)))) (tcp_oversize_val (qs (core c)))) (core c))
            (lf c) (su c)).
End ops.
End conn.
End Conn.
