(* ===== verification/TcpState.v ===== *)
(** * What a connection does

    Properties of the operations of TcpConn: which states a segment, a call of
    the application or a timer leads to, when a reset is believed, what the
    timers' tables are read at, and what closing does to data that has not been
    sent.

    [ends m P Q] is a small program logic for computations: from a connection
    that satisfies [P], every run of [m] ends in one that satisfies [Q]. *)

From S2P Require Import Prelude TcpBase Pbuf Tlt Dctcp TcpOpt TcpRecv Cc TcpSend TcpSendInv TcpSendOut TcpWrite TcpConn.

Local Open Scope Z_scope.

Module State.
Import Conn.
Import Recv(tcp_state, CLOSED, LISTEN, SYN_SENT, SYN_RCVD, ESTABLISHED, FIN_WAIT_1, FIN_WAIT_2, CLOSE_WAIT,
  CLOSING, LAST_ACK, TIME_WAIT).
Import Write(err_t, ERR_OK, ERR_MEM, ERR_TIMEOUT, ERR_VAL, ERR_ABRT, ERR_RST, ERR_CONN, ERR_ARG, ERR_ISCONN).

(** ** What sending leaves of the receiver *)

Definition rx_kept (r r' : Recv.tcp_pcb) : Prop :=
  Recv.state r' = Recv.state r /\ Recv.rcv_nxt r' = Recv.rcv_nxt r /\ Recv.rcv_wnd r' = Recv.rcv_wnd r /\
  Recv.rcv_wnd_max r' = Recv.rcv_wnd_max r /\ Recv.ooseq r' = Recv.ooseq r /\ Recv.mss r' = Recv.mss r /\
  Recv.sack_permitted r' = Recv.sack_permitted r /\ Recv.rcv_sack_block r' = Recv.rcv_sack_block r.

#[global] Instance rx_kept_refl : Reflexive rx_kept.
Proof. intros r. by unfold rx_kept. Qed.
#[global] Instance rx_kept_trans : Transitive rx_kept.
Proof. unfold rx_kept. intros r r' r'' ? ?. destruct_and?. split_and!; congruence. Qed.

Ltac kept_now := hnf; unfold rx_kept; simpl; split_and!; done.

Section kept.
Context {A : Cc.cc_algo}.
Implicit Types p : Send.tcp_pcb A.
Import Send.

Definition kept p p' : Prop := rx_kept (rx p) (rx p').

#[global] Instance kept_refl : Reflexive kept.
Proof. intros p. apply rx_kept_refl. Qed.
#[global] Instance kept_trans : Transitive kept.
Proof. intros p p' p''. apply rx_kept_trans. Qed.

Lemma kept_rx p p' : rx p' = rx p -> kept p p'.
Proof. unfold kept. by intros ->. Qed.

Lemma create_kept mem b sq o p ns p' : tcp_create_segment mem b sq o p = (ns, p') -> kept p p'.
Proof. unfold tcp_create_segment. destruct (alloc mem p) as [ok p1] eqn:E. injection E as <- <-. intros [= <- <-]. by apply kept_rx. Qed.

Lemma split_kept mem wnd p p' : tcp_split_segment mem wnd p = Some p' -> kept p p'.
Proof.
  unfold tcp_split_segment, split_first, split_chain, alloc. intros H.
  repeat (case_match; simplify_eq; try done);
    repeat match goal with
    | E : tcp_create_segment _ _ _ _ _ = _ |- _ => apply create_kept in E
    | E : (_ ≫= _) = Some _ |- _ => apply bind_Some in E as (? & ? & ?); simplify_eq
    end; try done.
  all: try (etransitivity; [|eassumption]; by apply kept_rx).
  all: by apply kept_rx.
Qed.
Lemma empty_ack_kept mem p : kept p (tcp_send_empty_ack mem p).2.
Proof.
  unfold tcp_send_empty_ack, alloc. destruct (mem _); [|by apply kept_rx].
  destruct (Dctcp.dctcp_send_empty _ _), (Tlt.tlt_out_empty_ack _). done.
Qed.

Lemma output_segment_kept now seg p k seg' p' : tcp_output_segment now seg p = Some (k, seg', p') -> kept p p'.
Proof.
  unfold tcp_output_segment. intros H. destruct (Dctcp.dctcp_send _ _) as [ds d].
  apply bind_Some in H as ([t ts] & _ & H). injection H as _ _ <-.
  by destruct (LWIP_IS_DUMMY_SEGMENT seg).
Qed.

Lemma dummy_ack_kept mem seg p : kept p (dummy_ack mem seg p).2.
Proof. unfold dummy_ack. case_match; [apply empty_ack_kept|done]. Qed.

Lemma piggyback_kept seg p : kept p (piggyback seg p).2.
Proof. unfold piggyback. by case_decide. Qed.

Lemma nagle_kept force seg rest p p' : nagle force seg rest p = Some p' -> kept p p'.
Proof. unfold nagle. intros H. repeat case_match; simplify_eq; by apply kept_rx. Qed.

Lemma output_one_kept mem now force seg rest p out p' : output_one mem now force seg rest p = Some (out, p') -> kept p p'.
Proof.
  unfold output_one. intros H.
  set (p1 := set_qs _ p) in H. assert (kept p p1) by by apply kept_rx. clearbody p1.
  pose proof (dummy_ack_kept mem seg p1) as K2. destruct (dummy_ack mem seg p1) as [o p2]. cbn [snd] in K2.
  pose proof (piggyback_kept seg p2) as K3. destruct (piggyback seg p2) as [sg p3]. cbn [snd] in K3.
  apply bind_Some in H as ([[k sg'] p4] & E & H). apply output_segment_kept in E.
  apply bind_Some in H as (q & _ & H). injection H as _ <-.
  transitivity p4; [|case_match; by apply kept_rx].
  do 2 (etransitivity; [eassumption|]). by etransitivity; [eassumption|].
Qed.

Lemma output_loop_kept fuel mem now wnd force p out p' : output_loop fuel mem now wnd force p = Some (out, p') -> kept p p'.
Proof.
  revert p out p'. induction fuel as [|fuel IH]; intros p out p' H; simpl in H;
    (destruct (unsent (qs p)) as [|s0 r0]; [by injection H as _ <-|]); [done|].
  apply bind_Some in H as (p1 & E & H).
  assert (kept p p1) as K1 by (clear H; case_match; [by eapply split_kept|by injection E as <-]). clear E.
  destruct (unsent (qs p1)) as [|seg rest]; [done|].
  destruct (_ || force); [|by injection H as _ <-].
  destruct (nagle force seg rest p1) as [p2|] eqn:E; [|by injection H as _ <-]. apply nagle_kept in E.
  apply bind_Some in H as ([o p3] & E3 & H). apply output_one_kept in E3.
  apply bind_Some in H as ([o' p4] & E4 & H). apply IH in E4. injection H as _ <-.
  do 3 (etransitivity; [eassumption|]). done.
Qed.

Lemma force_kept mem wnd p b p' : force_retransmit mem wnd p = Some (b, p') -> kept p p'.
Proof.
  unfold force_retransmit. intros H.
  destruct (unacked (qs p)) as [|u l]; [by injection H as _ <-|].
  case_match; [|by injection H as _ <-].
  apply bind_Some in H as (lost & _ & H).
  destruct (Tlt.tlt_uimpq_peek _ _) as [[s ?]|]; [|by injection H as _ <-].
  destruct (find_target _ _) as [target|]; [|by injection H as _ <-].
  apply bind_Some in H as ([[[s' ?]|] t] & _ & H); [|done]. cbn [mbind option_bind] in H.
  match type of H with context [alloc mem ?q] => destruct (alloc mem q) as [ok p1] eqn:E1 end.
  injection E1 as <- <-. destruct (mem _); [|by injection H as _ <-; apply kept_rx].
  match type of H with context [tcp_create_segment ?a ?b ?c ?d ?e] =>
    destruct (tcp_create_segment a b c d e) as [ns p2] eqn:E2 end.
  apply create_kept in E2.
  destruct ns as [n|]; injection H as _ <-; (etransitivity; [|exact E2]) || idtac; try by apply kept_rx.
Qed.

Lemma output_kept mem now p out p' : Send.tcp_output mem now p = Some (out, p') -> kept p p'.
Proof.
  unfold Send.tcp_output. intros H. case_match.
  { pose proof (empty_ack_kept mem p) as K. injection H as H. by rewrite H in K. }
  apply bind_Some in H as ([f p1] & E1 & H). apply force_kept in E1.
  apply bind_Some in H as ([o p2] & E2 & H). apply output_loop_kept in E2.
  injection H as _ <-. etransitivity; [eassumption|]. etransitivity; [eassumption|].
  destruct (decide (unsent (qs p2) = [])); simpl; destruct (seg_alloc (qs p2)); kept_now.
Qed.

Lemma rexmit_kept p : kept p (tcp_rexmit p).
Proof. unfold tcp_rexmit. case_match; [done|]. by apply kept_rx. Qed.

Lemma rexmit_rto_kept mem now p out p' : tcp_rexmit_rto mem now p = Some (out, p') -> kept p p'.
Proof.
  unfold tcp_rexmit_rto. intros H. case_match; [by injection H as _ <-|].
  apply output_kept in H. etransitivity; [|exact H]. by apply kept_rx.
Qed.

(** The acknowledgement half of [tcp_receive] leaves [snd_nxt] as well. *)
Definition acks_kept p p' : Prop := kept p p' /\ snd_nxt (sn p') = snd_nxt (sn p).

#[global] Instance acks_kept_refl : Reflexive acks_kept.
Proof. by intros p. Qed.
#[global] Instance acks_kept_trans : Transitive acks_kept.
Proof. intros p p' p'' [? ?] [? ?]. split; [by etransitivity|congruence]. Qed.

Lemma update_window_kept i p : acks_kept p (update_window i p).2.
Proof. unfold update_window. repeat case_match; split; try done; by apply kept_rx. Qed.

Lemma free_acked_kept a persist p : acks_kept p (restart_timer persist (free_acked a p)).
Proof. unfold restart_timer, free_acked. repeat case_match; split; try done; by apply kept_rx. Qed.

Lemma rexmit_fast_kept now p p' : tcp_rexmit_fast now p = Some p' -> acks_kept p p'.
Proof.
  unfold tcp_rexmit_fast. intros H. case_match; [|by injection H as <-].
  apply bind_Some in H as (v & _ & H). injection H as <-.
  transitivity (tcp_rexmit p); [|by split; [kept_now|]]. split; [apply rexmit_kept|].
  unfold tcp_rexmit. by case_match.
Qed.

Lemma duplicate_kept now e i p p' : duplicate_ack now e i p = Some p' -> acks_kept p p'.
Proof.
  unfold duplicate_ack. intros H. case_match; [|injection H as <-; by split; [apply kept_rx|]].
  match type of H with context [set_sn ?x p] => set (p1 := set_sn x p) in H end.
  assert (acks_kept p p1) as K by (split; [by apply kept_rx|done]). clearbody p1.
  transitivity p1; [done|]. case_decide; [|case_decide; [|by injection H as <-]].
  - apply bind_Some in H as (v & _ & H). injection H as <-. by split; [apply kept_rx|].
  - apply bind_Some in H as (p2 & E2 & H). apply rexmit_fast_kept in E2.
    apply bind_Some in H as (v & _ & H). injection H as <-. transitivity p2; [done|]. by split; [apply kept_rx|].
Qed.

Lemma grow_kept now p p' : grow_window now p = Some p' -> acks_kept p p'.
Proof.
  unfold grow_window. intros H. case_match; [|by injection H as <-].
  destruct (Dctcp.dctcp_reduce_cwnd _) as [[] d]; [injection H as <-; by split; [apply kept_rx|]|].
  apply bind_Some in H as (v & _ & H). injection H as <-. by split; [apply kept_rx|].
Qed.

Lemma new_ack_kept now persist i p p' : new_ack now persist i p = Some p' -> acks_kept p p'.
Proof.
  unfold new_ack. intros H. apply bind_Some in H as (p1 & E1 & H).
  assert (acks_kept p p1) as K1.
  { clear H. case_match; [|by injection E1 as <-]. apply bind_Some in E1 as (v & _ & E1). injection E1 as <-.
    by split; [kept_now|]. }
  apply bind_Some in H as (p2 & E2 & H). apply grow_kept in E2. injection H as <-.
  transitivity p1; [done|]. etransitivity; [|transitivity p2; [exact E2|]]; [by split; [apply kept_rx|]|].
  etransitivity; [apply free_acked_kept|]. by split; [apply kept_rx|].
Qed.

Lemma receive_ack_kept mem now i p out p' : receive_ack mem now i p = Some (out, p') -> acks_kept p p'.
Proof.
  unfold receive_ack. intros H. case_match; [|by injection H as _ <-].
  pose proof (update_window_kept i p) as K1. destruct (update_window i p) as [persist p1]. simpl in K1.
  apply bind_Some in H as ([o p2] & E2 & H). injection H as _ <-.
  transitivity p1; [done|]. etransitivity; [|transitivity p2; [|]].
  - instantiate (1 := set_qs _ p1). by split; [apply kept_rx|].
  - case_match; [|case_match].
    + apply bind_Some in E2 as (p3 & E3 & E2). injection E2 as _ <-. unfold old_ack in E3.
      apply bind_Some in E3 as (p4 & E4 & E3). apply duplicate_kept in E4. injection E3 as <-.
      etransitivity; [|etransitivity; [exact E4|apply free_acked_kept]]. by split; [apply kept_rx|].
    + apply bind_Some in E2 as (p3 & E3 & E2). injection E2 as _ <-. by eapply new_ack_kept.
    + match type of E2 with context [tcp_send_empty_ack mem ?q] => pose proof (empty_ack_kept mem q) as K;
        pose proof (empty_ack_framed mem q) as (_ & _ & _ & N & _); destruct (tcp_send_empty_ack mem q) end.
      injection E2 as -> ->. split; [exact K|]. simpl in N. by rewrite N.
  - unfold estimate_rtt, free_unsent. repeat case_match; split; try done; by apply kept_rx.
Qed.
End kept.

(** ** The data half of tcp_receive *)

(** [receive_data] with the acknowledgement taken out. *)
Lemma receive_data_ack alloc ok r i : Recv.receive_data alloc ok r i =
  ('(r', i') ← Recv.receive_data alloc false r i;
   Some (if acks_at_once r i then Recv.tcp_send_empty_ack ok r' else r', i')).
Proof.
  unfold Recv.receive_data, acks_at_once. destruct (_ && _); [|done]. cbn [andb].
  destruct (Recv.trim_to_rcv_nxt r i) as [[r1 i1]|]; [|done]. cbn [mbind option_bind].
  destruct (TCP_SEQ_BETWEEN _ _ _); [|done]. cbn [andb].
  case_decide as E.
  - rewrite bool_decide_true by done. by destruct (Recv.in_order r1 i1) as [[? ?]|].
  - rewrite bool_decide_false by done. unfold Recv.out_of_order.
    destruct (Recv.oos_queue alloc r1 i1) as [q|]; [|done]. cbn [mbind option_bind].
    by destruct (if Recv.sack_permitted r1 then _ else _) as [bs|].
Qed.

Lemma update_ann_state r : Recv.state (Recv.tcp_update_rcv_ann_wnd r).2 = Recv.state r.
Proof. unfold Recv.tcp_update_rcv_ann_wnd. by repeat case_match. Qed.

(** The state after the queue was emptied: a FIN closes an established
    connection. *)
Definition fin_moves (s s' : tcp_state) (f : Z) : Prop :=
  s' = s \/ s = ESTABLISHED /\ s' = CLOSE_WAIT /\ ctrue (Z.land f Recv.TF_GOT_FIN) = true.

Lemma got_fin_or f : ctrue (Z.land (Z.lor f Recv.TF_GOT_FIN) Recv.TF_GOT_FIN) = true.
Proof.
  apply ctrue_ne. intros H. apply (f_equal (fun z => Z.testbit z 5)) in H.
  rewrite Z.land_spec, Z.lor_spec in H. by destruct (Z.testbit f 5).
Qed.

Lemma got_fin_mono f g : ctrue (Z.land f Recv.TF_GOT_FIN) = true -> ctrue (Z.land (Z.lor f g) Recv.TF_GOT_FIN) = true.
Proof.
  unfold ctrue. rewrite !bool_decide_eq_true. intros H H'. apply H. apply Z.bits_inj_0. intros n.
  apply (f_equal (fun z => Z.testbit z n)) in H'. rewrite Z.land_spec, Z.lor_spec, Z.bits_0 in H'.
  rewrite Z.land_spec. by destruct (Z.testbit f n), (Z.testbit Recv.TF_GOT_FIN n), (Z.testbit g n).
Qed.

Lemma dequeue_state q r i r' i' : Recv.dequeue q r i = Some (r', i') ->
  fin_moves (Recv.state r) (Recv.state r') (Recv.recv_flags i') /\
  (ctrue (Z.land (Recv.recv_flags i) Recv.TF_GOT_FIN) = true -> ctrue (Z.land (Recv.recv_flags i') Recv.TF_GOT_FIN) = true).
Proof.
  revert r i. induction q as [|s q IH]; intros r i H; simpl in H.
  { injection H as <- <-. by split; [left|]. }
  case_decide; [|injection H as <- <-; by split; [left|]].
  apply bind_Some in H as (d & _ & H). apply IH in H as [H1 H2]. clear IH. simpl in H2.
  assert (Recv.state (Recv.advance (Recv.TCP_TCPLEN s) r) = Recv.state r) as Ea by (unfold Recv.advance; by rewrite update_ann_state).
  destruct (Recv.has TCP_FIN s); cbn [andb] in H1.
  - specialize (H2 (got_fin_or _)). split; [|done]. case_bool_decide as Hs.
    + rewrite Ea in Hs. right. split_and!; try done. by destruct H1 as [H1|(H1 & _)].
    + rewrite Ea in H1. by destruct H1 as [H1|(H1 & ?)]; [left|right].
  - rewrite Ea in H1. done.
Qed.

(** [recv_flags] only ever gets [TF_GOT_FIN]. *)
Definition fin_only (f f' : Z) : Prop := f' = f \/ f' = Z.lor f Recv.TF_GOT_FIN.

Lemma fin_only_step f b f' : fin_only (if (b : bool) then Z.lor f Recv.TF_GOT_FIN else f) f' -> fin_only f f'.
Proof.
  destruct b; [|done]. intros [-> | ->]; right; [done|]. by rewrite <- Z.lor_assoc, Z.lor_diag.
Qed.

Lemma dequeue_flags q r i r' i' : Recv.dequeue q r i = Some (r', i') -> fin_only (Recv.recv_flags i) (Recv.recv_flags i').
Proof.
  revert r i. induction q as [|s q IH]; intros r i H; simpl in H.
  { injection H as <- <-. by left. }
  case_decide; [|injection H as <- <-; by left].
  apply bind_Some in H as (d & _ & H). apply IH in H. by eapply fin_only_step.
Qed.

Lemma covered_flags q i : Recv.recv_flags (Recv.drop_covered q i).2 = Recv.recv_flags i.
Proof.
  revert i. induction q as [|n q IH]; intros i; [done|]. simpl. case_match; [|done].
  rewrite IH. by case_match.
Qed.

Lemma receive_data_flags alloc r i r' i' : Recv.receive_data alloc false r i = Some (r', i') ->
  fin_only (Recv.recv_flags i) (Recv.recv_flags i').
Proof.
  unfold Recv.receive_data. intros H. case_match; [|injection H as <- <-; by left].
  apply bind_Some in H as ([r1 i1] & E1 & H).
  assert (Recv.recv_flags i1 = Recv.recv_flags i) as <-.
  { unfold Recv.trim_to_rcv_nxt in E1. clear H.
    case_match; [apply bind_Some in E1 as (? & _ & E1); by injection E1 as _ <-|].
    case_match; injection E1 as _ <-; done. }
  case_match; [|injection H as <- <-; by left]. case_decide.
  - unfold Recv.in_order in H. apply bind_Some in H as (i2 & E2 & H).
    assert (Recv.recv_flags i2 = Recv.recv_flags i1) as <-.
    { unfold Recv.fit_window in E2. clear H. case_decide; [|by injection E2 as <-].
      apply bind_Some in E2 as (? & _ & E2). by injection E2 as <-. }
    apply bind_Some in H as ([r3 i3] & E3 & H).
    assert (Recv.recv_flags i3 = Recv.recv_flags i2) as <-.
    { unfold Recv.adjust_ooseq in E3. clear H. repeat (case_match; [by injection E3 as _ <-|]).
      match type of E3 with context [Recv.drop_covered ?q i2] => pose proof (covered_flags q i2) as Ef;
        destruct (Recv.drop_covered q i2) as [q' i4] end. simpl in Ef. rewrite <- Ef.
      apply bind_Some in E3 as (i5 & E5 & E3). injection E3 as _ <-.
      destruct q' as [|n ?]; [by injection E5 as <-|]. case_match; [|by injection E5 as <-].
      apply bind_Some in E5 as (? & _ & E5). by injection E5 as <-. }
    apply bind_Some in H as ([r4 i4] & E4 & H). apply dequeue_flags in E4. injection H as _ <-.
    by eapply fin_only_step.
  - unfold Recv.out_of_order in H. apply bind_Some in H as (q & _ & H).
    apply bind_Some in H as (bs & _ & H). injection H as <- <-. by left.
Qed.

Lemma receive_data_state alloc r i r' i' : Recv.receive_data alloc false r i = Some (r', i') ->
  fin_moves (Recv.state r) (Recv.state r') (Recv.recv_flags i').
Proof.
  unfold Recv.receive_data. intros H. case_match; [|injection H as <- <-; by left].
  apply bind_Some in H as ([r1 i1] & E1 & H).
  assert (Recv.state r1 = Recv.state r) as <-.
  { unfold Recv.trim_to_rcv_nxt in E1. clear H.
    case_match; [apply bind_Some in E1 as (? & _ & E1); by injection E1 as <- _|].
    case_match; injection E1 as <- _; done. }
  case_match; [|injection H as <- <-; by left]. case_decide.
  - unfold Recv.in_order in H. apply bind_Some in H as (i2 & _ & H).
    apply bind_Some in H as ([r3 i3] & E3 & H).
    assert (Recv.state r3 = Recv.state r1) as <-.
    { unfold Recv.adjust_ooseq in E3. clear H. repeat (case_match; [by injection E3 as <- _|]).
      case_match. apply bind_Some in E3 as (? & _ & E3). by injection E3 as <- _. }
    apply bind_Some in H as ([r4 i4] & E4 & H). apply dequeue_state in E4 as [E4 _].
    rewrite update_ann_state in E4. injection H as <- <-. by destruct (Recv.sack_permitted r4).
  - unfold Recv.out_of_order in H. apply bind_Some in H as (q & _ & H).
    apply bind_Some in H as (bs & _ & H). injection H as <- <-. by left.
Qed.

(** ** A logic of computations *)

Section logic.
Context {A : Cc.cc_algo}.
#[local] Abbreviation pcb := (@pcb A).
#[local] Abbreviation M := (@M A).
Implicit Types c : pcb.

Definition wp {X} (m : M X) (Q : X -> list Send.pkt -> pcb -> Prop) c : Prop :=
  match m c with Some (x, o, c') => Q x o c' | None => True end.

Lemma wp_bind {X Y} (m : M X) (f : X -> M Y) Q c :
  wp m (fun x o c' => wp (f x) (fun y o' c'' => Q y (o ++ o') c'') c') c -> wp (m ≫= f) Q c.
Proof.
  unfold wp, mbind, M_bind. destruct (m c) as [[[x o] c']|]; [|done].
  by destruct (f x c') as [[[y o'] c'']|].
Qed.

Lemma wp_mono {X} (m : M X) (Q Q' : X -> list Send.pkt -> pcb -> Prop) c :
  wp m Q c -> (forall x o c', Q x o c' -> Q' x o c') -> wp m Q' c.
Proof. unfold wp. destruct (m c) as [[[x o] c']|]; [|done]. auto. Qed.

Lemma wp_and {X} (m : M X) (Q Q' : X -> list Send.pkt -> pcb -> Prop) c :
  wp m Q c -> wp m Q' c -> wp m (fun x o c' => Q x o c' /\ Q' x o c') c.
Proof. unfold wp. by destruct (m c) as [[[x o] c']|]. Qed.

Lemma wp_elim {X} (m : M X) (Q : X -> list Send.pkt -> pcb -> Prop) c x o c' : wp m Q c -> m c = Some (x, o, c') -> Q x o c'.
Proof. unfold wp. by intros H E; rewrite E in H. Qed.

(** What the modelled operations leave of a connection. *)
Definition does {X} (R : pcb -> pcb -> Prop) (m : M X) : Prop := forall c, wp m (fun _ _ c' => R c c') c.

Section does.
Context (R : pcb -> pcb -> Prop) `{!Reflexive R, !Transitive R}.

Lemma does_ret {X} (x : X) : does R (mret x).
Proof using All. intros c. by unfold wp, mret, M_ret. Qed.
Lemma does_get : does R get.
Proof using All. intros c. by unfold wp, get. Qed.
Lemma does_undef {X} : does R (undef : M X).
Proof using. intros c. by unfold wp, undef. Qed.
Lemma does_from_option {X} (x : option X) : does R (from_option x).
Proof using All. intros c. unfold wp, from_option. by destruct x. Qed.
Lemma does_bind {X Y} (m : M X) (f : X -> M Y) : does R m -> (forall x, does R (f x)) -> does R (m ≫= f).
Proof using All.
  intros Hm Hf c. apply wp_bind. eapply wp_mono; [apply Hm|]. intros x o c' H.
  eapply wp_mono; [apply Hf|]. simpl. intros y o' c'' H'. transitivity c'; [exact H|exact H'].
Qed.
Lemma does_when b (m : M unit) : does R m -> does R (when b m).
Proof using All. unfold when. destruct b; [done|]. intros _. apply does_ret. Qed.
Lemma does_if {X} (b : bool) (m m' : M X) : does R m -> does R m' -> does R (if b then m else m').
Proof using. by destruct b. Qed.
Lemma does_decide {X} (φ : Prop) `{!Decision φ} (m m' : M X) : does R m -> does R m' -> does R (if decide φ then m else m').
Proof using. by destruct (decide φ). Qed.
Lemma does_modify f : (forall c, R c (f c)) -> does R (modify f).
Proof using. intros H c. apply H. Qed.
Lemma does_ret_core {X} (f : Send.tcp_pcb A -> X * Send.tcp_pcb A) :
  (forall c, R c (P (f (core c)).2 (lf c) (su c))) -> does R (ret_core f).
Proof using. intros H c. unfold wp, ret_core. specialize (H c). by destruct (f (core c)). Qed.
Lemma does_run f : (forall c o p, f (core c) = Some (o, p) -> R c (P p (lf c) (su c))) -> does R (run_core f).
Proof using. intros H c. unfold wp, run_core. destruct (f (core c)) as [[o p]|] eqn:E; [|done]. by eapply H. Qed.
End does.

(** The state stays what it is. *)
Definition stays c c' : Prop := st c' = st c.
#[global] Instance stays_refl : Reflexive stays.
Proof. by intros c. Qed.
#[global] Instance stays_trans : Transitive stays.
Proof. unfold stays. intros ? ? ? -> ->. done. Qed.

Lemma stays_kept c p l s : kept (core c) p -> stays c (P p l s).
Proof. intros K. apply K. Qed.
End logic.

(** Goes through a computation down to the operations that have a lemma. *)
Ltac does_step :=
  first
    [ apply does_bind; [apply _|apply _| |intros ?]
    | apply does_ret; apply _ | apply does_get; apply _ | apply does_undef | apply does_from_option; apply _
    | apply does_when; [apply _|apply _|] | apply does_if | apply does_decide
    | match goal with |- does _ (match ?x with _ => _ end) => destruct x end
    | apply does_modify; intros ?; done
    | progress intros ? ].
Create HintDb does discriminated.
#[export] Hint Constants Opaque : does.
Ltac does := repeat first [ solve [eauto 2 with does nocore] | does_step ].

Section stays.
Context {A : Cc.cc_algo} (g : env) (cb : @callbacks A).
Implicit Types c : @pcb A.

Lemma tcp_output_stays inp : does stays (tcp_output g inp).
Proof using.
  unfold tcp_output. destruct inp; [apply does_ret; apply _|]. apply does_run. intros c o p E.
  apply stays_kept. by eapply output_kept.
Qed.

Lemma empty_ack_stays : does stays (empty_ack g).
Proof using.
  apply does_run. intros c o p E. apply stays_kept. injection E as E.
  pose proof (empty_ack_kept (mem g) (core c)) as K. by rewrite E in K.
Qed.

Lemma rst_stays n : does stays (tcp_rst g n).
Proof using. apply does_run. intros c o p E. by injection E as _ <-. Qed.

Lemma keepalive_stays : does stays (tcp_keepalive g).
Proof using. apply does_run. unfold Send.alloc. intros c o p E. by destruct (mem g _); injection E as _ <-. Qed.

Lemma alloc_stays : does stays (ret_core (Send.alloc (mem g))).
Proof using. by apply does_ret_core. Qed.

Lemma create_stays b n o : does stays (ret_core (Send.tcp_create_segment (mem g) b n o)).
Proof using.
  apply does_ret_core. intros c. apply stays_kept.
  destruct (Send.tcp_create_segment _ _ _ _ _) as [ns p] eqn:E. by eapply create_kept.
Qed.
#[local] Hint Resolve tcp_output_stays empty_ack_stays rst_stays keepalive_stays alloc_stays create_stays : does.

Lemma enqueue_flags_stays fl : does stays (tcp_enqueue_flags g fl).
Proof using. unfold tcp_enqueue_flags. does. Qed.
#[local] Hint Resolve enqueue_flags_stays : does.

Lemma send_fin_stays : does stays (tcp_send_fin g).
Proof using. unfold tcp_send_fin. does. Qed.

Lemma purge_stays : does stays (tcp_pcb_purge : @M A unit).
Proof using. unfold tcp_pcb_purge. does. Qed.

Lemma opt_update_stays o c : stays c (opt_update o c).
Proof using. done. Qed.

Lemma update_mss_stays m : does stays (UPDATE_PCB_BY_MSS m : @M A unit).
Proof using. unfold UPDATE_PCB_BY_MSS. does. Qed.

Lemma parseopt_stays i : does stays (tcp_parseopt g i : @M A _).
Proof using. unfold tcp_parseopt. does. Qed.

Lemma conn_init_stays : does stays (conn_init g : @M A unit).
Proof using.
  apply does_run. intros c o p E. apply bind_Some in E as (v & _ & E). injection E as _ <-. done.
Qed.
End stays.
#[export] Hint Resolve tcp_output_stays empty_ack_stays rst_stays keepalive_stays alloc_stays create_stays
  enqueue_flags_stays send_fin_stays purge_stays update_mss_stays parseopt_stays conn_init_stays : does.

(** ** Segments *)

Section segments.
Context {A : Cc.cc_algo} (g : env) (cb : @callbacks A).
Implicit Types c : @pcb A.

(** Where the code sends a connection when a segment arrives, as a function of
    the segment: [fin] when the peer's FIN has been reached by it. *)
Definition next_state (i : arrival) c (fin : bool) : tcp_state :=
  if i_has TCP_RST i || i_has TCP_SYN i && negb (bool_decide (st c = SYN_SENT)) && negb (bool_decide (st c = SYN_RCVD))
  then st c
  else
    match st c with
    | SYN_SENT =>
      if i_has TCP_ACK i && i_has TCP_SYN i
         && bool_decide ((fun s => u32 (Send.seqno s + 1)) <$> head (Send.unacked (Send.qs (core c))) = Some (i_ackno i))
      then ESTABLISHED else SYN_SENT
    | SYN_RCVD =>
      if i_has TCP_ACK i && TCP_SEQ_BETWEEN (i_ackno i) (Send.lastack (Send.sn (core c)) + 1) (Send.snd_nxt (Send.sn (core c)))
      then (if fin then CLOSE_WAIT else ESTABLISHED) else SYN_RCVD
    | ESTABLISHED => if fin then CLOSE_WAIT else ESTABLISHED
    | FIN_WAIT_1 =>
      match fin, acks_all i c with
      | true, true => TIME_WAIT | true, false => CLOSING | false, true => FIN_WAIT_2 | false, false => FIN_WAIT_1
      end
    | FIN_WAIT_2 => if fin then TIME_WAIT else FIN_WAIT_2
    | CLOSING => if acks_all i c then TIME_WAIT else CLOSING
    | s => s
    end.

(** The application's functions do not change the state themselves. *)
Record quiet : Prop := Quiet {
  q_accept : does stays (on_accept cb);
  q_connected : does stays (on_connected cb)
}.

(** What happens before the states are looked at. *)
Definition calm c c' : Prop :=
  st c' = st c /\ Send.snd_nxt (Send.sn (core c')) = Send.snd_nxt (Send.sn (core c)) /\
  Send.lastack (Send.sn (core c')) = Send.lastack (Send.sn (core c)) /\
  Send.unacked (Send.qs (core c')) = Send.unacked (Send.qs (core c)).
#[local] Instance calm_refl : Reflexive calm.
Proof using. by intros c. Qed.
#[local] Instance calm_trans : Transitive calm.
Proof using. unfold calm. intros ? ? ? ? ?. destruct_and?. split_and!; congruence. Qed.

Lemma parseopt_calm i : does calm (tcp_parseopt g i).
Proof using. unfold tcp_parseopt. does. Qed.

(** [tcp_receive] keeps [snd_nxt], and the state up to a FIN that was waiting. *)
Lemma receive_spec i sack c : wp (tcp_receive g i sack) (fun d _ c' =>
  Send.snd_nxt (Send.sn (core c')) = Send.snd_nxt (Send.sn (core c)) /\
  fin_moves (st c) (st c') d.2 /\ fin_only 0 d.2) c.
Proof using.
  unfold tcp_receive. apply wp_bind. unfold wp at 1, run_core.
  destruct (Send.receive_ack _ _ _ _) as [[o p]|] eqn:E; [|done]. apply receive_ack_kept in E as [K N].
  apply wp_bind. unfold wp at 1, ret_core, Send.alloc. apply wp_bind. unfold wp at 1, get.
  apply wp_bind. unfold wp at 1, from_option. cbn [core].
  destruct (Recv.receive_data _ _ _ _) as [[r d]|] eqn:Er; [|done].
  pose proof (receive_data_flags _ _ _ _ _ Er) as Hf. apply receive_data_state in Er.
  apply wp_bind. unfold wp at 1, on_rx, on_core, modify. apply wp_bind.
  assert (forall b (m : @M A unit) c1, does (fun c c' => stays c c' /\
    Send.snd_nxt (Send.sn (core c')) = Send.snd_nxt (Send.sn (core c))) m ->
    wp (when b m) (fun _ _ c' => stays c1 c' /\ Send.snd_nxt (Send.sn (core c')) = Send.snd_nxt (Send.sn (core c1))) c1)
    as Hw by (intros [] m c1 Hm; [apply Hm|done]).
  eapply wp_mono; [apply Hw|].
  { apply does_run. intros c1 o1 p1 E1. injection E1 as E1.
    pose proof (empty_ack_kept (mem g) (core c1)) as K1. pose proof (Send.empty_ack_framed (mem g) (core c1)) as (_ & _ & _ & N1 & _).
    rewrite E1 in K1, N1. simpl in N1. split; [by apply stays_kept|]. simpl. by rewrite N1. }
  intros _ o' c' [S1 N1]. unfold wp, mret, M_ret. simpl in *. rewrite S1. unfold st. simpl.
  split_and!; [by rewrite N1, N| |done]. destruct K as [Ks _]. simpl in Er. by rewrite Ks in Er.
Qed.

(** A computation that keeps the state, with the state put in. *)
Lemma wp_stays {X} (m : @M A X) (Q : tcp_state -> Prop) c : does stays m -> Q (st c) -> wp m (fun _ _ c' => Q (st c')) c.
Proof using. intros Hm HQ. eapply wp_mono; [apply Hm|]. simpl. by intros _ _ c' ->. Qed.

Lemma does_wp {X} (m : @M A X) c : does stays m -> wp m (fun _ _ c' => st c' = st c) c.
Proof using. intros Hm. apply Hm. Qed.

Lemma wp_set_state s c : wp (set_tcp_state s) (fun _ _ c' => st c' = s) c.
Proof using. done. Qed.

Lemma purge_calm_state c : wp enter_time_wait (fun _ _ c' => st c' = TIME_WAIT) c.
Proof using. unfold enter_time_wait. apply wp_bind. eapply wp_mono; [apply purge_stays|done]. Qed.

Lemma on_fin_spec d s c : wp (on_fin d s) (fun _ _ c' => st c' = if got_fin d then s else st c) c.
Proof using. unfold on_fin, when. by destruct (got_fin d). Qed.

Lemma after_receive_spec s i d c : fin_moves s (st c) d.2 -> wp (after_receive s i d) (fun d' _ c' =>
  (PCB_IN_ACTIVE_STATE s = true -> s <> SYN_SENT -> s <> SYN_RCVD ->
   st c' = match s with
           | ESTABLISHED => if got_fin d then CLOSE_WAIT else ESTABLISHED
           | FIN_WAIT_1 =>
             match got_fin d, acks_all i c with
             | true, true => TIME_WAIT | true, false => CLOSING | false, true => FIN_WAIT_2 | false, false => FIN_WAIT_1
             end
           | FIN_WAIT_2 => if got_fin d then TIME_WAIT else FIN_WAIT_2
           | CLOSING => if acks_all i c then TIME_WAIT else CLOSING
           | s => s
           end) /\
  d' = (d.1, if bool_decide (s = LAST_ACK) && acks_all i c then Z.lor d.2 TF_CLOSED else d.2)) c.
Proof using.
  intros Hm. unfold after_receive. apply wp_bind. unfold wp at 1, get. destruct d as [dd df].
  assert (s <> ESTABLISHED -> st c = s) as Hs by (intros ?; destruct Hm as [Hm|(? & _)]; congruence).
  destruct s; try (by unfold wp, mret, M_ret).
  - apply wp_bind. eapply wp_mono; [apply on_fin_spec|]. intros ? o c' E1. cbv beta in E1. unfold wp, mret, M_ret. rewrite E1. split; [|done].
    intros _ _ _. destruct Hm as [-> |(_ & -> & E)]; [done|]. unfold got_fin. by rewrite E.
  - apply wp_bind. destruct (got_fin (dd, df)).
    + apply wp_bind. unfold wp at 1, tcp_ack_now, on_rx, on_core, modify. destruct (acks_all i c).
      * eapply wp_mono; [apply purge_calm_state|]. intros ? o c' E1. cbv beta in E1. unfold wp, mret, M_ret. by rewrite E1.
      * by unfold wp.
    + unfold when. destruct (acks_all i c); [by unfold wp|]. unfold wp, mret, M_ret. by rewrite Hs.
  - apply wp_bind. unfold when. destruct (got_fin (dd, df)).
    + apply wp_bind. unfold wp at 1, tcp_ack_now, on_rx, on_core, modify.
      eapply wp_mono; [apply purge_calm_state|]. intros ? o c' E1. cbv beta in E1. unfold wp, mret, M_ret. by rewrite E1.
    + unfold wp, mret, M_ret. by rewrite Hs.
  - apply wp_bind. eapply wp_mono; [apply on_fin_spec|]. intros ? o c' E1. cbv beta in E1. unfold wp, mret, M_ret. rewrite E1. split; [|done].
    intros _ _ _. rewrite Hs by done. by destruct (got_fin _).
  - apply wp_bind. unfold when. destruct (acks_all i c).
    + eapply wp_mono; [apply purge_calm_state|]. intros ? o c' E1. cbv beta in E1. unfold wp, mret, M_ret. by rewrite E1.
    + unfold wp, mret, M_ret. by rewrite Hs.
  - unfold wp, mret, M_ret. by rewrite Hs.
Qed.

Lemma syn_sent_spec i c : quiet -> st c = SYN_SENT ->
  wp (process_syn_sent g cb i) (fun _ _ c' =>
    st c' = if i_has TCP_ACK i && i_has TCP_SYN i
               && bool_decide ((fun s => u32 (Send.seqno s + 1)) <$> head (Send.unacked (Send.qs (core c))) = Some (i_ackno i))
            then ESTABLISHED else SYN_SENT) c.
Proof using.
  intros [_ Hq] Hs. unfold process_syn_sent. apply wp_bind. unfold wp at 1, get.
  apply wp_bind. unfold wp at 1, from_option.
  assert (forall b, wp (when b (tcp_rst g (i_ackno i));; mret ERR_OK) (fun _ _ c' => st c' = SYN_SENT) c) as Hno.
  { intros b. rewrite <- Hs. apply does_wp. does. }
  destruct (i_has TCP_ACK i && i_has TCP_SYN i); [|apply Hno].
  destruct (Send.unacked (Send.qs (core c))) as [|s l]; [done|]. simpl.
  case_bool_decide as Ha.
  - rewrite bool_decide_true by (by rewrite Ha). apply wp_bind. unfold wp at 1, modify.
    match goal with |- wp _ _ ?c1 => assert (st c1 = ESTABLISHED) as <- by done; generalize c1 end.
    intros c1. apply does_wp. does.
  - rewrite bool_decide_false by (intros E; by injection E). apply Hno.
Qed.

Lemma syn_rcvd_spec i sack c : quiet -> st c = SYN_RCVD ->
  wp (process_syn_rcvd g cb i sack) (fun r _ c' => r.1 <> ERR_ABRT ->
    st c' = (if i_has TCP_ACK i && TCP_SEQ_BETWEEN (i_ackno i) (Send.lastack (Send.sn (core c)) + 1) (Send.snd_nxt (Send.sn (core c)))
             then (if got_fin r.2 then CLOSE_WAIT else ESTABLISHED) else SYN_RCVD) /\ fin_only 0 r.2.2) c.
Proof using.
  intros [Hq _] Hs. unfold process_syn_rcvd. apply wp_bind. unfold wp at 1, get.
  destruct (i_has TCP_ACK i); cbn [andb].
  2: { apply wp_bind. eapply wp_mono; [apply (does_wp (when _ _))|].
       { apply does_when; [apply _|apply _|]. apply does_modify. intros c1. apply stays_kept. apply rexmit_kept. }
       intros ? o c' E1. cbv beta in E1. unfold wp, mret, M_ret. rewrite E1, Hs. by split; [|left]. }
  destruct (TCP_SEQ_BETWEEN _ _ _).
  2: { apply wp_bind. eapply wp_mono; [apply does_wp, rst_stays|].
       intros ? o c' E1. cbv beta in E1. unfold wp, mret, M_ret. rewrite E1, Hs. by split; [|left]. }
  apply wp_bind. unfold wp at 1, set_tcp_state, on_rx, on_core, modify.
  match goal with |- wp _ _ ?c1 => assert (st c1 = ESTABLISHED) as E0 by done; revert E0; generalize c1 end.
  intros c1 E0. apply wp_bind. eapply wp_mono; [apply Hq|]. intros e o c2 E2. cbv beta in E2. unfold stays in E2.
  case_decide.
  { apply wp_bind. eapply wp_mono; [by instantiate (1 := fun _ _ _ => True); unfold wp; case_match; repeat case_match|].
    by intros. }
  apply wp_bind. unfold wp at 1, get. apply wp_bind. eapply wp_mono; [apply receive_spec|].
  intros d o' c3 (_ & Hm & Hf). rewrite E2, E0 in Hm.
  apply wp_bind. unfold wp at 1, on_sn, on_core, modify. apply wp_bind. unfold wp at 1, on_core, modify.
  match goal with |- wp _ _ ?c4 => assert (st c4 = st c3) as E4 by done; revert E4; generalize c4 end.
  intros c4 E4. apply wp_bind. eapply wp_mono; [apply conn_init_stays|]. intros ? ? c5 E5. cbv beta in E5.
  apply wp_bind. eapply wp_mono; [apply on_fin_spec|]. intros ? ? c6 E6. cbv beta in E6.
  unfold wp, mret, M_ret. intros _. rewrite E6, E5, E4. simpl. split; [|done].
  destruct Hm as [-> |(_ & -> & E)]; [done|]. unfold got_fin. by rewrite E.
Qed.

(** The bits of [recv_flags]. *)
Lemma fin_only_bits f : fin_only 0 f -> ctrue (Z.land f TF_RESET) = false /\ ctrue (Z.land f TF_CLOSED) = false.
Proof using. by intros [-> | ->]. Qed.

Lemma closed_bits f : fin_only 0 f -> ctrue (Z.land (Z.lor f TF_CLOSED) TF_RESET) = false /\
  ctrue (Z.land (Z.lor f TF_CLOSED) TF_CLOSED) = true /\
  ctrue (Z.land (Z.lor f TF_CLOSED) Recv.TF_GOT_FIN) = ctrue (Z.land f Recv.TF_GOT_FIN).
Proof using. by intros [-> | ->]. Qed.

(** A segment that is neither a RST nor a SYN out of place. *)
Definition ordinary (i : arrival) c : bool :=
  negb (i_has TCP_RST i || i_has TCP_SYN i && negb (bool_decide (st c = SYN_SENT)) && negb (bool_decide (st c = SYN_RCVD))).

Definition outcome i c (r : err_t * (list Pbuf.pbuf * Z)) c' : Prop :=
  st c' = next_state i c (got_fin r.2) /\
  ctrue (Z.land r.2.2 TF_RESET) = i_has TCP_RST i && rst_acceptable i c /\
  ctrue (Z.land r.2.2 TF_CLOSED) = bool_decide (st c = LAST_ACK) && ordinary i c && acks_all i c.

Lemma acks_all_calm i c c' : calm c c' -> acks_all i c' = acks_all i c.
Proof using. intros (_ & E & _). unfold acks_all. by rewrite E. Qed.

Lemma process_data i sack c c1 s : st c1 = s -> calm c c1 -> PCB_IN_ACTIVE_STATE s = true -> s <> SYN_SENT -> s <> SYN_RCVD ->
  ordinary i c = true -> i_has TCP_RST i = false ->
  wp (d ← tcp_receive g i sack; d ← after_receive s i d; mret (ERR_OK, d)) (fun r _ c' => outcome i c r c') c1.
Proof using.
  intros Hs Hc Ha H1 H2 Ho Hr. apply wp_bind. eapply wp_mono; [apply receive_spec|].
  intros d o c2 (Hn & Hm & Hf). rewrite Hs in Hm.
  apply wp_bind. eapply wp_mono; [by apply after_receive_spec|]. intros d' o' c3 [E3 Ed]. specialize (E3 Ha H1 H2).
  unfold wp, mret, M_ret, outcome. cbn [fst snd].
  assert (acks_all i c2 = acks_all i c) as Ea.
  { unfold acks_all. rewrite Hn. by destruct Hc as (_ & -> & _). }
  assert (st c = s) as Hsc by (destruct Hc as [<- _]; done).
  assert (got_fin d' = got_fin d) as Eg.
  { rewrite Ed. unfold got_fin. simpl. case_match; [|done]. by apply closed_bits. }
  rewrite Ea in E3, Ed. rewrite Eg, E3, Hr, Ho. unfold next_state. unfold ordinary in Ho. apply negb_true_iff in Ho.
  rewrite Ho, Hsc. rewrite Ed. cbn [andb snd]. split_and!.
  - by destruct s.
  - case_match; [by apply closed_bits|by apply fin_only_bits].
  - destruct (bool_decide (s = LAST_ACK)); cbn [andb]; [|by apply fin_only_bits].
    destruct (acks_all i c); [by apply closed_bits|by apply fin_only_bits].
Qed.

Lemma process_spec i c : quiet -> PCB_IN_ACTIVE_STATE (st c) = true ->
  wp (tcp_process g cb i) (fun r _ c' => r.1 <> ERR_ABRT -> outcome i c r c') c.
Proof using.
  intros Hq Ha. unfold tcp_process. apply wp_bind. unfold wp at 1, get.
  destruct (i_has TCP_RST i) eqn:Er.
  { assert (ordinary i c = false) as Ho by (unfold ordinary; by rewrite Er).
    destruct (rst_acceptable i c) eqn:Ea.
    - unfold wp. simpl. intros _. unfold outcome, next_state. rewrite Er, Ea, Ho. simpl. by rewrite andb_false_r.
    - unfold wp. simpl. intros _. unfold outcome, next_state. rewrite Er, Ea, Ho. simpl. by rewrite andb_false_r. }
  destruct (i_has TCP_SYN i && _ && _) eqn:Es.
  { assert (ordinary i c = false) as Ho by (unfold ordinary; by rewrite Er, Es).
    unfold wp. simpl. intros _. unfold outcome, next_state. rewrite Er, Es, Ho. simpl. by rewrite andb_false_r. }
  assert (ordinary i c = true) as Ho by (unfold ordinary; by rewrite Er, Es).
  apply wp_bind. eapply wp_mono; [apply (does_when calm); by apply does_modify|].
  intros ? ? c1 H1. apply wp_bind. unfold wp at 1, on_life, modify. apply wp_bind.
  eapply wp_mono; [apply parseopt_calm|]. intros sack ? c2 H2.
  assert (calm c c2) as Hc by (etransitivity; [exact H1|exact H2]). clear H1 H2 c1.
  pose proof Hc as (Hs & Hn & Hl & Hu).
  destruct (st c) eqn:Ec; try done.
  - apply wp_bind. eapply wp_mono; [by apply syn_sent_spec|]. intros e ? c3 E3. cbv beta in E3.
    unfold wp, mret, M_ret. intros _. unfold outcome, next_state. rewrite Er, Ec, E3, Hu. simpl. by rewrite andb_false_r.
  - eapply wp_mono; [by apply syn_rcvd_spec|]. intros [e d] ? c3 E3 He. destruct (E3 He) as [E3' Hf].
    unfold outcome, next_state. rewrite Er, Ec, E3', Hl, Hn. simpl. rewrite andb_false_r. by split_and!; try apply fin_only_bits.
  - eapply wp_mono; [apply (process_data i sack c c2 ESTABLISHED); done|]. by intros.
  - eapply wp_mono; [apply (process_data i sack c c2 FIN_WAIT_1); done|]. by intros.
  - eapply wp_mono; [apply (process_data i sack c c2 FIN_WAIT_2); done|]. by intros.
  - eapply wp_mono; [apply (process_data i sack c c2 CLOSE_WAIT); done|]. by intros.
  - eapply wp_mono; [apply (process_data i sack c c2 CLOSING); done|]. by intros.
  - eapply wp_mono; [apply (process_data i sack c c2 LAST_ACK); done|]. by intros.
Qed.

(** ** RFC 793

    What the standard looks at when a segment arrives (section 3.9, SEGMENT
    ARRIVES): whether the sequence number is acceptable, the control bits, and
    whether our SYN or our FIN is acknowledged. *)
Record event := Event {
  ev_acceptable : bool;     (* the sequence number, first check *)
  ev_rst : bool;
  ev_syn : bool;
  ev_ack : bool;
  ev_syn_acked : bool;      (* SND.UNA < SEG.ACK =< SND.NXT *)
  ev_fin_acked : bool;
  ev_fin : bool             (* the peer's FIN has been reached *)
}.

(** The standard's fifth check: the acknowledgement. *)
Definition rfc793_ack (e : event) (s : tcp_state) : tcp_state :=
  match s with
  | SYN_RCVD => if ev_syn_acked e then ESTABLISHED else SYN_RCVD
  | FIN_WAIT_1 => if ev_fin_acked e then FIN_WAIT_2 else FIN_WAIT_1
  | CLOSING => if ev_fin_acked e then TIME_WAIT else CLOSING
  | LAST_ACK => if ev_fin_acked e then CLOSED else LAST_ACK
  | s => s
  end.

(** The eighth check: the FIN. *)
Definition rfc793_fin (e : event) (s : tcp_state) : tcp_state :=
  if ev_fin e then
    match s with
    | ESTABLISHED => CLOSE_WAIT
    | FIN_WAIT_1 => CLOSING
    | FIN_WAIT_2 => TIME_WAIT
    | s => s
    end
  else s.

Definition rfc793 (e : event) (s : tcp_state) : tcp_state :=
  match s with
  | SYN_SENT =>
    if ev_ack e && negb (ev_syn_acked e) then SYN_SENT
    else if ev_rst e then (if ev_ack e then CLOSED else SYN_SENT)
    else if ev_syn e then (if ev_ack e then ESTABLISHED else SYN_RCVD)
    else SYN_SENT
  | _ =>
    if negb (ev_acceptable e) then s
    else if ev_rst e then CLOSED
    else if ev_syn e then CLOSED
    else if ev_ack e then rfc793_fin e (rfc793_ack e s)
    else s
  end.

(** The standard's test for a sequence number, of a segment of length
    [SEG.LEN] at a window of [RCV.WND]. *)
Definition in_window (x : Z) c : bool :=
  bool_decide (u32 (x - Recv.rcv_nxt (Send.rx (core c))) < Recv.rcv_wnd (Send.rx (core c))).
Definition acceptable (i : arrival) c : bool :=
  let wnd := Recv.rcv_wnd (Send.rx (core c)) in
  if decide (i_tcplen i = 0) then
    if decide (wnd = 0) then bool_decide (u32 (i_seqno i - Recv.rcv_nxt (Send.rx (core c))) = 0)
    else in_window (i_seqno i) c
  else if decide (wnd = 0) then false
  else in_window (i_seqno i) c || in_window (i_seqno i + i_tcplen i - 1) c.

(** Our FIN is the last of what was queued: it is acknowledged when everything
    up to [snd_lbb] is. *)
Definition event_of (i : arrival) c (fin : bool) : event :=
  Event (acceptable i c) (i_has TCP_RST i) (i_has TCP_SYN i) (i_has TCP_ACK i)
    (TCP_SEQ_BETWEEN (i_ackno i) (Send.lastack (Send.sn (core c)) + 1) (Send.snd_nxt (Send.sn (core c))))
    (bool_decide (i_ackno i = Send.snd_lbb (Send.qs (core c)))) fin.

(** The segments for which the code and the standard agree.  In SYN_SENT only
    the SYN has been sent, and a SYN or a RST carries an ACK; elsewhere a RST is
    without data and not at the right edge of the window, a SYN is out of the
    window (and, in SYN_RCVD, without ACK), and any other segment is acceptable
    and brings the FIN only together with an ACK; in the states that wait for the
    acknowledgement of our FIN it has been sent. *)
Definition conforming (i : arrival) c (fin : bool) : Prop :=
  let q := core c in
  if decide (st c = SYN_SENT) then
    (i_has TCP_RST i = true \/ i_has TCP_SYN i = true -> i_has TCP_ACK i = true) /\
    ((fun s => u32 (Send.seqno s + 1)) <$> head (Send.unacked (Send.qs q)) = Some (Send.snd_nxt (Send.sn q))) /\
    u32 (Send.lastack (Send.sn q) + 1) = Send.snd_nxt (Send.sn q)
  else if i_has TCP_RST i then
    i_tcplen i = 0 /\ u32 (i_seqno i - Recv.rcv_nxt (Send.rx q)) <> Recv.rcv_wnd (Send.rx q) \/
    i_tcplen i = 0 /\ Recv.rcv_wnd (Send.rx q) = 0
  else if i_has TCP_SYN i then
    acceptable i c = false /\ (st c = SYN_RCVD -> i_has TCP_ACK i = false)
  else
    acceptable i c = true /\ (fin = true -> i_has TCP_ACK i = true) /\
    (st c = FIN_WAIT_1 \/ st c = CLOSING \/ st c = LAST_ACK ->
     Send.snd_nxt (Send.sn q) = Send.snd_lbb (Send.qs q)).

(** The state after [tcp_process]; a connection reported as reset or closed is
    removed by its caller. *)
Definition state_after (d : list Pbuf.pbuf * Z) c' : tcp_state :=
  if ctrue (Z.land d.2 TF_RESET) || ctrue (Z.land d.2 TF_CLOSED) then CLOSED else st c'.

Lemma rst_window i c : 0 <= Recv.rcv_wnd (Send.rx (core c)) < 2 ^ 31 -> st c <> SYN_SENT -> i_tcplen i = 0 ->
  (u32 (i_seqno i - Recv.rcv_nxt (Send.rx (core c))) <> Recv.rcv_wnd (Send.rx (core c)) \/
   Recv.rcv_wnd (Send.rx (core c)) = 0) ->
  rst_acceptable i c = acceptable i c.
Proof using.
  intros Hw Hs Hl Hd. unfold rst_acceptable, acceptable, in_window. rewrite decide_False, decide_True by done.
  rewrite seq_between_offset by done. case_decide; apply bool_decide_ext; [|lia].
  pose proof (wrap_range 32 ltac:(lia) (i_seqno i - Recv.rcv_nxt (Send.rx (core c)))). lia.
Qed.

Lemma conforming_agrees i c d c' : PCB_IN_ACTIVE_STATE (st c) = true ->
  0 <= i_ackno i < 2 ^ 32 -> 0 <= Recv.rcv_wnd (Send.rx (core c)) < 2 ^ 31 ->
  conforming i c (got_fin d) -> outcome i c (ERR_OK, d) c' ->
  state_after d c' = rfc793 (event_of i c (got_fin d)) (st c).
Proof using.
  intros Ha Hk Hw Hc (Es & Er & El). simpl in Er, El. unfold state_after. rewrite Er, El, Es.
  unfold conforming in Hc. unfold next_state, ordinary, acks_all, rfc793, rfc793_ack, rfc793_fin, event_of. cbn [ev_acceptable
    ev_rst ev_syn ev_ack ev_syn_acked ev_fin_acked ev_fin].
  destruct (decide (st c = SYN_SENT)) as [E|Hne].
  - destruct Hc as (Hack & Hseg & Hla). rewrite E, Hseg. unfold rst_acceptable. rewrite decide_True by done.
    rewrite (seq_between_one (i_ackno i)) by done.
    rewrite (bool_decide_ext (Some (Send.snd_nxt (Send.sn (core c))) = Some (i_ackno i))
               (i_ackno i = Send.snd_nxt (Send.sn (core c)))) by (split; congruence).
    rewrite (bool_decide_false (SYN_SENT = LAST_ACK)) by done. rewrite (bool_decide_true (SYN_SENT = SYN_SENT)) by done.
    clear -Hack. generalize (bool_decide (i_ackno i = Send.snd_nxt (Send.sn (core c)))). intros b.
    destruct (i_has TCP_RST i), (i_has TCP_SYN i), (i_has TCP_ACK i), b; simpl in *;
      try done; exfalso; discriminate (Hack ltac:(by auto)).
  - destruct (i_has TCP_RST i) eqn:HR.
    { rewrite rst_window by (done || tauto). rewrite (bool_decide_false (st c = SYN_SENT)) by done. simpl.
      destruct (st c), (acceptable i c); by rewrite ?andb_false_r. }
    destruct (i_has TCP_SYN i) eqn:HY.
    { destruct Hc as [-> Hr]. destruct (st c); try done. by rewrite (Hr eq_refl). }
    destruct Hc as (-> & Hf & Hq). simpl.
    destruct (st c) eqn:E; try done; simpl; rewrite ?(Hq ltac:(auto)) in *;
      destruct (got_fin d); try rewrite (Hf eq_refl); simpl; try done;
      destruct (i_has TCP_ACK i); simpl; try done; repeat case_match; done.
Qed.


(** ** Input outside of tcp_process *)

(** The application's functions for what [input_active] reports. *)
Record quiet_input : Prop := QuietInput {
  q_process : quiet;
  q_err e : does stays (on_err cb e)
}.

(** Nothing is left on the queues. *)
Definition emptied c : Prop :=
  Send.unsent (Send.qs (core c)) = [] /\ Send.unacked (Send.qs (core c)) = [] /\
  Recv.ooseq (Send.rx (core c)) = [] /\ refused_data (lf c) = [].

Lemma purge_spec c : PCB_IN_ACTIVE_STATE (st c) = true ->
  wp (tcp_pcb_purge : @M A unit) (fun _ o c' => st c' = st c /\ emptied c' /\ o = []) c.
Proof using.
  intros Ha. unfold tcp_pcb_purge. apply wp_bind. unfold wp at 1, get. by destruct (st c) eqn:Ec.
Qed.

(** A removed connection is closed. *)
Lemma remove_spec c : PCB_IN_ACTIVE_STATE (st c) = true ->
  wp (tcp_pcb_remove g true) (fun _ o c' => st c' = CLOSED /\ emptied c' /\ o = []) c.
Proof using.
  intros Ha. unfold tcp_pcb_remove. apply wp_bind. eapply wp_mono; [by apply purge_spec|].
  intros ? o c1 (E1 & He & ->). apply wp_bind. unfold wp at 1, get. apply wp_bind.
  unfold when. destruct (_ && _); by unfold wp.
Qed.

(** Packets without data. *)
Definition bare (o : list Send.pkt) : Prop := Forall (fun k => Send.k_len k = 0) o.

Lemma empty_ack_bare p : bare (Send.tcp_send_empty_ack (mem g) p).1.
Proof using.
  unfold Send.tcp_send_empty_ack, Send.alloc. destruct (mem g _); [|by constructor].
  destruct (Dctcp.dctcp_send_empty _ _), (Tlt.tlt_out_empty_ack _). by repeat constructor.
Qed.

Lemma receive_ack_bare n i p o p' : Send.receive_ack (mem g) n i p = Some (o, p') -> bare o.
Proof using.
  unfold Send.receive_ack. intros H. case_match; [|injection H as <- _; by constructor].
  destruct (Send.update_window i p) as [persist p1].
  apply bind_Some in H as ([o2 p2] & E2 & H). injection H as <- _.
  case_match; [|case_match].
  - apply bind_Some in E2 as (? & _ & E2). injection E2 as <- _. by constructor.
  - apply bind_Some in E2 as (? & _ & E2). injection E2 as <- _. by constructor.
  - match type of E2 with Some (Send.tcp_send_empty_ack _ ?q) = _ => pose proof (empty_ack_bare q) as Hb;
      destruct (Send.tcp_send_empty_ack (mem g) q) end. by injection E2 as -> _.
Qed.

Lemma receive_bare i sack c : wp (tcp_receive g i sack) (fun _ o _ => bare o) c.
Proof using.
  unfold tcp_receive. apply wp_bind. unfold wp at 1, run_core.
  destruct (Send.receive_ack _ _ _ _) as [[o p]|] eqn:E; [|done]. apply receive_ack_bare in E.
  apply wp_bind. unfold wp at 1, ret_core, Send.alloc. apply wp_bind. unfold wp at 1, get.
  apply wp_bind. unfold wp at 1, from_option. destruct (Recv.receive_data _ _ _ _) as [[r d]|]; [|done].
  apply wp_bind. unfold wp at 1, on_rx, on_core, modify. apply wp_bind.
  eapply wp_mono; [instantiate (1 := fun _ o _ => bare o)|].
  - unfold when. case_match; [|by constructor]. unfold wp, empty_ack, run_core.
    match goal with |- context [Send.tcp_send_empty_ack _ ?q] => pose proof (empty_ack_bare q);
      by destruct (Send.tcp_send_empty_ack (mem g) q) end.
  - intros ? o' c' Hb. unfold wp, mret, M_ret. rewrite app_nil_r. by apply Forall_app_2.
Qed.

Lemma when_silent b f c : wp (when b (on_life f)) (fun _ o _ => o = []) c.
Proof using. by destruct b. Qed.

(** [tcp_process] in LAST_ACK does not call the application. *)
Lemma process_last_ack i c : st c = LAST_ACK -> ordinary i c = true -> i_has TCP_RST i = false ->
  wp (tcp_process g cb i) (fun r o c' => r.1 = ERR_OK /\ outcome i c r c' /\ bare o) c.
Proof using.
  intros Hs Ho Hr. unfold tcp_process. apply wp_bind. unfold wp at 1, get. rewrite Hr.
  unfold ordinary in Ho. rewrite Hr in Ho. apply negb_true_iff in Ho as Ho'. cbn [orb] in Ho'. rewrite Ho', Hs.
  apply wp_bind. eapply wp_mono; [apply wp_and; [apply (does_when calm); by apply does_modify|]|].
  { instantiate (1 := fun _ o _ => o = []). by apply when_silent. }
  intros ? o1 c1 [H1 ->]. apply wp_bind. unfold wp at 1, on_life, modify. apply wp_bind.
  eapply wp_mono; [apply wp_and; [apply parseopt_calm|]|].
  { instantiate (1 := fun _ o _ => o = []). unfold tcp_parseopt, wp, mbind, M_bind, get.
    by destruct (Opt.tcp_parseopt _ _ _ _ _) as [[? ?]| |]. }
  intros sack o2 c2 [H2 ->].
  assert (calm c c2) as Hc by (etransitivity; [exact H1|exact H2]).
  assert (ordinary i c = true) as Hoc by (unfold ordinary; by rewrite Hr).
  assert (st c2 = LAST_ACK) as Hs2 by (destruct Hc as [-> _]; done).
  pose proof (process_data i sack c c2 LAST_ACK Hs2 Hc eq_refl ltac:(done) ltac:(done) Hoc Hr) as Hp.
  eapply wp_mono; [apply wp_and; [exact Hp|]|].
  { instantiate (1 := fun r o _ => r.1 = ERR_OK /\ bare o). apply wp_bind.
    eapply wp_mono; [apply receive_bare|]. intros d o c3 Hb. apply wp_bind. unfold after_receive.
    unfold wp, mbind, M_bind, get, mret, M_ret. simpl. split; [done|]. by rewrite app_nil_r. }
  intros r o c' (? & ? & ?). by split_and!.
Qed.

Lemma marks_calm i : does calm (marks_in i : @M A unit).
Proof using.
  apply does_run. intros c o p E. apply bind_Some in E as (t & _ & E). by injection E as _ <-.
Qed.

Lemma input_last_ack i c : st c = LAST_ACK -> refused_data (lf c) = [] ->
  i_has TCP_RST i = false -> i_has TCP_SYN i = false -> acks_all i c = true ->
  wp (input_active g cb i) (fun _ o c' => st c' = CLOSED /\ emptied c' /\ bare o) c.
Proof using.
  intros Hs Hd Hr Hy Ha. unfold input_active. apply wp_bind.
  eapply wp_mono; [apply wp_and; [apply marks_calm|]|].
  { instantiate (1 := fun _ o c1 => o = [] /\ lf c1 = lf c). unfold wp, marks_in, run_core.
    match goal with |- context [?x ≫= ?f] => destruct x; [|done] end. done. }
  intros ? o1 c1 [Hc [-> El]]. cbv beta in Hc. apply wp_bind. unfold wp at 1, get. rewrite El, Hd. simpl.
  apply wp_bind. unfold wp at 1, mret, M_ret. apply wp_bind. unfold wp at 1, on_life, modify.
  rewrite decide_False by auto.
  assert (st c1 = LAST_ACK) as Hs1 by (destruct Hc as [-> _]; done).
  match goal with |- wp _ _ ?c => set (c2 := c) end.
  assert (st c2 = LAST_ACK) as Hs2 by done. assert (calm c c2) as Hc2 by exact Hc.
  apply wp_bind. eapply wp_mono; [apply process_last_ack; [done| |done]|].
  { unfold ordinary. by rewrite Hr, Hy. }
  intros [e d] o2 c3 (He & (E3 & Er & Ecl) & Hb). simpl in He, Er, Ecl. subst e.
  rewrite decide_False by done. rewrite Hr in Er. cbn [andb] in Er.
  rewrite (acks_all_calm i c c2), Ha, Hs2 in Ecl by done. unfold ordinary in Ecl. rewrite Hr, Hy in Ecl.
  rewrite bool_decide_true in Ecl by done. cbn in Ecl. cbn [snd]. rewrite Er, Ecl.
  eapply wp_mono; [apply remove_spec|].
  { rewrite E3. unfold next_state. by rewrite Hr, Hy, Hs2. }
  intros ? o3 c4 (? & ? & ->). simpl. rewrite app_nil_r. done.
Qed.

(** C36: Everything that was sent is acknowledged in LAST_ACK: the connection is
    closed and removed, whatever is still waiting in [unsent], the FIN included,
    and no data leaves any more.  [ackno == snd_nxt] does not tell that the FIN
    has been sent: when the peer's window holds the end of the data back, the
    acknowledgement of what fitted ends the connection and the rest is freed
    without ever having been sent.  The segment has neither RST nor SYN, and no data
    refused by the application is waiting. *)
Theorem last_ack_drops_unsent i c x o c' : st c = LAST_ACK -> refused_data (lf c) = [] ->
  i_has TCP_RST i = false -> i_has TCP_SYN i = false -> acks_all i c = true ->
  input_active g cb i c = Some (x, o, c') ->
  st c' = CLOSED /\ emptied c' /\ Forall (fun k => Send.k_len k = 0) o.
Proof using.
  intros Hs Hd Hr Hy Ha E. pose proof (input_last_ack i c Hs Hd Hr Hy Ha) as H. by apply (wp_elim _ _ _ _ _ _ H) in E.
Qed.
End segments.

(** ** A connection to try it on *)

#[local] Existing Instance Cc.none_cc_algo.

Definition ex_env : env := Env (fun _ => true) 1000 20 1460 (Opt.Config true 7) 1500.
Definition ex_app : @callbacks Cc.none_cc_algo :=
  Callbacks (mret ERR_OK) (mret ERR_OK) (fun _ => mret ERR_OK) (fun _ => mret ERR_OK) (mret ERR_OK)
    (fun _ => mret tt) (mret ERR_OK).

(** A segment without data or options. *)
Definition ex_segment (fl sq ak wnd : Z) : arrival :=
  Arrival fl sq ak wnd (if ctrue (Z.land fl (Z.lor TCP_SYN TCP_FIN)) then 1 else 0) 5 [] 0 [] 1 5000 2.

Definition ex_write (n : Z) : @M Cc.none_cc_algo err_t := fun c =>
  match Write.tcp_write (mem ex_env) true n false (core c) with
  | Some (e, p) => Some (e, [], P p (lf c) (su c))
  | None => None
  end.

Definition ex_dead : @pcb Cc.none_cc_algo :=
  P Send.ex_sack (Life [] 0 0 0 0 0 0 true) (Setup 0 0 0 false 0 0 0 0 0 0).
Definition ex_result {X} (m : @M Cc.none_cc_algo X) (c : @pcb Cc.none_cc_algo) : list Send.pkt * pcb :=
  match m c with Some (_, o, c') => (o, c') | None => ([], ex_dead) end.

Definition ex_new : @pcb Cc.none_cc_algo :=
  Eval vm_compute in default ex_dead (tcp_pcb_init ex_env (tt : Cc.data) false).

(** A server that has accepted a connection of a peer with a window of 2000
    bytes. *)
Definition ex_syn_rcvd : @pcb Cc.none_cc_algo :=
  Eval vm_compute in (ex_result (accept_syn ex_env ex_app ex_new (ex_segment TCP_SYN 0 0 2000)) ex_new).2.
Definition ex_established : @pcb Cc.none_cc_algo :=
  Eval vm_compute in (ex_result (input_active ex_env ex_app (ex_segment TCP_ACK 1 2 2000)) ex_syn_rcvd).2.

(** The peer has closed, the application writes 3000 bytes and closes. *)
Definition ex_closing : list Send.pkt * @pcb Cc.none_cc_algo :=
  Eval vm_compute in
    ex_result (input_active ex_env ex_app (ex_segment (Z.lor TCP_FIN TCP_ACK) 1 2 2000);;
               _ ← ex_write 3000; tcp_output ex_env false;; tcp_close ex_env false) ex_established.
Definition ex_ack : arrival := ex_segment TCP_ACK 2 1610 2000.
Definition ex_closed : list Send.pkt * @pcb Cc.none_cc_algo :=
  Eval vm_compute in ex_result (input_active ex_env ex_app ex_ack) ex_closing.2.

Lemma ex_quiet : quiet ex_app.
Proof. split; apply does_ret; apply _. Qed.


Lemma last_ack_drops_unsent_witness :
  length (Send.unsent (Send.qs (core ex_closing.2))) = 3%nat /\
  (Send.k_len <$> ex_closing.1) = [0; 536; 536; 536] /\ st ex_closed.2 = CLOSED /\ emptied ex_closed.2.
Proof.
  split; [vm_compute; reflexivity|]. split; [vm_compute; reflexivity|].
  destruct (last_ack_drops_unsent ex_env ex_app ex_ack ex_closing.2 tt ex_closed.1 ex_closed.2) as (H1 & H2 & _);
    [vm_compute; reflexivity..|]. split; [exact H1|exact H2].
Defined.
End State.
