(* ===== verification/TcpTimer.v ===== *)
(** * The timers of a connection

    Properties of [tcp_slowtmr] of TcpConn: when a retransmission happens, when
    the tables of intervals are left, what becomes of out-of-order data, and
    when a connection that waits for nothing is removed. *)

From S2P Require Import Prelude TcpBase Pbuf Tlt Dctcp TcpOpt TcpRecv Cc TcpSend TcpWrite TcpConn TcpState.

Local Open Scope Z_scope.

Module Timer.
Import Conn State.
Import Recv(tcp_state, CLOSED, LISTEN, SYN_SENT, SYN_RCVD, ESTABLISHED, FIN_WAIT_1, FIN_WAIT_2, CLOSE_WAIT,
  CLOSING, LAST_ACK, TIME_WAIT).
Import Write(err_t, ERR_OK, ERR_MEM, ERR_TIMEOUT, ERR_VAL, ERR_ABRT, ERR_RST, ERR_CONN, ERR_ARG, ERR_ISCONN).

Section timers.
Context {A : Cc.cc_algo} (g : env) (cb : @callbacks A).
Implicit Types c : @pcb A.

(** ** The retransmission timer *)

Definition tmo c : Send.timers := Send.tm (core c).
Definition with_rtime (n : Z) c : pcb := P (Send.set_tm (Send.set_rtime n (tmo c)) (core c)) (lf c) (su c).

(** Data is in flight, and neither limit of the retransmissions is reached. *)
Definition in_flight c : Prop :=
  Send.unacked (Send.qs (core c)) <> [] /\ Send.persist_backoff (tmo c) = 0 /\ Send.nrtx (tmo c) <> TCP_MAXRTX /\
  ~ (st c = SYN_SENT /\ Send.nrtx (tmo c) = TCP_SYNMAXRTX).

Lemma with_rtime_twice n m c : with_rtime n (with_rtime m c) = with_rtime n c.
Proof using. done. Qed.

Lemma with_rtime_same c : with_rtime (Send.rtime (tmo c)) c = c.
Proof using. destruct c as [[? ? ? ? ? ? ? [] ?] ? ?]. done. Qed.

Lemma in_flight_rtime n c : in_flight c -> in_flight (with_rtime n c).
Proof using. done. Qed.

(** One tick, in terms of the next value of [rtime]. *)
Definition next_rtime (r : Z) : Z := if decide (r >= 0) then s16 (r + 1) else r.

Lemma tick_spec c : in_flight c -> slow_rexmit g c =
  (when (bool_decide (next_rtime (Send.rtime (tmo c)) >= Send.rto (tmo c))) (slow_timeout g);; mret None)
    (with_rtime (next_rtime (Send.rtime (tmo c))) c).
Proof using.
  intros (Hu & Hp & Hn & Hs). unfold slow_rexmit, mbind at 1, M_bind at 1, get at 1. fold (tmo c).
  rewrite decide_False by done. rewrite decide_False by done. rewrite decide_False by lia.
  unfold next_rtime.
  assert ((if decide (Send.rtime (tmo c) >= 0) then Send.set_rtime (s16 (Send.rtime (tmo c) + 1)) (tmo c) else tmo c) =
    Send.set_rtime (if decide (Send.rtime (tmo c) >= 0) then s16 (Send.rtime (tmo c) + 1) else Send.rtime (tmo c)) (tmo c)) as E.
  { case_decide; [done|]. by destruct (tmo c). }
  unfold on_tm at 1, on_core at 1, modify at 1, mbind at 1, M_bind at 1. fold (tmo c). rewrite E.
  unfold get at 1, mbind at 1, M_bind at 1. cbn [core Send.qs Send.set_tm]. rewrite (bool_decide_false (_ = [])) by done.
  cbn [negb andb]. fold (with_rtime (if decide (Send.rtime (tmo c) >= 0) then s16 (Send.rtime (tmo c) + 1) else Send.rtime (tmo c)) c).
  simpl. match goal with |- _ = ?x => by destruct x as [[[? ?] ?]|] end.
Qed.

(** ** Out-of-order data *)

Definition drop_ooseq c : pcb := P (Send.set_rx (Recv.set_ooseq [] (Send.rx (core c))) (core c)) (lf c) (su c).

(** An established connection with nothing in flight and no keep-alive. *)
Definition resting c : Prop :=
  st c = ESTABLISHED /\ Send.unacked (Send.qs (core c)) = [] /\ Send.persist_backoff (tmo c) = 0 /\
  Send.nrtx (tmo c) <> TCP_MAXRTX /\ Z.land (so_options (su c)) SOF_KEEPALIVE = 0.

Lemma resting_rexmit c : resting c -> slow_rexmit g c = Some (None, [], with_rtime (next_rtime (Send.rtime (tmo c))) c).
Proof using.
  intros (Hs & Hu & Hp & Hn & _). unfold slow_rexmit, mbind, M_bind, get. fold (tmo c).
  rewrite decide_False by (rewrite Hs; by intros [? _]). rewrite decide_False by done. rewrite decide_False by lia.
  unfold on_tm, on_core, modify, mret, M_ret. cbn [core Send.qs Send.set_tm]. rewrite Hu. simpl.
  unfold with_rtime, next_rtime. fold (tmo c). case_decide; [done|]. by destruct (tmo c).
Qed.

Lemma resting_ooseq c : resting c -> Recv.ooseq (Send.rx (core c)) <> [] ->
  idle g c >= u32 (Send.rto (tmo c) * TCP_OOSEQ_TIMEOUT) ->
  slow_active g cb c = slow_end g cb None false (drop_ooseq (with_rtime (next_rtime (Send.rtime (tmo c))) c)).
Proof using.
  intros Hr Ho Hi. pose proof Hr as (Hs & Hu & Hp & Hn & Hk).
  unfold slow_active. unfold mbind at 1, M_bind at 1. rewrite resting_rexmit by done.
  set (c1 := with_rtime _ c). assert (st c1 = ESTABLISHED) as Hs1 by done.
  unfold mbind at 1, M_bind at 1, get at 1. rewrite Hs1. cbn [bool_decide decide_rel].
  rewrite (bool_decide_false (ESTABLISHED = FIN_WAIT_2)) by done. cbn [andb slow_stuck].
  unfold mbind at 1, M_bind at 1, mret at 1, M_ret at 1.
  unfold mbind at 1, M_bind at 1, slow_keepalive at 1. unfold mbind at 1, M_bind at 1, get at 1.
  assert (ctrue (Z.land (so_options (su c1)) SOF_KEEPALIVE) = false) as -> by (by apply ctrue_eq).
  cbn [andb]. unfold mret at 1, M_ret at 1.
  unfold mbind at 1, M_bind at 1, slow_ooseq at 1. unfold mbind at 1, M_bind at 1, get at 1.
  rewrite (bool_decide_false (Recv.ooseq (Send.rx (core c1)) = [])) by done.
  rewrite bool_decide_true by done. cbn [negb andb when]. unfold on_rx at 1, on_core at 1, modify at 1.
  fold (drop_ooseq c1). unfold mbind at 1, M_bind at 1, get at 1.
  assert (st (drop_ooseq c1) = ESTABLISHED) as -> by done.
  rewrite (bool_decide_false (ESTABLISHED = SYN_RCVD)), (bool_decide_false (ESTABLISHED = LAST_ACK)) by done.
  cbn [slow_stuck]. unfold mbind, M_bind, mret, M_ret. cbn [app].
  by destruct (slow_end g cb None false (drop_ooseq c1)) as [[[? ?] ?]|].
Qed.

(** Discarded data stays reported.  When an idle connection's out-of-order
    queue has waited for six timeouts, the slow timer frees the queued segments,
    but not the SACK blocks made from them: the tick goes on with a connection
    that holds none of the data, whose acknowledgements have the same room for
    the same blocks as before.  A peer that takes the report for a receipt, as
    [remove_sacked] does here, never sends the data again. *)
Theorem dropped_data_stays_sacked c : resting c -> Recv.ooseq (Send.rx (core c)) <> [] ->
  idle g c >= u32 (Send.rto (tmo c) * TCP_OOSEQ_TIMEOUT) ->
  exists c', slow_active g cb c = slow_end g cb None false c' /\
    Recv.ooseq (Send.rx (core c')) = [] /\
    Recv.rcv_sack_block (Send.rx (core c')) = Recv.rcv_sack_block (Send.rx (core c)) /\
    Recv.sack_permitted (Send.rx (core c')) = Recv.sack_permitted (Send.rx (core c)) /\
    forall o, Send.LWIP_TCP_OPT_LENGTH (core c') o = Send.LWIP_TCP_OPT_LENGTH (core c) o.
Proof using.
  intros Hr Ho Hi. eexists. split; [by apply resting_ooseq|]. by split_and!.
Qed.

(** ** TIME_WAIT *)

(** A connection leaves TIME_WAIT at the first tick that finds it there for more
    than two maximum segment lifetimes since the last FIN, and at no other. *)
Theorem time_wait_ends c : st c = TIME_WAIT -> slow_tmr_interval g <> 0 ->
  exists c', tcp_slowtmr g cb c = Some (tt, [], c') /\
    st c' = (if decide (idle g c > 2 * TCP_MSL / slow_tmr_interval g) then CLOSED else TIME_WAIT) /\
    Send.qs (core c') = Send.qs (core c) /\ lf c' = lf c.
Proof using.
  intros Hs Hg. unfold tcp_slowtmr, stays_longer, ms_ticks, mbind, M_bind, get, mret, M_ret. rewrite Hs. simpl.
  rewrite decide_True by done. rewrite decide_False by done. simpl.
  case_decide as Hd.
  - rewrite bool_decide_true by done. simpl. unfold tcp_pcb_purge, mbind, M_bind, get. rewrite Hs. simpl.
    eexists. by split_and!.
  - rewrite bool_decide_false by done. simpl. exists c. by split_and!.
Qed.
End timers.

Section runs.
Context {A : Cc.cc_algo} (gs : nat -> env).
Implicit Types c : @pcb A.

(** [n] ticks of the slow timer; the globals may change from tick to tick. *)
Fixpoint ticks (n : nat) : @M A unit :=
  match n with O => mret tt | S n => ticks n;; _ ← slow_rexmit (gs n); mret tt end.

Lemma tick_waits g c : in_flight c -> next_rtime (Send.rtime (tmo c)) < Send.rto (tmo c) ->
  slow_rexmit g c = Some (None, [], with_rtime (next_rtime (Send.rtime (tmo c))) c).
Proof using. intros H Hr. rewrite tick_spec by done. rewrite bool_decide_false by lia. done. Qed.

Lemma ticks_wait n c r : in_flight c -> (forall k : nat, (k < n)%nat -> r (S k) = next_rtime (r k) /\ r (S k) < Send.rto (tmo c)) ->
  r O = Send.rtime (tmo c) -> ticks n c = Some (tt, [], with_rtime (r n) c).
Proof using.
  intros H Hr H0. induction n as [|n IH]; simpl.
  { unfold mret, M_ret. by rewrite H0, with_rtime_same. }
  unfold mbind, M_bind. rewrite IH by (intros; apply Hr; lia). destruct (Hr n ltac:(lia)) as [E1 E2].
  rewrite tick_waits; [|done|]; simpl.
  - by rewrite E1.
  - by rewrite <- E1.
Qed.

(** C35: The retransmission timer fires on time.  While data is in flight and
    nothing is acknowledged, the timer with the value [rtime] does nothing for
    [rto - rtime - 1] ticks, in which it changes nothing but its own counter, and
    at the next tick the timeout is handled: this holds for every timeout up to
    32767 ticks.  In flight means that [unacked] is not empty, the persist timer is
    not running, and the limits of retransmissions are not reached. *)
Theorem retransmission_timer_fires c : in_flight c ->
  0 <= Send.rtime (tmo c) < Send.rto (tmo c) -> Send.rto (tmo c) <= 32767 ->
  let n := Z.to_nat (Send.rto (tmo c) - Send.rtime (tmo c) - 1) in
  let c' := with_rtime (Send.rto (tmo c) - 1) c in
  ticks n c = Some (tt, [], c') /\
  slow_rexmit (gs n) c' = (slow_timeout (gs n);; mret None) (with_rtime (Send.rto (tmo c)) c).
Proof using.
  intros H Hr Hm n c'.
  assert (forall x, 0 <= x -> x + 1 <= 32767 -> next_rtime x = x + 1) as Hn.
  { intros x ? ?. unfold next_rtime. rewrite decide_True by lia. apply s16_small. lia. }
  split.
  - rewrite (ticks_wait n c (fun k => Send.rtime (tmo c) + Z.of_nat k)); [|done| |lia].
    + unfold c', n. do 3 f_equal. lia.
    + intros k Hk. unfold n in Hk. rewrite Hn by lia. lia.
  - rewrite (tick_spec (gs n) c') by done. change (Send.rtime (tmo c')) with (Send.rto (tmo c) - 1).
    change (Send.rto (tmo c')) with (Send.rto (tmo c)). rewrite Hn by lia.
    replace (Send.rto (tmo c) - 1 + 1) with (Send.rto (tmo c)) by lia.
    rewrite bool_decide_true by lia. done.
Qed.

(** A timeout of more than 32767 ticks never fires.  The counter [rtime] has 16
    bits: it wraps to -32768 before it reaches such an [rto], and a negative
    counter stands still.  However many ticks pass, nothing is retransmitted. *)
Theorem long_timeout_never_fires n c : in_flight c -> 0 <= Send.rtime (tmo c) <= 32767 -> Send.rto (tmo c) > 32767 ->
  exists r, ticks n c = Some (tt, [], with_rtime r c) /\ (Z.of_nat n > 32767 -> r = -32768).
Proof using.
  intros H Hr Hm. set (f k := if decide (Send.rtime (tmo c) + Z.of_nat k <= 32767) then Send.rtime (tmo c) + Z.of_nat k else -32768).
  exists (f n). split; [|unfold f; case_decide; lia].
  apply ticks_wait; [done| |unfold f; case_decide; lia].
  intros k _. assert (f (S k) = next_rtime (f k)) as E; [|split; [done|unfold f; case_decide; lia]].
  unfold f, next_rtime. repeat case_decide; try lia.
  - rewrite s16_small; lia.
  - replace (Send.rtime (tmo c) + Z.of_nat k) with 32767 by lia. done.
Qed.
End runs.

(** ** The table of intervals *)

#[local] Existing Instance Cc.none_cc_algo.

Lemma backoff_range n b : tcp_backoff !! n = Some b -> 1 <= b <= 7.
Proof. intros E. apply list_elem_of_lookup_2 in E. unfold tcp_backoff in E. set_unfold in E. naive_solver lia. Qed.

Lemma backed_off_spec t : 0 <= Send.nrtx t -> 0 <= Z.shiftr (Send.sa t) 3 + Send.sv t < 2 ^ 24 ->
  (backed_off t = None <-> Send.nrtx t > TCP_MAXRTX).
Proof.
  intros Hn Hr. unfold backed_off, TCP_MAXRTX. destruct (tcp_backoff !! Z.to_nat (Send.nrtx t)) as [b|] eqn:E; simpl.
  - pose proof (backoff_range _ _ E). apply lookup_lt_Some in E. simpl in E.
    rewrite Z.shiftl_mul_pow2 by lia. assert (2 ^ 1 <= 2 ^ b <= 2 ^ 7) by (split; apply Z.pow_le_mono_r; lia).
    rewrite decide_True by nia. split; [done|lia].
  - apply lookup_ge_None in E. simpl in E. split; [lia|done].
Qed.

Fixpoint times (n : nat) (m : @M Cc.none_cc_algo unit) : @M Cc.none_cc_algo unit :=
  match n with O => mret tt | S n => m;; times n m end.

Definition ex_copies : @M Cc.none_cc_algo unit := times 13 (input_active ex_env ex_app (ex_segment TCP_SYN 0 0 2000)).
Definition ex_copied : @pcb Cc.none_cc_algo := Eval vm_compute in (ex_result ex_copies ex_syn_rcvd).2.

(** The table [tcp_backoff] is read out of bounds.  For the values of the
    estimators that 24 bits hold, the backed off timeout is defined exactly up to
    TCP_MAXRTX retransmissions.  The slow timer ends a connection only when
    [nrtx] is equal to that limit, and in SYN_RCVD every copy of the peer's SYN
    counts as a retransmission: thirteen copies between two ticks step over the
    limit, and the timeout reads behind the table. *)
Theorem syn_copies_overrun_backoff :
  (forall t, 0 <= Send.nrtx t -> 0 <= Z.shiftr (Send.sa t) 3 + Send.sv t < 2 ^ 24 ->
    (backed_off t = None <-> Send.nrtx t > TCP_MAXRTX)) /\
  st ex_copied = SYN_RCVD /\ Send.nrtx (tmo ex_copied) = 13 /\
  times 4 (tcp_slowtmr ex_env ex_app) ex_copied = Some (tt, [], with_rtime 4 ex_copied) /\
  tcp_slowtmr ex_env ex_app (with_rtime 4 ex_copied) = None.
Proof. split; [exact backed_off_spec|]. split_and!; vm_compute; reflexivity. Qed.

(** ** Witnesses *)

Definition ex_sending : @pcb Cc.none_cc_algo :=
  Eval vm_compute in (ex_result (_ ← ex_write 1000; tcp_output ex_env false) ex_established).2.
Definition with_rto (n : Z) (c : @pcb Cc.none_cc_algo) : pcb :=
  P (Send.set_tm (Send.set_rto n (tmo c)) (core c)) (lf c) (su c).

Lemma ex_in_flight n : in_flight (with_rto n ex_sending).
Proof. split_and!; try (vm_compute; discriminate); try (vm_compute; reflexivity). intros [_ H]. vm_compute in H. discriminate. Qed.

Lemma retransmission_timer_fires_witness :
  ticks (fun _ => ex_env) 4 (with_rto 5 ex_sending) = Some (tt, [], with_rtime 4 (with_rto 5 ex_sending)).
Proof.
  destruct (retransmission_timer_fires (fun _ => ex_env) (with_rto 5 ex_sending) (ex_in_flight 5)) as [H _].
  - change (0 <= 0 < 5). lia.
  - change (5 <= 32767). lia.
  - exact H.
Defined.

Lemma long_timeout_never_fires_witness :
  exists r, ticks (fun _ => ex_env) 100 (with_rto 40000 ex_sending) = Some (tt, [], with_rtime r (with_rto 40000 ex_sending)).
Proof.
  destruct (long_timeout_never_fires (fun _ => ex_env) 100 (with_rto 40000 ex_sending) (ex_in_flight 40000)) as (r & H & _).
  - change (0 <= 0 <= 32767). lia.
  - change (40000 > 32767). lia.
  - exists r. exact H.
Defined.

(** Five bytes that are not next. *)
Definition ex_gap : arrival := Arrival TCP_ACK 11 2 2000 5 5 [] 0 [Pbuf.Buf [] [1; 2; 3; 4; 5] 5] 1 5000 2.
Definition ex_waiting : @pcb Cc.none_cc_algo := Eval vm_compute in (ex_result (input_active ex_env ex_app ex_gap) ex_established).2.

Lemma dropped_data_stays_sacked_witness :
  exists c', slow_active ex_env ex_app ex_waiting = slow_end ex_env ex_app None false c' /\
    Recv.ooseq (Send.rx (core c')) = [] /\ Recv.rcv_sack_block (Send.rx (core c')) = [(11, 16)].
Proof.
  destruct (dropped_data_stays_sacked ex_env ex_app ex_waiting) as (c' & E & H1 & H2 & _).
  - split_and!; try (vm_compute; reflexivity). vm_compute. discriminate.
  - vm_compute. discriminate.
  - vm_compute. discriminate.
  - exists c'. split; [exact E|]. split; [exact H1|]. rewrite H2. vm_compute. reflexivity.
Defined.

Definition ex_time_wait : @pcb Cc.none_cc_algo := Eval vm_compute in
  P (Send.set_rx (Recv.set_state TIME_WAIT (Send.rx (core ex_established))) (core ex_established))
    (lf ex_established) (su ex_established).

Lemma time_wait_ends_witness : exists c',
  tcp_slowtmr (Env (mem ex_env) 7001 20 1460 (scale_cfg ex_env) 1500) ex_app ex_time_wait = Some (tt, [], c') /\ st c' = CLOSED.
Proof.
  destruct (time_wait_ends (Env (mem ex_env) 7001 20 1460 (scale_cfg ex_env) 1500) ex_app ex_time_wait) as (c' & E & H & _).
  - reflexivity.
  - discriminate.
  - exists c'. split; [exact E|]. rewrite H. vm_compute. reflexivity.
Defined.
End Timer.
