(* ===== verification/TcpClose.v ===== *)
(** * Opening and closing

    A computed handshake of two connections of TcpConn, with the options each sends,
    and the place of the FIN in the byte stream that TcpWrite and TcpSend
    keep. *)

From S2P Require Import Prelude TcpBase Pbuf Tlt Dctcp TcpOpt TcpRecv Cc TcpSend TcpSendInv TcpSendOut TcpWrite TcpConn TcpState.

Local Open Scope Z_scope.

Module Close.
Import Conn State.
Import Recv(tcp_state, CLOSED, LISTEN, SYN_SENT, SYN_RCVD, ESTABLISHED, FIN_WAIT_1, FIN_WAIT_2, CLOSE_WAIT,
  CLOSING, LAST_ACK, TIME_WAIT).
Import Write(err_t, ERR_OK, ERR_MEM, ERR_TIMEOUT, ERR_VAL, ERR_ABRT, ERR_RST, ERR_CONN, ERR_ARG, ERR_ISCONN).

(** ** The FIN *)

Section fin.
Context {A : Cc.cc_algo} {LA : Cc.cc_laws A} (g : env).
Implicit Types c : @pcb A.

(** The last unsent segment holds the newest data. *)
Definition newest_last (B : Z) c : Prop :=
  Send.unsent (Send.qs (core c)) <> [] ->
  exists us t, Send.unsent (Send.qs (core c)) = us ++ [t] /\ SendInv.stop B t = B.

(** What is behind the stream: a segment that ends at [B] and carries the FIN. *)
Definition fin_at (B : Z) c c' : Prop :=
  Send.flag Send.TF_FIN (core c') = true /\
  exists us s, Send.unsent (Send.qs (core c')) = us ++ [s] /\ Send.has TCP_FIN s = true /\
    u32 (Send.seqno s + Send.len s) = u32 B /\
    (Send.unsent (Send.qs (core c)) = us /\ Send.len s = 0 \/
     exists t, Send.unsent (Send.qs (core c)) = us ++ [t] /\ s = Send.set_hrf (TCPH_SET_FLAG (Send.hrf t) TCP_FIN) t).

(** There is no segment the FIN can ride on: none is unsent, or the last one
    carries a SYN, a FIN or a RST. *)
Definition fin_alone c : bool :=
  match list.last (Send.unsent (Send.qs (core c))) with
  | Some s => ctrue (Z.land (TCPH_FLAGS (Send.hrf s)) (Z.lor (Z.lor TCP_SYN TCP_FIN) TCP_RST))
  | None => true
  end.

(** The allocations of a segment for the FIN: a buffer, and a segment unless one
    is in reserve. *)
Definition fin_memory c : bool :=
  let n := Send.next_id (Send.qs (core c)) in
  mem g n && (Send.seg_alloc (Send.qs (core c)) || mem g (S n)).

Lemma or_flag_set f p : f <> 0 -> Send.flag f (Send.or_flags f p : Send.tcp_pcb A) = true.
Proof using.
  intros Hf. unfold Send.flag, Send.or_flags. simpl. apply ctrue_ne. intros H. apply Hf. apply Z.bits_inj_0. intros n.
  apply (f_equal (fun z => Z.testbit z n)) in H. rewrite Z.land_spec, Z.lor_spec, Z.bits_0 in H.
  by destruct (Z.testbit f n), (Z.testbit (Recv.flags (Send.rx p)) n).
Qed.

Lemma enqueue_fin C L B K c : SendInv.inv C L B K (core c) ->
  exists c', tcp_enqueue_flags g TCP_FIN c = Some (if fin_memory c then ERR_OK else ERR_MEM, [], c') /\
    Send.unacked (Send.qs (core c')) = Send.unacked (Send.qs (core c)) /\
    if fin_memory c then fin_at B c c' else Send.unsent (Send.qs (core c')) = Send.unsent (Send.qs (core c)).
Proof using.
  intros H. destruct (SendOut.data_optlen_0 _ _ _ _ _ H) as [E0 E1].
  assert (Send.flag Send.TF_TIMESTAMP (core c) = false) as Ht by (apply ctrue_eq; apply (SendInv.v_options _ _ _ _ _ H)).
  unfold tcp_enqueue_flags, mbind, M_bind, get. rewrite andb_false_r.
  assert (flag_options g TCP_FIN c = 0) as Eo by (unfold flag_options; rewrite Ht; done).
  rewrite Eo. change (ctrue (Z.land TCP_FIN TCP_SYN)) with false. change (ctrue (Z.land TCP_FIN TCP_FIN)) with true.
  cbn [when orb]. unfold mret, M_ret, ret_core, Send.alloc.
  assert (u8 (Send.LWIP_TCP_OPT_LENGTH (core c) 0) = 0) as El by (unfold Send.data_optlen in E0; by rewrite E1 in E0).
  rewrite El. unfold fin_memory. destruct (mem g (Send.next_id (Send.qs (core c)))).
  2: { eexists _. split; [reflexivity|]. done. }
  cbn [core lf su andb].
  match goal with |- context [Send.tcp_create_segment ?m ?b ?n ?o ?q] =>
    destruct (Send.tcp_create_segment m b n o q) as [[ns|] p2] eqn:E2 end.
  2: { unfold Send.tcp_create_segment, Send.alloc in E2. simpl in E2. destruct (_ || _); [done|].
       injection E2 as <-. eexists _. split; [reflexivity|]. done. }
  assert (Send.seg_alloc (Send.qs (core c)) || mem g (S (Send.next_id (Send.qs (core c)))) = true) as ->.
  { unfold Send.tcp_create_segment, Send.alloc in E2. simpl in E2. by destruct (_ || _). }
  apply SendOut.create_spec in E2 as [-> ->]; [|exact El].
  eexists _. split; [reflexivity|]. split; [done|]. split; [by apply or_flag_set|].
  eexists _, _. split; [reflexivity|]. split; [vm_compute; reflexivity|]. split; [|by left].
  simpl. rewrite (SendInv.v_lbb _ _ _ _ _ H). by rewrite wrap_add_l, Z.add_0_r.
Qed.

(** C34: The FIN follows the data.  On a connection without timestamps and
    without SACK blocks to report that keeps its byte stream, and whose last
    unsent segment holds the newest bytes, [tcp_send_fin] returns whatever the
    length of the queue.  It fails, with [ERR_MEM] and the queues as they were,
    exactly when the FIN needs a segment of its own (nothing is unsent, or the
    last unsent segment carries a SYN, FIN or RST) and the buffer or the segment
    cannot be allocated; otherwise it returns [ERR_OK] and the FIN is queued
    behind the last byte [B] of the stream: on the last unsent segment, which is
    otherwise unchanged, or on a new segment without data. *)
Theorem fin_follows_data C L B K c : SendInv.inv C L B K (core c) -> newest_last B c ->
  let fails := fin_alone c && negb (fin_memory c) in
  exists c', tcp_send_fin g c = Some (if fails then ERR_MEM else ERR_OK, [], c') /\
    Send.unacked (Send.qs (core c')) = Send.unacked (Send.qs (core c)) /\
    if fails then Send.unsent (Send.qs (core c')) = Send.unsent (Send.qs (core c)) else fin_at B c c'.
Proof using.
  intros H Hl. pose proof (enqueue_fin C L B K c H) as (c' & Ee & Hu & He). unfold fin_alone. cbv zeta.
  unfold tcp_send_fin, mbind at 1, M_bind at 1, get at 1.
  destruct (decide (Send.unsent (Send.qs (core c)) = [])) as [En|En].
  { assert (list.last (Send.unsent (Send.qs (core c))) = None) as -> by (by rewrite En). rewrite Ee. exists c'. by destruct (fin_memory c). }
  destruct (Hl En) as (us & t & Eu & Hs).
  assert (list.last (Send.unsent (Send.qs (core c))) = Some t) as -> by (by rewrite Eu, last_snoc).
  destruct (ctrue _); [rewrite Ee; exists c'; by destruct (fin_memory c)|].
  eexists _. split; [reflexivity|]. split; [done|]. split; [by apply or_flag_set|].
  exists us, (Send.set_hrf (TCPH_SET_FLAG (Send.hrf t) TCP_FIN) t).
  assert (SendInv.seg_ok t) as Ht.
  { apply (SendInv.c_ok _ _ _ _ _ (SendInv.v_core _ _ _ _ _ H)). unfold SendInv.all. rewrite Eu. set_solver. }
  split; [simpl; by rewrite Eu, removelast_last|]. split.
  { unfold Send.has. simpl. rewrite flags_set_flag by (done || apply Ht). apply ctrue_ne.
    intros E. apply (f_equal (fun z => Z.testbit z 0)) in E.
    rewrite Z.land_spec, Z.lor_spec in E. by rewrite orb_true_r in E. }
  split; [|right; by exists t]. simpl. rewrite (SendInv.pos_seqno B t) by apply Ht.
  unfold SendInv.stop in Hs. rewrite wrap_add_l. by rewrite Hs.
Qed.
End fin.

(** ** Closing with unread data, and what is reported twice *)

Section closing.
Context {A : Cc.cc_algo} (g : env) (cb : @callbacks A).
Implicit Types c : @pcb A.

(** Data the application has not taken. *)
Definition unread c : Prop :=
  refused_data (lf c) <> [] \/ Recv.rcv_wnd (Send.rx (core c)) <> Recv.rcv_wnd_max (Send.rx (core c)).

(** A close while data is unread resets the connection: a RST is sent if there
    is a buffer for it, and the queues are freed with the congestion control's
    data.  An established connection goes to TIME_WAIT.  One in CLOSE_WAIT stays
    there: an active connection without congestion control data, that no timer
    ends. *)
Theorem close_with_unread_data c : st c = ESTABLISHED \/ st c = CLOSE_WAIT -> unread c ->
  exists o c', tcp_close g false c = Some (ERR_OK, o, c') /\
    o = (if mem g (Send.next_id (Send.qs (core c)))
         then [Send.Pkt (Send.snd_nxt (Send.sn (core c))) 0 (Z.lor TCP_RST TCP_ACK) (Send.tos (core c))] else []) /\
    emptied c' /\ cc_alive (lf c') = false /\
    st c' = (if decide (st c = ESTABLISHED) then TIME_WAIT else CLOSE_WAIT).
Proof using.
  intros Hs Hu. unfold tcp_close, mbind at 1, M_bind at 1, get at 1.
  rewrite bool_decide_false by (by destruct Hs as [-> | ->]). cbn [negb when].
  unfold mbind at 1, M_bind at 1, rxclosed at 1, on_core at 1, modify at 1.
  set (c1 := P (Send.or_flags TF_RXCLOSED (core c)) (lf c) (su c)).
  unfold tcp_close_shutdown, mbind at 1, M_bind at 1, get at 1. change (st c1) with (st c).
  assert (negb (bool_decide (refused_data (lf c1) = [])) ||
    negb (bool_decide (Recv.rcv_wnd (Send.rx (core c1)) = Recv.rcv_wnd_max (Send.rx (core c1)))) = true) as ->.
  { destruct Hu as [Hu|Hu]; [rewrite (bool_decide_false (_ = [])) by done; done|].
    rewrite (bool_decide_false (Recv.rcv_wnd _ = _)) by done. apply orb_true_r. }
  assert (bool_decide (st c = ESTABLISHED) || bool_decide (st c = CLOSE_WAIT) = true) as ->.
  { destruct Hs as [-> | ->]; done. }
  cbn [andb]. unfold tcp_rst, run_core, mbind, M_bind, Send.alloc. change (Send.next_id (Send.qs (core c1))) with (Send.next_id (Send.qs (core c))).
  unfold tcp_pcb_purge, mbind, M_bind, get.
  set (c2 := P _ (lf c1) (su c1)). change (st c2) with (st c).
  destruct Hs as [Hs|Hs]; rewrite Hs; eexists _, _; (split; [reflexivity|]); split_and!; try done;
    by destruct (mem g (Send.next_id (Send.qs (core c)))).
Qed.

(** A segment that [tcp_process] ignores reports old data as sent.  [acked] is
    what the last acknowledgement covered, and is reset by the next one that
    [tcp_receive] sees, not by a RST outside of the window: such a RST makes the
    input processing call the application's function for sent data with the old
    amount once more. *)
Theorem ignored_reset_reports_sent_again i c c1 o1 : PCB_IN_ACTIVE_STATE (st c) = true -> refused_data (lf c) = [] ->
  i_has TCP_RST i = true -> rst_acceptable i c = false -> Send.acked (Send.sn (core c)) > 0 ->
  marks_in i c = Some (tt, o1, c1) ->
  input_active g cb i c =
    (e ← on_sent cb (Send.acked (Send.sn (core c))); if decide (e = ERR_ABRT) then mret tt else tcp_output g false) c1.
Proof using.
  intros Ha Hd Hr Hn Hk Hm. unfold input_active, mbind at 1, M_bind at 1. rewrite Hm.
  assert (o1 = [] /\ st c1 = st c /\ Send.sn (core c1) = Send.sn (core c) /\ rx_kept (Send.rx (core c)) (Send.rx (core c1)) /\
    lf c1 = lf c) as (-> & E1 & E2 & (_ & E3 & E4 & _) & E5).
  { unfold marks_in, run_core in Hm. destruct (_ ≫= _) as [[o p]|] eqn:E; [|done]. injection Hm as <- <-.
    apply bind_Some in E as (t & _ & E). injection E as <- <-. done. }
  unfold mbind at 1, M_bind at 1, get at 1. rewrite E5, Hd. cbn [length deliver].
  unfold mbind at 1, M_bind at 1, mret at 1, M_ret at 1.
  unfold mbind at 1, M_bind at 1, on_life at 1, modify at 1.
  assert (P (core c1) (set_refused [] (lf c1)) (su c1) = c1) as ->.
  { destruct c1 as [p l u]. simpl in *. subst l. by destruct (lf c); simpl in *; subst. }
  rewrite decide_False by auto. unfold mbind at 1, M_bind at 1, tcp_process at 1.
  unfold mbind at 1, M_bind at 1, get at 1. rewrite Hr.
  assert (rst_acceptable i c1 = false) as ->.
  { unfold rst_acceptable. rewrite E1, E2, E3, E4. done. }
  unfold mret at 1, M_ret at 1. rewrite decide_False by done. cbn [snd app].
  change (ctrue (Z.land 0 TF_RESET)) with false. change (ctrue (Z.land 0 TF_CLOSED)) with false.
  unfold input_events, mbind at 1, M_bind at 1, get at 1. rewrite E2. rewrite decide_True by done.
  unfold mbind, M_bind. destruct (on_sent cb _ c1) as [[[e o] c2]|]; [|done].
  destruct (decide (e = ERR_ABRT)); [done|]. generalize (tcp_output g false). intros T. unfold mret, M_ret.
  simpl. by destruct (T c2) as [[[? ?] ?]|].
Qed.
End closing.

(** ** The handshake *)

(** The header of a segment as [tcp_output_segment] completes it. *)
Definition on_wire {A : Cc.cc_algo} (g : env) (c : @pcb A) (seg : Send.tcp_seg) : arrival :=
  let r := Send.rx (core c) in
  let w := if ctrue (Z.land (Send.opts seg) Opt.TF_SEG_OPTS_WNDSCALE) then Recv.rcv_ann_wnd r
           else Z.shiftr (Recv.rcv_ann_wnd r) (rcv_scale (lf c)) in
  let o := Opt.segment_options (scale_cfg g) (tcp_ticks g) (Send.opts seg) (opt_view c) in
  Arrival (TCPH_FLAGS (Send.hrf seg)) (Send.seqno seg) (Recv.rcv_nxt r) (Z.min w 0xFFFF) (Send.TCP_TCPLEN seg)
    (TCPH_HDRLEN (Send.hrf seg)) o Tlt.TLT_TOS_IMP [] (local_ip (su c)) (local_port (su c)) (remote_ip (su c)).

(** The header of the acknowledgement that [tcp_send_empty_ack] sends. *)
Definition ack_on_wire {A : Cc.cc_algo} (g : env) (c : @pcb A) : arrival :=
  let r := Send.rx (core c) in
  let o := Opt.empty_ack_options (tcp_ticks g) (opt_view c) in
  Arrival TCP_ACK (Send.snd_nxt (Send.sn (core c))) (Recv.rcv_nxt r)
    (Z.min (Z.shiftr (Recv.rcv_ann_wnd r) (rcv_scale (lf c))) 0xFFFF) 0
    (5 + Opt.empty_ack_optlen (opt_view c) / 4) o Tlt.TLT_TOS_IMPE [] (local_ip (su c)) (local_port (su c)) (remote_ip (su c)).

#[local] Existing Instance Cc.none_cc_algo.
#[local] Existing Instance Cc.none_laws.

(** A client connects to a listening server; the segments arrive in order. *)
Definition handshake (gc gs : env) (tc ts : bool) : option (@pcb Cc.none_cc_algo * @pcb Cc.none_cc_algo) :=
  c ← tcp_pcb_init gc (tt : Cc.data) tc;
  s ← tcp_pcb_init gs (tt : Cc.data) ts;
  '(_, _, c) ← (_ ← tcp_bind 1 5000; tcp_connect gc (Some 2) 80) c;
  syn ← head (Send.unacked (Send.qs (core c)));
  '(_, _, s) ← accept_syn gs ex_app s (on_wire gc c syn) s;
  synack ← head (Send.unacked (Send.qs (core s)));
  '(_, _, c) ← input_active gc ex_app (on_wire gs s synack) c;
  '(_, _, s) ← input_active gs ex_app (ack_on_wire gc c) s;
  Some (c, s).

(** A host with the given window scale if it is enabled, on a network with large
    frames or not, with the segment size taken from there or configured. *)
Definition host (scale : Z) (scaled jumbo follow : bool) (now : Z) : env :=
  Env (fun _ => true) now 20 (if follow then 0 else 1460) (Opt.Config scaled scale) (if jumbo then 9000 else 1500).

Definition host_mss (jumbo follow : bool) : Z := if follow then (if jumbo then 8960 else 1460) else 1460.

(** What one end has learnt, and what it expects. *)
Definition learnt (c : @pcb Cc.none_cc_algo) : tcp_state * list Z * list Send.tcp_seg * bool * bool :=
  let p := core c in
  (st c,
   [Send.snd_nxt (Send.sn p); Recv.rcv_nxt (Send.rx p); Send.lastack (Send.sn p); Recv.mss (Send.rx p);
    Send.snd_scale (Send.sn p); rcv_scale (lf c); Send.snd_wnd (Send.sn p); Send.snd_buf (Send.qs p)],
   Send.unacked (Send.qs p), Send.flag Send.TF_TIMESTAMP p, Recv.sack_permitted (Send.rx p)).

Lemma handshake_learnt (wc ws tc ts jc js fc fs : bool) :
  (fun r => (learnt r.1, learnt r.2)) <$> handshake (host 7 wc jc fc 1000) (host 3 ws js fs 5000) tc ts =
  let m := Z.min (host_mss jc fc) (host_mss js fs) in
  let kc := if wc && ws then 7 else 0 in
  let ks := if wc && ws then 3 else 0 in
  Some ((ESTABLISHED, [1; 2; 1; m; ks; kc; Z.shiftl 0xFFFF ks; TCP_SND_BUF], [], tc && ts, true),
        (ESTABLISHED, [2; 1; 2; m; kc; ks; Z.shiftl (Z.shiftr 0xFFFF kc) kc; TCP_SND_BUF + 1], [], tc && ts, true)).
Proof. destruct wc, ws, tc, ts, jc, js, fc, fs; vm_compute; reflexivity. Qed.

(** A scenario, computed: a client with window scale 7 and a server with scale 3, each
    with or without scaling, timestamps, large frames and a configured segment size.
    Both are established after SYN, SYN|ACK and ACK; each expects the sequence number
    the other sends next; both use the smaller segment size, and the other's scale for
    its window if both scale.  The window of the SYN|ACK is taken as scaled, and the
    acknowledgement of the server's SYN has been added to its send buffer. *)
Theorem handshake_synchronises (wc ws tc ts jc js fc fs : bool) :
  exists c s, handshake (host 7 wc jc fc 1000) (host 3 ws js fs 5000) tc ts = Some (c, s) /\
    let pc := core c in
    let ps := core s in
    let m := Z.min (host_mss jc fc) (host_mss js fs) in
    let kc := if wc && ws then 7 else 0 in
    let ks := if wc && ws then 3 else 0 in
    st c = ESTABLISHED /\ st s = ESTABLISHED /\
    Recv.rcv_nxt (Send.rx pc) = Send.snd_nxt (Send.sn ps) /\ Recv.rcv_nxt (Send.rx ps) = Send.snd_nxt (Send.sn pc) /\
    Send.lastack (Send.sn pc) = Send.snd_nxt (Send.sn pc) /\ Send.lastack (Send.sn ps) = Send.snd_nxt (Send.sn ps) /\
    Send.unacked (Send.qs pc) = [] /\ Send.unacked (Send.qs ps) = [] /\
    Recv.mss (Send.rx pc) = m /\ Recv.mss (Send.rx ps) = m /\
    Send.snd_scale (Send.sn pc) = ks /\ Send.snd_scale (Send.sn ps) = kc /\ rcv_scale (lf c) = kc /\ rcv_scale (lf s) = ks /\
    Send.flag Send.TF_TIMESTAMP pc = tc && ts /\ Send.flag Send.TF_TIMESTAMP ps = tc && ts /\
    Recv.sack_permitted (Send.rx pc) = true /\ Recv.sack_permitted (Send.rx ps) = true /\
    Send.snd_wnd (Send.sn pc) = Z.shiftl 0xFFFF ks /\ Send.snd_buf (Send.qs ps) = TCP_SND_BUF + 1.
Proof.
  pose proof (handshake_learnt wc ws tc ts jc js fc fs) as H. cbv zeta in H.
  destruct (handshake _ _ _ _) as [[c s]|]; [|discriminate H]. exists c, s. split; [reflexivity|].
  apply Some_inj in H. cbn [fst snd] in H. unfold learnt in H. apply pair_eq in H as [Hc Hs].
  injection Hc as C1 C2 C3 C4 C5 C6 C7 C8 C9 C10 C11 C12. injection Hs as S1 S2 S3 S4 S5 S6 S7 S8 S9 S10 S11 S12.
  cbv zeta. split_and!; congruence.
Qed.

(** The connection of TcpWrite's examples. *)
Definition ex_idle_conn : @pcb Cc.none_cc_algo := P Write.ex_run_0 (lf ex_established) (su ex_established).

(** The same with 3000 bytes written. *)
Definition ex_written : @pcb Cc.none_cc_algo := Eval vm_compute in (ex_result (ex_write 3000) ex_idle_conn).2.

Lemma ex_written_inv : SendInv.inv 100000 1 3001 (fun _ => False) (core ex_written).
Proof.
  destruct (Write.write_inv 100000 1 1 (fun _ => False) (fun _ => true) true 3000 Write.ex_run_0 Write.ex_start_inv)
    as (e & p & E & H); [lia|lia|apply Write.ex_start_ready|].
  assert (e = ERR_OK /\ p = core ex_written) as [-> ->] by (vm_compute in E; injection E as <- <-; done).
  apply H.
Qed.

(** The FIN rides on the third of three unsent segments. *)
Lemma fin_follows_data_witness :
  length (Send.unsent (Send.qs (core ex_written))) = 3%nat /\
  exists c', tcp_send_fin ex_env ex_written = Some (ERR_OK, [], c') /\ fin_at 3001 ex_written c' /\
    length (Send.unsent (Send.qs (core c'))) = 3%nat.
Proof.
  split; [vm_compute; reflexivity|].
  destruct (fin_follows_data ex_env 100000 1 3001 (fun _ => False) ex_written ex_written_inv) as (c' & E & _ & H).
  - intros _. destruct (Send.unsent (Send.qs (core ex_written))) as [|s1 [|s2 [|s3 [|? ?]]]] eqn:Eu;
      try (vm_compute in Eu; discriminate).
    exists [s1; s2], s3. split; [reflexivity|]. vm_compute in Eu. injection Eu as _ _ <-. vm_compute. reflexivity.
  - exists c'. split; [exact E|]. split; [exact H|]. vm_compute in E. injection E as <-. reflexivity.
Defined.

(** Five bytes that nobody reads, and the peer's FIN. *)
Definition ex_five (fl : Z) : arrival :=
  Arrival fl 1 2 2000 (5 + (if ctrue (Z.land fl TCP_FIN) then 1 else 0)) 5 [] 0 [Pbuf.Buf [] [1; 2; 3; 4; 5] 5] 1 5000 2.
Definition ex_unread : @pcb Cc.none_cc_algo :=
  Eval vm_compute in (ex_result (input_active ex_env ex_app (ex_five (Z.lor TCP_FIN TCP_ACK))) ex_established).2.

Lemma close_with_unread_data_witness :
  st ex_unread = CLOSE_WAIT /\
  exists o c', tcp_close ex_env false ex_unread = Some (ERR_OK, o, c') /\ length o = 1%nat /\
    cc_alive (lf c') = false /\ st c' = CLOSE_WAIT.
Proof.
  assert (st ex_unread = CLOSE_WAIT) as Hs by (vm_compute; reflexivity). split; [exact Hs|].
  destruct (close_with_unread_data ex_env ex_unread) as (o & c' & E & Eo & _ & Hc & Hst).
  - right. exact Hs.
  - right. vm_compute. discriminate.
  - exists o, c'. split; [exact E|]. split; [rewrite Eo; vm_compute; reflexivity|]. split; [exact Hc|].
    rewrite Hst. vm_compute. reflexivity.
Defined.

(** A thousand bytes were acknowledged. *)
Definition ex_acked : @pcb Cc.none_cc_algo := Eval vm_compute in
  (ex_result (_ ← ex_write 1000; tcp_output ex_env false;; input_active ex_env ex_app (ex_segment TCP_ACK 1 1002 2000)) ex_established).2.
Definition ex_far_rst : arrival := ex_segment TCP_RST 1000000 0 0.
Definition ex_marked : @pcb Cc.none_cc_algo := Eval vm_compute in (ex_result (marks_in ex_far_rst) ex_acked).2.

Lemma ignored_reset_reports_sent_again_witness :
  Send.acked (Send.sn (core ex_acked)) = 1000 /\
  input_active ex_env ex_app ex_far_rst ex_acked =
    (e ← on_sent ex_app 1000; if decide (e = ERR_ABRT) then mret tt else tcp_output ex_env false) ex_marked.
Proof.
  split; [vm_compute; reflexivity|].
  exact (ignored_reset_reports_sent_again ex_env ex_app ex_far_rst ex_acked ex_marked [] eq_refl eq_refl eq_refl eq_refl
           eq_refl eq_refl).
Defined.
End Close.
