(* ===== verification/Gro.v ===== *)
(** * Generic receive offload: src/src/vma/dev/rfs_uc_tcp_gro.cpp, gro_mgr.cpp

    Every TCP flow of a ring may hold back consecutive segments and hand them to
    its sockets as one; at the end of a polling round the ring's [gro_mgr]
    flushes all flows that hold something.

    The buffers live in one store; a buffer carries the packet's headers, so the
    pointers [p_ip_h] and [p_tcp_h] into a packet are the pointer of its buffer.
    [accept] stands for the sockets: what [rfs_uc::rx_dispatch_packet] returns
    for a buffer.  Each call of it is recorded together with the store at that
    moment, which is what the receiver sees. *)

From S2P Require Import Prelude.

Local Open Scope Z_scope.

Module Gro.

Abbreviation ptr := Z.

Definition MAX_AGGR_BYTE_PER_STREAM : Z := 65535.
Definition MAX_GRO_BUFS : Z := 32.
Definition IP_H_LEN_NO_OPTIONS : Z := 5.
Definition TCP_H_LEN_NO_OPTIONS : Z := 5.
Definition TCP_H_LEN_TIMESTAMP : Z := 8.
Definition TCPOPT_NOP : Z := 1.
Definition TCPOPT_TIMESTAMP : Z := 8.
Definition TCPOLEN_TIMESTAMP : Z := 10.
Definition PBUF_REF : Z := 2.
Definition PBUF_FLAG_IS_CUSTOM : Z := 2.

Record pbuf := Pbuf {
  pb_next : option ptr; pb_payload : Z; pb_len : Z; pb_tot_len : Z;
  pb_type : Z; pb_flags : Z; pb_ref : Z;
}.

Record iphdr := IpHdr { ihl : Z; tot_len : Z }.

(** [popts] are the three words behind the header. *)
Record tcphdr := TcpHdr {
  th_seq : Z; ack_seq : Z; doff : Z; window : Z;
  urg : bool; ack_f : bool; rst : bool; syn : bool; fin : bool;
  popts : Z * Z * Z;
}.

Record mem_buf_desc_t := Buf {
  p_buffer : Z;
  sz_data : Z;
  sz_payload : Z;
  ip_h : iphdr;
  tcp_h : tcphdr;
  n_transport_header_len : Z;
  gro : bool;
  is_vma_thr : bool;
  n_ref_count : Z;
  lwip_pbuf : pbuf;
  p_next_desc : option ptr;
  p_prev_desc : option ptr;
}.

Abbreviation heap := (gmap ptr mem_buf_desc_t).

Record gro_mem_buf_desc := GroDesc {
  p_first : option ptr;
  p_last : option ptr;
  p_ip_h : option ptr;
  p_tcp_h : option ptr;
  buf_count : Z;
  next_seq : Z;
  g_ack : Z;
  ts_present : Z;
  tsval : Z;
  tsecr : Z;
  ip_tot_len : Z;
  wnd : Z;
}.

Record rfs_uc_tcp_gro := Rfs {
  m_b_active : bool;
  m_b_reserved : bool;
  m_gro_desc : gro_mem_buf_desc;
}.

(** The constructor; [m_gro_desc] is zeroed. *)
Definition rfs_ctor : rfs_uc_tcp_gro :=
  Rfs false false (GroDesc None None None None 0 0 0 0 0 0 0 0).

(** [m_n_byte_max], an unsigned difference. *)
Definition byte_max (mtu : Z) : Z := u32 (MAX_AGGR_BYTE_PER_STREAM - mtu).

Record gro_mgr := GroMgr {
  m_n_flow_max : nat;
  m_n_buf_max : Z;
  m_n_flow_count : nat;
  m_p_rfs_arr : list nat;
}.

(** A ring's part: its manager, flows and buffers, the calls of the receiver and
    the buffers given back. *)
Record ring := Ring {
  mgr : gro_mgr;
  flows : gmap nat rfs_uc_tcp_gro;
  bufs : heap;
  calls : list (nat * ptr * heap);
  reclaimed : list ptr;
}.

Definition set_mgr (x : gro_mgr) (r : ring) : ring := Ring x (flows r) (bufs r) (calls r) (reclaimed r).
Definition set_flow (id : nat) (f : rfs_uc_tcp_gro) (r : ring) : ring :=
  Ring (mgr r) (<[id := f]> (flows r)) (bufs r) (calls r) (reclaimed r).
Definition set_bufs (h : heap) (r : ring) : ring := Ring (mgr r) (flows r) h (calls r) (reclaimed r).

(** ** gro_mgr *)

Definition is_stream_max (g : gro_mgr) : bool := bool_decide (m_n_flow_max g <= m_n_flow_count g)%nat.

Definition reserve_stream (id : nat) (g : gro_mgr) : bool * gro_mgr :=
  if is_stream_max g then (false, g)
  else (true, GroMgr (m_n_flow_max g) (m_n_buf_max g) (S (m_n_flow_count g))
                (<[m_n_flow_count g := id]> (m_p_rfs_arr g))).

(** ** Collecting *)

Definition tcp_ip_check (b : mem_buf_desc_t) : bool :=
  let t := tcp_h b in
  if decide (sz_payload b = 0) then false
  else if decide (ihl (ip_h b) <> IP_H_LEN_NO_OPTIONS) then false
  else if urg t || negb (ack_f t) || rst t || syn t || fin t then false
  else if decide (doff t <> TCP_H_LEN_NO_OPTIONS /\ doff t <> TCP_H_LEN_TIMESTAMP) then false
  else true.

Definition ts_word : Z :=
  htonl (Z.lor (Z.lor (Z.lor (Z.shiftl TCPOPT_NOP 24) (Z.shiftl TCPOPT_NOP 16))
           (Z.shiftl TCPOPT_TIMESTAMP 8)) TCPOLEN_TIMESTAMP).

(** The comparison with the kept [tsval] has an empty body. *)
Definition timestamp_check (b : mem_buf_desc_t) : bool :=
  let '(w0, _, w2) := popts (tcp_h b) in
  if decide (doff (tcp_h b) = TCP_H_LEN_TIMESTAMP) then
    if decide (w0 <> ts_word) then false
    else if decide (w2 = 0) then false
    else true
  else true.

Definition init_gro_desc (p : ptr) (b : mem_buf_desc_t) (d : gro_mem_buf_desc) : gro_mem_buf_desc :=
  let t := tcp_h b in
  let ts := bool_decide (doff t = TCP_H_LEN_TIMESTAMP) in
  GroDesc (Some p) (Some p) (Some p) (Some p) 1
    (u32 (ntohl (th_seq t) + sz_payload b)) (ack_seq t)
    (if ts then 1 else 0) (if ts then (popts t).1.2 else tsval d) (if ts then (popts t).2 else tsecr d)
    (ntohs (tot_len (ip_h b))) (window t).

(** The pbuf of a packet that is not the first. *)
Definition payload_pbuf (b : mem_buf_desc_t) : pbuf :=
  Pbuf None (p_buffer b + n_transport_header_len b + ntohs (tot_len (ip_h b)) - sz_payload b)
    (u16 (sz_payload b)) (u32 (sz_payload b)) PBUF_REF PBUF_FLAG_IS_CUSTOM 1.

Definition set_pbuf (x : pbuf) (b : mem_buf_desc_t) : mem_buf_desc_t :=
  Buf (p_buffer b) (sz_data b) (sz_payload b) (ip_h b) (tcp_h b) (n_transport_header_len b)
    (gro b) (is_vma_thr b) (n_ref_count b) x (p_next_desc b) (p_prev_desc b).

(** What [add_packet] writes to the new buffer, and to the last one. *)
Definition fill (q : option ptr) (b : mem_buf_desc_t) : mem_buf_desc_t :=
  Buf (p_buffer b) (sz_data b) (sz_payload b) (ip_h b) (tcp_h b) (n_transport_header_len b)
    (gro b) (is_vma_thr b) 0 (payload_pbuf b) (p_next_desc b) q.

Definition link (y : ptr) (b : mem_buf_desc_t) : mem_buf_desc_t :=
  let x := lwip_pbuf b in
  Buf (p_buffer b) (sz_data b) (sz_payload b) (ip_h b) (tcp_h b) (n_transport_header_len b)
    (gro b) (is_vma_thr b) (n_ref_count b)
    (Pbuf (Some y) (pb_payload x) (pb_len x) (pb_tot_len x) (pb_type x) (pb_flags x) (pb_ref x))
    None (p_prev_desc b).

Definition modify (o : option ptr) (f : mem_buf_desc_t -> mem_buf_desc_t) (h : heap) : option heap :=
  p ← o; b ← h !! p; Some (<[p := f b]> h).

Definition add_packet (p : ptr) (b : mem_buf_desc_t) (d : gro_mem_buf_desc) (h : heap)
    : option (gro_mem_buf_desc * heap) :=
  let t := tcp_h b in
  let h := <[p := fill (p_last d) b]> h in
  h ← modify (p_last d) (link p) h;
  Some (GroDesc (p_first d) (Some p) (p_ip_h d) (p_tcp_h d) (u32 (buf_count d + 1))
          (u32 (next_seq d + sz_payload b)) (ack_seq t) (ts_present d) (tsval d)
          (if ctrue (ts_present d) then (popts t).2 else tsecr d)
          (u16 (ip_tot_len d + sz_payload b)) (window t), h).

(** ** Flushing *)

Definition set_hdr_len (n : Z) (b : mem_buf_desc_t) : mem_buf_desc_t :=
  Buf (p_buffer b) (sz_data b) (sz_payload b) (IpHdr (ihl (ip_h b)) n) (tcp_h b)
    (n_transport_header_len b) (gro b) (is_vma_thr b) (n_ref_count b) (lwip_pbuf b)
    (p_next_desc b) (p_prev_desc b).

Definition set_tcp (d : gro_mem_buf_desc) (b : mem_buf_desc_t) : mem_buf_desc_t :=
  let t := tcp_h b in
  Buf (p_buffer b) (sz_data b) (sz_payload b) (ip_h b)
    (TcpHdr (th_seq t) (g_ack d) (doff t) (wnd d) (urg t) (ack_f t) (rst t) (syn t) (fin t)
       ((popts t).1, if ctrue (ts_present d) then tsecr d else (popts t).2))
    (n_transport_header_len b) (gro b) (is_vma_thr b) (n_ref_count b) (lwip_pbuf b)
    (p_next_desc b) (p_prev_desc b).

Definition set_first (vma_thr : bool) (b : mem_buf_desc_t) : mem_buf_desc_t :=
  let len := u16 (sz_data b - n_transport_header_len b) in
  Buf (p_buffer b) (sz_data b) (sz_payload b) (ip_h b) (tcp_h b) (n_transport_header_len b)
    true vma_thr (n_ref_count b)
    (Pbuf (pb_next (lwip_pbuf b)) (p_buffer b + n_transport_header_len b) len len
       PBUF_REF PBUF_FLAG_IS_CUSTOM 1)
    (p_next_desc b) (p_prev_desc b).

Definition add_tot (n : Z) (b : mem_buf_desc_t) : mem_buf_desc_t :=
  let x := lwip_pbuf b in
  set_pbuf (Pbuf (pb_next x) (pb_payload x) (pb_len x) (u32 (pb_tot_len x + n))
              (pb_type x) (pb_flags x) (pb_ref x)) b.

(** The [for] loop from [p_last] back to [p_first]. *)
Fixpoint sum_loop (fuel : nat) (p_desc first : ptr) (h : heap) : option heap :=
  if decide (p_desc = first) then Some h
  else match fuel with
  | O => None
  | S fuel =>
    b ← h !! p_desc;
    q ← p_prev_desc b;
    h ← modify (Some q) (add_tot (pb_tot_len (lwip_pbuf b))) h;
    sum_loop fuel q first h
  end.

(** The part of [flush_gro_desc] for more than one buffer. *)
Definition finish (d : gro_mem_buf_desc) (h : heap) : option heap :=
  h ← modify (p_ip_h d) (set_hdr_len (htons (ip_tot_len d))) h;
  h ← modify (p_tcp_h d) (set_tcp d) h;
  last ← p_last d;
  first ← p_first d;
  bl ← h !! last;
  h ← modify (Some first) (set_first (is_vma_thr bl)) h;
  sum_loop (Z.to_nat (buf_count d)) last first h.

Section receiver.
(** Whether the flow's sockets keep a buffer. *)
Context (accept : nat -> ptr -> heap -> bool).
Context (mtu : Z).

(** The call of [rfs_uc::rx_dispatch_packet]. *)
Definition dispatch (id : nat) (p : ptr) (r : ring) : bool * ring :=
  (accept id p (bufs r),
   Ring (mgr r) (flows r) (bufs r) (calls r ++ [(id, p, bufs r)]) (reclaimed r)).

Definition reclaim (p : ptr) (r : ring) : ring :=
  Ring (mgr r) (flows r) (bufs r) (calls r) (reclaimed r ++ [p]).

Definition flush_gro_desc (id : nat) (r : ring) : option ring :=
  f ← flows r !! id;
  if negb (m_b_active f) then Some r
  else
    let d := m_gro_desc f in
    h ← (if decide (buf_count d > 1) then finish d (bufs r) else Some (bufs r));
    first ← p_first d;
    let '(ok, r) := dispatch id first (set_bufs h r) in
    let r := if ok then r else reclaim first r in
    Some (set_flow id (Rfs false (m_b_reserved f) d) r).

Definition flush (id : nat) (r : ring) : option ring :=
  r ← flush_gro_desc id r;
  f ← flows r !! id;
  Some (set_flow id (Rfs (m_b_active f) false (m_gro_desc f)) r).

Fixpoint flush_list (l : list nat) (r : ring) : option ring :=
  match l with
  | [] => Some r
  | id :: l => r ← flush id r; flush_list l r
  end.

Definition flush_all (r : ring) : option ring :=
  let g := mgr r in
  r ← flush_list (take (m_n_flow_count g) (m_p_rfs_arr g)) r;
  let g := mgr r in
  Some (set_mgr (GroMgr (m_n_flow_max g) (m_n_buf_max g) 0 (m_p_rfs_arr g)) r).

(** The end of [rx_dispatch_packet]: a full flow is flushed. *)
Definition at_limit (id : nat) (r : ring) : option (bool * ring) :=
  f ← flows r !! id;
  let d := m_gro_desc f in
  r ← (if decide (buf_count d >= m_n_buf_max (mgr r) \/ ip_tot_len d >= byte_max mtu)
       then flush_gro_desc id r else Some r);
  Some (true, r).

Definition rx_dispatch_packet (id : nat) (p : ptr) (r : ring) : option (bool * ring) :=
  f ← flows r !! id;
  b ← bufs r !! p;
  if negb (m_b_active f) && negb (m_b_reserved f) && is_stream_max (mgr r) then
    Some (dispatch id p r)
  else if negb (tcp_ip_check b) then
    r ← (if m_b_active f then flush_gro_desc id r else Some r);
    Some (dispatch id p r)
  else
    if negb (m_b_active f) then
      let '(res, r) := if negb (m_b_reserved f)
                       then let '(ok, g) := reserve_stream id (mgr r) in (ok, set_mgr g r)
                       else (m_b_reserved f, r) in
      at_limit id (set_flow id (Rfs true res (init_gro_desc p b (m_gro_desc f))) r)
    else if decide (ntohl (th_seq (tcp_h b)) <> next_seq (m_gro_desc f)) then
      r ← flush_gro_desc id r; Some (dispatch id p r)
    else if negb (timestamp_check b) then
      r ← flush_gro_desc id r; Some (dispatch id p r)
    else
      '(d, h) ← add_packet p b (m_gro_desc f) (bufs r);
      at_limit id (set_flow id (Rfs true (m_b_reserved f) d) (set_bufs h r)).

(** A polling round: packets arrive, the hardware having filled their buffers;
    at its end the ring flushes. *)
Inductive event := Rx (id : nat) (p : ptr) (b : mem_buf_desc_t) | FlushAll.

Definition exec (e : event) (r : ring) : option ring :=
  match e with
  | Rx id p b => r ← rx_dispatch_packet id p (set_bufs (<[p := b]> (bufs r)) r); Some r.2
  | FlushAll => flush_all r
  end.

Fixpoint run (es : list event) (r : ring) : option ring :=
  match es with
  | [] => Some r
  | e :: es => r ← exec e r; run es r
  end.
End receiver.

(** ** What a round must do *)

Definition tot (b : mem_buf_desc_t) : Z := ntohs (tot_len (ip_h b)).

(** The packets, with the contents they arrived with. *)
Abbreviation pkts := (list (ptr * mem_buf_desc_t)).

Fixpoint psum (us : pkts) : Z :=
  match us with [] => 0 | u :: us => sz_payload u.2 + psum us end.

(** Each segment starts where the one before ends. *)
Fixpoint contiguous (us : pkts) : Prop :=
  match us with
  | a :: ((c :: _) as r) =>
    ntohl (th_seq (tcp_h c.2)) = u32 (ntohl (th_seq (tcp_h a.2)) + sz_payload a.2) /\ contiguous r
  | _ => True
  end.

(** The pbufs of [us] in the store: linked in order, each with its piece of the
    data (the first with the headers), [tot_len] being the length of this pbuf
    and all that follow. *)
Fixpoint pbufs_ok (h : heap) (first : bool) (us : pkts) : Prop :=
  match us with
  | [] => True
  | (x, b) :: r =>
    let len := if first then tot b else sz_payload b in
    (exists b', h !! x = Some b' /\
      pb_next (lwip_pbuf b') = fst <$> head r /\
      pb_len (lwip_pbuf b') = len /\
      pb_payload (lwip_pbuf b') = p_buffer b + n_transport_header_len b + tot b - len /\
      pb_tot_len (lwip_pbuf b') = len + psum r) /\
    pbufs_ok h false r
  end.

(** The receiver gets the packets [us] as one. *)
Definition merged (buf_max : Z) (h : heap) (p : ptr) (us : pkts) : Prop :=
  exists b r x c b', us = (p, b) :: r /\ list.last us = Some (x, c) /\ h !! p = Some b' /\
    gro b' = true /\
    tot b' = tot b + psum r /\
    th_seq (tcp_h b') = th_seq (tcp_h b) /\
    ack_seq (tcp_h b') = ack_seq (tcp_h c) /\
    window (tcp_h b') = window (tcp_h c) /\
    (doff (tcp_h b) = TCP_H_LEN_TIMESTAMP -> (popts (tcp_h b')).2 = (popts (tcp_h c)).2) /\
    contiguous us /\
    pbufs_ok h true us /\
    Z.of_nat (length us) <= buf_max /\
    Forall (fun u => tcp_ip_check u.2 = true) us.

(** A call of the receiver hands over one packet as it arrived, or several. *)
Definition delivers (buf_max : Z) (c : nat * ptr * heap) (u : nat * pkts) : Prop :=
  c.1.1 = u.1 /\
  ((exists b, u.2 = [(c.1.2, b)] /\ c.2 !! c.1.2 = Some b) \/ merged buf_max c.2 c.1.2 u.2).

(** The packets of flow [id] in the order of arrival, and of delivery. *)
Definition arrivals (id : nat) (es : list event) : pkts :=
  es ≫= fun e => match e with
                 | Rx i p b => if decide (i = id) then [(p, b)] else []
                 | FlushAll => []
                 end.
Definition mine (id : nat) (us : list (nat * pkts)) : pkts :=
  us ≫= fun u => if decide (u.1 = id) then u.2 else [].

(** A received packet: the lengths are those of its headers. *)
Definition pkt_ok (mtu : Z) (b : mem_buf_desc_t) : Prop :=
  0 <= ihl (ip_h b) /\ 0 <= doff (tcp_h b) /\ 0 <= sz_payload b /\
  tot b = 4 * ihl (ip_h b) + 4 * doff (tcp_h b) + sz_payload b /\
  tot b <= mtu /\ sz_data b - n_transport_header_len b = tot b.

(** The buffers an active flow holds. *)
Fixpoint back (n : nat) (o : option ptr) (h : heap) : list ptr :=
  match n, o with
  | S n, Some p => p :: back n (b ← h !! p; p_prev_desc b) h
  | _, _ => []
  end.
Definition held (r : ring) (f : rfs_uc_tcp_gro) : list ptr :=
  if m_b_active f then back (Z.to_nat (buf_count (m_gro_desc f))) (p_last (m_gro_desc f)) (bufs r)
  else [].

(** The hardware fills only buffers that no flow holds. *)
Definition event_ok (mtu : Z) (e : event) (r : ring) : Prop :=
  match e with
  | Rx id p b => is_Some (flows r !! id) /\ pkt_ok mtu b /\
      map_Forall (fun _ f => p ∉ held r f) (flows r)
  | FlushAll => True
  end.
#[export] Instance event_ok_dec mtu e r : Decision (event_ok mtu e r).
Proof. destruct e; simpl; unfold pkt_ok; apply _. Defined.

Fixpoint events_ok accept (mtu : Z) (es : list event) (r : ring) : Prop :=
  match es with
  | [] => True
  | e :: es => event_ok mtu e r /\
      match exec accept mtu e r with Some r' => events_ok accept mtu es r' | None => True end
  end.
#[export] Instance events_ok_dec accept mtu es r : Decision (events_ok accept mtu es r).
Proof.
  revert r. induction es as [|e es IH]; intros r; simpl; [apply _|].
  destruct (exec accept mtu e r); apply _.
Defined.

Definition ring_ctor (flow_max : nat) (buf_max : Z) (ids : gset nat) (h : heap) : ring :=
  Ring (GroMgr flow_max buf_max 0 (replicate flow_max 0%nat)) (gset_to_gmap rfs_ctor ids) h [] [].

(** ** The collected packets in the store *)

(** What the store holds for a collected packet with its neighbours. *)
Definition hold (prev : option ptr) (b : mem_buf_desc_t) (nx : option ptr) : mem_buf_desc_t :=
  let b := match prev with Some q => fill (Some q) b | None => b end in
  match nx with Some y => link y b | None => b end.

Fixpoint linked (h : heap) (prev : option ptr) (us : pkts) : Prop :=
  match us with
  | [] => True
  | (x, b) :: r => h !! x = Some (hold prev b (fst <$> head r)) /\ linked h (Some x) r
  end.

Lemma linked_frame h h' prev us :
  (forall x, x ∈ us.*1 -> h' !! x = h !! x) -> linked h prev us -> linked h' prev us.
Proof.
  revert prev. induction us as [|[x b] r IH]; intros prev Hx; [done|].
  intros [Hb Hr]. split; [rewrite Hx by (simpl; left); done|].
  apply IH; [|done]. intros y ?. apply Hx. simpl. by right.
Qed.

Lemma linked_snoc h prev us x bx y b :
  linked h prev (us ++ [(x, bx)]) -> NoDup ((us ++ [(x, bx)]).*1) -> y ∉ (us ++ [(x, bx)]).*1 ->
  exists c, h !! x = Some c /\
  linked (<[x := link y c]> (<[y := fill (Some x) b]> h)) prev (us ++ [(x, bx); (y, b)]).
Proof.
  revert prev. induction us as [|[z bz] us IH]; intros prev; simpl.
  - intros [Hx _] _ Hy. apply not_elem_of_cons in Hy as [Hy _]. eexists. split; [done|].
    rewrite lookup_insert, decide_True by done. rewrite lookup_insert_ne by done.
    rewrite lookup_insert, decide_True by done. done.
  - intros [Hz Hr] Hn Hy. apply list.NoDup_cons in Hn as [Hzn Hn].
    apply not_elem_of_cons in Hy as [Hyz Hy].
    destruct (IH (Some z)) as (c & Hc & Hl); [done..|]. exists c. split; [done|]. split; [|done].
    rewrite !lookup_insert_ne; [by destruct us|..]; [done|].
    intros ->. apply Hzn. rewrite fmap_app. set_solver.
Qed.

(** Only the back links, for the buffers alone. *)
Fixpoint prevs (h : heap) (prev : option ptr) (L : list ptr) : Prop :=
  match L with
  | [] => True
  | x :: L =>
    (exists c, h !! x = Some c /\ (forall q, prev = Some q -> p_prev_desc c = Some q)) /\
    prevs h (Some x) L
  end.

Lemma prevs_snoc h prev L x :
  prevs h prev (L ++ [x]) ->
  prevs h prev L /\
  exists c, h !! x = Some c /\
    (forall q, (match list.last L with Some z => Some z | None => prev end) = Some q ->
      p_prev_desc c = Some q).
Proof.
  revert prev. induction L as [|z L IH]; intros prev; simpl.
  - intros [H _]. done.
  - intros [Hz HL]. destruct (IH _ HL) as [H1 (c & Hc & Hq)]. split; [done|].
    exists c. split; [done|]. intros q. destruct L as [|y L]; [apply Hq|].
    rewrite last_cons_cons. intros E. apply Hq.
    destruct (list.last (y :: L)) eqn:El; [done|]. by apply last_None in El.
Qed.

Lemma prevs_frame h h' prev L :
  (forall x c, x ∈ L -> h !! x = Some c -> exists c', h' !! x = Some c' /\ p_prev_desc c' = p_prev_desc c) ->
  prevs h prev L -> prevs h' prev L.
Proof.
  revert prev. induction L as [|z L IH]; intros prev Hf; simpl; [done|].
  intros [(c & Hc & Hq) HL]. split; [|eapply IH; [|done]; intros; eapply Hf; [by right|done]].
  destruct (Hf z c) as (c' & Hc' & E); [left|done|]. exists c'. rewrite E. done.
Qed.

Lemma linked_prevs h prev us : linked h prev us -> prevs h prev us.*1.
Proof.
  revert prev. induction us as [|[x b] r IH]; intros prev; simpl; [done|].
  intros [Hx Hr]. split; [|by apply IH]. eexists. split; [done|]. intros q ->. by destruct r.
Qed.

Lemma prevs_back h L : prevs h None L -> back (length L) (list.last L) h = reverse L.
Proof.
  induction L as [|x L IH] using rev_ind; [done|]. intros [HL (c & Hc & Hq)]%prevs_snoc.
  rewrite last_snoc, length_app, Nat.add_1_r, reverse_snoc. simpl. f_equal. rewrite Hc. simpl.
  destruct (list.last L) as [z|] eqn:Ez.
  - rewrite (Hq z) by done. by apply IH.
  - apply last_None in Ez as ->. done.
Qed.

(** ** Summing up the lengths *)

(** The totals from the last buffer on. *)
Fixpoint acc (h : heap) (L : list ptr) : heap :=
  match L with
  | x :: ((y :: _) as r) =>
    let h' := acc h r in
    match h' !! x, h' !! y with
    | Some bx, Some b => <[x := add_tot (pb_tot_len (lwip_pbuf b)) bx]> h'
    | _, _ => h'
    end
  | _ => h
  end.

Lemma acc_snoc h A q x bq c :
  h !! q = Some bq -> h !! x = Some c ->
  acc h (A ++ [q; x]) = acc (<[q := add_tot (pb_tot_len (lwip_pbuf c)) bq]> h) (A ++ [q]).
Proof.
  intros Hq Hx. induction A as [|z A IH]; simpl; [by rewrite Hq, Hx|].
  destruct A as [|y A]; simpl in *; rewrite IH; done.
Qed.

#[local] Arguments acc : simpl never.

Lemma sum_loop_acc L first h :
  prevs h None (first :: L) -> NoDup (first :: L) ->
  exists x, list.last (first :: L) = Some x /\
    forall k, sum_loop (length L + k) x first h = Some (acc h (first :: L)).
Proof.
  revert h. induction L as [|x L IH] using rev_ind; intros h Hp Hn.
  { exists first. split; [done|]. intros k. destruct k; simpl; by rewrite decide_True. }
  rewrite app_comm_cons in *. rewrite last_snoc. exists x. split; [done|]. intros k.
  apply prevs_snoc in Hp as [Hp (c & Hc & Hq)].
  apply list.NoDup_app in Hn as (Hn & Hx & _).
  assert (x <> first) as Hne by (intros ->; eapply Hx; left).
  destruct (IH h Hp Hn) as (q & Elast & _). rewrite Elast in Hq. specialize (Hq q eq_refl).
  rewrite length_app, Nat.add_1_r. cbn [sum_loop Nat.add]. rewrite decide_False by done.
  rewrite Hc. simpl. rewrite Hq. unfold modify. simpl.
  assert (exists A, first :: L = A ++ [q]) as [A EA] by (by apply last_Some in Elast).
  pose proof Hp as Hp'. rewrite EA in Hp'. apply prevs_snoc in Hp' as [_ (bq & Hbq & _)].
  rewrite Hbq. simpl.
  set (h1 := <[q := add_tot (pb_tot_len (lwip_pbuf c)) bq]> h).
  destruct (IH h1) as (q' & E' & Es); [|done|].
  { eapply prevs_frame; [|done]. intros y cy _ Hy. unfold h1.
    destruct (decide (y = q)) as [->|]; [|rewrite lookup_insert_ne by done; by exists cy].
    rewrite lookup_insert, decide_True by done. eexists. split; [done|].
    rewrite Hbq in Hy. by injection Hy as <-. }
  rewrite Elast in E'. injection E' as <-. rewrite Es. f_equal.
  change (first :: L ++ [x]) with ((first :: L) ++ [x]).
  rewrite EA, <- app_assoc. simpl. by rewrite (acc_snoc h A q x bq c).
Qed.

Lemma acc_cons h x y r :
  acc h (x :: y :: r) =
  match acc h (y :: r) !! x, acc h (y :: r) !! y with
  | Some bx, Some b => <[x := add_tot (pb_tot_len (lwip_pbuf b)) bx]> (acc h (y :: r))
  | _, _ => acc h (y :: r)
  end.
Proof. done. Qed.

Lemma acc_frame h L y : y ∉ L -> acc h L !! y = h !! y.
Proof.
  induction L as [|x L IH]; [done|]. rewrite not_elem_of_cons. intros [Hx HL].
  destruct L as [|z L]; [done|]. rewrite acc_cons. specialize (IH HL).
  repeat case_match; try done. by rewrite lookup_insert_ne.
Qed.

Fixpoint tsum (h : heap) (L : list ptr) : Z :=
  match L with
  | [] => 0
  | x :: L => default 0 ((fun b => pb_tot_len (lwip_pbuf b)) <$> h !! x) + tsum h L
  end.

Definition with_tot (n : Z) (b : mem_buf_desc_t) : mem_buf_desc_t :=
  let x := lwip_pbuf b in
  set_pbuf (Pbuf (pb_next x) (pb_payload x) (pb_len x) n (pb_type x) (pb_flags x) (pb_ref x)) b.

Lemma tsum_cons h x b L :
  h !! x = Some b -> tsum h (x :: L) = pb_tot_len (lwip_pbuf b) + tsum h L.
Proof. intros Hx. simpl. by rewrite Hx. Qed.

Lemma tsum_nonneg h L :
  (forall y, y ∈ L -> exists b, h !! y = Some b /\ 0 <= pb_tot_len (lwip_pbuf b)) -> 0 <= tsum h L.
Proof.
  induction L as [|w l IH]; intros H; simpl; [done|].
  destruct (H w) as (bw & -> & ?); [left|]. simpl.
  assert (0 <= tsum h l) by (apply IH; intros; apply H; by right). lia.
Qed.

(** Every buffer ends up with the sum over itself and its successors. *)
Lemma acc_tail h L x r :
  NoDup L -> (forall y, y ∈ L -> exists b, h !! y = Some b /\ 0 <= pb_tot_len (lwip_pbuf b)) ->
  tsum h L < 2 ^ 32 -> (exists A, L = A ++ x :: r) ->
  exists b, h !! x = Some b /\ acc h L !! x = Some (with_tot (tsum h (x :: r)) b).
Proof.
  intros Hn Hb Hs [A ->]. revert x r Hn Hb Hs.
  induction A as [|z A IH]; intros x r Hn Hb Hs.
  - simpl app in *. revert x Hn Hb Hs. induction r as [|y r IH]; intros x Hn Hb Hs.
    { destruct (Hb x) as (b & Hx & H0); [left|]. exists b. split; [done|].
      change (acc h [x]) with h. rewrite Hx. f_equal. simpl. rewrite Hx. simpl. rewrite Z.add_0_r.
      by destruct b as [? ? ? ? ? ? ? ? ? []]. }
    apply list.NoDup_cons in Hn as [Hx Hn].
    destruct (Hb x) as (b & Hbx & H0); [left|]. exists b. split; [done|].
    assert (0 <= tsum h (y :: r)) as Hpos by (apply tsum_nonneg; intros; apply Hb; by right).
    rewrite (tsum_cons h x b) in Hs by done.
    destruct (IH y Hn) as (b' & Hby & Ey); [intros; apply Hb; by right|lia|].
    rewrite acc_cons, Ey, acc_frame by done.
    rewrite Hbx. rewrite lookup_insert, decide_True by done. f_equal.
    rewrite (tsum_cons h x b) by done. unfold add_tot, with_tot. simpl lwip_pbuf.
    simpl pb_tot_len. rewrite wrap_small; [done|]. simpl in Hs, Hpos. lia.
  - simpl app in *. apply list.NoDup_cons in Hn as [Hz Hn].
    destruct (Hb z) as (bz & Hbz & H0); [left|].
    rewrite (tsum_cons h z bz) in Hs by done.
    destruct (IH x r Hn) as (b & Hbx & E); [intros; apply Hb; by right|lia|].
    exists b. split; [done|].
    assert (x <> z) by (intros ->; apply Hz; set_solver).
    destruct (A ++ x :: r) as [|w l] eqn:EA; [by destruct A|].
    rewrite acc_cons. repeat case_match; try done. by rewrite lookup_insert_ne.
Qed.

(** ** The invariant *)

Definition held_ok (h : heap) (d : gro_mem_buf_desc) (us : pkts) : Prop :=
  exists p b r x c, us = (p, b) :: r /\ list.last us = Some (x, c) /\
    p_first d = Some p /\ p_ip_h d = Some p /\ p_tcp_h d = Some p /\ p_last d = Some x /\
    buf_count d = Z.of_nat (length us) /\
    next_seq d = u32 (ntohl (th_seq (tcp_h c)) + sz_payload c) /\
    g_ack d = ack_seq (tcp_h c) /\ wnd d = window (tcp_h c) /\
    ts_present d = (if bool_decide (doff (tcp_h b) = TCP_H_LEN_TIMESTAMP) then 1 else 0) /\
    (doff (tcp_h b) = TCP_H_LEN_TIMESTAMP -> tsecr d = (popts (tcp_h c)).2) /\
    ip_tot_len d = tot b + psum r /\
    contiguous us /\ linked h None us.

Definition pkts_ok (mtu : Z) (us : pkts) : Prop :=
  Forall (fun u => pkt_ok mtu u.2 /\ tcp_ip_check u.2 = true) us.

Lemma pkt_ok_bounds mtu b :
  pkt_ok mtu b -> 0 <= sz_payload b <= tot b /\ 0 <= tot b <= mtu.
Proof. unfold pkt_ok. lia. Qed.

Lemma psum_nonneg mtu us : pkts_ok mtu us -> 0 <= psum us.
Proof.
  induction us as [|[x b] r IH]; simpl; [done|]. intros [[H _] Hr]%list.Forall_cons.
  apply pkt_ok_bounds in H. specialize (IH Hr). simpl in *. lia.
Qed.

Lemma hold_pbuf q b nx :
  lwip_pbuf (hold (Some q) b nx) =
  Pbuf nx (p_buffer b + n_transport_header_len b + tot b - sz_payload b)
    (u16 (sz_payload b)) (u32 (sz_payload b)) PBUF_REF PBUF_FLAG_IS_CUSTOM 1.
Proof. by destruct nx. Qed.

Section totals.
Context (mtu : Z) (Hmtu : 0 <= mtu <= 65535).

Lemma hold_pbuf_ok q b nx :
  pkt_ok mtu b ->
  lwip_pbuf (hold (Some q) b nx) =
  Pbuf nx (p_buffer b + n_transport_header_len b + tot b - sz_payload b)
    (sz_payload b) (sz_payload b) PBUF_REF PBUF_FLAG_IS_CUSTOM 1.
Proof using Hmtu.
  intros H%pkt_ok_bounds. rewrite hold_pbuf. by rewrite !wrap_small by lia.
Qed.

Lemma linked_tsum h q us : linked h (Some q) us -> pkts_ok mtu us -> tsum h us.*1 = psum us.
Proof using Hmtu.
  revert q. induction us as [|[x b] r IH]; intros q; [done|].
  intros [Hx Hr] [[Hb _] Hok]%list.Forall_cons. rewrite fmap_cons.
  simpl fst. rewrite (tsum_cons _ _ _ _ Hx), hold_pbuf_ok by done.
  simpl. f_equal. by eapply IH.
Qed.

Lemma linked_tot_nonneg h q us y :
  linked h (Some q) us -> pkts_ok mtu us -> y ∈ us.*1 ->
  exists b, h !! y = Some b /\ 0 <= pb_tot_len (lwip_pbuf b).
Proof using Hmtu.
  revert q. induction us as [|[x b] r IH]; intros q; [by intros _ _ ?%elem_of_nil|].
  intros [Hx Hr] [[Hb _] Hok]%list.Forall_cons [->|Hy]%elem_of_cons; [|by eapply IH].
  eexists. split; [done|]. rewrite hold_pbuf_ok by done. simpl in *.
  apply pkt_ok_bounds in Hb. lia.
Qed.

(** The pbufs behind the first, after the summing up. *)
Lemma acc_pbufs h L q us :
  linked h (Some q) us -> pkts_ok mtu us -> NoDup L ->
  (forall y, y ∈ L -> exists b, h !! y = Some b /\ 0 <= pb_tot_len (lwip_pbuf b)) ->
  tsum h L < 2 ^ 32 -> (exists A, L = A ++ us.*1) -> pbufs_ok (acc h L) false us.
Proof using Hmtu.
  intros Hl Hok Hn Hb Hs. revert q Hl Hok. induction us as [|[x b] r IH]; intros q; [done|].
  intros Hl Hok [A EA]. pose proof Hl as [Hx Hr]. pose proof Hok as [[Hbx _] Hokr]%list.Forall_cons.
  split; [|eapply IH; [done..|]; exists (A ++ [x]); by rewrite EA, <- app_assoc].
  destruct (acc_tail h L x r.*1) as (b' & Hb' & E); [done..|by exists A|].
  rewrite Hx in Hb'. injection Hb' as <-. eexists. split; [done|].
  change (x :: r.*1) with (((x, b) :: r).*1). rewrite (linked_tsum h q) by done.
  unfold with_tot. simpl lwip_pbuf. rewrite hold_pbuf_ok by done. by simpl.
Qed.
End totals.

(** ** Flushing *)

(** The first buffer as [finish] leaves it, but for the total. *)
Definition finished (d : gro_mem_buf_desc) (thr : bool) (b : mem_buf_desc_t) : mem_buf_desc_t :=
  set_first thr (set_tcp d (set_hdr_len (htons (ip_tot_len d)) b)).

Lemma finish_acc h d p b y bz r x c :
  held_ok h d ((p, b) :: (y, bz) :: r) -> NoDup (((p, b) :: (y, bz) :: r).*1) ->
  list.last ((p, b) :: (y, bz) :: r) = Some (x, c) ->
  exists thr, finish d h = Some (acc (<[p := finished d thr (link y b)]> h) (p :: y :: r.*1)) /\
    linked (<[p := finished d thr (link y b)]> h) (Some p) ((y, bz) :: r).
Proof.
  intros (p' & b' & r' & x' & c' & Eus & El & Ef & Ei & Et & Ex & Ec & _ & _ & _ & _ & _ & _ & _ & Hl) Hn Elast.
  rewrite Elast in El. injection El as <- <-. injection Eus as <- <- <-.
  destruct Hl as [Hp Hl]. change (h !! p = Some (link y b)) in Hp.
  pose proof Hn as [Hpn Hn']%list.NoDup_cons.
  assert (x ∈ ((y, bz) :: r).*1) as Hxin.
  { rewrite last_cons_cons in Elast. apply last_Some in Elast as [A EA]. rewrite EA, fmap_app. set_solver. }
  assert (x <> p) as Hxp by (intros ->; exact (Hpn Hxin)).
  pose proof (linked_prevs _ _ _ Hl) as Hpr.
  assert (exists bx, h !! x = Some bx) as [bx Hbx].
  { clear -Hpr Hxin. revert Hpr. generalize (Some p). induction (((y, bz) :: r).*1) as [|z l IH]; intros o.
    - by apply elem_of_nil in Hxin.
    - intros [(cz & Hz & _) Hlz]. apply elem_of_cons in Hxin as [->|Hi]; [by exists cz|eauto]. }
  exists (is_vma_thr bx). set (h3 := <[p := _]> h).
  assert (linked h3 (Some p) ((y, bz) :: r)) as Hl3.
  { eapply linked_frame; [|done]. intros z Hz. unfold h3. rewrite lookup_insert_ne; [done|].
    intros ->. exact (Hpn Hz). }
  split; [|done]. unfold finish, modify. rewrite Ei, Et, Ef, Ex. simpl mbind.
  rewrite Hp. simpl. rewrite lookup_insert, decide_True by done. simpl.
  rewrite !(lookup_insert_ne _ p x) by done. rewrite Hbx. simpl.
  rewrite lookup_insert, decide_True by done. simpl. rewrite !insert_insert_eq.
  fold (finished d (is_vma_thr bx) (link y b)). fold h3.
  destruct (sum_loop_acc (y :: r.*1) p h3) as (x2 & Ex2 & Es).
  { split; [|by apply linked_prevs in Hl3].
    eexists. split; [unfold h3; rewrite lookup_insert, decide_True; done|done]. }
  { done. }
  assert (x2 = x) as ->.
  { change (p :: y :: r.*1) with (((p, b) :: (y, bz) :: r).*1) in Ex2.
    rewrite fmap_last, Elast in Ex2. by injection Ex2. }
  rewrite Ec. replace (Z.to_nat _) with (length (y :: r.*1) + 1)%nat; [apply Es|].
  simpl. rewrite length_fmap. lia.
Qed.

Lemma finish_merged mtu bm h d us :
  0 <= mtu <= 65535 -> held_ok h d us -> pkts_ok mtu us -> NoDup us.*1 -> (1 < length us)%nat ->
  ip_tot_len d < 2 ^ 16 -> Z.of_nat (length us) <= bm ->
  exists p h', p_first d = Some p /\ finish d h = Some h' /\ merged bm h' p us /\
    (forall y, y ∉ us.*1 -> h' !! y = h !! y).
Proof.
  intros Hm Hh Hok Hn Hlen Ht Hbm. pose proof Hh as Hh'.
  destruct Hh' as (p & b & r & x & c & -> & El & Ef & _ & _ & _ & _ & _ & Ea & Ew & Ets & Etse & Eip & Hcont & Hl).
  destruct r as [|[y bz] r]; [simpl in Hlen; lia|].
  destruct (finish_acc _ _ _ _ _ _ _ _ _ Hh Hn El) as (thr & Efin & Hl3).
  set (h3 := <[p := _]> h) in *. set (us := (p, b) :: (y, bz) :: r) in *.
  exists p. eexists. split; [done|]. split; [done|].
  pose proof Hok as [[Hb Hchk] Hokr]%list.Forall_cons. simpl in Hb.
  pose proof (pkt_ok_bounds _ _ Hb) as Hbb. pose proof (psum_nonneg _ _ Hokr) as Hps.
  set (fb := finished d thr (link y b)) in *.
  assert (h3 !! p = Some fb) as Hp3 by (unfold h3; by rewrite lookup_insert, decide_True).
  assert (pb_tot_len (lwip_pbuf fb) = tot b) as Etot.
  { simpl. destruct Hb as (_ & _ & _ & _ & _ & ->). apply wrap_small. lia. }
  assert (forall z, z ∈ us.*1 -> exists b, h3 !! z = Some b /\ 0 <= pb_tot_len (lwip_pbuf b)) as Hpos.
  { intros z [->|Hz]%elem_of_cons.
    - exists fb. split; [done|]. lia.
    - by eapply (linked_tot_nonneg mtu). }
  assert (tsum h3 us.*1 = tot b + psum ((y, bz) :: r)) as Esum.
  { unfold us. rewrite fmap_cons. simpl fst. rewrite (tsum_cons _ _ _ _ Hp3), Etot.
    by rewrite (linked_tsum mtu Hm h3 p). }
  change (p :: y :: r.*1) with (us.*1).
  destruct (acc_tail h3 us.*1 p ((y, bz) :: r).*1) as (b' & Hb' & Eacc);
    [done|done|lia|by exists []|].
  rewrite Hp3 in Hb'. injection Hb' as <-.
  change (p :: ((y, bz) :: r).*1) with (us.*1) in Eacc. rewrite Esum in Eacc.
  split.
  - exists b, ((y, bz) :: r), x, c. eexists. split; [done|]. split; [done|]. split; [exact Eacc|].
    unfold fb. cbn [finished set_first set_tcp set_hdr_len link with_tot set_pbuf tot tcp_h ip_h gro].
    split_and!; try done.
    + change (ntohs (htons (ip_tot_len d)) = tot b + psum ((y, bz) :: r)).
      rewrite ntohs_invol; [done|]. lia.
    + intros Hd. simpl. rewrite Ets, bool_decide_true by done. simpl. auto.
    + split; [|eapply (acc_pbufs mtu Hm); [done|done|done|done|lia|by exists [p]]].
      eexists. split; [exact Eacc|]. unfold fb. simpl.
      destruct Hb as (_ & _ & _ & _ & _ & ->). rewrite wrap_small by lia. split_and!; try done. lia.
    + eapply list.Forall_impl; [exact Hok|]. by intros u [_ ?].
  - intros z Hz. rewrite acc_frame by done. unfold h3. rewrite lookup_insert_ne; [done|].
    intros ->. apply Hz. left.
Qed.

(** ** Collecting one more packet *)

Lemma contiguous_snoc us x c p b :
  contiguous us -> list.last us = Some (x, c) ->
  ntohl (th_seq (tcp_h b)) = u32 (ntohl (th_seq (tcp_h c)) + sz_payload c) ->
  contiguous (us ++ [(p, b)]).
Proof.
  intros Hc Hl Hs. induction us as [|u us IH]; [done|]. destruct us as [|v us].
  - injection Hl as ->. done.
  - destruct Hc as [H1 H2]. split; [done|]. by apply IH.
Qed.

Lemma psum_app us vs : psum (us ++ vs) = psum us + psum vs.
Proof. induction us as [|u us IH]; simpl; lia. Qed.

Lemma add_packet_held mtu bm h d us p b :
  0 <= mtu <= 65535 -> bm < 2 ^ 32 -> held_ok h d us -> pkts_ok mtu us -> NoDup us.*1 -> p ∉ us.*1 ->
  pkt_ok mtu b -> ntohl (th_seq (tcp_h b)) = next_seq d ->
  buf_count d < bm -> ip_tot_len d < byte_max mtu ->
  exists d' h', add_packet p b d h = Some (d', h') /\ held_ok h' d' (us ++ [(p, b)]) /\
    ip_tot_len d' < 2 ^ 16 /\ (forall y, y ∉ us.*1 -> y <> p -> h' !! y = h !! y).
Proof.
  intros Hm Hbm Hh Hok Hn Hp Hb Hseq Hcnt Hlen.
  destruct Hh as (f & bf & r & x & c & -> & El & Ef & Ei & Et & Ex & Ec & Ens & Ea & Ew & Ets & Etse & Eip & Hcont & Hl).
  set (us := (f, bf) :: r) in *.
  assert (exists A, us = A ++ [(x, c)]) as [A EA] by (by apply last_Some).
  pose proof (linked_snoc h None A x c p b) as Hsn. rewrite <- EA in Hsn.
  destruct (Hsn Hl Hn Hp) as (cx & Hcx & Hl').
  assert (x ∈ us.*1) as Hxin by (rewrite EA, fmap_app; set_solver).
  assert (x <> p) as Hxp by (intros ->; done).
  unfold add_packet, modify. rewrite Ex. simpl. rewrite lookup_insert_ne by done. rewrite Hcx. simpl.
  eexists _, _. split; [done|].
  pose proof (pkt_ok_bounds _ _ Hb) as Hbb.
  pose proof Hok as [[Hbf _] Hokr]%list.Forall_cons. pose proof (pkt_ok_bounds _ _ Hbf) as Hbbf.
  pose proof (psum_nonneg _ _ Hokr) as Hps. simpl in Hbbf.
  unfold byte_max, MAX_AGGR_BYTE_PER_STREAM in Hlen. rewrite wrap_small in Hlen by lia.
  split; [|split].
  - exists f, bf, (r ++ [(p, b)]), p, b.
    cbn [p_first p_last p_ip_h p_tcp_h buf_count next_seq g_ack ts_present tsecr ip_tot_len wnd].
    rewrite (wrap_small 16) by lia. rewrite (wrap_small 32) by lia.
    split_and!; try done.
    + change (list.last (us ++ [(p, b)]) = Some (p, b)). apply last_snoc.
    + rewrite Ec. unfold us. simpl. rewrite length_app. simpl. lia.
    + by rewrite <- Hseq.
    + intros Hd. rewrite Ets, bool_decide_true by done. done.
    + rewrite psum_app. simpl. lia.
    + change (contiguous (us ++ [(p, b)])). eapply contiguous_snoc; [done|done|]. by rewrite Hseq.
    + change (linked (<[x := link p cx]> (<[p := fill (Some x) b]> h)) None (us ++ [(p, b)])).
      rewrite EA, <- app_assoc. exact Hl'.
  - simpl. rewrite wrap_small by lia. lia.
  - intros y Hy Hyp. rewrite !lookup_insert_ne; [done|done|]. intros ->. done.
Qed.

(** ** The whole ring *)

Section ring.
Context (accept : nat -> ptr -> heap -> bool) (mtu bm : Z).
Context (Hmtu : 0 <= mtu <= 65535) (Hbm : 0 <= bm < 2 ^ 32).

(** What flow [f] has collected. *)
Definition flow_held (h : heap) (f : rfs_uc_tcp_gro) (us : pkts) : Prop :=
  if m_b_active f then
    held_ok h (m_gro_desc f) us /\ pkts_ok mtu us /\ NoDup us.*1 /\
    ip_tot_len (m_gro_desc f) < 2 ^ 16 /\ ((length us <= 1)%nat \/ Z.of_nat (length us) <= bm)
  else us = [].

Definition reserved (g : gro_mgr) : list nat := take (m_n_flow_count g) (m_p_rfs_arr g).

Record InvL (l : list nat) (r : ring) (g : nat -> pkts) : Prop := {
  inv_flow : forall id f, flows r !! id = Some f -> flow_held (bufs r) f (g id) /\
    (m_b_active f = true -> m_b_reserved f = true) /\
    (m_b_reserved f = true -> id ∈ l);
  inv_none : forall id, flows r !! id = None -> g id = [] /\ id ∉ l;
  inv_disj : forall i j x, i <> j -> x ∈ (g i).*1 -> x ∈ (g j).*1 -> False;
  inv_arr : length (m_p_rfs_arr (mgr r)) = m_n_flow_max (mgr r) /\
    (m_n_flow_count (mgr r) <= m_n_flow_max (mgr r))%nat /\ m_n_buf_max (mgr r) = bm;
}.

Abbreviation Inv r := (InvL (reserved (mgr r)) r).

(** Outside a call a flow is below its limits. *)
Definition steady (r : ring) (id : nat) : Prop :=
  forall f, flows r !! id = Some f -> m_b_active f = true ->
    buf_count (m_gro_desc f) < bm /\ ip_tot_len (m_gro_desc f) < byte_max mtu.

Definition upd (g : nat -> pkts) (id : nat) (us : pkts) : nat -> pkts :=
  fun j => if decide (j = id) then us else g j.

(** From [r] to [r'] the packets [new] arrived: all that was held or arrived is
    delivered, in order, or held. *)
Definition stepped (r : ring) (g : nat -> pkts) (r' : ring) (g' : nat -> pkts) (new : nat -> pkts) : Prop :=
  exists cs units, calls r' = calls r ++ cs /\ Forall2 (delivers bm) cs units /\
    forall j, mine j units ++ g' j = g j ++ new j.

Lemma stepped_refl r g : stepped r g r g (fun _ => []).
Proof using.
  exists [], []. rewrite app_nil_r. split_and!; [done|constructor|]. intros j. by rewrite app_nil_r.
Qed.

Lemma stepped_trans r g r1 g1 n1 r2 g2 n2 :
  stepped r g r1 g1 n1 -> stepped r1 g1 r2 g2 n2 -> stepped r g r2 g2 (fun j => n1 j ++ n2 j).
Proof using.
  intros (c1 & u1 & E1 & F1 & G1) (c2 & u2 & E2 & F2 & G2).
  exists (c1 ++ c2), (u1 ++ u2). split_and!.
  - by rewrite E2, E1, app_assoc.
  - by apply Forall2_app.
  - intros j. unfold mine in *. rewrite bind_app, <- app_assoc, G2, app_assoc, G1. by rewrite <- app_assoc.
Qed.

(** A call of the receiver with packets that are no longer held. *)
Lemma stepped_call id p r r' g g' us :
  calls r' = calls r ++ [(id, p, bufs r')] -> delivers bm (id, p, bufs r') (id, us) ->
  forall new, us ++ g' id = g id ++ new id -> (forall j, j <> id -> g' j = g j ++ new j) ->
  stepped r g r' g' new.
Proof using.
  intros Ec Hd new Hi Hj. exists [(id, p, bufs r')], [(id, us)].
  split; [done|]. split; [by apply Forall2_cons_2|]. intros j. unfold mine. simpl. rewrite app_nil_r.
  destruct (decide (id = j)) as [->|Hne]; [done|]. apply Hj. congruence.
Qed.

Lemma flow_held_frame h h' f us :
  (forall y, y ∈ us.*1 -> h' !! y = h !! y) -> flow_held h f us -> flow_held h' f us.
Proof using.
  unfold flow_held. destruct (m_b_active f); [|done]. intros Hf (Hh & Hrest). split; [|done].
  destruct Hh as (p & b & r & x & c & H1 & H2 & H3 & H4 & H5 & H6 & H7 & H8 & H9 & H10 & H11 & H12 & H13 & H14 & Hl).
  exists p, b, r, x, c. split_and!; try done. by eapply linked_frame.
Qed.

Lemma flush_gro_desc_spec l r g id f :
  InvL l r g -> flows r !! id = Some f ->
  exists r', flush_gro_desc accept id r = Some r' /\ InvL l r' (upd g id []) /\
    stepped r g r' (upd g id []) (fun _ => []) /\
    flows r' = <[id := Rfs false (m_b_reserved f) (m_gro_desc f)]> (flows r) /\ mgr r' = mgr r /\
    (forall y, y ∉ (g id).*1 -> bufs r' !! y = bufs r !! y).
Proof using Hmtu Hbm.
  intros HI Hf. pose proof (inv_flow _ _ _ HI id f Hf) as (Hh & Hres & Hin).
  unfold flush_gro_desc. rewrite Hf. simpl. unfold flow_held in Hh.
  destruct (m_b_active f) eqn:Ea; simpl.
  2:{ assert (forall j, upd g id [] j = g j) as Eg by (intros j; unfold upd; case_decide; by subst).
    exists r. split; [done|]. split; [|split; [|split; [|done]]].
    - destruct HI. split; try done.
      + intros i fi Hi. rewrite Eg. eauto.
      + intros i Hi. rewrite Eg. eauto.
      + intros i j x. rewrite !Eg. eauto.
    - destruct (stepped_refl r g) as (cs & us & ? & ? & Hj). exists cs, us. split_and!; try done.
      intros j. by rewrite Eg.
    - rewrite insert_id; [done|]. rewrite Hf. destruct f. simpl in *. by subst. }
  destruct Hh as (Hh & Hok & Hn & Hip & Hlen).
  assert (exists p h', p_first (m_gro_desc f) = Some p /\
    (if decide (buf_count (m_gro_desc f) > 1) then finish (m_gro_desc f) (bufs r) else Some (bufs r)) = Some h' /\
    delivers bm (id, p, h') (id, g id) /\ (forall y, y ∉ (g id).*1 -> h' !! y = bufs r !! y))
    as (p & h' & Ep & Eh & Hd & Hfr).
  { pose proof Hh as (p & b & rest & x & c & Eus & _ & Ep & _ & _ & _ & Ec & _ & _ & _ & _ & _ & _ & _ & Hl).
    case_decide as Hc.
    - destruct (finish_merged mtu bm (bufs r) (m_gro_desc f) (g id)) as (p' & h' & ? & ? & ? & ?); try done; [lia..|].
      exists p', h'. split_and!; try done. split; [done|]. by right.
    - exists p, (bufs r). split_and!; try done. split; [done|]. left. exists b. simpl.
      rewrite Eus in Ec, Hl |- *. destruct rest; [|simpl in Ec; lia]. split; [done|]. apply Hl. }
  rewrite Eh. simpl. rewrite Ep. simpl. eexists. split; [done|].
  set (r' := set_flow _ _ _).
  assert (mgr r' = mgr r /\ bufs r' = h' /\ calls r' = calls r ++ [(id, p, h')] /\
    flows r' = <[id := Rfs false (m_b_reserved f) (m_gro_desc f)]> (flows r)) as (Em & Eb & Ecl & Efl).
  { unfold r'. by destruct (accept id p h'). }
  split; [|split; [|by rewrite Em, Eb]].
  - split.
    + intros i fi. rewrite Efl, Eb. unfold upd. destruct (decide (i = id)) as [->|Hne].
      * rewrite lookup_insert, decide_True by done. intros [= <-]. split; [done|]. split; [done|]. apply Hin.
      * rewrite lookup_insert_ne by done. intros Hi. pose proof (inv_flow _ _ _ HI i fi Hi) as (H1 & H2 & H3).
        split; [|done]. eapply flow_held_frame; [|done]. intros y Hy. apply Hfr. intros Hy'.
        by eapply (inv_disj _ _ _ HI i id).
    + intros i. rewrite Efl. unfold upd. intros Hi. apply lookup_insert_None in Hi as [Hi Hne].
      rewrite decide_False by done. by apply (inv_none _ _ _ HI).
    + intros i j y Hij. unfold upd. destruct (decide (i = id)), (decide (j = id));
        simpl; rewrite ?elem_of_nil; try tauto. by apply (inv_disj _ _ _ HI).
    + rewrite Em. apply (inv_arr _ _ _ HI).
  - eapply (stepped_call id p); [by rewrite Eb| by rewrite Eb| |].
    + unfold upd. rewrite decide_True by done. done.
    + intros j Hj. unfold upd. rewrite decide_False by done. by rewrite app_nil_r.
Qed.

Lemma Inv_ext l r r' g :
  flows r' = flows r -> bufs r' = bufs r -> mgr r' = mgr r -> InvL l r g -> InvL l r' g.
Proof using. intros Ef Eb Em []. split; rewrite ?Ef, ?Eb, ?Em; done. Qed.

Lemma Inv_fill l r g p b :
  InvL l r g -> (forall i, p ∉ (g i).*1) -> InvL l (set_bufs (<[p := b]> (bufs r)) r) g.
Proof using.
  intros HI Hp. split; [|apply HI..]. intros i f Hi.
  destruct (inv_flow _ _ _ HI i f Hi) as (Hh & Hrest). split; [|done].
  eapply flow_held_frame; [|done]. intros y Hy. simpl. apply lookup_insert_ne.
  intros ->. by apply (Hp i).
Qed.

(** A flow collects [us'], in buffers no other flow holds. *)
Lemma Inv_flow l r g id f f' us' h' :
  InvL l r g -> flows r !! id = Some f -> flow_held h' f' us' ->
  m_b_reserved f' = m_b_reserved f -> (m_b_active f' = true -> m_b_reserved f' = true) ->
  (forall i y, i <> id -> y ∈ (g i).*1 -> h' !! y = bufs r !! y /\ y ∉ us'.*1) ->
  InvL l (set_flow id f' (set_bufs h' r)) (upd g id us').
Proof using.
  intros HI Hf Hh Er Ha Hfr. unfold upd. split; simpl.
  - intros i fi. destruct (decide (i = id)) as [->|Hne].
    + rewrite lookup_insert, decide_True by done. intros [= <-]. split_and!; try done.
      rewrite Er. apply (inv_flow _ _ _ HI id f Hf).
    + rewrite lookup_insert_ne by done. intros Hi.
      destruct (inv_flow _ _ _ HI i fi Hi) as (H1 & H2). split; [|done].
      eapply flow_held_frame; [|done]. intros y Hy. by eapply Hfr.
  - intros i [Hi Hne]%lookup_insert_None. rewrite decide_False by done. by apply (inv_none _ _ _ HI).
  - intros i j y Hij. destruct (decide (i = id)) as [->|], (decide (j = id)) as [->|]; try done.
    + intros H1 H2. by apply (Hfr j y).
    + intros H1 H2. by apply (Hfr i y).
    + by apply (inv_disj _ _ _ HI).
  - apply (inv_arr _ _ _ HI).
Qed.

Lemma Inv_reserve r g id f :
  Inv r g -> flows r !! id = Some f -> m_b_reserved f = false -> is_stream_max (mgr r) = false ->
  exists m, reserve_stream id (mgr r) = (true, m) /\
    Inv (set_flow id (Rfs (m_b_active f) true (m_gro_desc f)) (set_mgr m r)) g.
Proof using accept Hmtu Hbm.
  intros HI Hf Hr Hmax. unfold reserve_stream. rewrite Hmax. eexists. split; [done|].
  unfold is_stream_max in Hmax. apply bool_decide_eq_false in Hmax.
  destruct (inv_arr _ _ _ HI) as (Hl & Hc & Hb).
  assert (forall i, i ∈ take (S (m_n_flow_count (mgr r))) (<[m_n_flow_count (mgr r) := id]> (m_p_rfs_arr (mgr r)))
    <-> i ∈ reserved (mgr r) \/ i = id) as Ht.
  { intros i. rewrite (take_S_r _ _ id) by (apply list_lookup_insert_eq; lia).
    rewrite elem_of_app, list_elem_of_singleton, take_insert_ge by lia. done. }
  split; simpl.
  - intros i fi. destruct (decide (i = id)) as [->|Hne].
    + rewrite lookup_insert, decide_True by done. intros [= <-].
      destruct (inv_flow _ _ _ HI id f Hf) as (H1 & _). split_and!; [done|done|].
      unfold reserved. simpl. rewrite Ht. tauto.
    + rewrite lookup_insert_ne by done. intros Hi.
      destruct (inv_flow _ _ _ HI i fi Hi) as (H1 & H2 & H3). split_and!; try done.
      unfold reserved in *. simpl. rewrite Ht. tauto.
  - intros i [Hi Hne]%lookup_insert_None. destruct (inv_none _ _ _ HI i Hi) as [H1 H2]. split; [done|].
    unfold reserved in *. simpl. rewrite Ht. intuition congruence.
  - apply (inv_disj _ _ _ HI).
  - rewrite length_insert. split_and!; [done|lia|done].
Qed.

Lemma at_limit_spec r g id f :
  Inv r g -> flows r !! id = Some f -> m_b_active f = true -> (forall j, j <> id -> steady r j) ->
  exists r' g', at_limit accept mtu id r = Some (true, r') /\ Inv r' g' /\
    stepped r g r' g' (fun _ => []) /\ (forall j, steady r' j) /\ dom (flows r') = dom (flows r).
Proof using Hmtu Hbm.
  intros HI Hf Ha Hst. unfold at_limit. rewrite Hf. simpl.
  destruct (inv_arr _ _ _ HI) as (_ & _ & ->). case_decide as Hlim.
  - destruct (flush_gro_desc_spec _ r g id f HI Hf) as (r' & -> & HI' & Hs & Efl & Em & _).
    rewrite <- Em in HI'. exists r', (upd g id []). split_and!; try done.
    + intros j fj. rewrite Efl. destruct (decide (j = id)) as [->|Hne].
      * rewrite lookup_insert, decide_True by done. by intros [= <-].
      * rewrite lookup_insert_ne by done. by apply Hst.
    + rewrite Efl, dom_insert_L. apply elem_of_dom_2 in Hf. set_solver.
  - exists r, g. split_and!; try done; [apply stepped_refl|]. intros j fj Hj Haj.
    destruct (decide (j = id)) as [->|]; [|by eapply Hst].
    rewrite Hf in Hj. injection Hj as <-. lia.
Qed.

Lemma dispatch_spec r g id p b new :
  Inv r g -> bufs r !! p = Some b -> g id = [] -> new id = [(p, b)] -> (forall j, j <> id -> new j = []) ->
  Inv (dispatch accept id p r).2 g /\ stepped r g (dispatch accept id p r).2 g new.
Proof using.
  intros HI Hp Hg Hn Hj. split; [by eapply Inv_ext; [..|exact HI]|].
  eapply (stepped_call id p _ _ _ _ [(p, b)]); [done| |by rewrite Hg, Hn|].
  - split; [done|]. left. by exists b.
  - intros j Hne. by rewrite (Hj j Hne), app_nil_r.
Qed.

(** Flush what the flow holds, then hand over the packet. *)
Lemma flush_dispatch_spec r g id f p b new :
  Inv r g -> flows r !! id = Some f -> bufs r !! p = Some b -> (forall i, p ∉ (g i).*1) ->
  new id = [(p, b)] -> (forall j, j <> id -> new j = []) -> (forall j, steady r j) ->
  exists r1, flush_gro_desc accept id r = Some r1 /\
    let r' := (dispatch accept id p r1).2 in
    Inv r' (upd g id []) /\ stepped r g r' (upd g id []) new /\ (forall j, steady r' j) /\
    dom (flows r') = dom (flows r).
Proof using Hmtu Hbm.
  intros HI Hf Hp Hfr Hn Hj Hst.
  destruct (flush_gro_desc_spec _ r g id f HI Hf) as (r1 & E1 & HI1 & Hs1 & Efl & Em & Eb).
  rewrite <- Em in HI1.
  exists r1. split; [done|]. simpl.
  destruct (dispatch_spec r1 (upd g id []) id p b new) as [HI2 Hs2]; [done|..|done|done|].
  { rewrite Eb; done. } { unfold upd. by rewrite decide_True. }
  split; [done|]. split; [|split].
  - eapply stepped_trans in Hs2; [|exact Hs1]. exact Hs2.
  - intros j fj. simpl. rewrite Efl. destruct (decide (j = id)) as [->|Hne].
    + rewrite lookup_insert, decide_True by done. by intros [= <-].
    + rewrite lookup_insert_ne by done. apply Hst.
  - simpl. rewrite Efl, dom_insert_L. apply elem_of_dom_2 in Hf. set_solver.
Qed.

(** The first packet of a flow that has a place. *)
Lemma start_spec r g id f p b d :
  Inv r g -> flows r !! id = Some f -> m_b_active f = false -> m_b_reserved f = true ->
  bufs r !! p = Some b -> (forall i, p ∉ (g i).*1) -> pkt_ok mtu b -> tcp_ip_check b = true ->
  Inv (set_flow id (Rfs true true (init_gro_desc p b d)) r) (upd g id [(p, b)]).
Proof using Hmtu.
  intros HI Hf Ha Hr Hp Hfr Hb Hchk. pose proof (pkt_ok_bounds _ _ Hb) as Hbb.
  eapply (Inv_ext _ (set_flow id _ (set_bufs (bufs r) r))); [done..|].
  eapply Inv_flow; [done|done| |by rewrite Hr|done|].
  - unfold flow_held, init_gro_desc. simpl. split_and!.
    + exists p, b, [], p, b. simpl. split_and!; try done.
      * intros Hd. by rewrite bool_decide_true.
      * unfold tot. lia.
    + by apply list.Forall_singleton.
    + apply list.NoDup_singleton.
    + unfold tot in Hbb. lia.
    + left. lia.
  - intros i y Hi Hy. split; [done|]. simpl. rewrite list_elem_of_singleton. intros ->. by apply (Hfr i).
Qed.

(** One more packet for a flow below its limits. *)
Lemma add_spec r g id f p b :
  Inv r g -> flows r !! id = Some f -> m_b_active f = true -> steady r id ->
  (forall i, p ∉ (g i).*1) -> pkt_ok mtu b -> tcp_ip_check b = true ->
  ntohl (th_seq (tcp_h b)) = next_seq (m_gro_desc f) ->
  exists d h, add_packet p b (m_gro_desc f) (bufs r) = Some (d, h) /\
    Inv (set_flow id (Rfs true (m_b_reserved f) d) (set_bufs h r)) (upd g id (g id ++ [(p, b)])).
Proof using accept Hmtu Hbm.
  intros HI Hf Ha Hst Hfr Hb Hchk Hseq. destruct (Hst f Hf Ha) as [Hc Hl].
  destruct (inv_flow _ _ _ HI id f Hf) as (Hh & Hres & _). unfold flow_held in Hh. rewrite Ha in Hh.
  destruct Hh as (Hh & Hok & Hn & Hip & Hlen).
  destruct (add_packet_held mtu bm (bufs r) (m_gro_desc f) (g id) p b)
    as (d & h & E & Hh' & Hip' & Hf'); try done; [lia|].
  exists d, h. split; [done|]. eapply Inv_flow; [done|done| |done|by auto|].
  - unfold flow_held. simpl. split_and!; try done.
    + apply Forall_app. split; [done|]. by apply list.Forall_singleton.
    + rewrite fmap_app. apply list.NoDup_app. split; [done|]. split; [|apply list.NoDup_singleton].
      simpl. intros y Hy ->%list_elem_of_singleton. by apply (Hfr id).
    + right. destruct Hh as (?&?&?&?&?&?&?&?&?&?&?& Ec & _). rewrite length_app. simpl. lia.
  - intros i y Hi Hy. assert ((y ∉ (g id).*1) /\ y <> p) as [H1 H2].
    { split; [intros Hy'; by eapply (inv_disj _ _ _ HI i id)|]. intros ->. by apply (Hfr i). }
    split; [by apply Hf'|]. rewrite fmap_app, elem_of_app. simpl. rewrite list_elem_of_singleton. tauto.
Qed.

(** The held packets of [r], with one more that [g'] has collected. *)
Lemma stepped_collect r r' g id p b new :
  calls r' = calls r -> new id = [(p, b)] -> (forall j, j <> id -> new j = []) ->
  stepped r g r' (upd g id (g id ++ [(p, b)])) new.
Proof using.
  intros Ec Hn Hj. exists [], []. rewrite app_nil_r. split_and!; [done|constructor|].
  intros j. unfold mine, upd. simpl. case_decide as E; [subst; by rewrite Hn|].
  by rewrite (Hj j E), app_nil_r.
Qed.

Lemma rx_spec r g id p b new :
  Inv r g -> (forall j, steady r j) -> is_Some (flows r !! id) -> bufs r !! p = Some b ->
  (forall i, p ∉ (g i).*1) -> pkt_ok mtu b -> new id = [(p, b)] -> (forall j, j <> id -> new j = []) ->
  exists ok r' g', rx_dispatch_packet accept mtu id p r = Some (ok, r') /\ Inv r' g' /\
    stepped r g r' g' new /\ (forall j, steady r' j) /\ dom (flows r') = dom (flows r).
Proof using Hmtu Hbm.
  intros HI Hst [f Hf] Hp Hfr Hb Hn Hj. pose proof (inv_flow _ _ _ HI id f Hf) as (Hh & Hres & _).
  unfold rx_dispatch_packet. rewrite Hf. simpl. rewrite Hp. simpl.
  destruct (flush_dispatch_spec r g id f p b new) as (r1 & E1 & HI1 & Hs1 & Hst1 & Hd1); [done..|].
  destruct (negb (m_b_active f) && negb (m_b_reserved f) && is_stream_max (mgr r)) eqn:Emax.
  { apply andb_true_iff in Emax as [[Ea%negb_true_iff _]%andb_true_iff _]. unfold flow_held in Hh.
    rewrite Ea in Hh. destruct (dispatch_spec r g id p b new) as [HI2 Hs2]; [done..|].
    eexists _, _, g. split; [done|]. done. }
  destruct (tcp_ip_check b) eqn:Echk; simpl negb; cbn match.
  2:{ destruct (m_b_active f) eqn:Ea.
    - rewrite E1. simpl. eexists _, _, _. split; [done|]. done.
    - simpl. unfold flow_held in Hh. rewrite Ea in Hh.
      destruct (dispatch_spec r g id p b new) as [HI2 Hs2]; [done..|].
      eexists _, _, g. split; [done|]. done. }
  (* the packet is collected, then the limits are checked *)
  assert (forall r1 d, Inv r1 (upd g id (g id ++ [(p, b)])) -> calls r1 = calls r ->
    flows r1 = <[id := Rfs true true d]> (flows r) ->
    exists ok r' g', at_limit accept mtu id r1 = Some (ok, r') /\ Inv r' g' /\
      stepped r g r' g' new /\ (forall j, steady r' j) /\ dom (flows r') = dom (flows r)) as Hcol.
  { intros r2 d HI2 Ec Efl.
    destruct (at_limit_spec r2 (upd g id (g id ++ [(p, b)])) id (Rfs true true d))
      as (r' & g' & E & HI' & Hs & Hst' & Hd); [done| |done| |].
    - rewrite Efl. by rewrite lookup_insert, decide_True.
    - intros j Hne fj. rewrite Efl, lookup_insert_ne by done. apply Hst.
    - exists true, r', g'. split_and!; try done.
      + pose proof (stepped_trans _ _ _ _ _ _ _ _ (stepped_collect r r2 g id p b new Ec Hn Hj) Hs) as Hs2.
        destruct Hs2 as (cs & us & ? & ? & Hm). exists cs, us. split_and!; try done.
        intros j. by rewrite Hm, app_nil_r.
      + rewrite Hd, Efl, dom_insert_L. apply elem_of_dom_2 in Hf. set_solver. }
  destruct (m_b_active f) eqn:Ea; simpl negb; cbn match.
  - (* the flow already holds something *)
    case_decide as Hseq; [rewrite E1; simpl; eexists _, _, _; split; [done|]; done|].
    destruct (timestamp_check b); simpl negb; cbn match;
      [|rewrite E1; simpl; eexists _, _, _; split; [done|]; done].
    destruct (add_spec r g id f p b) as (d & h & E & HIa); try done.
    rewrite E. simpl. rewrite (Hres eq_refl) in *. by eapply Hcol.
  - unfold flow_held in Hh. rewrite Ea in Hh.
    assert (upd g id [(p, b)] = upd g id (g id ++ [(p, b)])) as Eu by (by rewrite Hh).
    destruct (m_b_reserved f) eqn:Er; simpl negb; cbn match.
    + eapply Hcol; [|done|done]. rewrite <- Eu. by eapply start_spec.
    + simpl in Emax. destruct (Inv_reserve r g id f HI Hf Er Emax) as (m & Em & HIm).
      rewrite Em. simpl. eapply Hcol; [|done|done].
      rewrite <- Eu.
      apply (Inv_ext _ (set_flow id (Rfs true true (init_gro_desc p b (m_gro_desc f)))
        (set_flow id (Rfs (m_b_active f) true (m_gro_desc f)) (set_mgr m r)))); [|done|done|].
      { simpl. symmetry. apply insert_insert_eq. }
      apply (start_spec (set_flow id (Rfs (m_b_active f) true (m_gro_desc f)) (set_mgr m r)) g id
        (Rfs (m_b_active f) true (m_gro_desc f))); try done.
      simpl. by rewrite lookup_insert, decide_True.
Qed.

Lemma flush_list_spec l r g :
  InvL l r g ->
  exists r' g', flush_list accept l r = Some r' /\ InvL [] r' g' /\ stepped r g r' g' (fun _ => []) /\
    mgr r' = mgr r /\ dom (flows r') = dom (flows r).
Proof using Hmtu Hbm.
  revert r g. induction l as [|id l IH]; intros r g HI; simpl.
  { exists r, g. split_and!; try done. apply stepped_refl. }
  destruct (flows r !! id) as [f|] eqn:Hf.
  2:{ destruct (inv_none _ _ _ HI id Hf) as [_ []]. left. }
  destruct (flush_gro_desc_spec _ r g id f HI Hf) as (r1 & E1 & HI1 & Hs1 & Efl & Em & _).
  unfold flush. rewrite E1. simpl. rewrite Efl, lookup_insert, decide_True by done. simpl.
  set (r2 := set_flow id _ r1).
  destruct (IH r2 (upd g id [])) as (r' & g' & E & HI' & Hs & Em' & Hd).
  { split; simpl.
    - intros i fi. destruct (decide (i = id)) as [->|Hne].
      + rewrite lookup_insert, decide_True by done. intros [= <-]. split_and!; try done.
        unfold flow_held, upd. simpl. by rewrite decide_True.
      + rewrite lookup_insert_ne by done. intros Hi.
        destruct (inv_flow _ _ _ HI1 i fi Hi) as (H1 & H2 & H3). split_and!; try done.
        intros [->|?]%H3%elem_of_cons; done.
    - intros i [Hi Hne]%lookup_insert_None. destruct (inv_none _ _ _ HI1 i Hi) as [H1 H2].
      split; [done|]. intros ?. apply H2. by right.
    - apply (inv_disj _ _ _ HI1).
    - apply (inv_arr _ _ _ HI1). }
  exists r', g'. split; [done|]. split; [done|]. split; [|split].
  - eapply (stepped_trans r g r1 (upd g id []) (fun _ => []) r' g' (fun _ => [])); [done|].
    destruct Hs as (cs & us & ? & ? & ?). by exists cs, us.
  - by rewrite Em', <- Em.
  - rewrite Hd. simpl. rewrite Efl, !dom_insert_L. apply elem_of_dom_2 in Hf. set_solver.
Qed.

Lemma flush_all_spec r g :
  Inv r g ->
  exists r', flush_all accept r = Some r' /\ Inv r' (fun _ => []) /\
    stepped r g r' (fun _ => []) (fun _ => []) /\ (forall j, steady r' j) /\
    dom (flows r') = dom (flows r).
Proof using Hmtu Hbm.
  intros HI. destruct (flush_list_spec _ r g HI) as (r1 & g1 & E & HI1 & Hs & Em & Hd).
  assert (forall i f, flows r1 !! i = Some f -> m_b_active f = false) as Hina.
  { intros i f Hi. destruct (inv_flow _ _ _ HI1 i f Hi) as (_ & H2 & H3).
    destruct (m_b_active f); [|done]. specialize (H3 (H2 eq_refl)). by apply elem_of_nil in H3. }
  assert (forall i, g1 i = []) as Hg.
  { intros i. destruct (flows r1 !! i) as [f|] eqn:Hf; [|by apply (inv_none _ _ _ HI1)].
    destruct (inv_flow _ _ _ HI1 i f Hf) as (H1 & _). unfold flow_held in H1. by rewrite (Hina i f Hf) in H1. }
  unfold flush_all. unfold reserved in E. rewrite E. simpl. eexists. split; [done|].
  split; [|split; [|split]].
  - unfold reserved. simpl. rewrite take_0. split; simpl.
    + intros i f Hi. destruct (inv_flow _ _ _ HI1 i f Hi) as (H1 & H2). by rewrite Hg in H1.
    + intros i Hi. destruct (inv_none _ _ _ HI1 i Hi) as [H1 H2]. done.
    + intros i j x _ ?%elem_of_nil. done.
    + destruct (inv_arr _ _ _ HI1) as (? & ? & ?). split_and!; [done|lia|done].
  - destruct Hs as (cs & us & ? & ? & Hm). exists cs, us. split_and!; try done.
    intros j. specialize (Hm j). by rewrite Hg in Hm.
  - intros j f Hj Ha. by rewrite (Hina j f Hj) in Ha.
  - done.
Qed.

(** The buffers a flow holds are the ones its links reach. *)
Lemma held_fresh r g p :
  Inv r g -> (forall i f, flows r !! i = Some f -> p ∉ held r f) -> forall i, p ∉ (g i).*1.
Proof using.
  intros HI Hp i. destruct (flows r !! i) as [f|] eqn:Hf.
  2:{ destruct (inv_none _ _ _ HI i Hf) as [-> _]. apply not_elem_of_nil. }
  specialize (Hp i f Hf). destruct (inv_flow _ _ _ HI i f Hf) as (Hh & _).
  unfold held in Hp. unfold flow_held in Hh. destruct (m_b_active f); [|rewrite Hh; apply not_elem_of_nil].
  destruct Hh as ((q & b & rest & x & c & Eus & El & _ & _ & _ & Ex & Ec & _ & _ & _ & _ & _ & _ & _ & Hl) & _).
  rewrite Ec, Ex, Nat2Z.id in Hp. pose proof (prevs_back _ _ (linked_prevs _ _ _ Hl)) as Hb.
  rewrite length_fmap, fmap_last, El in Hb. simpl in Hb. rewrite Hb in Hp. by rewrite elem_of_reverse in Hp.
Qed.

Lemma exec_spec e r g :
  Inv r g -> (forall j, steady r j) -> event_ok mtu e r ->
  exists r' g', exec accept mtu e r = Some r' /\ Inv r' g' /\
    stepped r g r' g' (fun j => arrivals j [e]) /\ (forall j, steady r' j).
Proof using Hmtu Hbm.
  intros HI Hst He. destruct e as [id p b|].
  - destruct He as (Hid & Hb & Hfr). pose proof (held_fresh r g p HI Hfr) as Hp.
    destruct (rx_spec (set_bufs (<[p := b]> (bufs r)) r) g id p b (fun j => arrivals j [Rx id p b]))
      as (ok & r' & g' & E & HI' & Hs & Hst' & _); try done.
    + by apply Inv_fill.
    + simpl. by rewrite lookup_insert, decide_True.
    + unfold arrivals. simpl. by rewrite decide_True.
    + intros j Hj. unfold arrivals. simpl. by rewrite decide_False.
    + exists r', g'. cbn [exec]. rewrite E. done.
  - destruct (flush_all_spec r g HI) as (r' & E & HI' & Hs & Hst' & _). by exists r', (fun _ => []).
Qed.

Lemma run_spec es r g :
  Inv r g -> (forall j, steady r j) -> events_ok accept mtu es r ->
  exists r' g', run accept mtu es r = Some r' /\ Inv r' g' /\
    stepped r g r' g' (fun j => arrivals j es) /\ (forall j, steady r' j).
Proof using Hmtu Hbm.
  revert r g. induction es as [|e es IH]; intros r g HI Hst Hok.
  { exists r, g. split_and!; try done. apply stepped_refl. }
  destruct Hok as [He Hok]. destruct (exec_spec e r g HI Hst He) as (r1 & g1 & E & HI1 & Hs1 & Hst1).
  rewrite E in Hok. destruct (IH r1 g1 HI1 Hst1 Hok) as (r' & g' & E' & HI' & Hs' & Hst').
  exists r', g'. cbn [run]. rewrite E. simpl. split_and!; try done.
  destruct (stepped_trans _ _ _ _ _ _ _ _ Hs1 Hs') as (cs & us & ? & ? & Hm).
  exists cs, us. split_and!; try done. intros j. rewrite Hm. f_equal.
  unfold arrivals. simpl. by rewrite app_nil_r.
Qed.
End ring.

Lemma run_events_app accept mtu es es' r :
  run accept mtu (es ++ es') r = (r' ← run accept mtu es r; run accept mtu es' r').
Proof.
  revert r. induction es as [|e es IH]; intros r; simpl; [done|].
  destruct (exec accept mtu e r); simpl; [apply IH|done].
Qed.

Lemma ring_ctor_inv mtu bm flow_max ids h :
  InvL mtu bm (reserved (mgr (ring_ctor flow_max bm ids h))) (ring_ctor flow_max bm ids h) (fun _ => []) /\
  forall j, steady mtu bm (ring_ctor flow_max bm ids h) j.
Proof.
  split.
  - unfold reserved. simpl. rewrite take_0. split; simpl.
    + intros i f [Hi <-]%lookup_gset_to_gmap_Some. done.
    + intros i _. split; [done|]. apply not_elem_of_nil.
    + intros i j x _ ?%elem_of_nil. done.
    + rewrite length_replicate. split_and!; [done|lia|done].
  - intros j f Hj. simpl in Hj. apply lookup_gset_to_gmap_Some in Hj as [_ <-]. done.
Qed.

(** C8: At the end of a polling round every packet received on a flow has been
    handed to its sockets exactly once and in the order of arrival, either as it
    arrived or merged with its neighbours; a merged unit is a run of segments
    contiguous in sequence space, at most [buf_max] long, its pbufs are linked in
    order with the lengths lwip requires, and its headers carry the total length,
    and the acknowledgement, window and timestamp echo of the last segment.  The
    16-bit total length never wraps. *)
Theorem gro_round_delivers accept mtu buf_max flow_max ids h es :
  0 <= mtu <= 65535 -> 0 <= buf_max < 2 ^ 32 ->
  events_ok accept mtu es (ring_ctor flow_max buf_max ids h) ->
  exists r units, run accept mtu (es ++ [FlushAll]) (ring_ctor flow_max buf_max ids h) = Some r /\
    Forall2 (delivers buf_max) (calls r) units /\
    (forall id, mine id units = arrivals id es) /\
    (forall id f, flows r !! id = Some f -> m_b_active f = false).
Proof.
  intros Hm Hb Hok. destruct (ring_ctor_inv mtu buf_max flow_max ids h) as [HI Hst].
  set (r0 := ring_ctor flow_max buf_max ids h) in *.
  destruct (run_spec accept mtu buf_max Hm Hb es r0 _ HI Hst Hok) as (r1 & g1 & E1 & HI1 & Hs1 & _).
  destruct (flush_all_spec accept mtu buf_max Hm Hb r1 g1 HI1) as (r & E & HI' & Hs & _ & _).
  destruct (stepped_trans _ _ _ _ _ _ _ _ _ Hs1 Hs) as (cs & units & Ec & Hd & Hmine).
  exists r, units. split; [rewrite run_events_app, E1; simpl; by rewrite E|]. split; [by rewrite Ec|]. split.
  - intros id. specialize (Hmine id). by rewrite !app_nil_r in Hmine.
  - intros id f Hf. destruct (inv_flow _ _ _ _ _ HI' id f Hf) as (Hh & _).
    unfold flow_held in Hh. destruct (m_b_active f); [|done].
    destruct Hh as ((? & ? & ? & ? & ? & ? & _) & _). done.
Qed.

(** A flow with three contiguous segments; the second polling round starts with
    a gap. *)
Definition ex_pkt (sq pl : Z) : mem_buf_desc_t :=
  Buf 1000 (pl + 54) pl (IpHdr 5 (htons (pl + 40)))
    (TcpHdr (htonl sq) (htonl 7) 5 (htons 100) false true false false false (0, 0, 0))
    14 false false 0 (Pbuf None 0 0 0 0 0 0) None None.

Definition ex_events : list event :=
  [Rx 4 1 (ex_pkt 1000 100); Rx 4 2 (ex_pkt 1100 50); Rx 4 3 (ex_pkt 1150 10); FlushAll; Rx 4 1 (ex_pkt 2000 5)].

Lemma gro_round_delivers_witness :
  exists r units,
    run (fun _ _ _ => true) 1500 (ex_events ++ [FlushAll]) (ring_ctor 2 MAX_GRO_BUFS {[4%nat]} ∅) = Some r /\
    Forall2 (delivers MAX_GRO_BUFS) (calls r) units /\
    mine 4 units = [(1, ex_pkt 1000 100); (2, ex_pkt 1100 50); (3, ex_pkt 1150 10); (1, ex_pkt 2000 5)].
Proof.
  destruct (gro_round_delivers (fun _ _ _ => true) 1500 MAX_GRO_BUFS 2 {[4%nat]} ∅ ex_events)
    as (r & units & E & Hd & Hm & _).
  - lia.
  - unfold MAX_GRO_BUFS. lia.
  - apply (bool_decide_unpack _). by vm_compute.
  - exists r, units. split; [exact E|]. split; [exact Hd|]. rewrite Hm. reflexivity.
Defined.

End Gro.
